(** * archlin: the deployment retry-and-repair loop of [debug.js]

  A shallow embedding of the CDK deployment fixer ([debug.js]) and of the
  error fingerprinting helpers of [fix-registry.js].

  Conventions of the embedding:
  - JavaScript strings are Rocq [string]s, one [ascii] per code unit;
  - JavaScript numbers that the program uses as integers are [Z];
  - [null]/[undefined] is [None];
  - the file system, the external commands, the HTTP endpoint and the
    clock are an explicit world that is threaded through the code;
  - an exception is an outcome of a computation, [try]/[catch] is a
    combinator on computations. *)

From Stdlib Require Import ZArith String Ascii List Bool Lia.
From stdpp Require Import base option list gmap strings.
Import ListNotations.

Local Open Scope string_scope.
Local Open Scope list_scope.

(** ** Strings *)

Module Str.

Definition chr (n : nat) : ascii := ascii_of_nat n.
Definition single (c : ascii) : string := String c EmptyString.

(** Characters that cannot be written inside a literal. *)
Definition dquote : string := single (chr 34).
Definition nl : string := single (chr 10).

(** [s.startsWith(p)] *)
Fixpoint startsWith (s p : string) : bool :=
  match p, s with
  | EmptyString, _ => true
  | String c p', String d s' => if Ascii.eqb c d then startsWith s' p' else false
  | String _ _, EmptyString => false
  end.

(** [s.includes(needle)] *)
Fixpoint includes (s needle : string) : bool :=
  startsWith s needle ||
  match s with
  | EmptyString => false
  | String _ s' => includes s' needle
  end.

(** [s.endsWith(p)] *)
Definition endsWith (s p : string) : bool :=
  startsWith (String.rev s) (String.rev p).

Fixpoint drop (n : nat) (s : string) : string :=
  match n, s with
  | O, _ => s
  | S n', String _ s' => drop n' s'
  | S _, EmptyString => EmptyString
  end.

Fixpoint take (n : nat) (s : string) : string :=
  match n, s with
  | O, _ => EmptyString
  | S n', String c s' => String c (take n' s')
  | S _, EmptyString => EmptyString
  end.

(** [s.substring(0, n)] for [0 <= n] *)
Definition substring0 (n : nat) (s : string) : string := take n s.

(** Does the character occur in the string? *)
Fixpoint mem (c : ascii) (s : string) : bool :=
  match s with
  | EmptyString => false
  | String d s' => Ascii.eqb c d || mem c s'
  end.

(** [s.split(c)]: always at least one piece. *)
Fixpoint split (c : ascii) (s : string) : list string :=
  match s with
  | EmptyString => [EmptyString]
  | String d s' =>
      if Ascii.eqb d c then EmptyString :: split c s'
      else match split c s' with
           | [] => [single d]
           | p :: ps => String d p :: ps
           end
  end.

(** [l.join(sep)] *)
Fixpoint join (sep : string) (l : list string) : string :=
  match l with
  | [] => EmptyString
  | [x] => x
  | x :: xs => x +:+ sep +:+ join sep xs
  end.

(** Removes [p] from the front of [s] when it is there:
    [s.replace(/^p/, '')] for a literal [p]. *)
Definition stripPrefix (p s : string) : string :=
  if startsWith s p then drop (String.length p) s else s.

(** Replaces the suffix [old] by [new] when [s] ends with it:
    [s.replace(/old$/, new)] for a literal [old]. *)
Definition replaceSuffix (old new s : string) : string :=
  if endsWith s old
  then take (String.length s - String.length old) s +:+ new
  else s.

Definition last_char (s : string) : option ascii :=
  match String.rev s with
  | EmptyString => None
  | String c _ => Some c
  end.

End Str.

(** ** POSIX paths, after Node's [path.posix] *)

Module Path.

Definition slash : ascii := "/"%char.

(** [path.isAbsolute(p)] *)
Definition isAbsolute (p : string) : bool :=
  match p with
  | String c _ => Ascii.eqb c slash
  | EmptyString => false
  end.

(** One step of [normalizeString]: [acc] holds the segments kept so far,
    the last one first. *)
Definition pushSegment (allowAboveRoot : bool) (acc : list string) (seg : string)
  : list string :=
  if String.eqb seg "" || String.eqb seg "." then acc
  else if String.eqb seg ".." then
    match acc with
    | top :: rest =>
        if String.eqb top ".." then
          (if allowAboveRoot then seg :: acc else acc)
        else rest
    | [] => if allowAboveRoot then [seg] else []
    end
  else seg :: acc.

(** The segments of a path once [.], [..] and empty segments are resolved. *)
Definition normalizeSegments (allowAboveRoot : bool) (p : string) : list string :=
  rev (fold_left (pushSegment allowAboveRoot) (Str.split slash p) []).

(** [normalizeString(path, allowAboveRoot)] *)
Definition normalizeString (allowAboveRoot : bool) (p : string) : string :=
  Str.join "/" (normalizeSegments allowAboveRoot p).

(** [path.normalize(p)] *)
Definition normalize (p : string) : string :=
  if String.eqb p "" then "."
  else
    let isAbs := isAbsolute p in
    let trailing := Str.endsWith p "/" in
    let body := normalizeString (negb isAbs) p in
    if String.eqb body "" then
      (if isAbs then "/" else if trailing then "./" else ".")
    else
      let body' := if trailing then body +:+ "/" else body in
      if isAbs then "/" +:+ body' else body'.

(** [path.join(a, b)] *)
Definition join (a b : string) : string :=
  match String.eqb a "", String.eqb b "" with
  | true, true => "."
  | true, false => normalize b
  | false, true => normalize a
  | false, false => normalize (a +:+ "/" +:+ b)
  end.

(** The segments of [path.resolve(p)] when the working directory is [cwd]
    (an absolute path). *)
Definition resolveSegments (cwd p : string) : list string :=
  if isAbsolute p then normalizeSegments false p
  else normalizeSegments false (cwd +:+ "/" +:+ p).

(** [path.resolve(p)] when the working directory is [cwd]. *)
Definition resolve (cwd p : string) : string :=
  "/" +:+ Str.join "/" (resolveSegments cwd p).

(** Drops the common leading segments of two segment lists. *)
Fixpoint dropCommon (a b : list string) : list string * list string :=
  match a, b with
  | x :: a', y :: b' => if String.eqb x y then dropCommon a' b' else (a, b)
  | _, _ => (a, b)
  end.

(** [path.relative(from, to)]: one [..] for each segment of [from] below
    the common ancestor, followed by what is left of [to]. *)
Definition relative (cwd from to : string) : string :=
  let '(restFrom, restTo) :=
    dropCommon (resolveSegments cwd from) (resolveSegments cwd to) in
  Str.join "/" (map (fun _ => "..") restFrom ++ restTo).

(** [path.basename(p)]: the last non-empty segment. *)
Definition basename (p : string) : string :=
  match List.filter (fun seg => negb (String.eqb seg "")) (rev (Str.split slash p)) with
  | seg :: _ => seg
  | [] => ""
  end.

(** The scan of [path.dirname] over the reversed path: skips the trailing
    slashes and the last segment, and returns what is in front of the
    slash that ends the parent (reversed). *)
Fixpoint dirnameScan (matchedSlash : bool) (r : string) : option string :=
  match r with
  | EmptyString => None
  | String c EmptyString => None
  | String c r' =>
      if Ascii.eqb c slash then
        if matchedSlash then dirnameScan matchedSlash r'
        else Some r'
      else dirnameScan false r'
  end.

(** [path.dirname(p)] *)
Definition dirname (p : string) : string :=
  if String.eqb p "" then "."
  else
    match dirnameScan true (String.rev p) with
    | None => if isAbsolute p then "/" else "."
    | Some r => if String.eqb r "/" then "//" else String.rev r
    end.

End Path.

(** ** Regular expressions

  A backtracking matcher with the semantics of JavaScript's [RegExp] for
  the constructs the program uses: character classes, concatenation,
  alternation, greedy repetition and one capturing group.  A match is
  the leftmost one, repetitions are greedy and give back characters on
  failure. *)

Module Regex.

Inductive regex : Type :=
| Eps
| Chr (p : ascii -> bool)
| Seq (r1 r2 : regex)
| Alt (r1 r2 : regex)
| Star (r : regex)
| Group (r : regex).

Definition Plus (r : regex) : regex := Seq r (Star r).
Definition Opt (r : regex) : regex := Alt r Eps.

Definition only (c : ascii) : ascii -> bool := fun d => Ascii.eqb c d.
Definition oneOf (s : string) : ascii -> bool := fun d => Str.mem d s.
Definition noneOf (s : string) : ascii -> bool := fun d => negb (Str.mem d s).
Definition between (lo hi : ascii) : ascii -> bool :=
  fun d => (nat_of_ascii lo <=? nat_of_ascii d)%nat && (nat_of_ascii d <=? nat_of_ascii hi)%nat.
Definition orc (p q : ascii -> bool) : ascii -> bool := fun d => p d || q d.
Definition notc (p : ascii -> bool) : ascii -> bool := fun d => negb (p d).
Definition anyChar : ascii -> bool := fun _ => true.

(** [\d] *)
Definition digit : ascii -> bool := between "0" "9".
(** [\s] on code units below 256: tab, line feed, vertical tab, form feed,
    carriage return, space and the no-break space. *)
Definition space : ascii -> bool :=
  fun d => let n := nat_of_ascii d in
           ((9 <=? n)%nat && (n <=? 13)%nat) || (n =? 32)%nat || (n =? 160)%nat.

(** A literal string. *)
Fixpoint lit (s : string) : regex :=
  match s with
  | EmptyString => Eps
  | String c EmptyString => Chr (only c)
  | String c s' => Seq (Chr (only c)) (lit s')
  end.

Definition lower (c : ascii) : ascii :=
  let n := nat_of_ascii c in
  if (65 <=? n)%nat && (n <=? 90)%nat then ascii_of_nat (n + 32) else c.

(** The same class under the [i] flag. *)
Definition ci (p : ascii -> bool) : ascii -> bool :=
  fun d => p d || p (lower d) ||
           (let n := nat_of_ascii d in
            if (97 <=? n)%nat && (n <=? 122)%nat then p (ascii_of_nat (n - 32)) else false).

(** A literal string under the [i] flag. *)
Fixpoint lit_ci (s : string) : regex :=
  match s with
  | EmptyString => Eps
  | String c EmptyString => Chr (ci (only c))
  | String c s' => Seq (Chr (ci (only c))) (lit_ci s')
  end.

(** [r{n}] *)
Fixpoint times (n : nat) (r : regex) : regex :=
  match n with
  | O => Eps
  | S O => r
  | S n' => Seq r (times n' r)
  end.

(** What a group matched: the characters between the start [s] of the
    group and what is left, [s'], when it ends. *)
Definition consumed (s s' : string) : string :=
  Str.take (String.length s - String.length s') s.

(** [rmatch r s cap k]: match [r] at the start of [s], then continue with
    [k] on the rest; [cap] is the text of the capturing group so far.
    An iteration of [Star] must consume a character. *)
Fixpoint rmatch {R : Type} (r : regex) (s : string) (cap : option string)
         (k : string -> option string -> option R) {struct r} : option R :=
  match r with
  | Eps => k s cap
  | Chr p =>
      match s with
      | String c s' => if p c then k s' cap else None
      | EmptyString => None
      end
  | Seq r1 r2 => rmatch r1 s cap (fun s' cap' => rmatch r2 s' cap' k)
  | Alt r1 r2 =>
      match rmatch r1 s cap k with
      | Some x => Some x
      | None => rmatch r2 s cap k
      end
  | Star r' =>
      (fix star (fuel : nat) (s : string) (cap : option string) {struct fuel} : option R :=
         match fuel with
         | O => k s cap
         | S fuel' =>
             match rmatch r' s cap
                     (fun s' cap' =>
                        if (String.length s' <? String.length s)%nat
                        then star fuel' s' cap' else None) with
             | Some x => Some x
             | None => k s cap
             end
         end) (String.length s) s cap
  | Group r' => rmatch r' s cap (fun s' _ => k s' (Some (consumed s s')))
  end.

(** One match: the matched text, the text of group 1 and the rest. *)
Record found : Type := Found { whole : string; group1 : option string; rest : string }.

(** A match that starts at the first character of [s]. *)
Definition matchHere (r : regex) (s : string) : option found :=
  rmatch r s None (fun s' cap => Some (Found (consumed s s') cap s')).

(** The leftmost match in [s]: [s.match(r)] without the [g] flag. *)
Fixpoint search (r : regex) (s : string) : option found :=
  match matchHere r s with
  | Some m => Some m
  | None =>
      match s with
      | EmptyString => None
      | String _ s' => search r s'
      end
  end.

(** All matches from left to right, as the loop
    [while ((m = r.exec(s)) !== null)] and [s.match(r)] with the [g] flag
    visit them.  (After an empty match the scan moves on by one
    character; no pattern of the program matches the empty string.) *)
Fixpoint matchAllFrom (fuel : nat) (r : regex) (s : string) : list found :=
  match fuel with
  | O => []
  | S fuel' =>
      match matchHere r s with
      | Some m =>
          if (String.length (rest m) <? String.length s)%nat
          then m :: matchAllFrom fuel' r (rest m)
          else match s with
               | EmptyString => [m]
               | String _ s' => m :: matchAllFrom fuel' r s'
               end
      | None =>
          match s with
          | EmptyString => []
          | String _ s' => matchAllFrom fuel' r s'
          end
      end
  end.

Definition matchAll (r : regex) (s : string) : list found :=
  matchAllFrom (S (String.length s)) r s.

(** [s.replace(r, by)] with the [g] flag and a replacement without [$]. *)
Fixpoint replaceAllFrom (fuel : nat) (r : regex) (by_ : string) (s : string) : string :=
  match fuel with
  | O => s
  | S fuel' =>
      match matchHere r s with
      | Some m =>
          if (String.length (rest m) <? String.length s)%nat
          then by_ +:+ replaceAllFrom fuel' r by_ (rest m)
          else match s with
               | EmptyString => by_
               | String c s' => by_ +:+ String c (replaceAllFrom fuel' r by_ s')
               end
      | None =>
          match s with
          | EmptyString => EmptyString
          | String c s' => String c (replaceAllFrom fuel' r by_ s')
          end
      end
  end.

Definition replaceAll (r : regex) (by_ : string) (s : string) : string :=
  replaceAllFrom (S (String.length s)) r by_ s.

Fixpoint trimStart (s : string) : string :=
  match s with
  | String c s' => if space c then trimStart s' else s
  | EmptyString => EmptyString
  end.

(** [s.trim()] *)
Definition trim (s : string) : string :=
  String.rev (trimStart (String.rev (trimStart s))).

End Regex.

(** ** Numbers *)

Module Num.

Local Open Scope Z_scope.

(** [ToInt32]: the result of a bitwise operator. *)
Definition toInt32 (z : Z) : Z := (z + 2 ^ 31) mod 2 ^ 32 - 2 ^ 31.

Definition hexDigit (d : Z) : ascii :=
  if d <? 10 then ascii_of_nat (Z.to_nat (48 + d)) else ascii_of_nat (Z.to_nat (87 + d)).

Definition decDigit (d : Z) : ascii := ascii_of_nat (Z.to_nat (48 + d)).

Fixpoint digitsOf (fuel : nat) (base : Z) (digit : Z -> ascii) (z : Z) (acc : string) : string :=
  match fuel with
  | O => acc
  | S fuel' =>
      let acc' := String (digit (z mod base)) acc in
      if z / base =? 0 then acc' else digitsOf fuel' base digit (z / base) acc'
  end.

Definition natural (base : Z) (digit : Z -> ascii) (z : Z) : string :=
  digitsOf (S (Z.to_nat (Z.log2 z))) base digit z EmptyString.

(** [z.toString(16)] for an integer [z] *)
Definition toString16 (z : Z) : string :=
  if z <? 0 then "-" +:+ natural 16 hexDigit (- z) else natural 16 hexDigit z.

(** [String(z)] for an integer [z] *)
Definition toString10 (z : Z) : string :=
  if z <? 0 then "-" +:+ natural 10 decDigit (- z) else natural 10 decDigit z.

(** The value of a digit in radix [radix], if it is one. *)
Definition digitValue (radix : Z) (c : ascii) : option Z :=
  let n := Z.of_nat (nat_of_ascii c) in
  let v := if (48 <=? n) && (n <=? 57) then n - 48
           else if (97 <=? n) && (n <=? 122) then n - 87
           else if (65 <=? n) && (n <=? 90) then n - 55
           else 99 in
  if v <? radix then Some v else None.

(** The longest prefix of digits, read in radix [radix]; [None] when
    there is no digit. *)
Fixpoint readDigits (radix : Z) (s : string) (acc : option Z) : option Z :=
  match s with
  | EmptyString => acc
  | String c s' =>
      match digitValue radix c with
      | Some v => readDigits radix s' (Some (match acc with Some a => a * radix + v | None => v end))
      | None => acc
      end
  end.

(** [parseInt(s)], with [None] for [NaN].  The result is exact; the
    program only asks whether it is zero, and compares it with the
    attempt counter. *)
Definition parseInt (s : string) : option Z :=
  let s1 := Regex.trimStart s in
  let '(sign, s2) :=
    match s1 with
    | String "-" t => (-1, t)
    | String "+" t => (1, t)
    | _ => (1, s1)
    end in
  let '(radix, s3) :=
    match s2 with
    | String "0" (String "x" t) => (16, t)
    | String "0" (String "X" t) => (16, t)
    | _ => (10, s2)
    end in
  match readDigits radix s3 None with
  | Some v => Some (sign * v)
  | None => None
  end.

End Num.

(** ** JSON values, [JSON.parse] and [JSON.stringify] *)

Module Json.

#[warnings="-register-all"]
Inductive json : Type :=
| JNull
| JBool (b : bool)
| JNum (lexeme : string)
| JStr (s : string)
| JArr (items : list json)
| JObj (fields : list (string * json)).

(** [o.key] on a parsed object: the last member with that name;
    [None] is [undefined]. *)
Fixpoint lookupField (key : string) (fields : list (string * json)) : option json :=
  match fields with
  | [] => None
  | (k, v) :: fields' =>
      match lookupField key fields' with
      | Some v' => Some v'
      | None => if String.eqb k key then Some v else None
      end
  end.

Definition get (key : string) (j : json) : option json :=
  match j with
  | JObj fields => lookupField key fields
  | _ => None
  end.

(** [o.key = v]: replaces the member in place, or adds it at the end. *)
Fixpoint setField (key : string) (v : json) (fields : list (string * json))
  : list (string * json) :=
  match fields with
  | [] => [(key, v)]
  | (k, v0) :: fields' =>
      if String.eqb k key then (k, v) :: List.filter (fun kv => negb (String.eqb (fst kv) key)) fields'
      else (k, v0) :: setField key v fields'
  end.

(** The digits of a number before its exponent: their value as one
    integer [m], and the number of digits after the point; what is left of
    the text starts at the exponent. *)
Fixpoint mantissa (s : string) (m places : Z) (afterPoint : bool) : Z * Z * string :=
  match s with
  | EmptyString => (m, places, EmptyString)
  | String c s' =>
      match Num.digitValue 10 c with
      | Some d => mantissa s' (m * 10 + d)%Z (if afterPoint then (places + 1)%Z else places) afterPoint
      | None => if Ascii.eqb c "." then mantissa s' m places true else (m, places, s)
      end
  end.

Definition digitsValue (digits : string) : Z :=
  match Num.readDigits 10 digits None with
  | Some x => x
  | None => 0%Z
  end.

(** The exponent of a number, from its [e] on. *)
Definition exponentOf (s : string) : Z :=
  match s with
  | String _ (String "-" digits) => (- digitsValue digits)%Z
  | String _ (String "+" digits) => digitsValue digits
  | String _ digits => digitsValue digits
  | EmptyString => 0%Z
  end.

(** Does the number read as zero?  [JSON.parse] gives the double nearest
    to the decimal [m * 10^k], ties to even: that is zero when [m] is, and
    when the value is at most [2^-1075], half of the least double above
    zero. *)
Definition readsAsZero (lexeme : string) : bool :=
  let digits := match lexeme with
                | String "-" s => s
                | _ => lexeme
                end in
  let '(m, places, rest) := mantissa digits 0%Z 0%Z false in
  let k := (exponentOf rest - places)%Z in
  (m =? 0)%Z || ((k <? 0)%Z && (m * 2 ^ 1075 <=? 10 ^ (- k))%Z).

(** JavaScript truthiness of a value; [None] is [undefined]. *)
Definition truthy (v : option json) : bool :=
  match v with
  | None | Some JNull | Some (JBool false) => false
  | Some (JNum n) => negb (readsAsZero n)
  | Some (JStr s) => negb (String.eqb s "")
  | Some (JBool true) | Some (JArr _) | Some (JObj _) => true
  end.

(** The string a template literal makes of a value. *)
Fixpoint display (j : json) : string :=
  match j with
  | JNull => "null"
  | JBool true => "true"
  | JBool false => "false"
  | JNum n => n
  | JStr s => s
  | JArr items =>
      Str.join "," (map (fun i => match i with JNull => "" | _ => display i end) items)
  | JObj _ => "[object Object]"
  end.

(** *** Parsing *)

Definition isWs (c : ascii) : bool :=
  let n := nat_of_ascii c in
  (n =? 32)%nat || (n =? 9)%nat || (n =? 10)%nat || (n =? 13)%nat.

Fixpoint skipWs (s : string) : string :=
  match s with
  | String c s' => if isWs c then skipWs s' else s
  | EmptyString => EmptyString
  end.

Definition hex4 (a b c d : ascii) : option Z :=
  match Num.digitValue 16 a, Num.digitValue 16 b, Num.digitValue 16 c, Num.digitValue 16 d with
  | Some x, Some y, Some z, Some w => Some (((x * 16 + y) * 16 + z) * 16 + w)%Z
  | _, _, _, _ => None
  end.

(** A code unit as a character of the model; units above 255 have no
    character of their own. *)
Definition unitChar (u : Z) : ascii :=
  if (u <? 256)%Z then ascii_of_nat (Z.to_nat u) else "?"%char.

(** The characters of a string literal after its opening quote. *)
Fixpoint parseChars (s : string) : option (string * string) :=
  match s with
  | EmptyString => None
  | String c s' =>
      if Ascii.eqb c (Str.chr 34) then Some (EmptyString, s')
      else if Ascii.eqb c "\" then
        match s' with
        | String e s'' =>
            let simple (r : ascii) :=
              match parseChars s'' with
              | Some (t, rest) => Some (String r t, rest)
              | None => None
              end in
            if Ascii.eqb e (Str.chr 34) then simple (Str.chr 34)
            else if Ascii.eqb e "\" then simple "\"%char
            else if Ascii.eqb e "/" then simple "/"%char
            else if Ascii.eqb e "b" then simple (Str.chr 8)
            else if Ascii.eqb e "f" then simple (Str.chr 12)
            else if Ascii.eqb e "n" then simple (Str.chr 10)
            else if Ascii.eqb e "r" then simple (Str.chr 13)
            else if Ascii.eqb e "t" then simple (Str.chr 9)
            else if Ascii.eqb e "u" then
              match s'' with
              | String h1 (String h2 (String h3 (String h4 s3))) =>
                  match hex4 h1 h2 h3 h4, parseChars s3 with
                  | Some u, Some (t, rest) => Some (String (unitChar u) t, rest)
                  | _, _ => None
                  end
              | _ => None
              end
            else None
        | EmptyString => None
        end
      else if (nat_of_ascii c <? 32)%nat then None
      else
        match parseChars s' with
        | Some (t, rest) => Some (String c t, rest)
        | None => None
        end
  end.

Definition numberPattern : Regex.regex :=
  let digits := Regex.Plus (Regex.Chr Regex.digit) in
  Regex.Seq (Regex.Opt (Regex.lit "-"))
    (Regex.Seq (Regex.Alt (Regex.lit "0")
                  (Regex.Seq (Regex.Chr (Regex.between "1" "9")) (Regex.Star (Regex.Chr Regex.digit))))
       (Regex.Seq (Regex.Opt (Regex.Seq (Regex.lit ".") digits))
          (Regex.Opt (Regex.Seq (Regex.Chr (Regex.oneOf "eE"))
                        (Regex.Seq (Regex.Opt (Regex.Chr (Regex.oneOf "+-"))) digits))))).

(** A value at the start of [s] (after white space), and the rest. *)
Fixpoint parseValue (fuel : nat) (s : string) : option (json * string) :=
  match fuel with
  | O => None
  | S fuel' =>
      let parseElements :=
        fix elements (n : nat) (s : string) (acc : list json) : option (json * string) :=
          match n with
          | O => None
          | S n' =>
              match parseValue fuel' s with
              | Some (v, rest) =>
                  match skipWs rest with
                  | String "," rest' => elements n' rest' (v :: acc)
                  | String "]" rest' => Some (JArr (rev (v :: acc)), rest')
                  | _ => None
                  end
              | None => None
              end
          end in
      let parseMembers :=
        fix members (n : nat) (s : string) (acc : list (string * json)) : option (json * string) :=
          match n with
          | O => None
          | S n' =>
              match skipWs s with
              | String q s1 =>
                  if Ascii.eqb q (Str.chr 34) then
                    match parseChars s1 with
                    | Some (key, s2) =>
                        match skipWs s2 with
                        | String ":" s3 =>
                            match parseValue fuel' s3 with
                            | Some (v, rest) =>
                                match skipWs rest with
                                | String "," rest' => members n' rest' ((key, v) :: acc)
                                | String "}" rest' => Some (JObj (rev ((key, v) :: acc)), rest')
                                | _ => None
                                end
                            | None => None
                            end
                        | _ => None
                        end
                    | None => None
                    end
                  else None
              | EmptyString => None
              end
          end in
      match skipWs s with
      | String "{" s1 =>
          match skipWs s1 with
          | String "}" rest => Some (JObj [], rest)
          | _ => parseMembers (String.length s1) s1 []
          end
      | String "[" s1 =>
          match skipWs s1 with
          | String "]" rest => Some (JArr [], rest)
          | _ => parseElements (String.length s1) s1 []
          end
      | String c s1 as s0 =>
          if Ascii.eqb c (Str.chr 34) then
            match parseChars s1 with
            | Some (t, rest) => Some (JStr t, rest)
            | None => None
            end
          else if Str.startsWith s0 "true" then Some (JBool true, Str.drop 4 s0)
          else if Str.startsWith s0 "false" then Some (JBool false, Str.drop 5 s0)
          else if Str.startsWith s0 "null" then Some (JNull, Str.drop 4 s0)
          else
            match Regex.matchHere numberPattern s0 with
            | Some m => Some (JNum (Regex.whole m), Regex.rest m)
            | None => None
            end
      | EmptyString => None
      end
  end.

(** [JSON.parse(s)]; [None] when it throws a [SyntaxError]. *)
Definition parse (s : string) : option json :=
  match parseValue (S (String.length s)) s with
  | Some (v, rest) => if String.eqb (skipWs rest) "" then Some v else None
  | None => None
  end.

(** *** Printing: [JSON.stringify(v, null, 2)] *)

Definition escapeChar (c : ascii) : string :=
  let n := nat_of_ascii c in
  if (n =? 34)%nat then "\" +:+ Str.dquote
  else if (n =? 92)%nat then "\\"
  else if (n =? 8)%nat then "\b"
  else if (n =? 12)%nat then "\f"
  else if (n =? 10)%nat then "\n"
  else if (n =? 13)%nat then "\r"
  else if (n =? 9)%nat then "\t"
  else if (n <? 32)%nat then
    "\u00" +:+ String (Num.hexDigit (Z.of_nat (n / 16))) (String (Num.hexDigit (Z.of_nat (n mod 16))) "")
  else Str.single c.

Fixpoint escape (s : string) : string :=
  match s with
  | EmptyString => EmptyString
  | String c s' => escapeChar c +:+ escape s'
  end.

Definition quote (s : string) : string := Str.dquote +:+ escape s +:+ Str.dquote.

Fixpoint spaces (n : nat) : string :=
  match n with
  | O => EmptyString
  | S n' => String " " (spaces n')
  end.

Fixpoint stringifyAt (indent : nat) (j : json) : string :=
  match j with
  | JNull => "null"
  | JBool true => "true"
  | JBool false => "false"
  | JNum n => n
  | JStr s => quote s
  | JArr [] => "[]"
  | JArr items =>
      "[" +:+ Str.nl +:+
      Str.join ("," +:+ Str.nl)
        (map (fun i => spaces (indent + 2) +:+ stringifyAt (indent + 2) i) items)
      +:+ Str.nl +:+ spaces indent +:+ "]"
  | JObj [] => "{}"
  | JObj fields =>
      "{" +:+ Str.nl +:+
      Str.join ("," +:+ Str.nl)
        (map (fun kv => spaces (indent + 2) +:+ quote (fst kv) +:+ ": "
                        +:+ stringifyAt (indent + 2) (snd kv)) fields)
      +:+ Str.nl +:+ spaces indent +:+ "}"
  end.

Definition stringify (j : json) : string := stringifyAt 0 j.

End Json.

(** ** The world outside the program *)

(** A file-system entry.  A file has a content and may be write-protected. *)
Inductive node : Type :=
| Dir
| File (content : string) (writable : bool).

(** What can be thrown. *)
Inductive exn : Type :=
| Error (message : string)
| ExecError (message stdout stderr : string)
| HttpError (message : string) (data : option string).

(** [error.message] *)
Definition messageOf (e : exn) : string :=
  match e with
  | Error m | ExecError m _ _ | HttpError m _ => m
  end.

(** [error.stdout] and [error.stderr]; only a failed command has them. *)
Definition stdoutOf (e : exn) : option string :=
  match e with
  | ExecError _ out _ => Some out
  | _ => None
  end.

Definition stderrOf (e : exn) : option string :=
  match e with
  | ExecError _ _ err => Some err
  | _ => None
  end.

(** [error.response?.data] *)
Definition responseDataOf (e : exn) : option string :=
  match e with
  | HttpError _ data => data
  | _ => None
  end.

(** The result of a command run through [execPromise]. *)
Inductive execResult : Type :=
| ExecOk (stdout stderr : string)
| ExecFail (message stdout stderr : string).

(** The result of [axios.post]: the text of the first content block of the
    reply, or the error of a failed request (a reply without such a block
    fails the same way, with a [TypeError]). *)
Inductive postResult : Type :=
| PostOk (text : string)
| PostFail (message : string) (data : option string).

(** [{message, stdout, stderr}], as [main] records a failed deployment. *)
Record errorRecord : Type := ErrorRecord {
  err_message : string;
  err_stdout : string;
  err_stderr : string
}.

(** The audit record of one call of [fixDeploymentErrors]; a field that
    was never assigned is [None]. *)
Record auditData : Type := AuditData {
  au_attempt : Z;
  au_timestamp : string;
  au_error : errorRecord;
  au_relevantFiles : list string;
  au_prompt : string;
  au_response : option Json.json;
  au_success : bool;
  au_rawResponse : option string;
  au_parseError : option string;
  au_jsonFragment : option string;
  au_apiError : option string;
  au_apiErrorDetails : option string
}.

(** What the program finds around it and cannot influence. *)
Record env : Type := Env {
  (** [process.env.ANTHROPIC_API_KEY] *)
  apiKey : option string;
  (** [process.env.ANTHROPIC_MODEL] *)
  modelOverride : option string;
  (** the n-th external interaction, when it is a command: what the command
      does to the file system and how it ends *)
  runCommand : nat -> string -> gmap string node -> gmap string node * execResult;
  (** the n-th external interaction, when it is a request with this prompt *)
  postMessage : nat -> string -> postResult;
  (** the n-th external interaction, when it reads the clock *)
  isoTime : nat -> string
}.

(** The state the program changes. *)
Record world : Type := World {
  (** the file system, by absolute normalized path; the root is a directory *)
  fs : gmap string node;
  (** [process.cwd()] *)
  cwd : string;
  (** the number of external interactions so far *)
  ticks : nat;
  (** the audit records that were written to a file of the audit
      directory, oldest first *)
  audits : list auditData;
  (** the paths handed to [fs.readFile], oldest first *)
  reads : list string
}.

Definition withFs (f : gmap string node) (w : world) : world :=
  World f (cwd w) (ticks w) (audits w) (reads w).
Definition withCwd (d : string) (w : world) : world :=
  World (fs w) d (ticks w) (audits w) (reads w).
Definition tick (w : world) : world :=
  World (fs w) (cwd w) (S (ticks w)) (audits w) (reads w).
Definition addAudit (a : auditData) (w : world) : world :=
  World (fs w) (cwd w) (ticks w) (audits w ++ [a]) (reads w).
Definition addRead (p : string) (w : world) : world :=
  World (fs w) (cwd w) (ticks w) (audits w) (reads w ++ [p]).

(** ** Computations: state and exceptions *)

Inductive outcome (A : Type) : Type :=
| Ret (a : A)
| Throw (e : exn).
Arguments Ret {A} a.
Arguments Throw {A} e.

(** A computation over a state [S]: it ends with a value or an exception,
    and the state it leaves is there in both cases. *)
Definition M (S A : Type) : Type := S -> S * outcome A.

(** The computations of the helpers run on the world. *)
Abbreviation IO := (M world).

Definition ret {S A : Type} (a : A) : M S A := fun w => (w, Ret a).
Definition throw {S A : Type} (e : exn) : M S A := fun w => (w, Throw e).

Definition bind {S A B : Type} (m : M S A) (k : A -> M S B) : M S B :=
  fun w =>
    match m w with
    | (w', Ret a) => k a w'
    | (w', Throw e) => (w', Throw e)
    end.

(** [try { m } catch (e) { h e }] *)
Definition tryCatch {S A : Type} (m : M S A) (h : exn -> M S A) : M S A :=
  fun w =>
    match m w with
    | (w', Ret a) => (w', Ret a)
    | (w', Throw e) => h e w'
    end.

Declare Scope io_scope.
Delimit Scope io_scope with io.
Notation "x <- m ;; k" := (bind m (fun x => k))
  (at level 100, m at next level, right associativity) : io_scope.
Notation "m >> k" := (bind m (fun _ => k))
  (at level 100, right associativity) : io_scope.
Local Open Scope io_scope.

(** [for (const x of l) { body x }] *)
Fixpoint forEach {S A : Type} (l : list A) (body : A -> M S unit) : M S unit :=
  match l with
  | [] => ret tt
  | x :: l' => body x >> forEach l' body
  end.

(** ** The file system *)

Module Fs.

(** The entry a path names. *)
Definition key (w : world) (p : string) : string := Path.resolve (cwd w) p.

Definition isDirAt (f : gmap string node) (k : string) : bool :=
  String.eqb k "/" ||
  match f !! k with
  | Some Dir => true
  | _ => false
  end.

(** [fsSync.existsSync(p)] *)
Definition existsSync (p : string) : IO bool :=
  fun w =>
    let k := key w p in
    (w, Ret (String.eqb k "/" ||
             match fs w !! k with
             | Some Dir => true
             | Some (File _ _) => negb (Str.endsWith p "/")
             | None => false
             end)).

(** [fs.readFile(p, 'utf8')] *)
Definition readFile (p : string) : IO string :=
  fun w =>
    let w' := addRead p w in
    if Str.endsWith p "/" then (w', Throw (Error "ENOTDIR: not a directory"))
    else
      match fs w !! key w p with
      | Some (File content _) => (w', Ret content)
      | Some Dir => (w', Throw (Error "EISDIR: illegal operation on a directory, read"))
      | None =>
          if String.eqb (key w p) "/"
          then (w', Throw (Error "EISDIR: illegal operation on a directory, read"))
          else (w', Throw (Error "ENOENT: no such file or directory"))
      end.

(** [fs.writeFile(p, content)] *)
Definition writeFile (p content : string) : IO unit :=
  fun w =>
    let k := key w p in
    if Str.endsWith p "/" || String.eqb k "/"
    then (w, Throw (Error "EISDIR: illegal operation on a directory, open"))
    else if negb (isDirAt (fs w) (Path.dirname k))
    then (w, Throw (Error "ENOENT: no such file or directory, open"))
    else
      match fs w !! k with
      | Some Dir => (w, Throw (Error "EISDIR: illegal operation on a directory, open"))
      | Some (File _ false) => (w, Throw (Error "EACCES: permission denied, open"))
      | Some (File _ true) | None => (withFs (<[k := File content true]> (fs w)) w, Ret tt)
      end.

(** The directories on the way to a path, the outermost first. *)
Fixpoint ancestorsFrom (prefix : string) (segs : list string) : list string :=
  match segs with
  | [] => []
  | seg :: segs' =>
      let k := prefix +:+ "/" +:+ seg in
      k :: ancestorsFrom k segs'
  end.

Fixpoint mkdirAll (keys : list string) (f : gmap string node) : option (gmap string node) :=
  match keys with
  | [] => Some f
  | k :: keys' =>
      match f !! k with
      | None => mkdirAll keys' (<[k := Dir]> f)
      | Some Dir => mkdirAll keys' f
      | Some (File _ _) => None
      end
  end.

(** [fs.mkdir(p, { recursive: true })] *)
Definition mkdirRecursive (p : string) : IO unit :=
  fun w =>
    match mkdirAll (ancestorsFrom "" (Path.resolveSegments (cwd w) p)) (fs w) with
    | Some f => (withFs f w, Ret tt)
    | None => (w, Throw (Error "EEXIST: file already exists, mkdir"))
    end.

(** [fs.chmod(p, 0o666)].  A file becomes writable.  The directories of
    this file system have no mode: the model leaves a directory as it is,
    where the call takes the permission to search it away. *)
Definition chmodWritable (p : string) : IO unit :=
  fun w =>
    let k := key w p in
    match fs w !! k with
    | Some (File content _) => (withFs (<[k := File content true]> (fs w)) w, Ret tt)
    | Some Dir => (w, Ret tt)
    | None =>
        if String.eqb k "/" then (w, Ret tt)
        else (w, Throw (Error "ENOENT: no such file or directory, chmod"))
    end.

(** [fsSync.accessSync(p, fsSync.constants.W_OK)] *)
Definition accessWritable (p : string) : IO unit :=
  fun w =>
    match fs w !! key w p with
    | Some (File _ false) => (w, Throw (Error "EACCES: permission denied, access"))
    | Some _ => (w, Ret tt)
    | None =>
        if String.eqb (key w p) "/" then (w, Ret tt)
        else (w, Throw (Error "ENOENT: no such file or directory, access"))
    end.

(** [fs.unlink(p)] *)
Definition unlink (p : string) : IO unit :=
  fun w =>
    let k := key w p in
    match fs w !! k with
    | Some (File _ _) => (withFs (delete k (fs w)) w, Ret tt)
    | Some Dir => (w, Throw (Error "EISDIR: illegal operation on a directory, unlink"))
    | None => (w, Throw (Error "ENOENT: no such file or directory, unlink"))
    end.

(** [process.chdir(d)] *)
Definition chdir (d : string) : IO unit :=
  fun w =>
    if isDirAt (fs w) (key w d) then (withCwd (key w d) w, Ret tt)
    else (w, Throw (Error "ENOENT: no such file or directory, chdir")).

End Fs.

(** ** External interactions *)

(** [execPromise(command, { env })] *)
Definition execPromise (e : env) (command : string) : IO (string * string) :=
  fun w =>
    let '(f, r) := runCommand e (ticks w) command (fs w) in
    let w' := tick (withFs f w) in
    match r with
    | ExecOk out err => (w', Ret (out, err))
    | ExecFail m out err => (w', Throw (ExecError m out err))
    end.

(** [new Date().toISOString()] *)
Definition nowISO (e : env) : IO string :=
  fun w => (tick w, Ret (isoTime e (ticks w))).

(** [process.cwd()] *)
Definition getCwd : IO string := fun w => (w, Ret (cwd w)).

(** [axios.post(CLAUDE_API_URL, { ..., messages: [{ role: "user", content: prompt }] })]
    followed by [response.data.content[0].text] *)
Definition postPrompt (e : env) (prompt : string) : IO string :=
  fun w =>
    match postMessage e (ticks w) prompt with
    | PostOk text => (tick w, Ret text)
    | PostFail m data => (tick w, Throw (HttpError m data))
    end.

(** ** [debug.js] *)

Definition MAX_FIX_ATTEMPTS : Z := 5.

(** [calculateChecksum(content)] *)
Definition checksumStep (hash : Z) (c : ascii) : Z :=
  let char := Z.of_nat (nat_of_ascii c) in
  let hash1 := (Num.toInt32 (Z.shiftl hash 5) - hash + char)%Z in
  Num.toInt32 (Z.land hash1 hash1).

Fixpoint checksumFrom (hash : Z) (content : string) : Z :=
  match content with
  | EmptyString => hash
  | String c content' => checksumFrom (checksumStep hash c) content'
  end.

Definition calculateChecksum (content : string) : string :=
  Num.toString16 (checksumFrom 0 content).

(** [normalizeFilePath(filePath, projectDir)]; [path.relative] resolves
    against the working directory [workDir]. *)
Definition normalizeFilePath (workDir filePath projectDir : string) : string :=
  if Path.isAbsolute filePath then
    if Str.startsWith filePath projectDir
    then Path.relative workDir projectDir filePath
    else Path.basename filePath
  else filePath.

(** *** [extractRelevantFiles] *)

Record relevantFile : Type := RelevantFile {
  rf_path : string;
  rf_content : string
}.

Definition quoteChars : string := String "'" Str.dquote.

Definition quotedName : Regex.regex :=
  Regex.Seq (Regex.Chr (Regex.oneOf quoteChars))
    (Regex.Seq (Regex.Group (Regex.Plus (Regex.Chr (Regex.noneOf quoteChars))))
       (Regex.Chr (Regex.oneOf quoteChars))).

Definition fileWithLine (extension : string) : Regex.regex :=
  Regex.Seq
    (Regex.Group
       (Regex.Seq (Regex.Plus (Regex.Chr (Regex.notc (Regex.orc (Regex.only ":") Regex.space))))
          (Regex.lit extension)))
    (Regex.Opt (Regex.Seq (Regex.lit ":") (Regex.Plus (Regex.Chr Regex.digit)))).

(** [/Cannot write file ['\x22]([^'\x22]+)['\x22]/g] *)
Definition cannotWritePattern : Regex.regex :=
  Regex.Seq (Regex.lit "Cannot write file ") quotedName.

(** The error patterns, in the order of the source ([\x22] stands for the
    double quote). *)
Definition patterns : list Regex.regex :=
  [ (* /Error at ([^:]+):/g *)
    Regex.Seq (Regex.lit "Error at ")
      (Regex.Seq (Regex.Group (Regex.Plus (Regex.Chr (Regex.noneOf ":")))) (Regex.lit ":"));
    (* /([^:\s]+\.ts)(?::[0-9]+)?/g *)
    fileWithLine ".ts";
    (* /([^:\s]+\.js)(?::[0-9]+)?/g *)
    fileWithLine ".js";
    (* /Cannot find module ['\x22]([^'\x22]+)['\x22]/g *)
    Regex.Seq (Regex.lit "Cannot find module ") quotedName;
    (* /ENOENT: no such file or directory, open ['\x22]([^'\x22]+)['\x22]/g *)
    Regex.Seq (Regex.lit "ENOENT: no such file or directory, open ") quotedName;
    (* /from (\/[^:]+):/g *)
    Regex.Seq (Regex.lit "from ")
      (Regex.Seq (Regex.Group (Regex.Seq (Regex.lit "/") (Regex.Plus (Regex.Chr (Regex.noneOf ":")))))
         (Regex.lit ":"));
    (* /at ([^:]+):[0-9]+:[0-9]+/g *)
    Regex.Seq (Regex.lit "at ")
      (Regex.Seq (Regex.Group (Regex.Plus (Regex.Chr (Regex.noneOf ":"))))
         (Regex.Seq (Regex.lit ":")
            (Regex.Seq (Regex.Plus (Regex.Chr Regex.digit))
               (Regex.Seq (Regex.lit ":") (Regex.Plus (Regex.Chr Regex.digit))))));
    cannotWritePattern ].

(** [match[1]] of a match. *)
Definition capture (m : Regex.found) : string :=
  match Regex.group1 m with
  | Some s => s
  | None => ""
  end.

(** The values [match[1]] takes over the two nested loops: pattern after
    pattern, and for each pattern its matches from left to right. *)
Definition candidates (errorText : string) : list string :=
  concat (map (fun pattern => map capture (Regex.matchAll pattern errorText)) patterns).

(** The two variables of the scan: [relevantFiles] and [filesMentioned]. *)
Record extraction : Type := Extraction {
  relevantFiles : list relevantFile;
  filesMentioned : gset string
}.

Definition mention (p : string) (x : extraction) : extraction :=
  Extraction (relevantFiles x) ({[ p ]} ∪ filesMentioned x).

Definition pushFile (p content : string) (x : extraction) : extraction :=
  Extraction (relevantFiles x ++ [RelevantFile p content]) (filesMentioned x).

(** The test that skips [node_modules] and the standard libraries. *)
Definition skipped (filePath : string) : bool :=
  Str.includes filePath "node_modules" ||
  Str.startsWith filePath "internal/" ||
  String.eqb filePath "module.js".

(** The source file of a path under [dist/]:
    [filePath.replace(/^dist\//, '').replace(/\.js$/, '.ts').replace(/\.d\.ts$/, '.ts')] *)
Definition sourceFileOf (filePath : string) : string :=
  Str.replaceSuffix ".d.ts" ".ts"
    (Str.replaceSuffix ".js" ".ts" (Str.stripPrefix "dist/" filePath)).

(** The part of the loop body that handles a path under [dist/]. *)
Definition addSourceOfDist (projectDir filePath : string) (x : extraction) : IO extraction :=
  if Str.startsWith filePath "dist/" then
    let sourceFile := sourceFileOf filePath in
    if decide (sourceFile ∈ filesMentioned x) then ret x
    else
      let x1 := mention sourceFile x in
      tryCatch
        (let fullPath := Path.join projectDir sourceFile in
         present <- Fs.existsSync fullPath ;;
         if present : bool then
           content <- Fs.readFile fullPath ;;
           ret (pushFile sourceFile content x1)
         else ret x1)
        (fun _ => ret x1)
  else ret x.

(** The body of the inner loop for one value of [match[1]]. *)
Definition visit (projectDir : string) (x : extraction) (found : string) : IO extraction :=
  if skipped found then ret x
  else
    workDir <- getCwd ;;
    let filePath := normalizeFilePath workDir found projectDir in
    x1 <- addSourceOfDist projectDir filePath x ;;
    if decide (filePath ∈ filesMentioned x1) then ret x1
    else
      let x2 := mention filePath x1 in
      tryCatch
        (let fullPath := Path.join projectDir filePath in
         content <- Fs.readFile fullPath ;;
         ret (pushFile filePath content x2))
        (fun _ => ret x2).

Fixpoint visitAll (projectDir : string) (x : extraction) (found : list string) : IO extraction :=
  match found with
  | [] => ret x
  | f :: found' => x' <- visit projectDir x f ;; visitAll projectDir x' found'
  end.

(** [extractRelevantFiles(errorText, projectDir)] *)
Definition extractRelevantFiles (errorText projectDir : string) : IO (list relevantFile) :=
  x <- visitAll projectDir (Extraction [] ∅) (candidates errorText) ;;
  ret (relevantFiles x).

(** *** The prompt *)

(** One entry of [fixHistory]. *)
Record fixedFile : Type := FixedFile {
  ff_filename : string;
  ff_checksum : string
}.

Record historyEntry : Type := HistoryEntry {
  h_attempt : Z;
  h_message : string;
  h_snippet : string;
  h_fixedFiles : list fixedFile;
  h_summary : Json.json
}.

Definition fence : string := "```".

Definition filesContent (files : list relevantFile) : string :=
  Str.join (Str.nl +:+ Str.nl)
    (map (fun file =>
            fence +:+ "typescript" +:+ Str.nl +:+
            "// " +:+ rf_path file +:+ Str.nl +:+
            rf_content file +:+ Str.nl +:+ fence) files).

Definition diagramContext (plantUmlContent : string) : string :=
  if negb (String.eqb plantUmlContent "") then
    Str.nl +:+ "The original PlantUML diagram that was used to generate this CDK project is:"
    +:+ Str.nl +:+ Str.nl +:+ fence +:+ Str.nl +:+ plantUmlContent +:+ Str.nl +:+ fence
  else Str.nl +:+ "Note: The original PlantUML diagram is not available.".

Definition historyLine (entry : historyEntry) : string :=
  Str.nl +:+ "Attempt " +:+ Num.toString10 (h_attempt entry) +:+ ":" +:+ Str.nl +:+
  "- Error: " +:+ h_snippet entry +:+ Str.nl +:+
  "- Summary: " +:+
    (if Json.truthy (Some (h_summary entry)) then Json.display (h_summary entry)
     else "No summary available") +:+ Str.nl +:+
  "- Files modified: " +:+ Str.join ", " (map ff_filename (h_fixedFiles entry)) +:+ Str.nl.

Definition fixHistoryContext (history : list historyEntry) : string :=
  match history with
  | [] => ""
  | _ =>
      Str.nl +:+ "Previous fix attempts:" +:+ Str.nl +:+
      String.concat "" (map historyLine history) +:+
      Str.nl +:+ "IMPORTANT: Previous approaches did NOT resolve the issue, so please try a different approach."
  end.

Definition formatInstructions : list string :=
  let q (s : string) := Str.dquote +:+ s +:+ Str.dquote in
  [ "IMPORTANT: Format your response as a JSON object with the following structure:";
    "{";
    "  " +:+ q "summary" +:+ ": " +:+
      q "Brief explanation of what changes you made and why they should fix the issue" +:+ ",";
    "  " +:+ q "files" +:+ ": [";
    "    {";
    "      " +:+ q "filename" +:+ ": " +:+ q "relative/path/to/file.ts" +:+ ",";
    "      " +:+ q "content" +:+ ": " +:+ q "// The complete corrected file content here...";
    "    },";
    "    ... additional files if needed ...";
    "  ]";
    "}";
    "";
    "The summary should be a concise explanation in plain English that describes what was changed and why.";
    "Only include files that need to be changed. DO NOT provide additional explanations outside of the JSON structure.";
    "" ].

Definition buildPrompt (plantUmlContent errorText : string) (files : list relevantFile)
           (history : list historyEntry) : string :=
  Str.join Str.nl
    ([ "";
       "I'm trying to deploy an AWS CDK project but encountering errors. I need you to fix the code in the affected files.";
       "";
       diagramContext plantUmlContent;
       "";
       fixHistoryContext history;
       "";
       "Here are the files that appear to be related to the errors:";
       "";
       filesContent files;
       "";
       "The deployment error is:";
       "";
       fence;
       errorText;
       fence;
       "";
       "Please identify the issues and provide corrected versions of the files. ";
       "";
       match history with
       | [] => ""
       | _ => "The previous approaches failed, so you need to try something different this time."
       end;
       "" ] ++ formatInstructions).

(** *** The audit log *)

(** [ensureAuditDirectory(projectDir)] *)
Definition ensureAuditDirectory (projectDir : string) : IO string :=
  let auditDir := Path.join projectDir ".archline-audit" in
  Fs.mkdirRecursive auditDir >> ret auditDir.

(** The name of a file of the audit directory,
    [`fix-attempt-${attempt}-${timestamp}`] with its extension: the
    time stamp is the time of the call with [-] for each [:] and [.]. *)
Definition auditFileName (attempt : Z) (iso extension : string) : string :=
  "fix-attempt-" +:+ Num.toString10 attempt +:+ "-" +:+
  Regex.replaceAll (Regex.Chr (Regex.oneOf ":.")) "-" iso +:+ extension.

(** A member that [JSON.stringify] leaves out when it was never assigned. *)
Definition optionalMember (key : string) (value : option string) : list (string * Json.json) :=
  match value with
  | Some text => [(key, Json.JStr text)]
  | None => []
  end.

(** [auditData] as [JSON.stringify] sees it: the members of the literal,
    and after them those that were assigned later. *)
Definition auditJson (data : auditData) : Json.json :=
  Json.JObj
    ([ ("attempt", Json.JNum (Num.toString10 (au_attempt data)));
       ("timestamp", Json.JStr (au_timestamp data));
       ("error", Json.JObj [ ("message", Json.JStr (err_message (au_error data)));
                             ("stdout", Json.JStr (err_stdout (au_error data)));
                             ("stderr", Json.JStr (err_stderr (au_error data))) ]);
       ("relevantFiles",
         Json.JArr (map (fun p => Json.JObj [("path", Json.JStr p)]) (au_relevantFiles data)));
       ("prompt", Json.JStr (au_prompt data));
       ("response", match au_response data with
                    | Some response => response
                    | None => Json.JNull
                    end);
       ("success", Json.JBool (au_success data)) ] ++
     optionalMember "rawResponse" (au_rawResponse data) ++
     optionalMember "parseError" (au_parseError data) ++
     optionalMember "jsonFragment" (au_jsonFragment data) ++
     optionalMember "apiError" (au_apiError data) ++
     optionalMember "apiErrorDetails" (au_apiErrorDetails data)).

(** [fs.writeFile(auditLogFile, JSON.stringify(data, null, 2))].  A record
    that was written is also kept in [audits], as it was handed over. *)
Definition writeAuditFile (auditLogFile : string) (data : auditData) : IO unit :=
  Fs.writeFile auditLogFile (Json.stringify (auditJson data)) >>
  (fun w => (addAudit data w, Ret tt)).

(** [`${v}`] for the value of a property; [None] is [undefined]. *)
Definition templateText (v : option Json.json) : string :=
  match v with
  | Some j => Json.display j
  | None => "undefined"
  end.

(** [files.map(f => `- ${f.filename}`)] *)
Fixpoint modifiedLines (files : list Json.json) : outcome (list string) :=
  match files with
  | [] => Ret []
  | Json.JNull :: _ => Throw (Error "Cannot read properties of null (reading 'filename')")
  | file :: files' =>
      match modifiedLines files' with
      | Ret lines => Ret (("- " +:+ templateText (Json.get "filename" file)) :: lines)
      | Throw ex => Throw ex
      end
  end.

(** [data.response.files.map(f => `- ${f.filename}`)] *)
Definition filesModified (response : Json.json) : outcome (list string) :=
  match response with
  | Json.JNull => Throw (Error "Cannot read properties of null (reading 'summary')")
  | _ =>
      match Json.get "files" response with
      | Some (Json.JArr files) => modifiedLines files
      | Some Json.JNull | None =>
          Throw (Error "Cannot read properties of undefined (reading 'map')")
      | Some _ => Throw (Error "data.response.files.map is not a function")
      end
  end.

(** The text of the readable log; [localTime] is what
    [new Date().toLocaleString()] gives. *)
Definition readableContent (attempt : Z) (localTime : string) (data : auditData)
           (response : Json.json) (modified : list string) : string :=
  Str.join Str.nl
    [ "# Fix Attempt " +:+ Num.toString10 attempt +:+ " - " +:+ localTime;
      "";
      "## Error";
      fence;
      err_message (au_error data);
      err_stderr (au_error data);
      fence;
      "";
      "## Files Analyzed";
      Str.join Str.nl (map (fun p => "- " +:+ p) (au_relevantFiles data));
      "";
      "## Prompt Sent to Claude";
      fence;
      au_prompt data;
      fence;
      "";
      "## Claude's Response";
      fence +:+ "json";
      Json.stringify response;
      fence;
      "";
      "## Fix Summary";
      templateText (Json.get "summary" response);
      "";
      "## Files Modified";
      Str.join Str.nl modified;
      "";
      "## Result";
      if au_success data then "SUCCESS" else "FAILED";
      "" ].

(** The part of [logAudit] that makes the text of the readable log and
    writes it.  The clock is read for the heading; the text that
    [toLocaleString] makes of it is the environment's, like that of
    [toISOString].  The text takes [data.response.summary] and
    [data.response.files], which throws when the response is [null]. *)
Definition writeReadableLog (e : env) (readableLog : string) (attempt : Z) (data : auditData)
  : IO unit :=
  localTime <- nowISO e ;;
  match au_response data with
  | None => throw (Error "Cannot read properties of null (reading 'summary')")
  | Some response =>
      modified <- (fun w => (w, filesModified response)) ;;
      Fs.writeFile readableLog (readableContent attempt localTime data response modified)
  end.

(** [logAudit(projectDir, attempt, data)] *)
Definition logAudit (e : env) (projectDir : string) (attempt : Z) (data : auditData)
  : IO (option string) :=
  tryCatch
    (auditDir <- ensureAuditDirectory projectDir ;;
     iso <- nowISO e ;;
     let auditLogFile := Path.join auditDir (auditFileName attempt iso ".json") in
     writeAuditFile auditLogFile data >>
     let readableLog := Path.join auditDir (auditFileName attempt iso ".md") in
     writeReadableLog e readableLog attempt data >>
     ret (Some auditLogFile))
    (fun _ => ret None).

(** *** [fixDeploymentErrors] *)

(** A file of the reply that could be written: both members are strings. *)
Record fixFile : Type := FixFile {
  filename : string;
  content : string
}.

(** What [fixDeploymentErrors] returns: [{ fixedFiles, summary }]. *)
Record fixResult : Type := FixResult {
  fixedFiles : list fixFile;
  summary : Json.json
}.

(** The state of one call: the world and the local object [auditData],
    which the [catch] blocks read after the [try] blocks have changed it. *)
Record fixState : Type := FixState {
  fx_world : world;
  fx_audit : auditData
}.

(** A computation on the world, run inside the call. *)
Definition inWorld {A : Type} (m : IO A) : M fixState A :=
  fun s =>
    let '(w, r) := m (fx_world s) in
    (FixState w (fx_audit s), r).

Definition getAudit : M fixState auditData := fun s => (s, Ret (fx_audit s)).

Definition setAudit (f : auditData -> auditData) : M fixState unit :=
  fun s => (FixState (fx_world s) (f (fx_audit s)), Ret tt).

Definition setRawResponse (text : string) (a : auditData) : auditData :=
  AuditData (au_attempt a) (au_timestamp a) (au_error a) (au_relevantFiles a) (au_prompt a)
            (au_response a) (au_success a) (Some text) (au_parseError a) (au_jsonFragment a)
            (au_apiError a) (au_apiErrorDetails a).

Definition setResponse (result : Json.json) (a : auditData) : auditData :=
  AuditData (au_attempt a) (au_timestamp a) (au_error a) (au_relevantFiles a) (au_prompt a)
            (Some result) (au_success a) (au_rawResponse a) (au_parseError a) (au_jsonFragment a)
            (au_apiError a) (au_apiErrorDetails a).

Definition setParseError (message fragment : string) (a : auditData) : auditData :=
  AuditData (au_attempt a) (au_timestamp a) (au_error a) (au_relevantFiles a) (au_prompt a)
            (au_response a) (au_success a) (au_rawResponse a) (Some message) (Some fragment)
            (au_apiError a) (au_apiErrorDetails a).

Definition setSuccess (a : auditData) : auditData :=
  AuditData (au_attempt a) (au_timestamp a) (au_error a) (au_relevantFiles a) (au_prompt a)
            (au_response a) true (au_rawResponse a) (au_parseError a) (au_jsonFragment a)
            (au_apiError a) (au_apiErrorDetails a).

Definition setApiError (message : string) (details : option string) (a : auditData) : auditData :=
  AuditData (au_attempt a) (au_timestamp a) (au_error a) (au_relevantFiles a) (au_prompt a)
            (au_response a) (au_success a) (au_rawResponse a) (au_parseError a) (au_jsonFragment a)
            (Some message) details.

(** [logAudit(projectDir, auditData.attempt, auditData)] *)
Definition logCurrentAudit (e : env) (projectDir : string) : M fixState unit :=
  a <- getAudit ;;
  _ <- inWorld (logAudit e projectDir (au_attempt a) a) ;;
  ret tt.

(** [responseText.match(/\{[\s\S]*\}/)]: the text from the first opening
    brace to the last closing brace after it. *)
Definition jsonObjectPattern : Regex.regex :=
  Regex.Seq (Regex.lit "{") (Regex.Seq (Regex.Star (Regex.Chr Regex.anyChar)) (Regex.lit "}")).

Definition jsonMatch (responseText : string) : option string :=
  match Regex.search jsonObjectPattern responseText with
  | Some m => Some (Regex.whole m)
  | None => None
  end.

(** The message of the [SyntaxError] of [JSON.parse]; its wording is the
    engine's. *)
Definition syntaxErrorMessage : string := "Unexpected token in JSON".

Definition noSummary : string := "No summary provided".

(** [if (!result.summary) result.summary = 'No summary provided'] *)
Definition ensureSummary (result : Json.json) : Json.json :=
  if Json.truthy (Json.get "summary" result) then result
  else
    match result with
    | Json.JObj fields => Json.JObj (Json.setField "summary" (Json.JStr noSummary) fields)
    | _ => result
    end.

(** [result.files], when it is an array with an element. *)
Definition nonEmptyFiles (result : Json.json) : option (list Json.json) :=
  match Json.get "files" result with
  | Some (Json.JArr (f :: fs)) => Some (f :: fs)
  | _ => None
  end.

(** The errors of the call. *)
Definition couldNotFindJson : string :=
  "Could not find properly formatted JSON response from Claude".
Definition noFilesIncluded : string := "No files included in the response".
Definition invalidJsonFormat : string := "Invalid JSON format in Claude's response".
Definition failedToGetFixes : exn := Error "Failed to get fixes from Claude".

(** The inner [try] block: parse the fragment and check its shape. *)
Definition parseFixes (fragment : string) : M fixState Json.json :=
  match Json.parse fragment with
  | None => throw (Error syntaxErrorMessage)
  | Some parsed =>
      let result := ensureSummary parsed in
      match nonEmptyFiles result with
      | None => throw (Error noFilesIncluded)
      | Some _ => setAudit (setResponse result) >> ret result
      end
  end.

(** The [catch] block of the inner [try]. *)
Definition innerCatch (e : env) (projectDir fragment : string) (error : exn)
  : M fixState Json.json :=
  setAudit (setParseError (messageOf error) fragment) >>
  logCurrentAudit e projectDir >>
  throw (Error invalidJsonFormat).

(** The body of the loop that applies the fixes, for one file. *)
Definition applyFix (projectDir : string) (file : Json.json) : IO fixFile :=
  match Json.get "filename" file with
  | Some (Json.JStr name) =>
      let filePath := Path.join projectDir name in
      Fs.mkdirRecursive (Path.dirname filePath) >>
      match Json.get "content" file with
      | Some (Json.JStr text) => Fs.writeFile filePath text >> ret (FixFile name text)
      | _ => throw (Error "The data argument must be of type string")
      end
  | _ => throw (Error "The path argument must be of type string")
  end.

(** [for (const file of result.files) { ... }]; the files come back as they
    were written. *)
Fixpoint applyFixes (projectDir : string) (files : list Json.json) : IO (list fixFile) :=
  match files with
  | [] => ret []
  | file :: files' =>
      written <- applyFix projectDir file ;;
      rest <- applyFixes projectDir files' ;;
      ret (written :: rest)
  end.

Definition summaryOf (result : Json.json) : Json.json :=
  match Json.get "summary" result with
  | Some s => s
  | None => Json.JNull
  end.

Definition filesOf (result : Json.json) : list Json.json :=
  match nonEmptyFiles result with
  | Some files => files
  | None => []
  end.

(** The end of the outer [try] block: apply the fixes, log the success and
    return. *)
Definition applyAndReturn (e : env) (projectDir : string) (result : Json.json)
  : M fixState fixResult :=
  written <- inWorld (applyFixes projectDir (filesOf result)) ;;
  setAudit setSuccess >>
  logCurrentAudit e projectDir >>
  ret (FixResult written (summaryOf result)).

(** The [catch] block of the outer [try]. *)
Definition outerCatch (e : env) (projectDir : string) (error : exn) : M fixState fixResult :=
  setAudit (setApiError (messageOf error) (responseDataOf error)) >>
  logCurrentAudit e projectDir >>
  throw failedToGetFixes.

(** The outer [try] block and its [catch]. *)
Definition requestAndApply (e : env) (projectDir prompt : string) : M fixState fixResult :=
  tryCatch
    (responseText <- inWorld (postPrompt e prompt) ;;
     setAudit (setRawResponse responseText) >>
     match jsonMatch responseText with
     | None => throw (Error couldNotFindJson)
     | Some fragment =>
         result <- tryCatch (parseFixes fragment) (innerCatch e projectDir fragment) ;;
         applyAndReturn e projectDir result
     end)
    (outerCatch e projectDir).

Definition keyConfigured (e : env) : bool :=
  match apiKey e with
  | Some k => negb (String.eqb k "")
  | None => false
  end.

(** The relevant files, with [lib/stack.ts] as a last resort. *)
Definition relevantOrFallback (errorText projectDir : string) : IO (list relevantFile) :=
  files <- extractRelevantFiles errorText projectDir ;;
  match files with
  | [] =>
      tryCatch
        (text <- Fs.readFile (Path.join projectDir "lib/stack.ts") ;;
         ret [RelevantFile "lib/stack.ts" text])
        (fun _ => ret [])
  | _ => ret files
  end.

(** [fixDeploymentErrors(projectDir, plantUmlContent, error, fixHistory)] *)
Definition fixDeploymentErrors (e : env) (projectDir plantUmlContent : string)
           (error : errorRecord) (history : list historyEntry) : IO fixResult :=
  if negb (keyConfigured e) then
    throw (Error "Anthropic API key is not set. Please set the ANTHROPIC_API_KEY environment variable.")
  else
    let errorText := err_stdout error +:+ Str.nl +:+ err_stderr error in
    files <- relevantOrFallback errorText projectDir ;;
    let prompt := buildPrompt plantUmlContent errorText files history in
    timestamp <- nowISO e ;;
    let auditData0 :=
      AuditData (Z.of_nat (length history) + 1) timestamp error (map rf_path files) prompt
                None false None None None None None in
    fun w =>
      let '(s, r) := requestAndApply e projectDir prompt (FixState w auditData0) in
      (fx_world s, r).

(** *** [main] *)

(** The command-line options; an option that was not given is [None]
    ([--max-attempts] then has the number [MAX_FIX_ATTEMPTS] as its value). *)
Record options : Type := Options {
  opt_project : string;
  opt_diagram : option string;
  opt_profile : option string;
  opt_region : string;
  opt_maxAttempts : option string
}.

(** [parseInt(options.maxAttempts) || MAX_FIX_ATTEMPTS] *)
Definition maxAttemptsOf (o : options) : Z :=
  let parsed :=
    match opt_maxAttempts o with
    | Some text => Num.parseInt text
    | None => Num.parseInt (Num.toString10 MAX_FIX_ATTEMPTS)
    end in
  match parsed with
  | Some n => if (n =? 0)%Z then MAX_FIX_ATTEMPTS else n
  | None => MAX_FIX_ATTEMPTS
  end.

(** The steps of the loop, for the record: they are not part of the
    program.  [FixStep n ok] is a call of [fixDeploymentErrors] in attempt
    [n] and whether it returned; [DeployStep n ok] is a run of the build,
    synthesis and deployment commands in attempt [n] and whether all of
    them succeeded. *)
Inductive event : Type :=
| FixStep (attempt : Z) (ok : bool)
| DeployStep (attempt : Z) (ok : bool).

(** The state of [main]: the world, the variables of the loop, and the
    record of its steps. *)
Record mainState : Type := MainState {
  ms_world : world;
  attempt : Z;
  lastError : option errorRecord;
  success : bool;
  fixHistory : list historyEntry;
  events : list event
}.

(** A computation on the world, run inside [main]. *)
Definition perform {A : Type} (m : IO A) : M mainState A :=
  fun s =>
    let '(w, r) := m (ms_world s) in
    (MainState w (attempt s) (lastError s) (success s) (fixHistory s) (events s), r).

Definition get {S : Type} : M S S := fun s => (s, Ret s).

Definition setAttempt (n : Z) : M mainState unit :=
  fun s => (MainState (ms_world s) n (lastError s) (success s) (fixHistory s) (events s), Ret tt).
Definition setLastError (err : errorRecord) : M mainState unit :=
  fun s => (MainState (ms_world s) (attempt s) (Some err) (success s) (fixHistory s) (events s), Ret tt).
Definition setSucceeded : M mainState unit :=
  fun s => (MainState (ms_world s) (attempt s) (lastError s) true (fixHistory s) (events s), Ret tt).
Definition pushHistory (entry : historyEntry) : M mainState unit :=
  fun s => (MainState (ms_world s) (attempt s) (lastError s) (success s) (fixHistory s ++ [entry])
                      (events s), Ret tt).
Definition note (ev : event) : M mainState unit :=
  fun s => (MainState (ms_world s) (attempt s) (lastError s) (success s) (fixHistory s)
                      (events s ++ [ev]), Ret tt).

(** [while (cond) { body }], for at most [fuel] rounds; the result tells
    whether the loop came to its end. *)
Fixpoint while {S : Type} (fuel : nat) (cond : S -> bool) (body : M S unit) : M S bool :=
  fun s =>
    if cond s then
      match fuel with
      | O => (s, Ret false)
      | S fuel' =>
          match body s with
          | (s', Ret _) => while fuel' cond body s'
          | (s', Throw e) => (s', Throw e)
          end
      end
    else (s, Ret true).

(** [buildWithOverwrite(env)] *)
Definition buildWithOverwrite (e : env) : IO unit :=
  tryCatch
    (_ <- execPromise e "npm run build" ;; ret tt)
    (fun error =>
       match stderrOf error with
       | Some err =>
           if negb (String.eqb err "") && Str.includes err "overwrite input file"
           then _ <- execPromise e "npx tsc --build --force" ;; ret tt
           else throw error
       | None => throw error
       end).

(** The repair of one file that could not be overwritten. *)
Definition makeWritable (filePath : string) : IO unit :=
  present <- Fs.existsSync filePath ;;
  if present : bool then
    tryCatch
      (Fs.chmodWritable filePath >>
       stillThere <- Fs.existsSync filePath ;;
       if stillThere : bool then
         tryCatch (Fs.accessWritable filePath) (fun _ => Fs.unlink filePath)
       else ret tt)
      (fun _ => ret tt)
  else ret tt.

(** The block of the loop that handles overwrite errors. *)
Definition handleOverwrite (last : option errorRecord) : IO unit :=
  match last with
  | Some err =>
      if negb (String.eqb (err_stderr err) "") && Str.includes (err_stderr err) "overwrite input file"
      then
        forEach (map Regex.whole (Regex.matchAll cannotWritePattern (err_stderr err)))
          (fun matched =>
             match Regex.search quotedName matched with
             | Some m => makeWritable (capture m)
             | None => throw (Error "Cannot read properties of null (reading '1')")
             end)
      else ret tt
  | None => ret tt
  end.

(** [lastError.stderr?.substring(0, 200) || lastError.message] *)
Definition snippetOf (err : errorRecord) : string :=
  let s := Str.substring0 200 (err_stderr err) in
  if String.eqb s "" then err_message err else s.

Definition historyEntryOf (n : Z) (err : errorRecord) (result : fixResult) : historyEntry :=
  HistoryEntry n (err_message err) (snippetOf err)
    (map (fun file => FixedFile (filename file) (calculateChecksum (content file)))
       (fixedFiles result))
    (summary result).

(** The block of the loop that asks for a fix. *)
Definition fixStep (e : env) (projectDir plantUmlContent : string) : M mainState unit :=
  s <- get ;;
  match lastError s with
  | Some err =>
      tryCatch
        (result <- perform (fixDeploymentErrors e projectDir plantUmlContent err (fixHistory s)) ;;
         pushHistory (historyEntryOf (attempt s) err result) >>
         note (FixStep (attempt s) true))
        (fun _ => note (FixStep (attempt s) false))
  | None => ret tt
  end.

Definition orEmpty (o : option string) : string :=
  match o with
  | Some s => s
  | None => ""
  end.

(** The block of the loop that deploys. *)
Definition deployStep (e : env) (projectDir : string) : M mainState unit :=
  s <- get ;;
  tryCatch
    (perform (buildWithOverwrite e) >>
     _ <- perform (execPromise e "npx cdk synth") ;;
     _ <- perform (execPromise e "npx cdk deploy --require-approval never") ;;
     note (DeployStep (attempt s) true) >>
     setSucceeded)
    (fun error =>
       note (DeployStep (attempt s) false) >>
       setLastError (ErrorRecord (messageOf error) (orEmpty (stdoutOf error)) (orEmpty (stderrOf error))) >>
       let errorLogPath :=
         Path.join projectDir ("deployment-error-" +:+ Num.toString10 (attempt s) +:+ ".log") in
       perform (Fs.writeFile errorLogPath
                  ("STDOUT:" +:+ Str.nl +:+ orEmpty (stdoutOf error) +:+ Str.nl +:+ Str.nl +:+
                   "STDERR:" +:+ Str.nl +:+ orEmpty (stderrOf error)))).

(** The body of the loop. *)
Definition iteration (e : env) (projectDir plantUmlContent : string) : M mainState unit :=
  s <- get ;;
  setAttempt (attempt s + 1) >>
  perform (handleOverwrite (lastError s)) >>
  fixStep e projectDir plantUmlContent >>
  deployStep e projectDir.

Definition continues (maxAttempts : Z) (s : mainState) : bool :=
  (attempt s <? maxAttempts)%Z && negb (success s).

(** [fixHistory] as [JSON.stringify] sees it. *)
Definition historyJson (history : list historyEntry) : Json.json :=
  Json.JArr
    (map (fun entry =>
            Json.JObj
              [ ("attempt", Json.JNum (Num.toString10 (h_attempt entry)));
                ("error", Json.JObj [ ("message", Json.JStr (h_message entry));
                                      ("snippet", Json.JStr (h_snippet entry)) ]);
                ("fixedFiles",
                  Json.JArr (map (fun f => Json.JObj [ ("filename", Json.JStr (ff_filename f));
                                                       ("checksum", Json.JStr (ff_checksum f)) ])
                               (h_fixedFiles entry)));
                ("summary", h_summary entry) ])
       history).

(** The characters that the shell does not take as they are between
    double quotes, and the character that no command can hold. *)
Definition shellSpecial : string := String (Str.chr 0) (Str.dquote +:+ "$`\").

(** A text that stands for itself between the double quotes of a command. *)
Fixpoint shellSafe (s : string) : bool :=
  match s with
  | EmptyString => true
  | String c s' => negb (Str.mem c shellSpecial) && shellSafe s'
  end.

(** [execPromise(`test -f "${projectDir}/cdk.json"`)], and whether it
    succeeded.  When the path stands for itself between the quotes, the
    command is the test for a regular file of that name, which the model
    makes on its file system.  For any other path the shell runs something
    else, and the command is an external interaction like the others: what
    it does and how it ends is the environment's. *)
Definition hasCdkJson (e : env) (projectDir : string) : IO bool :=
  if shellSafe projectDir then
    fun w =>
      (w, Ret match fs w !! Fs.key w (projectDir +:+ "/cdk.json") with
              | Some (File _ _) => true
              | _ => false
              end)
  else
    tryCatch
      (_ <- execPromise e ("test -f " +:+ Str.dquote +:+ projectDir +:+ "/cdk.json" +:+ Str.dquote) ;;
       ret true)
      (fun _ => ret false).

(** The loop and what follows it, from [process.chdir(projectDir)] on.
    The result is the exit code; [None] stands for a loop that was cut
    short by the bound on its rounds (which does not happen, see
    [mainLoop_finishes]). *)
Definition deployLoop (e : env) (projectDir plantUmlContent : string) (maxAttempts : Z)
  : M mainState (option Z) :=
  perform (Fs.chdir projectDir) >>
  finished <- while (Z.to_nat maxAttempts) (continues maxAttempts)
                    (iteration e projectDir plantUmlContent) ;;
  if finished : bool then
    s <- get ;;
    (match fixHistory s with
     | [] => ret tt
     | _ =>
         perform (Fs.writeFile (Path.join projectDir "fix-history.json")
                    (Json.stringify (historyJson (fixHistory s))))
     end) >>
    if success s then
      tryCatch (_ <- perform (execPromise e "npx cdk list-exports") ;; ret tt) (fun _ => ret tt) >>
      ret (Some 0%Z)
    else ret (Some 1%Z)
  else ret None.

(** The [try] block of [main]. *)
Definition mainBody (e : env) (o : options) : M mainState (option Z) :=
  workDir <- perform getCwd ;;
  let projectDir := Path.resolve workDir (opt_project o) in
  let maxAttempts := maxAttemptsOf o in
  valid <- perform (hasCdkJson e projectDir) ;;
  if valid : bool then
    plantUmlContent <-
      match opt_diagram o with
      | Some diagram =>
          if negb (String.eqb diagram "")
          then tryCatch (perform (Fs.readFile diagram)) (fun _ => ret "")
          else ret ""
      | None => ret ""
      end ;;
    deployLoop e projectDir plantUmlContent maxAttempts
  else
    (* process.exit(1) *)
    ret (Some 1%Z).

(** [main()]: the exit code. *)
Definition main (e : env) (o : options) : M mainState (option Z) :=
  tryCatch (mainBody e o) (fun _ => ret (Some 1%Z)).

(** The state in which [main] starts. *)
Definition start (w : world) : mainState := MainState w 0 None false [] [].

(** ** [fix-registry.js]: error fingerprints *)

Module Registry.

(** An error as the registry receives it; any of its members may be
    missing. *)
Record errorInfo : Type := ErrorInfo {
  stderr : option string;
  stdout : option string;
  message : option string
}.

(** [calculateHash(text)] *)
Definition calculateHash (text : string) : string :=
  if (String.length text =? 0)%nat then Num.toString16 0
  else Num.toString16 (checksumFrom 0 text).

Definition hexDigitClass : ascii -> bool :=
  Regex.ci (Regex.orc Regex.digit (Regex.between "a" "f")).

Definition digits (n : nat) : Regex.regex := Regex.times n (Regex.Chr Regex.digit).
Definition hexDigits (n : nat) : Regex.regex := Regex.times n (Regex.Chr hexDigitClass).

(** [/\d{4}-\d{2}-\d{2}T\d{2}:\d{2}:\d{2}\.\d+Z/g] *)
Definition timestampPattern : Regex.regex :=
  Regex.Seq (digits 4) (Regex.Seq (Regex.lit "-") (Regex.Seq (digits 2) (Regex.Seq (Regex.lit "-")
    (Regex.Seq (digits 2) (Regex.Seq (Regex.lit "T") (Regex.Seq (digits 2) (Regex.Seq (Regex.lit ":")
      (Regex.Seq (digits 2) (Regex.Seq (Regex.lit ":") (Regex.Seq (digits 2) (Regex.Seq (Regex.lit ".")
        (Regex.Seq (Regex.Plus (Regex.Chr Regex.digit)) (Regex.lit "Z"))))))))))))).

(** [/[0-9a-f]{8}-[0-9a-f]{4}-[0-9a-f]{4}-[0-9a-f]{4}-[0-9a-f]{12}/gi] *)
Definition uuidPattern : Regex.regex :=
  Regex.Seq (hexDigits 8) (Regex.Seq (Regex.lit "-") (Regex.Seq (hexDigits 4) (Regex.Seq (Regex.lit "-")
    (Regex.Seq (hexDigits 4) (Regex.Seq (Regex.lit "-") (Regex.Seq (hexDigits 4) (Regex.Seq (Regex.lit "-")
      (hexDigits 12)))))))).

(** [/request id: [a-z0-9-]+/gi] *)
Definition requestIdPattern : Regex.regex :=
  Regex.Seq (Regex.lit_ci "request id: ")
    (Regex.Plus (Regex.Chr (Regex.ci (Regex.orc (Regex.between "a" "z")
                                         (Regex.orc Regex.digit (Regex.only "-")))))).

(** [/\.ts\(\d+,\d+\)/g] *)
Definition positionPattern : Regex.regex :=
  Regex.Seq (Regex.lit ".ts(") (Regex.Seq (Regex.Plus (Regex.Chr Regex.digit))
    (Regex.Seq (Regex.lit ",") (Regex.Seq (Regex.Plus (Regex.Chr Regex.digit)) (Regex.lit ")")))).

(** [cleanErrorText(text)]; [workDir] is [process.cwd()], which the source
    escapes and uses as a literal pattern. *)
Definition cleanErrorText (workDir text : string) : string :=
  Regex.trim
    (Regex.replaceAll (Regex.Plus (Regex.Chr Regex.space)) " "
       (Regex.replaceAll positionPattern ".ts(LINE,COL)"
          (Regex.replaceAll (Regex.lit workDir) "PROJECT_DIR"
             (Regex.replaceAll requestIdPattern "request id: REQUEST_ID"
                (Regex.replaceAll uuidPattern "UUID"
                   (Regex.replaceAll timestampPattern "TIMESTAMP" text)))))).

(** The object [generateErrorHash] makes. *)
Record fingerprint : Type := Fingerprint {
  hash : string;
  cleanedText : string
}.

(** The objects made so far.  A reference to an object is its place in
    this list; two references are the same object when they are the same
    place, which is what [===] tests on objects. *)
Definition heap : Type := list fingerprint.
Definition ref : Type := nat.

(** An object literal: a new object, and the reference to it. *)
Definition newObject (o : fingerprint) : M heap ref :=
  fun h => (h ++ [o], Ret (length h)).

(** [hash1 === hash2] on two objects *)
Definition sameObject (a b : ref) : bool := Nat.eqb a b.

(** [generateErrorHash(error)] *)
Definition generateErrorHash (workDir : string) (error : errorInfo) : M heap ref :=
  let errorText :=
    orEmpty (stderr error) +:+ Str.nl +:+ orEmpty (stdout error) +:+ Str.nl +:+
    orEmpty (message error) in
  let cleaned := cleanErrorText workDir errorText in
  newObject (Fingerprint (calculateHash cleaned) cleaned).

(** [isSameErrorByHash(error1, error2)] *)
Definition isSameErrorByHash (workDir : string) (error1 error2 : option errorInfo) : M heap bool :=
  match error1, error2 with
  | Some e1, Some e2 =>
      hash1 <- generateErrorHash workDir e1 ;;
      hash2 <- generateErrorHash workDir e2 ;;
      ret (sameObject hash1 hash2)
  | _, _ => ret false
  end.

End Registry.

(** ** The vocabulary of the properties *)

Definition isDeployStep (ev : event) : bool :=
  match ev with
  | DeployStep _ _ => true
  | FixStep _ _ => false
  end.

Definition isFixStep (ev : event) : bool :=
  match ev with
  | FixStep _ _ => true
  | DeployStep _ _ => false
  end.

Definition isReturnedFix (ev : event) : bool :=
  match ev with
  | FixStep _ ok => ok
  | DeployStep _ _ => false
  end.

(** How often the deployment ran, how often a fix was asked for, and how
    often that call returned. *)
Definition deploySteps (evs : list event) : Z := Z.of_nat (length (List.filter isDeployStep evs)).
Definition fixSteps (evs : list event) : Z := Z.of_nat (length (List.filter isFixStep evs)).
Definition returnedFixSteps (evs : list event) : Z :=
  Z.of_nat (length (List.filter isReturnedFix evs)).

(** Every deployment attempt failed. *)
Definition allDeploysFailed (evs : list event) : Prop :=
  forall n ok, In (DeployStep n ok) evs -> ok = false.

(** No deployment but the last one succeeded. *)
Definition onlyLastMaySucceed (evs : list event) : Prop :=
  allDeploysFailed evs \/
  exists l n, evs = l ++ [DeployStep n true] /\ allDeploysFailed l.

(** A fix step comes right after a failed deployment and right before the
    next deployment. *)
Definition fixesBetweenDeploys (evs : list event) : Prop :=
  forall before n ok after,
    evs = before ++ FixStep n ok :: after ->
    (exists before' m, before = before' ++ [DeployStep m false]) /\
    (exists m ok' after', after = DeployStep m ok' :: after').

(** The growth of the record of steps: a first deployment, or a fix and a
    deployment after a failed deployment. *)
Inductive grown : list event -> Prop :=
| grown_nil : grown []
| grown_deploy l n ok : grown l -> grown (l ++ [DeployStep n ok])
| grown_fix l m n ok ok' :
    grown (l ++ [DeployStep m false]) ->
    grown ((l ++ [DeployStep m false]) ++ [FixStep n ok; DeployStep n ok']).

(** What holds of the variables of the loop, with the bound [N], each time
    its condition is tested. *)
Definition loopInvariant (N : Z) (s : mainState) : Prop :=
  (0 <= attempt s <= Z.max 0 N)%Z /\
  deploySteps (events s) = attempt s /\
  (fixSteps (events s) <= Z.max 0 (attempt s - 1))%Z /\
  Z.of_nat (length (fixHistory s)) = returnedFixSteps (events s) /\
  grown (events s) /\
  (if success s
   then exists l n, events s = l ++ [DeployStep n true] /\ allDeploysFailed l
   else allDeploysFailed (events s) /\
        match lastError s with
        | None => events s = []
        | Some _ => exists l n, events s = l ++ [DeployStep n false]
        end).

(** What holds of them when the body of the loop stops with an exception. *)
Definition stoppedInvariant (N : Z) (s : mainState) : Prop :=
  (deploySteps (events s) <= Z.max 0 N)%Z /\
  (fixSteps (events s) <= Z.max 0 (N - 1))%Z /\
  Z.of_nat (length (fixHistory s)) = returnedFixSteps (events s) /\
  grown (events s) /\
  allDeploysFailed (events s).

(** The rounds the loop has left. *)
Definition roundsLeft (N : Z) (s : mainState) : nat := Z.to_nat (N - attempt s).

(** What holds of the state in which [main] leaves the world, whether it
    returned or not. *)
Definition runSummary (N : Z) (s : mainState) : Prop :=
  (deploySteps (events s) <= Z.max 0 N)%Z /\
  (fixSteps (events s) <= Z.max 0 (N - 1))%Z /\
  Z.of_nat (length (fixHistory s)) = returnedFixSteps (events s) /\
  grown (events s) /\
  onlyLastMaySucceed (events s).

(** What the exit code tells about the deployments. *)
Definition exitCodeTells (s : mainState) (r : outcome (option Z)) : Prop :=
  match r with
  | Ret (Some code) =>
      (code = 0%Z /\ exists l n, events s = l ++ [DeployStep n true]) \/
      (code = 1%Z /\ allDeploysFailed (events s))
  | Ret None => False
  | Throw _ => True
  end.

(** A path of the result comes from a value of [match[1]] that passed the
    test for [node_modules] and the standard libraries: it is that value,
    normalized, or the source file of that. *)
Definition derivedFrom (workDir projectDir : string) (found : list string) (p : string) : Prop :=
  exists c,
    In c found /\ skipped c = false /\
    (p = normalizeFilePath workDir c projectDir \/
     p = sourceFileOf (normalizeFilePath workDir c projectDir)).

(** Would [fs.readFile(p, 'utf8')] give a text in the world [w]? *)
Definition readable (w : world) (p : string) : bool :=
  match snd (Fs.readFile p w) with
  | Ret _ => true
  | Throw _ => false
  end.

(** What holds of the two variables of the scan and of the world, from
    the world [w0] in which the scan started.  The list [keys] holds the
    paths that were handed to [fs.readFile], as the scan has them: after
    [normalizeFilePath] and the step from [dist/] to the source file, and
    before [path.join] with the project directory. *)
Definition extractionInvariant (projectDir : string) (found : list string) (w0 : world)
           (x : extraction) (w : world) : Prop :=
  (fs w = fs w0 /\ cwd w = cwd w0 /\ ticks w = ticks w0 /\ audits w = audits w0) /\
  NoDup (map rf_path (relevantFiles x)) /\
  (forall f, In f (relevantFiles x) ->
             rf_path f ∈ filesMentioned x /\
             derivedFrom (cwd w0) projectDir found (rf_path f) /\
             exists writable,
               fs w0 !! Fs.key w0 (Path.join projectDir (rf_path f)) =
               Some (File (rf_content f) writable)) /\
  (exists keys,
      NoDup keys /\
      (forall k, In k keys -> k ∈ filesMentioned x) /\
      reads w = reads w0 ++ map (Path.join projectDir) keys /\
      map rf_path (relevantFiles x) =
        List.filter (fun k => readable w0 (Path.join projectDir k)) keys).

(** The entry of the file system is a file. *)
Definition isFileAt (f : gmap string node) (k : string) : Prop :=
  exists text writable, f !! k = Some (File text writable).

(** The directories on the way to the audit directory of the project, and
    the audit directory itself, as [fs.mkdir] makes them in the world [w]. *)
Definition auditDirectories (projectDir : string) (w : world) : list string :=
  Fs.ancestorsFrom "" (Path.resolveSegments (cwd w) (Path.join projectDir ".archline-audit")).

(** The two files of a call of [logAudit] in the world [w]: their names
    have the time that the clock gives in that world. *)
Definition auditLogFile (e : env) (projectDir : string) (attempt : Z) (w : world) : string :=
  Path.join (Path.join projectDir ".archline-audit")
    (auditFileName attempt (isoTime e (ticks w)) ".json").

Definition readableLogFile (e : env) (projectDir : string) (attempt : Z) (w : world) : string :=
  Path.join (Path.join projectDir ".archline-audit")
    (auditFileName attempt (isoTime e (ticks w)) ".md").

(** Can a call of [logAudit] in the world [w] write its record?  The
    audit directory is there or can be made: no file stands where it or a
    directory above it should be.  And the file of the record can be
    written: the directory it goes to is there then, and the entry of its
    name is neither a directory nor a file that is write-protected. *)
Definition auditWritable (e : env) (projectDir : string) (attempt : Z) (w : world) : bool :=
  match Fs.mkdirAll (auditDirectories projectDir w) (fs w) with
  | None => false
  | Some f =>
      let file := auditLogFile e projectDir attempt w in
      let k := Fs.key w file in
      negb (Str.endsWith file "/" || String.eqb k "/") &&
      Fs.isDirAt f (Path.dirname k) &&
      match f !! k with
      | Some Dir | Some (File _ false) => false
      | Some (File _ true) | None => true
      end
  end.

(** What a call of [logAudit] for the record [a] that starts in the world
    [w] has left when it ends in the world [w']: the record in its file,
    when the file could be written, and no record otherwise. *)
Definition auditLeft (e : env) (projectDir : string) (a : auditData) (w w' : world) : Prop :=
  if auditWritable e projectDir (au_attempt a) w
  then audits w' = audits w ++ [a] /\
       isFileAt (fs w') (Fs.key w (auditLogFile e projectDir (au_attempt a) w))
  else audits w' = audits w.

(** No file stands where the audit directory of the project or a directory
    above it should be, and whatever is below the audit directory is a
    file that can be written.  This holds of a project that has no audit
    directory yet, and of one whose audit directory has the files of
    earlier calls. *)
Definition auditDirectoryFree (projectDir : string) (w : world) : Prop :=
  (forall k, In k (auditDirectories projectDir w) -> fs w !! k = None \/ fs w !! k = Some Dir) /\
  (forall name node,
      fs w !! (Fs.key w (Path.join projectDir ".archline-audit") +:+ "/" +:+ name) = Some node ->
      exists text, node = File text true).

(** The texts that the clock gives have no slash. *)
Definition clockTexts (e : env) : Prop :=
  forall n, Str.mem Path.slash (isoTime e n) = false.

(** The working directory is the same and no directory is gone. *)
Definition dirsKept (w w' : world) : Prop :=
  cwd w' = cwd w /\ forall k, fs w !! k = Some Dir -> fs w' !! k = Some Dir.

(** What the audit record [a1] has become and how the call has ended,
    given the reply to the prompt: [a] is the record at the end and [r]
    the outcome. *)
Definition auditedOutcome (reply : postResult) (a1 a : auditData) (r : outcome fixResult) : Prop :=
  match reply with
  | PostFail m details =>
      r = Throw failedToGetFixes /\ a = setApiError m details a1
  | PostOk text =>
      let a2 := setRawResponse text a1 in
      match jsonMatch text with
      | None => r = Throw failedToGetFixes /\ a = setApiError couldNotFindJson None a2
      | Some fragment =>
          match Json.parse fragment with
          | None =>
              r = Throw failedToGetFixes /\
              a = setApiError invalidJsonFormat None (setParseError syntaxErrorMessage fragment a2)
          | Some parsed =>
              match nonEmptyFiles (ensureSummary parsed) with
              | None =>
                  r = Throw failedToGetFixes /\
                  a = setApiError invalidJsonFormat None (setParseError noFilesIncluded fragment a2)
              | Some files =>
                  let a3 := setResponse (ensureSummary parsed) a2 in
                  (exists written,
                      r = Ret (FixResult written (summaryOf (ensureSummary parsed))) /\
                      a = setSuccess a3) \/
                  (exists ex,
                      r = Throw failedToGetFixes /\
                      a = setApiError (messageOf ex) (responseDataOf ex) a3)
              end
          end
      end
  end.

(** The world [wlog] in which the last call of [logAudit] of a call of
    [fixDeploymentErrors] from the world [w] starts, [a] being the record
    of that last call: no directory is gone, the records written before
    are there, and as long as no response was kept in the record (so that
    no file of a reply was written) the file system is that of [w], or
    what an earlier call of [logAudit] has made of it. *)
Definition logStart (e : env) (projectDir : string) (w wlog : world) (a : auditData) : Prop :=
  dirsKept w wlog /\
  (exists earlier, audits wlog = audits w ++ earlier) /\
  (au_response a = None ->
   fs wlog = fs w \/
   exists a1 w1,
     fs w1 = fs w /\ cwd w1 = cwd w /\
     wlog = fst (logAudit e projectDir (au_attempt a1) a1 w1)).

(** What the audit record [a] of a call tells, given the reply to its
    prompt and the outcome [r] of the call. *)
Definition recordTells (reply : postResult) (a : auditData) (r : outcome fixResult) : Prop :=
  match reply with
  | PostFail m _ =>
      r = Throw failedToGetFixes /\ au_success a = false /\
      au_rawResponse a = None /\ au_response a = None /\ au_parseError a = None /\
      au_apiError a = Some m
  | PostOk text =>
      au_rawResponse a = Some text /\
      match jsonMatch text with
      | None =>
          r = Throw failedToGetFixes /\ au_success a = false /\
          au_response a = None /\ au_parseError a = None /\
          au_apiError a = Some couldNotFindJson
      | Some fragment =>
          match Json.parse fragment with
          | None =>
              r = Throw failedToGetFixes /\ au_success a = false /\
              au_response a = None /\ au_parseError a = Some syntaxErrorMessage /\
              au_apiError a = Some invalidJsonFormat
          | Some parsed =>
              match nonEmptyFiles parsed with
              | None =>
                  r = Throw failedToGetFixes /\ au_success a = false /\
                  au_response a = None /\ au_parseError a = Some noFilesIncluded /\
                  au_apiError a = Some invalidJsonFormat
              | Some _ =>
                  au_response a = Some (ensureSummary parsed) /\ au_parseError a = None /\
                  ((exists written,
                       r = Ret (FixResult written (summaryOf (ensureSummary parsed))) /\
                       au_success a = true /\ au_apiError a = None) \/
                   (r = Throw failedToGetFixes /\ au_success a = false /\
                    exists m, au_apiError a = Some m))
              end
          end
      end
  end.

(** An audit record as a call starts with it. *)
Definition freshAudit (a : auditData) : Prop :=
  au_response a = None /\ au_success a = false /\ au_rawResponse a = None /\
  au_parseError a = None /\ au_jsonFragment a = None /\ au_apiError a = None.

(** A reply file as the JSON object [{ filename, content }]. *)
Definition fileObject (f : fixFile) : Json.json :=
  Json.JObj [("filename", Json.JStr (filename f)); ("content", Json.JStr (content f))].

(** ** Sample inputs *)

Module Sample.

(** A project at [/proj] with nothing but its [cdk.json]. *)
Definition bareProject : gmap string node :=
  <["/proj/cdk.json" := File "{}" true]> (<["/proj" := Dir]> ∅).

Definition worldOf (f : gmap string node) : world := World f "/proj" 0 [] [].

Definition optionsWith (maxAttempts : option string) : options :=
  Options "/proj" None None "us-east-1" maxAttempts.

Definition member (key value : string) : string :=
  Str.dquote +:+ key +:+ Str.dquote +:+ ": " +:+ Str.dquote +:+ value +:+ Str.dquote.

(** A reply with one file, [lib/a.ts], and some prose around the JSON. *)
Definition goodReply : string :=
  "Here is the fix: {" +:+ member "summary" "pin the runtime" +:+ ", " +:+
  Str.dquote +:+ "files" +:+ Str.dquote +:+ ": [{" +:+
  member "filename" "lib/a.ts" +:+ ", " +:+ member "content" "X" +:+ "}]} Good luck.".

Definition deployCommand : string := "npx cdk deploy --require-approval never".

(** The deployment command fails in the first [failures] attempts that
    reach it; every other command succeeds.  The endpoint answers with
    [reply], or fails when there is none. *)
Definition environment (failing : nat -> bool) (reply : option string) : env :=
  Env (Some "sk-test") None
      (fun n command f =>
         (f, if String.eqb command deployCommand && failing n
             then ExecFail "Command failed: npx cdk deploy" "" "lib/a.ts:3:7 - error TS2322"
             else ExecOk "" ""))
      (fun _ _ => match reply with
                  | Some text => PostOk text
                  | None => PostFail "connect ECONNREFUSED" None
                  end)
      (fun _ => "2025-03-01T10:00:00.000Z").

Definition always : nat -> bool := fun _ => true.
Definition onlyFirst : nat -> bool := fun n => (n <? 3)%nat.

End Sample.

Module SampleDist.

(** A project with a source file and its compiled form under [dist/]. *)
Definition project : gmap string node :=
  <["/proj/dist/lib/a.js" := File "compiled" true]>
    (<["/proj/dist/lib" := Dir]>
       (<["/proj/dist" := Dir]>
          (<["/proj/lib/a.ts" := File "source" true]>
             (<["/proj/lib" := Dir]> Sample.bareProject)))).

(** A stack frame of the compiled file. *)
Definition errorText : string := "dist/lib/a.js:12" +:+ Str.nl +:+ "TypeError: x is not a function".

End SampleDist.

Module SampleRuns.

(** The project of a run that left a write-protected [fix-history.json]. *)
Definition protectedHistory : gmap string node :=
  <["/proj/fix-history.json" := File "[]" false]> Sample.bareProject.

(** The first deployment fails, the fix is applied, the second deployment
    succeeds, and the history cannot be written. *)
Definition fatalAfterSuccess : mainState * outcome (option Z) :=
  main (Sample.environment Sample.onlyFirst (Some Sample.goodReply))
       (Sample.optionsWith (Some "5"))
       (start (Sample.worldOf protectedHistory)).

(** The first deployment fails, the endpoint cannot be reached, the second
    deployment succeeds. *)
Definition unreachableEndpoint : mainState * outcome (option Z) :=
  main (Sample.environment Sample.onlyFirst None)
       (Sample.optionsWith (Some "5"))
       (start (Sample.worldOf Sample.bareProject)).

(** Every deployment fails, and the bound is given as [0]. *)
Definition boundZero : mainState * outcome (option Z) :=
  main (Sample.environment Sample.always None)
       (Sample.optionsWith (Some "0"))
       (start (Sample.worldOf Sample.bareProject)).

End SampleRuns.

Module SampleFixes.

(** The file of the specification: [lib/a.ts] with the content [X]. *)
Definition one : list fixFile := [FixFile "lib/a.ts" "X"].

(** The same file twice, with two contents. *)
Definition twice : list fixFile := [FixFile "lib/a.ts" "X"; FixFile "lib/a.ts" "Y"].

Definition apply (files : list fixFile) : world * outcome (list fixFile) :=
  applyFixes "/proj" (map fileObject files) (Sample.worldOf Sample.bareProject).

End SampleFixes.

Module SampleInternal.

(** A project with a source directory called [internal]. *)
Definition project : gmap string node :=
  <["/proj/internal/util.ts" := File "export const x = 1" true]>
    (<["/proj/internal" := Dir]> Sample.bareProject).

(** A compiler error that names the file by its absolute path. *)
Definition errorText : string :=
  "/proj/internal/util.ts:3:1 - error TS2304: Cannot find name 'y'.".

End SampleInternal.

Module SampleSpellings.

(** A project with one source file. *)
Definition project : gmap string node :=
  <["/proj/lib/a.ts" := File "source" true]> (<["/proj/lib" := Dir]> Sample.bareProject).

(** Two compiler errors that name that file, each in its own way. *)
Definition errorText : string :=
  "lib/a.ts:3:7 - error TS2322" +:+ Str.nl +:+ "./lib/a.ts:9:1 - error TS2304".

End SampleSpellings.

Module SampleAudit.

Definition failed : errorRecord :=
  ErrorRecord "Command failed: npx cdk deploy" "" "lib/a.ts:3:7 - error TS2322".

(** The project with its audit directory. *)
Definition withAuditDirectory : gmap string node :=
  <["/proj/.archline-audit" := Dir]> Sample.bareProject.

(** The project with a file where the audit directory should be. *)
Definition blockedAuditDirectory : gmap string node :=
  <["/proj/.archline-audit" := File "" true]> Sample.bareProject.

(** A call that succeeds, with the audit directory in place. *)
Definition audited : world * outcome fixResult :=
  fixDeploymentErrors (Sample.environment Sample.always (Some Sample.goodReply))
    "/proj" "" failed [] (Sample.worldOf withAuditDirectory).

(** The same call when the audit directory cannot be made. *)
Definition blocked : world * outcome fixResult :=
  fixDeploymentErrors (Sample.environment Sample.always (Some Sample.goodReply))
    "/proj" "" failed [] (Sample.worldOf blockedAuditDirectory).

(** A call that cannot reach the endpoint, with the audit directory in
    place. *)
Definition unreachable : world * outcome fixResult :=
  fixDeploymentErrors (Sample.environment Sample.always None)
    "/proj" "" failed [] (Sample.worldOf withAuditDirectory).

(** A call that is answered without a JSON object, with the audit
    directory in place. *)
Definition answeredInProse : world * outcome fixResult :=
  fixDeploymentErrors (Sample.environment Sample.always (Some "I cannot help with that."))
    "/proj" "" failed [] (Sample.worldOf withAuditDirectory).

(** A call that cannot reach the endpoint, in a project that has no audit
    directory yet. *)
Definition freshUnreachable : world * outcome fixResult :=
  fixDeploymentErrors (Sample.environment Sample.always None)
    "/proj" "" failed [] (Sample.worldOf Sample.bareProject).

(** A reply whose one file has the name of the audit directory. *)
Definition overwritingReply : string :=
  "{" +:+ Sample.member "summary" "pin the runtime" +:+ ", " +:+
  Str.dquote +:+ "files" +:+ Str.dquote +:+ ": [{" +:+
  Sample.member "filename" ".archline-audit" +:+ ", " +:+ Sample.member "content" "X" +:+ "}]}".

(** A call with that reply, in a project that has no audit directory yet. *)
Definition overwritten : world * outcome fixResult :=
  fixDeploymentErrors (Sample.environment Sample.always (Some overwritingReply))
    "/proj" "" failed [] (Sample.worldOf Sample.bareProject).

End SampleAudit.

Module SampleReplies.

(** A reply without any brace. *)
Definition prose : string := "I cannot help with that.".

(** A reply whose braces do not hold JSON. *)
Definition broken : string := "Try this: {files: none}".

(** A reply with an empty list of files. *)
Definition noFiles : string :=
  "{" +:+ Sample.member "summary" "nothing to do" +:+ ", " +:+
  Str.dquote +:+ "files" +:+ Str.dquote +:+ ": []}".

(** A reply with a file and no summary. *)
Definition noSummaryGiven : string :=
  "{" +:+ Str.dquote +:+ "files" +:+ Str.dquote +:+ ": [{" +:+
  Sample.member "filename" "lib/a.ts" +:+ ", " +:+ Sample.member "content" "X" +:+ "}]}".

Definition startState : fixState :=
  FixState (Sample.worldOf Sample.bareProject)
    (AuditData 1 "2025-03-01T10:00:00.000Z" SampleAudit.failed [] "prompt"
               None false None None None None None).

(** The reading of a reply, from the request on. *)
Definition answer (reply : string) : fixState * outcome fixResult :=
  requestAndApply (Sample.environment Sample.always (Some reply)) "/proj" "prompt" startState.

End SampleReplies.

(** ** More vocabulary *)

(** The value of [content] as a number in base 31, its code units being
    the digits, from the start value [h]: what the loop of
    [calculateChecksum] computes when nothing wraps around. *)
Fixpoint polynomial (h : Z) (content : string) : Z :=
  match content with
  | EmptyString => h
  | String c content' => polynomial (31 * h + Z.of_nat (nat_of_ascii c)) content'
  end.

(** The character does not occur in the string. *)
Definition without (c : ascii) (s : string) : Prop := Str.mem c s = false.

(** [/o[\s\S]*c/] for two characters [o] and [c]. *)
Definition spanPattern (opening closing : ascii) : Regex.regex :=
  Regex.Seq (Regex.Chr (Regex.only opening))
    (Regex.Seq (Regex.Star (Regex.Chr Regex.anyChar)) (Regex.Chr (Regex.only closing))).

(** A computation on the world that leaves the audit directory and the
    record of the files read as they are. *)
Definition silent {A : Type} (m : IO A) : Prop :=
  forall w, audits (fst (m w)) = audits w /\ reads (fst (m w)) = reads w.

(** A step of [main] keeps a property of its state, however it ends. *)
Definition keeps {A : Type} (P : mainState -> Prop) (m : M mainState A) : Prop :=
  forall s, P s -> P (fst (m s)).

(** A run in which no fix was ever obtained: the history is empty, the
    audit directory is as it was in [w0], the files read are [rd], and
    every fix step failed. *)
Definition unaided (w0 : world) (rd : list string) (s : mainState) : Prop :=
  fixHistory s = [] /\
  audits (ms_world s) = audits w0 /\
  reads (ms_world s) = rd /\
  forall n ok, In (FixStep n ok) (events s) -> ok = false.

(** The diagram that [main] reads, if the option names one. *)
Definition diagramRead (o : options) : list string :=
  match opt_diagram o with
  | Some diagram => if negb (String.eqb diagram "") then [diagram] else []
  | None => []
  end.

Module SampleNoKey.

(** No key, and a deployment command that always fails. *)
Definition environment : env :=
  Env None None
      (fun n command f =>
         (f, if String.eqb command Sample.deployCommand
             then ExecFail "Command failed: npx cdk deploy" "" "lib/a.ts:3:7 - error TS2322"
             else ExecOk "" ""))
      (fun _ _ => PostOk Sample.goodReply)
      (fun _ => "2025-03-01T10:00:00.000Z").

Definition run : mainState * outcome (option Z) :=
  main environment (Sample.optionsWith (Some "3")) (start (Sample.worldOf Sample.bareProject)).

(** A directory without [cdk.json]. *)
Definition emptyDirectory : gmap string node := <["/proj" := Dir]> ∅.

End SampleNoKey.

(** A name that is one segment of a path: not empty, without a slash, and
    neither [.] nor [..]. *)
Definition segmentName (name : string) : Prop :=
  name <> "" /\ Str.mem Path.slash name = false /\ name <> "." /\ name <> "..".

(** ** [plantuml-to-aws.js]: the project generator *)

Module PlantUml.

(** *** [generateCdkCode] *)

Definition contextSection (contextContent : string) : string :=
  if negb (String.eqb contextContent "") then
    Str.nl +:+ "Additional context and requirements:" +:+ Str.nl +:+ contextContent +:+ Str.nl
  else "".

Definition buildPrompt (plantUmlContent contextContent : string) : string :=
  Str.join Str.nl
    [ "";
      "I have a PlantUML diagram representing an AWS architecture. Please analyze this diagram and generate a complete, deployable AWS CDK project in TypeScript. Include all necessary files including lib files, bin files, package.json, and tsconfig.json.";
      "";
      "The CDK code should:";
      "1. Match the architecture shown in the diagram exactly";
      "2. Include proper IAM permissions and security configurations";
      "3. Use best practices for AWS resource configuration";
      "4. Include comments explaining key components";
      "5. Be immediately deployable with minimal manual changes" +:+ contextSection contextContent;
      "";
      "The PlantUML diagram is:";
      "";
      fence;
      plantUmlContent;
      fence;
      "";
      "IMPORTANT: Format your response as a JSON array of objects, where each object represents a file with the following structure:";
      "[";
      "  {";
      "    " +:+ Str.dquote +:+ "filename" +:+ Str.dquote +:+ ": " +:+ Str.dquote +:+ "relative/path/to/file.ts" +:+ Str.dquote +:+ ",";
      "    " +:+ Str.dquote +:+ "content" +:+ Str.dquote +:+ ": " +:+ Str.dquote +:+ "// The complete file content here..." +:+ Str.dquote;
      "  },";
      "  ... additional files ...";
      "]";
      "";
      "Include at minimum these essential files:";
      "- bin/app.ts (main entry point)";
      "- lib/stack.ts (the main stack)";
      "- package.json (with all dependencies)";
      "- tsconfig.json";
      "- cdk.json";
      "";
      "DO NOT include README.md, test files, or any other documentation files.";
      "DO NOT include any comments or explanations outside of the JSON response. The JSON should be valid and parsable.";
      "" ].

(** [/\[[\s\S]*\]/] *)
Definition jsonArrayPattern : Regex.regex :=
  Regex.Seq (Regex.lit "[") (Regex.Seq (Regex.Star (Regex.Chr Regex.anyChar)) (Regex.lit "]")).

Definition jsonMatch (responseText : string) : option string :=
  match Regex.search jsonArrayPattern responseText with
  | Some m => Some (Regex.whole m)
  | None => None
  end.

Definition failedToGenerate : exn := Error "Failed to generate CDK code".

(** [generateCdkCode(plantUmlContent, contextContent)]: the parsed reply. *)
Definition generateCdkCode (e : env) (plantUmlContent contextContent : string) : IO Json.json :=
  if negb (keyConfigured e) then
    throw (Error "Anthropic API key is not set. Please set the ANTHROPIC_API_KEY environment variable.")
  else
    let prompt := buildPrompt plantUmlContent contextContent in
    tryCatch
      (responseText <- postPrompt e prompt ;;
       match jsonMatch responseText with
       | None => throw (Error "Could not find properly formatted JSON response")
       | Some fragment =>
           tryCatch
             (match Json.parse fragment with
              | Some files => ret files
              | None => throw (Error syntaxErrorMessage)
              end)
             (fun _ => throw (Error "Invalid JSON format in response"))
       end)
      (fun _ => throw failedToGenerate).

(** *** [createCdkProject] and [ensureEssentialFiles] *)

(** The default [package.json]. *)
Definition packageJson : Json.json :=
  Json.JObj
    [ ("name", Json.JStr "aws-cdk-project");
      ("version", Json.JStr "0.1.0");
      ("bin",
      Json.JObj
        [ ("aws-cdk-project", Json.JStr "bin/app.js") ]);
      ("scripts",
      Json.JObj
        [ ("build", Json.JStr "tsc");
          ("watch", Json.JStr "tsc -w");
          ("test", Json.JStr "jest");
          ("cdk", Json.JStr "cdk") ]);
      ("devDependencies",
      Json.JObj
        [ ("@types/jest", Json.JStr "^29.5.3");
          ("@types/node", Json.JStr "20.4.2");
          ("aws-cdk", Json.JStr "2.89.0");
          ("jest", Json.JStr "^29.6.1");
          ("ts-jest", Json.JStr "^29.1.1");
          ("ts-node", Json.JStr "^10.9.1");
          ("typescript", Json.JStr "~5.1.6") ]);
      ("dependencies",
      Json.JObj
        [ ("aws-cdk-lib", Json.JStr "2.89.0");
          ("constructs", Json.JStr "^10.0.0");
          ("source-map-support", Json.JStr "^0.5.21") ]) ].

(** The default [tsconfig.json]. *)
Definition tsConfig : Json.json :=
  Json.JObj
    [ ("compilerOptions",
      Json.JObj
        [ ("target", Json.JStr "ES2018");
          ("module", Json.JStr "commonjs");
          ("lib", Json.JArr [Json.JStr "es2018"]);
          ("declaration", Json.JBool true);
          ("strict", Json.JBool true);
          ("noImplicitAny", Json.JBool true);
          ("strictNullChecks", Json.JBool true);
          ("noImplicitThis", Json.JBool true);
          ("alwaysStrict", Json.JBool true);
          ("noUnusedLocals", Json.JBool false);
          ("noUnusedParameters", Json.JBool false);
          ("noImplicitReturns", Json.JBool true);
          ("noFallthroughCasesInSwitch", Json.JBool false);
          ("inlineSourceMap", Json.JBool true);
          ("inlineSources", Json.JBool true);
          ("experimentalDecorators", Json.JBool true);
          ("strictPropertyInitialization", Json.JBool false);
          ("typeRoots", Json.JArr [Json.JStr "./node_modules/@types"]) ]);
      ("exclude", Json.JArr [Json.JStr "node_modules"; Json.JStr "cdk.out"]);
      ("include", Json.JArr [Json.JStr "bin/**/*"; Json.JStr "lib/**/*"]) ].

(** The default [cdk.json]. *)
Definition cdkJson : Json.json :=
  Json.JObj
    [ ("app", Json.JStr "npx ts-node --prefer-ts-exts bin/app.ts");
      ("watch",
      Json.JObj
        [ ("include", Json.JArr [Json.JStr "**"]);
          ("exclude",
          Json.JArr
            [ Json.JStr "README.md";
              Json.JStr "cdk*.json";
              Json.JStr "**/*.d.ts";
              Json.JStr "**/*.js";
              Json.JStr "tsconfig.json";
              Json.JStr "package*.json";
              Json.JStr "yarn.lock";
              Json.JStr "node_modules";
              Json.JStr "test" ]) ]);
      ("context",
      Json.JObj
        [ ("@aws-cdk/aws-lambda:recognizeLayerVersion", Json.JBool true);
          ("@aws-cdk/core:checkSecretUsage", Json.JBool true);
          ("@aws-cdk/core:target-partitions", Json.JArr [Json.JStr "aws"; Json.JStr "aws-cn"]);
          ("@aws-cdk-containers/ecs-service-extensions:enableDefaultLogDriver", Json.JBool true);
          ("@aws-cdk/aws-ec2:uniqueImdsv2TemplateName", Json.JBool true);
          ("@aws-cdk/aws-ecs:arnFormatIncludesClusterName", Json.JBool true);
          ("@aws-cdk/aws-iam:minimizePolicies", Json.JBool true);
          ("@aws-cdk/core:validateSnapshotRemovalPolicy", Json.JBool true);
          ("@aws-cdk/aws-codepipeline:crossAccountKeyAliasStackSafeResourceName", Json.JBool true);
          ("@aws-cdk/aws-s3:createDefaultLoggingPolicy", Json.JBool true);
          ("@aws-cdk/aws-sns-subscriptions:restrictSqsDescryption", Json.JBool true);
          ("@aws-cdk/aws-apigateway:disableCloudWatchRole", Json.JBool true);
          ("@aws-cdk/core:enablePartitionLiterals", Json.JBool true);
          ("@aws-cdk/aws-events:eventsTargetQueueSameAccount", Json.JBool true);
          ("@aws-cdk/aws-iam:standardizedServicePrincipals", Json.JBool true);
          ("@aws-cdk/aws-ecs:disableExplicitDeploymentControllerForCircuitBreaker",
          Json.JBool true);
          ("@aws-cdk/aws-iam:importedRoleStackSafeDefaultPolicyName", Json.JBool true);
          ("@aws-cdk/aws-s3:serverAccessLogsUseBucketPolicy", Json.JBool true);
          ("@aws-cdk/aws-route53-patters:useCertificate", Json.JBool true);
          ("@aws-cdk/customresources:installLatestAwsSdkDefault", Json.JBool false);
          ("@aws-cdk/aws-rds:databaseProposedMajorVersionUpgrade", Json.JBool true);
          ("@aws-cdk/aws-appsync:useArnForSourceApiAssociationIdentifier", Json.JBool true);
          ("@aws-cdk/aws-rds:lowercaseDbIdentifier", Json.JBool true);
          ("@aws-cdk/aws-stepfunctions-tasks:enableEmrServicePolicyV2", Json.JBool true);
          ("@aws-cdk/aws-ec2:launchTemplateDefaultUserData", Json.JBool true);
          ("@aws-cdk/aws-secretsmanager:useAttachedSecretResourcePolicyForSecretTargetAttachments",
          Json.JBool true);
          ("@aws-cdk/aws-redshift:columnId", Json.JBool true) ]) ].

(** The default [.gitignore]. *)
Definition gitignore : string :=
  Str.join Str.nl
    [ "# CDK asset staging directory";
      ".cdk.staging";
      "cdk.out";
      "";
      "# Dependencies";
      "node_modules";
      "";
      "# Compiled output";
      "*.js";
      "!jest.config.js";
      "*.d.ts";
      "";
      "# IDE files";
      ".idea/";
      ".vscode/";
      "*.swp";
      "*.swo";
      "";
      "# OS files";
      ".DS_Store";
      "" ].

(** The name of the property that [map[v]] selects: the string that [v]
    becomes.  (Of a number this is its lexeme; the program asks for the
    properties [package.json], [tsconfig.json], [cdk.json] and
    [.gitignore] only, which no number becomes.) *)
Definition propertyKey (v : option Json.json) : string :=
  match v with
  | Some j => Json.display j
  | None => "undefined"
  end.

(** [files.reduce((map, file) => { map[file.filename] = true; return map; }, map)];
    [file.filename] throws when [file] is [null]. *)
Fixpoint fileMapFrom (map : gmap string bool) (files : list Json.json)
  : outcome (gmap string bool) :=
  match files with
  | [] => Ret map
  | Json.JNull :: _ => Throw (Error "Cannot read properties of null (reading 'filename')")
  | file :: files' =>
      fileMapFrom (<[propertyKey (Json.get "filename" file) := true]> map) files'
  end.

(** [fileMap[name]], as a condition. *)
Definition listed (fileMap : gmap string bool) (name : string) : bool :=
  match fileMap !! name with
  | Some b => b
  | None => false
  end.

(** [if (!fileMap[name]) { await fs.writeFile(path.join(outputDir, name), text); }] *)
Definition writeDefault (outputDir : string) (fileMap : gmap string bool) (name text : string)
  : IO unit :=
  if listed fileMap name then ret tt
  else Fs.writeFile (Path.join outputDir name) text.

(** [ensureEssentialFiles(outputDir, files)] *)
Definition ensureEssentialFiles (outputDir : string) (files : list Json.json) : IO unit :=
  match fileMapFrom ∅ files with
  | Throw ex => throw ex
  | Ret fileMap =>
      writeDefault outputDir fileMap "package.json" (Json.stringify packageJson) >>
      writeDefault outputDir fileMap "tsconfig.json" (Json.stringify tsConfig) >>
      writeDefault outputDir fileMap "cdk.json" (Json.stringify cdkJson) >>
      writeDefault outputDir fileMap ".gitignore" gitignore
  end.

(** [fileExists(files, filename)]: [files.some(file => file.filename === filename)] *)
Definition fileExists (files : list Json.json) (name : string) : outcome bool :=
  (fix some (files : list Json.json) : outcome bool :=
     match files with
     | [] => Ret false
     | Json.JNull :: _ => Throw (Error "Cannot read properties of null (reading 'filename')")
     | file :: files' =>
         match Json.get "filename" file with
         | Some (Json.JStr s) => if String.eqb s name then Ret true else some files'
         | _ => some files'
         end
     end) files.

(** [createCdkProject(outputDir, files)]; the loop over the files has the
    body of the loop of [fixDeploymentErrors]. *)
Definition createCdkProject (outputDir : string) (files : list Json.json) : IO unit :=
  Fs.mkdirRecursive outputDir >>
  _ <- applyFixes outputDir files ;;
  ensureEssentialFiles outputDir files.

(** [installDependencies(projectDir)] *)
Definition installDependencies (e : env) (projectDir : string) : IO bool :=
  tryCatch
    (Fs.chdir projectDir >>
     _ <- execPromise e "npm install" ;;
     ret true)
    (fun _ => throw (Error "Dependency installation failed")).

(** [saveSourceFiles(outputDir, plantUmlContent, contextContent)] *)
Definition saveSourceFiles (outputDir plantUmlContent contextContent : string) : IO unit :=
  tryCatch
    (let sourceDir := Path.join outputDir "source" in
     Fs.mkdirRecursive sourceDir >>
     Fs.writeFile (Path.join sourceDir "architecture.puml") plantUmlContent >>
     if negb (String.eqb contextContent "")
     then Fs.writeFile (Path.join sourceDir "context.txt") contextContent
     else ret tt)
    (fun _ => ret tt).

(** *** [deployCdkProject] and [main] *)

(** The options of the command line that [main] and [deployCdkProject]
    read; [--profile] and [--region] only reach the environment of the
    commands. *)
Record options : Type := Options {
  opt_input : option string;
  opt_output : string;
  opt_context : option string;
  opt_deploy : bool;
  opt_yes : bool
}.

(** [deployCdkProject(projectDir)]; [answer] is what
    [inquirer.prompt] gives for [confirm] when the question is asked. *)
Definition deployCdkProject (e : env) (o : options) (answer : outcome bool)
           (projectDir : string) : IO unit :=
  tryCatch
    (Fs.chdir projectDir >>
     proceed <- (if negb (opt_yes o)
                 then (fun w => (w, answer))
                 else ret true) ;;
     if proceed : bool then
       _ <- execPromise e "npm run cdk bootstrap" ;;
       _ <- execPromise e "npm run cdk deploy --require-approval never" ;;
       _ <- execPromise e "npm run cdk list-outputs" ;;
       ret tt
     else ret tt)
    (fun _ => throw (Error "CDK deployment failed")).

(** How [main] ends: it returns, it leaves with [process.exit(1)], or it
    shows the help of the program, which ends the process. *)
Inductive ending : Type :=
| Finished
| Exited (code : Z)
| Help.

(** The [try] block of [main]. *)
Definition mainBody (e : env) (o : options) (answer : outcome bool) : IO ending :=
  match opt_input o with
  | None => ret Help
  | Some inputPath =>
      if String.eqb inputPath "" then ret Help
      else
        plantUmlContent <- Fs.readFile inputPath ;;
        contextContent <-
          match opt_context o with
          | Some context =>
              if negb (String.eqb context "")
              then tryCatch (Fs.readFile context) (fun _ => ret "")
              else ret ""
          | None => ret ""
          end ;;
        files <- generateCdkCode e plantUmlContent contextContent ;;
        workDir <- getCwd ;;
        let outputDir := Path.resolve workDir (opt_output o) in
        match files with
        | Json.JArr items => createCdkProject outputDir items
        | _ => Fs.mkdirRecursive outputDir >> throw (Error "files is not iterable")
        end >>
        _ <- installDependencies e outputDir ;;
        (if opt_deploy o then deployCdkProject e o answer outputDir else ret tt) >>
        ret Finished
  end.

(** [main()] *)
Definition main (e : env) (o : options) (answer : outcome bool) : IO ending :=
  tryCatch (mainBody e o answer) (fun _ => ret (Exited 1)).

End PlantUml.

(** A computation that runs at most [n] commands and requests: each of
    them moves the clock of the world by one. *)
Definition runsAtMost {A : Type} (n : nat) (m : IO A) : Prop :=
  forall w, (ticks w <= ticks (fst (m w)) <= ticks w + n)%nat.

(** A computation that leaves the file system and the working directory
    as they are. *)
Definition untouched {A : Type} (m : IO A) : Prop :=
  forall w, fs (fst (m w)) = fs w /\ cwd (fst (m w)) = cwd w.

(** The deployment was asked for and agreed to. *)
Definition consent (o : PlantUml.options) (answer : outcome bool) : bool :=
  PlantUml.opt_deploy o &&
  (PlantUml.opt_yes o ||
   match answer with
   | Ret true => true
   | _ => false
   end).

(** The commands of [deployCdkProject]. *)
Definition deployCommands : list string :=
  [ "npm run cdk bootstrap";
    "npm run cdk deploy --require-approval never";
    "npm run cdk list-outputs" ].

(** The commands of a run of the project generator: [npm install], and
    those of the deployment when it was asked for and agreed to. *)
Definition commandsOf (o : PlantUml.options) (answer : outcome bool) : list string :=
  "npm install" :: (if consent o answer then deployCommands else []).

(** Two environments that answer alike where a run asks: they have the
    same key, give the same reply to the request that is the interaction
    number [n], and the same outcome to each of the commands [commands],
    whenever and wherever it is run.  Everything else may differ: the
    replies to other requests, the outcomes of other commands, the clock. *)
Definition sameAnswers (n : nat) (commands : list string) (e1 e2 : env) : Prop :=
  apiKey e1 = apiKey e2 /\
  (forall prompt, postMessage e1 n prompt = postMessage e2 n prompt) /\
  (forall k command f,
      In command commands -> runCommand e1 k command f = runCommand e2 k command f).

(** The files that [ensureEssentialFiles] provides, with their default
    texts. *)
Definition essentialFiles : list (string * string) :=
  [ ("package.json", Json.stringify PlantUml.packageJson);
    ("tsconfig.json", Json.stringify PlantUml.tsConfig);
    ("cdk.json", Json.stringify PlantUml.cdkJson);
    (".gitignore", PlantUml.gitignore) ].

(** The names under which the generated files are entered in [fileMap]. *)
Definition generatedNames (files : list Json.json) : list string :=
  map (fun file => PlantUml.propertyKey (Json.get "filename" file)) files.

Module SamplePlantUml.

(** A root directory and nothing else. *)
Definition emptyWorld : world := World ∅ "/" 0 [] [].

(** A generated project whose [package.json] is named with a leading
    [./]. *)
Definition files : list Json.json :=
  [ fileObject (FixFile "./package.json" "GENERATED");
    fileObject (FixFile "lib/stack.ts" "STACK") ].

Definition created : world * outcome unit :=
  PlantUml.createCdkProject "/out" files emptyWorld.

End SamplePlantUml.

(** ** [fix-registry.js]: components and error patterns *)

Module FixRegistry.

(** [String.prototype.toLowerCase] on one code unit below 256: the
    letters [A] to [Z], and the capital letters of Latin-1 from [U+00C0]
    to [U+00DE] without the multiplication sign [U+00D7]. *)
Definition lowerChar (c : ascii) : ascii :=
  let n := nat_of_ascii c in
  if ((65 <=? n)%nat && (n <=? 90)%nat) ||
     ((192 <=? n)%nat && (n <=? 222)%nat && negb (n =? 215)%nat)
  then ascii_of_nat (n + 32)
  else c.

(** [s.toLowerCase()] *)
Fixpoint toLowerCase (s : string) : string :=
  match s with
  | EmptyString => EmptyString
  | String c s' => String (lowerChar c) (toLowerCase s')
  end.

Definition commonComponents : list string :=
  [ "Lambda"; "S3"; "DynamoDB"; "API Gateway"; "CloudFront";
    "EventBridge"; "SNS"; "SQS"; "EC2"; "VPC"; "IAM";
    "CloudFormation"; "CloudWatch"; "ECS"; "EKS"; "RDS" ].

(** [Object.entries(cdkPatterns)] *)
Definition cdkPatterns : list (string * string) :=
  [ ("lambda", "Lambda");
    ("bucket", "S3");
    ("table", "DynamoDB");
    ("api", "API Gateway");
    ("distribution", "CloudFront");
    ("rule", "EventBridge");
    ("topic", "SNS");
    ("queue", "SQS");
    ("instance", "EC2");
    ("vpc", "VPC");
    ("role", "IAM") ].

(** [components.add(x)] on a [Set], which keeps the order in which its
    elements came. *)
Definition add (x : string) (components : list string) : list string :=
  if existsb (String.eqb x) components then components else components ++ [x].

(** The text that [extractComponentsFromError] searches. *)
Definition componentsText (error : Registry.errorInfo) : string :=
  orEmpty (Registry.stdout error) +:+ " " +:+ orEmpty (Registry.stderr error) +:+ " " +:+
  orEmpty (Registry.message error).

(** [extractComponentsFromError(error)] *)
Definition extractComponentsFromError (error : Registry.errorInfo) : list string :=
  let errorText := componentsText error in
  let named :=
    fold_left
      (fun components component =>
         if Str.includes errorText component ||
            Str.includes (toLowerCase errorText) (toLowerCase component)
         then add component components
         else components)
      commonComponents [] in
  fold_left
    (fun components entry =>
       if Str.includes errorText (fst entry) then add (snd entry) components else components)
    cdkPatterns named.

(** [[^\n]] *)
Definition notNewline : ascii -> bool := Regex.notc (Regex.only (Str.chr 10)).

(** The patterns of [extractErrorPattern], in the order of the source. *)
Definition errorPatterns : list Regex.regex :=
  [ (* /is not authorized to perform: ([^\s]+) on resource/ *)
    Regex.Seq (Regex.lit "is not authorized to perform: ")
      (Regex.Seq (Regex.Group (Regex.Plus (Regex.Chr (Regex.notc Regex.space))))
         (Regex.lit " on resource"));
    (* /Resource handler returned message: \x22([^\x22]+)\x22/ *)
    Regex.Seq (Regex.lit "Resource handler returned message: ")
      (Regex.Seq (Regex.Chr (Regex.only (Str.chr 34)))
         (Regex.Seq (Regex.Group (Regex.Plus (Regex.Chr (Regex.notc (Regex.only (Str.chr 34))))))
            (Regex.Chr (Regex.only (Str.chr 34)))));
    (* /Error: ([^\n]+)/ *)
    Regex.Seq (Regex.lit "Error: ") (Regex.Group (Regex.Plus (Regex.Chr notNewline)));
    (* /ValidationError: ([^\n]+)/ *)
    Regex.Seq (Regex.lit "ValidationError: ") (Regex.Group (Regex.Plus (Regex.Chr notNewline)));
    (* /Cannot ([^\n:]+)/ *)
    Regex.Seq (Regex.lit "Cannot ")
      (Regex.Group (Regex.Plus (Regex.Chr (Regex.notc (Regex.orc (Regex.only (Str.chr 10))
                                                                  (Regex.only ":")))))) ].

(** The loop over the patterns: [match[1]] of the first pattern that
    matches with a group that is not empty. *)
Fixpoint firstCapture (patterns : list Regex.regex) (errorText : string) : option string :=
  match patterns with
  | [] => None
  | pattern :: patterns' =>
      match Regex.search pattern errorText with
      | Some m =>
          if String.eqb (capture m) "" then firstCapture patterns' errorText
          else Some (capture m)
      | None => firstCapture patterns' errorText
      end
  end.

(** [error.stderr || error.message || ''] *)
Definition patternText (error : Registry.errorInfo) : string :=
  match Registry.stderr error with
  | Some s => if String.eqb s "" then orEmpty (Registry.message error) else s
  | None => orEmpty (Registry.message error)
  end.

(** [extractErrorPattern(error)] *)
Definition extractErrorPattern (error : Registry.errorInfo) : string :=
  let errorText := patternText error in
  match firstCapture errorPatterns errorText with
  | Some found => Regex.trim found
  | None =>
      let firstLine := Regex.trim (hd "" (Str.split (Str.chr 10) errorText)) in
      Str.substring0 100 firstLine
  end.

(** *** The registry on disk *)

(** The state of the module and of the world around it: the object
    [DEFAULT_REGISTRY] is made once, when the module is loaded, and the
    functions of the module hand it out and change it. *)
Record store : Type := Store {
  st_world : world;
  st_default : Json.json
}.

(** [DEFAULT_REGISTRY] as the module makes it at the time [loadedAt]. *)
Definition DEFAULT_REGISTRY (loadedAt : string) : Json.json :=
  Json.JObj [ ("version", Json.JStr "1.0");
              ("lastUpdated", Json.JStr loadedAt);
              ("fixes", Json.JArr []) ].

(** A computation on the world, in the module. *)
Definition lift {A : Type} (m : IO A) : M store A :=
  fun s =>
    let '(w, r) := m (st_world s) in
    (Store w (st_default s), r).

(** A registry in a variable: the object [DEFAULT_REGISTRY] itself, or an
    object of its own, which [JSON.parse] made. *)
Inductive registry : Type :=
| TheDefault
| Own (value : Json.json).

(** The object a variable stands for. *)
Definition valueOf (r : registry) : M store Json.json :=
  fun s => (s, Ret match r with
                   | TheDefault => st_default s
                   | Own value => value
                   end).

(** A change of the object a variable stands for: a change of
    [DEFAULT_REGISTRY] stays in the module. *)
Definition mutate (f : Json.json -> outcome Json.json) (r : registry) : M store registry :=
  fun s =>
    match r with
    | TheDefault =>
        match f (st_default s) with
        | Ret value => (Store (st_world s) value, Ret TheDefault)
        | Throw ex => (s, Throw ex)
        end
    | Own value =>
        match f value with
        | Ret value' => (s, Ret (Own value'))
        | Throw ex => (s, Throw ex)
        end
    end.

(** [Date.now()] and [Math.floor(Math.random() * 1000)], as they come out
    at a tick of the clock. *)
Record chance : Type := Chance {
  dateNow : nat -> Z;
  random : nat -> Z
}.

Definition nowMillis (c : chance) : IO Z :=
  fun w => (tick w, Ret (dateNow c (ticks w))).

Definition randomBelow1000 (c : chance) : IO Z :=
  fun w => (tick w, Ret (random c (ticks w) mod 1000)%Z).

(** [await fs.writeFile(REGISTRY_PATH, JSON.stringify(DEFAULT_REGISTRY, null, 2));
     return DEFAULT_REGISTRY;] *)
Definition createRegistry (registryPath : string) : M store registry :=
  value <- valueOf TheDefault ;;
  lift (Fs.writeFile registryPath (Json.stringify value)) >>
  ret TheDefault.

(** [loadRegistry()]; [registryPath] is [REGISTRY_PATH]. *)
Definition loadRegistry (registryPath : string) : M store registry :=
  tryCatch
    (present <- lift (Fs.existsSync registryPath) ;;
     if negb present then createRegistry registryPath
     else
       data <- lift (Fs.readFile registryPath) ;;
       match Json.parse data with
       | Some value => ret (Own value)
       | None => throw (Error syntaxErrorMessage)
       end)
    (fun _ => createRegistry registryPath).

(** [o.key = v] in code that is not strict: on an object the property is
    set, on [null] a [TypeError] is thrown, and on another value nothing
    happens that [JSON.stringify] shows. *)
Definition assign (key : string) (v : Json.json) (o : Json.json) : outcome Json.json :=
  match o with
  | Json.JObj fields => Ret (Json.JObj (Json.setField key v fields))
  | Json.JNull => Throw (Error ("Cannot set properties of null (setting '" +:+ key +:+ "')"))
  | _ => Ret o
  end.

(** [saveRegistry(registry)] *)
Definition saveRegistry (e : env) (registryPath : string) (r : registry) : M store bool :=
  tryCatch
    (now <- lift (nowISO e) ;;
     r' <- mutate (assign "lastUpdated" (Json.JStr now)) r ;;
     value <- valueOf r' ;;
     lift (Fs.writeFile registryPath (Json.stringify value)) >>
     ret true)
    (fun _ => ret false).

(** [registry.fixes], when a method of arrays is called on it. *)
Definition fixesOf (method : string) (value : Json.json) : outcome (list Json.json) :=
  match value with
  | Json.JNull => Throw (Error "Cannot read properties of null (reading 'fixes')")
  | _ =>
      match Json.get "fixes" value with
      | Some (Json.JArr items) => Ret items
      | None | Some Json.JNull =>
          Throw (Error ("Cannot read properties of undefined (reading '" +:+ method +:+ "')"))
      | Some _ => Throw (Error ("registry.fixes." +:+ method +:+ " is not a function"))
      end
  end.

(** [items.filter(test)] with a test that may throw. *)
Fixpoint filterWith (test : Json.json -> outcome bool) (items : list Json.json)
  : outcome (list Json.json) :=
  match items with
  | [] => Ret []
  | item :: items' =>
      match test item with
      | Throw ex => Throw ex
      | Ret keep =>
          match filterWith test items' with
          | Throw ex => Throw ex
          | Ret kept => Ret (if keep then item :: kept else kept)
          end
      end
  end.

(** The string that a value becomes as an argument of [includes];
    [None] is [undefined]. *)
Definition text (v : option Json.json) : string :=
  match v with
  | Some j => Json.display j
  | None => "undefined"
  end.

(** [fix => errorText.includes(fix.errorPattern)] *)
Definition matchesPattern (errorText : string) (entry : Json.json) : outcome bool :=
  match entry with
  | Json.JNull => Throw (Error "Cannot read properties of null (reading 'errorPattern')")
  | _ => Ret (Str.includes errorText (text (Json.get "errorPattern" entry)))
  end.

(** [fix => fix.components.some(comp => components.includes(comp))], for
    an array [components] of strings. *)
Definition sharesComponent (components : list string) (entry : Json.json) : outcome bool :=
  match entry with
  | Json.JNull => Throw (Error "Cannot read properties of null (reading 'components')")
  | _ =>
      match Json.get "components" entry with
      | Some (Json.JArr comps) =>
          Ret (existsb (fun comp =>
                          match comp with
                          | Json.JStr s => existsb (String.eqb s) components
                          | _ => false
                          end) comps)
      | None | Some Json.JNull =>
          Throw (Error "Cannot read properties of undefined (reading 'some')")
      | Some _ => Throw (Error "fix.components.some is not a function")
      end
  end.

Definition fromOutcome {S A : Type} (r : outcome A) : M S A := fun s => (s, r).

(** [getFixesForComponents(components)], for an array of strings or, with
    a list of one element, a string. *)
Definition getFixesForComponents (registryPath : string) (components : list string)
  : M store (list Json.json) :=
  r <- loadRegistry registryPath ;;
  value <- valueOf r ;;
  items <- fromOutcome (fixesOf "filter" value) ;;
  fromOutcome (filterWith (sharesComponent components) items).

(** [getFixesForErrorPattern(errorText)] *)
Definition getFixesForErrorPattern (registryPath : string) (errorText : string)
  : M store (list Json.json) :=
  r <- loadRegistry registryPath ;;
  value <- valueOf r ;;
  items <- fromOutcome (fixesOf "filter" value) ;;
  fromOutcome (filterWith (matchesPattern errorText) items).

(** [registry.fixes.push(fix)] *)
Definition pushFix (entry : Json.json) (value : Json.json) : outcome Json.json :=
  match fixesOf "push" value, value with
  | Ret items, Json.JObj fields =>
      Ret (Json.JObj (Json.setField "fixes" (Json.JArr (items ++ [entry])) fields))
  | Ret _, _ => Ret value
  | Throw ex, _ => Throw ex
  end.

(** [addFix(fix)] for an object [fix] with the properties [entry]; the
    result is [fix.id]. *)
Definition addFix (e : env) (c : chance) (registryPath : string) (entry : list (string * Json.json))
  : M store (option Json.json) :=
  r <- loadRegistry registryPath ;;
  fix1 <-
    (if negb (Json.truthy (Json.lookupField "id" entry)) then
       now <- lift (nowMillis c) ;;
       n <- lift (randomBelow1000 c) ;;
       ret (Json.setField "id"
              (Json.JStr ("fix-" +:+ Num.toString10 now +:+ "-" +:+ Num.toString10 n)) entry)
     else ret entry) ;;
  fix2 <-
    (if negb (Json.truthy (Json.lookupField "lastUpdated" fix1)) then
       now <- lift (nowISO e) ;;
       ret (Json.setField "lastUpdated" (Json.JStr now) fix1)
     else ret fix1) ;;
  r' <- mutate (pushFix (Json.JObj fix2)) r ;;
  _ <- saveRegistry e registryPath r' ;;
  ret (Json.lookupField "id" fix2).

(** [items.findIndex(fix => fix.id === fixId)] *)
Fixpoint findIndex (fixId : string) (items : list Json.json) : outcome (option nat) :=
  match items with
  | [] => Ret None
  | Json.JNull :: _ => Throw (Error "Cannot read properties of null (reading 'id')")
  | item :: items' =>
      match Json.get "id" item with
      | Some (Json.JStr s) =>
          if String.eqb s fixId then Ret (Some 0%nat)
          else match findIndex fixId items' with
               | Ret (Some i) => Ret (Some (S i))
               | other => other
               end
      | _ =>
          match findIndex fixId items' with
          | Ret (Some i) => Ret (Some (S i))
          | other => other
          end
      end
  end.

(** [{ ...a, ...b }] on the properties of two objects *)
Definition spread (a b : list (string * Json.json)) : list (string * Json.json) :=
  fold_left (fun acc kv => Json.setField (fst kv) (snd kv) acc) b a.

(** [updateFix(fixId, updatedData)] for an object [updatedData] *)
Definition updateFix (e : env) (registryPath : string) (fixId : string)
           (updatedData : list (string * Json.json)) : M store Json.json :=
  r <- loadRegistry registryPath ;;
  value <- valueOf r ;;
  items <- fromOutcome (fixesOf "findIndex" value) ;;
  found <- fromOutcome (findIndex fixId items) ;;
  match found with
  | None => throw (Error ("Fix with ID " +:+ fixId +:+ " not found"))
  | Some fixIndex =>
      now <- lift (nowISO e) ;;
      let old := match items !! fixIndex with
                 | Some (Json.JObj fields) => fields
                 | _ => []
                 end in
      let updated := Json.JObj (spread (spread old updatedData) [("lastUpdated", Json.JStr now)]) in
      r' <- mutate (fun value =>
                      match value with
                      | Json.JObj fields =>
                          Ret (Json.JObj (Json.setField "fixes"
                                            (Json.JArr (<[fixIndex := updated]> items)) fields))
                      | _ => Ret value
                      end) r ;;
      _ <- saveRegistry e registryPath r' ;;
      ret updated
  end.

End FixRegistry.

(** What is left of a string after its longest prefix of characters of a
    class. *)
Fixpoint skipClass (q : ascii -> bool) (s : string) : string :=
  match s with
  | EmptyString => EmptyString
  | String c s' => if q c then skipClass q s' else s
  end.

(** The patterns of [extractErrorPattern] without the fourth one, the one
    for [ValidationError]. *)
Definition errorPatternsInUse : list Regex.regex :=
  firstn 3 FixRegistry.errorPatterns ++ skipn 4 FixRegistry.errorPatterns.

(** The string does not start with white space. *)
Definition trimmedStart (s : string) : Prop :=
  match s with
  | EmptyString => True
  | String c _ => Regex.space c = false
  end.

(** The string does not end with white space. *)
Definition trimmedEnd (s : string) : Prop :=
  match Str.last_char s with
  | None => True
  | Some c => Regex.space c = false
  end.

(** ** [fix-cdk-errors]: the older script of [debug.js]

  The second script of the file has the same loop without the repair of
  write-protected files, a fix step whose reply is a JSON array of files,
  no audit log, and an extractor without the mapping from [dist/]. *)

Module FixCdkErrors.

(** *** [extractRelevantFiles] *)

(** The error patterns: those of the newer script without its last one. *)
Definition patterns : list Regex.regex := firstn 7 patterns.

Definition candidates (errorText : string) : list string :=
  concat (map (fun pattern => map capture (Regex.matchAll pattern errorText)) patterns).

(** [if (path.isAbsolute(filePath) && filePath.startsWith(projectDir))
       filePath = path.relative(projectDir, filePath)] *)
Definition relativeToProject (workDir filePath projectDir : string) : string :=
  if Path.isAbsolute filePath && Str.startsWith filePath projectDir
  then Path.relative workDir projectDir filePath
  else filePath.

(** The body of the inner loop for one value of [match[1]]. *)
Definition visit (projectDir : string) (x : extraction) (found : string) : IO extraction :=
  if skipped found then ret x
  else
    workDir <- getCwd ;;
    let filePath := relativeToProject workDir found projectDir in
    if decide (filePath ∈ filesMentioned x) then ret x
    else
      let x1 := mention filePath x in
      tryCatch
        (let fullPath := Path.join projectDir filePath in
         content <- Fs.readFile fullPath ;;
         ret (pushFile filePath content x1))
        (fun _ => ret x1).

Fixpoint visitAll (projectDir : string) (x : extraction) (found : list string) : IO extraction :=
  match found with
  | [] => ret x
  | f :: found' => x' <- visit projectDir x f ;; visitAll projectDir x' found'
  end.

(** [extractRelevantFiles(errorText, projectDir)] *)
Definition extractRelevantFiles (errorText projectDir : string) : IO (list relevantFile) :=
  x <- visitAll projectDir (Extraction [] ∅) (candidates errorText) ;;
  ret (relevantFiles x).

(** *** [fixDeploymentErrors] *)

(** One entry of [fixHistory]: this script keeps no summary. *)
Record historyEntry : Type := HistoryEntry {
  h_attempt : Z;
  h_message : string;
  h_snippet : string;
  h_fixedFiles : list fixedFile
}.

Definition historyLine (entry : historyEntry) : string :=
  Str.nl +:+ "Attempt " +:+ Num.toString10 (h_attempt entry) +:+ ":" +:+ Str.nl +:+
  "- Error: " +:+ h_snippet entry +:+ Str.nl +:+
  "- Files modified: " +:+ Str.join ", " (map ff_filename (h_fixedFiles entry)) +:+ Str.nl.

Definition fixHistoryContext (history : list historyEntry) : string :=
  match history with
  | [] => ""
  | _ =>
      Str.nl +:+ "Previous fix attempts:" +:+ Str.nl +:+
      String.concat "" (map historyLine history) +:+
      Str.nl +:+ "IMPORTANT: Previous approaches did NOT resolve the issue, so please try a different approach."
  end.

Definition formatInstructions : list string :=
  let q (s : string) := Str.dquote +:+ s +:+ Str.dquote in
  [ "IMPORTANT: Format your response as a JSON array of objects, where each object represents a file with the following structure:";
    "[";
    "  {";
    "    " +:+ q "filename" +:+ ": " +:+ q "relative/path/to/file.ts" +:+ ",";
    "    " +:+ q "content" +:+ ": " +:+ q "// The complete corrected file content here...";
    "  },";
    "  ... additional files if needed ...";
    "]";
    "";
    "Only include files that need to be changed. DO NOT explain the fixes, just provide the corrected files in the JSON format.";
    "" ].

Definition buildPrompt (plantUmlContent errorText : string) (files : list relevantFile)
           (history : list historyEntry) : string :=
  Str.join Str.nl
    ([ "";
       "I'm trying to deploy an AWS CDK project but encountering errors. I need you to fix the code in the affected files.";
       "";
       diagramContext plantUmlContent;
       "";
       fixHistoryContext history;
       "";
       "Here are the files that appear to be related to the errors:";
       "";
       filesContent files;
       "";
       "The deployment error is:";
       "";
       fence;
       errorText;
       fence;
       "";
       "Please identify the issues and provide corrected versions of the files. ";
       "";
       match history with
       | [] => ""
       | _ => "The previous approaches failed, so you need to try something different this time."
       end;
       "" ] ++ formatInstructions).

(** The relevant files, with [lib/stack.ts] as a last resort. *)
Definition relevantOrFallback (errorText projectDir : string) : IO (list relevantFile) :=
  files <- extractRelevantFiles errorText projectDir ;;
  match files with
  | [] =>
      tryCatch
        (text <- Fs.readFile (Path.join projectDir "lib/stack.ts") ;;
         ret [RelevantFile "lib/stack.ts" text])
        (fun _ => ret [])
  | _ => ret files
  end.

(** The [try] block of the call: the request, the reading of the reply
    and the loop that writes the files.  The text that is parsed starts
    with [[], so what it parses to is an array. *)
Definition requestAndApply (e : env) (projectDir prompt : string) : IO (list fixFile) :=
  responseText <- postPrompt e prompt ;;
  match PlantUml.jsonMatch responseText with
  | None => throw (Error couldNotFindJson)
  | Some fragment =>
      fixedFiles <-
        tryCatch
          (match Json.parse fragment with
           | Some parsed => ret parsed
           | None => throw (Error syntaxErrorMessage)
           end)
          (fun _ => throw (Error invalidJsonFormat)) ;;
      match fixedFiles with
      | Json.JArr files => applyFixes projectDir files
      | _ => throw (Error "fixedFiles is not iterable")
      end
  end.

(** [fixDeploymentErrors(projectDir, plantUmlContent, error, fixHistory)] *)
Definition fixDeploymentErrors (e : env) (projectDir plantUmlContent : string)
           (error : errorRecord) (history : list historyEntry) : IO (list fixFile) :=
  if negb (keyConfigured e) then
    throw (Error "Anthropic API key is not set. Please set the ANTHROPIC_API_KEY environment variable.")
  else
    let errorText := err_stdout error +:+ Str.nl +:+ err_stderr error in
    files <- relevantOrFallback errorText projectDir ;;
    let prompt := buildPrompt plantUmlContent errorText files history in
    tryCatch (requestAndApply e projectDir prompt) (fun _ => throw failedToGetFixes).

(** *** [main] *)

(** The state of [main]: the world, the variables of the loop, and the
    record of its steps. *)
Record mainState : Type := MainState {
  ms_world : world;
  attempt : Z;
  lastError : option errorRecord;
  success : bool;
  fixHistory : list historyEntry;
  events : list event
}.

Definition perform {A : Type} (m : IO A) : M mainState A :=
  fun s =>
    let '(w, r) := m (ms_world s) in
    (MainState w (attempt s) (lastError s) (success s) (fixHistory s) (events s), r).

Definition setAttempt (n : Z) : M mainState unit :=
  fun s => (MainState (ms_world s) n (lastError s) (success s) (fixHistory s) (events s), Ret tt).
Definition setLastError (err : errorRecord) : M mainState unit :=
  fun s => (MainState (ms_world s) (attempt s) (Some err) (success s) (fixHistory s) (events s), Ret tt).
Definition setSucceeded : M mainState unit :=
  fun s => (MainState (ms_world s) (attempt s) (lastError s) true (fixHistory s) (events s), Ret tt).
Definition pushHistory (entry : historyEntry) : M mainState unit :=
  fun s => (MainState (ms_world s) (attempt s) (lastError s) (success s) (fixHistory s ++ [entry])
                      (events s), Ret tt).
Definition note (ev : event) : M mainState unit :=
  fun s => (MainState (ms_world s) (attempt s) (lastError s) (success s) (fixHistory s)
                      (events s ++ [ev]), Ret tt).

Definition historyEntryOf (n : Z) (err : errorRecord) (fixedFiles : list fixFile) : historyEntry :=
  HistoryEntry n (err_message err) (snippetOf err)
    (map (fun file => FixedFile (filename file) (calculateChecksum (content file))) fixedFiles).

(** The block of the loop that asks for a fix. *)
Definition fixStep (e : env) (projectDir plantUmlContent : string) : M mainState unit :=
  s <- get ;;
  match lastError s with
  | Some err =>
      tryCatch
        (fixedFiles <- perform (fixDeploymentErrors e projectDir plantUmlContent err (fixHistory s)) ;;
         pushHistory (historyEntryOf (attempt s) err fixedFiles) >>
         note (FixStep (attempt s) true))
        (fun _ => note (FixStep (attempt s) false))
  | None => ret tt
  end.

(** The block of the loop that deploys. *)
Definition deployStep (e : env) (projectDir : string) : M mainState unit :=
  s <- get ;;
  tryCatch
    (_ <- perform (execPromise e "npm run build && npx cdk synth") ;;
     _ <- perform (execPromise e "npx cdk deploy --require-approval never") ;;
     note (DeployStep (attempt s) true) >>
     setSucceeded)
    (fun error =>
       note (DeployStep (attempt s) false) >>
       setLastError (ErrorRecord (messageOf error) (orEmpty (stdoutOf error)) (orEmpty (stderrOf error))) >>
       let errorLogPath :=
         Path.join projectDir ("deployment-error-" +:+ Num.toString10 (attempt s) +:+ ".log") in
       perform (Fs.writeFile errorLogPath
                  ("STDOUT:" +:+ Str.nl +:+ orEmpty (stdoutOf error) +:+ Str.nl +:+ Str.nl +:+
                   "STDERR:" +:+ Str.nl +:+ orEmpty (stderrOf error)))).

(** The body of the loop. *)
Definition iteration (e : env) (projectDir plantUmlContent : string) : M mainState unit :=
  s <- get ;;
  setAttempt (attempt s + 1) >>
  fixStep e projectDir plantUmlContent >>
  deployStep e projectDir.

Definition continues (maxAttempts : Z) (s : mainState) : bool :=
  (attempt s <? maxAttempts)%Z && negb (success s).

(** [fixHistory] as [JSON.stringify] sees it. *)
Definition historyJson (history : list historyEntry) : Json.json :=
  Json.JArr
    (map (fun entry =>
            Json.JObj
              [ ("attempt", Json.JNum (Num.toString10 (h_attempt entry)));
                ("error", Json.JObj [ ("message", Json.JStr (h_message entry));
                                      ("snippet", Json.JStr (h_snippet entry)) ]);
                ("fixedFiles",
                  Json.JArr (map (fun f => Json.JObj [ ("filename", Json.JStr (ff_filename f));
                                                       ("checksum", Json.JStr (ff_checksum f)) ])
                               (h_fixedFiles entry))) ])
       history).

(** The loop and what follows it, from [process.chdir(projectDir)] on;
    [None] stands for a loop that was cut short by the bound on its
    rounds. *)
Definition deployLoop (e : env) (projectDir plantUmlContent : string) (maxAttempts : Z)
  : M mainState (option Z) :=
  perform (Fs.chdir projectDir) >>
  finished <- while (Z.to_nat maxAttempts) (continues maxAttempts)
                    (iteration e projectDir plantUmlContent) ;;
  if finished : bool then
    s <- get ;;
    (match fixHistory s with
     | [] => ret tt
     | _ =>
         perform (Fs.writeFile (Path.join projectDir "fix-history.json")
                    (Json.stringify (historyJson (fixHistory s))))
     end) >>
    if success s then
      tryCatch (_ <- perform (execPromise e "npx cdk list-exports") ;; ret tt) (fun _ => ret tt) >>
      ret (Some 0%Z)
    else ret (Some 1%Z)
  else ret None.

(** The [try] block of [main]. *)
Definition mainBody (e : env) (o : options) : M mainState (option Z) :=
  workDir <- perform getCwd ;;
  let projectDir := Path.resolve workDir (opt_project o) in
  let maxAttempts := maxAttemptsOf o in
  valid <- perform (hasCdkJson e projectDir) ;;
  if valid : bool then
    plantUmlContent <-
      match opt_diagram o with
      | Some diagram =>
          if negb (String.eqb diagram "")
          then tryCatch (perform (Fs.readFile diagram)) (fun _ => ret "")
          else ret ""
      | None => ret ""
      end ;;
    deployLoop e projectDir plantUmlContent maxAttempts
  else
    (* process.exit(1) *)
    ret (Some 1%Z).

(** [main()]: the exit code. *)
Definition main (e : env) (o : options) : M mainState (option Z) :=
  tryCatch (mainBody e o) (fun _ => ret (Some 1%Z)).

(** The state in which [main] starts. *)
Definition start (w : world) : mainState := MainState w 0 None false [] [].

End FixCdkErrors.

(** The variables of the loop of the older script, as those of the newer
    one: the entries of the history get an empty summary. *)
Definition asNewer (s : FixCdkErrors.mainState) : mainState :=
  MainState (FixCdkErrors.ms_world s) (FixCdkErrors.attempt s) (FixCdkErrors.lastError s)
            (FixCdkErrors.success s)
            (map (fun entry =>
                    HistoryEntry (FixCdkErrors.h_attempt entry) (FixCdkErrors.h_message entry)
                                 (FixCdkErrors.h_snippet entry) (FixCdkErrors.h_fixedFiles entry)
                                 Json.JNull)
                 (FixCdkErrors.fixHistory s))
            (FixCdkErrors.events s).

(** A path of the result of the older extractor comes from a value of
    [match[1]] that passed the test for [node_modules] and the standard
    libraries: it is that value, made relative to the project if it is an
    absolute path that starts with the characters of the project's path. *)
Definition takenFrom (workDir projectDir : string) (found : list string) (p : string) : Prop :=
  exists c,
    In c found /\ skipped c = false /\
    p = FixCdkErrors.relativeToProject workDir c projectDir.

(** What holds of the two variables of a scan and of the world, from the
    world [w0] in which the scan started, for paths of the origin
    [origin]. *)
Definition scanInvariant (origin : string -> Prop) (projectDir : string) (w0 : world)
           (x : extraction) (w : world) : Prop :=
  (fs w = fs w0 /\ cwd w = cwd w0 /\ ticks w = ticks w0 /\ audits w = audits w0) /\
  NoDup (map rf_path (relevantFiles x)) /\
  (forall f, In f (relevantFiles x) ->
             rf_path f ∈ filesMentioned x /\
             origin (rf_path f) /\
             exists writable,
               fs w0 !! Fs.key w0 (Path.join projectDir (rf_path f)) =
               Some (File (rf_content f) writable)) /\
  (exists keys,
      NoDup keys /\
      (forall k, In k keys -> k ∈ filesMentioned x) /\
      reads w = reads w0 ++ map (Path.join projectDir) keys /\
      map rf_path (relevantFiles x) =
        List.filter (fun k => readable w0 (Path.join projectDir k)) keys).

Module SampleOlder.

(** A reply with an empty array. *)
Definition emptyReply : string := "Nothing to change: []".

(** The first deployment fails, the reply names no file, the second
    deployment succeeds. *)
Definition run : FixCdkErrors.mainState * outcome (option Z) :=
  FixCdkErrors.main (Sample.environment Sample.onlyFirst (Some emptyReply))
                    (Sample.optionsWith (Some "3"))
                    (FixCdkErrors.start (Sample.worldOf Sample.bareProject)).

End SampleOlder.

(** Every white space character of the string is a space, and the
    character after it is not white space. *)
Fixpoint singleSpaces (s : string) : Prop :=
  match s with
  | EmptyString => True
  | String c s' =>
      (Regex.space c = true -> c = " "%char /\ trimmedStart s') /\ singleSpaces s'
  end.

(** The absolute path with the segments [segs]. *)
Definition absolutePath (segs : list string) : string := "/" +:+ Str.join "/" segs.

(** The repetition [[q]*] before a continuation [k]: the longest run of
    characters of the class after which [k] succeeds. *)
Fixpoint greedy {R : Type} (q : ascii -> bool) (k : string -> option R) (s : string) : option R :=
  match s with
  | String c s' =>
      if q c then
        match greedy q k s' with
        | Some x => Some x
        | None => k s
        end
      else k s
  | EmptyString => k s
  end.

(** The file names that the repair of write-protected files takes from the
    last error: [match.match(/['\x22]([^'\x22]+)['\x22]/)[1]] for each
    match of [/Cannot write file .../g]. *)
Definition overwriteNames (last : option errorRecord) : list string :=
  match last with
  | Some err =>
      map (fun matched =>
             match Regex.search quotedName matched with
             | Some m => capture m
             | None => ""
             end)
          (map Regex.whole (Regex.matchAll cannotWritePattern (err_stderr err)))
  | None => []
  end.

(** What a repair may do to the file system of [w]: an entry stays as it
    is, or it is one of the files [names] and becomes writable with the
    content it has. *)
Definition repaired (w : world) (names : list string) (f' : gmap string node) : Prop :=
  forall k,
    f' !! k = fs w !! k \/
    exists name c b,
      In name names /\ k = Fs.key w name /\
      fs w !! k = Some (File c b) /\ f' !! k = Some (File c true).

Module SampleOverwrite.

(** A project with a declaration file that cannot be written. *)
Definition project : gmap string node :=
  <["/proj/dist/a.d.ts" := File "export {};" false]> (<["/proj/dist" := Dir]> Sample.bareProject).

(** The error of a build that could not overwrite it. *)
Definition failed : errorRecord :=
  ErrorRecord "Command failed: npm run build" ""
    "error TS5055: Cannot write file '/proj/dist/a.d.ts' because it would overwrite input file.".

End SampleOverwrite.

(** ** Facts about patterns and JSON texts: their vocabulary *)

(** The loop of [Star] in [Regex.rmatch], by its name. *)
Definition starLoop {R : Type} (r : Regex.regex) (k : string -> option string -> option R)
  : nat -> string -> option string -> option R :=
  fix star (fuel : nat) (s : string) (cap : option string) {struct fuel} : option R :=
    match fuel with
    | O => k s cap
    | S fuel' =>
        match Regex.rmatch r s cap
                (fun s' cap' =>
                   if (String.length s' <? String.length s)%nat
                   then star fuel' s' cap' else None) with
        | Some x => Some x
        | None => k s cap
        end
    end.

(** No part of the pattern matches the character. *)
Fixpoint rejects (c : ascii) (r : Regex.regex) : bool :=
  match r with
  | Regex.Eps => true
  | Regex.Chr p => negb (p c)
  | Regex.Seq r1 r2 | Regex.Alt r1 r2 => rejects c r1 && rejects c r2
  | Regex.Star r' | Regex.Group r' => rejects c r'
  end.

(** A text that is one JSON number. *)
Definition numberLexeme (n : string) : bool :=
  match Regex.matchHere Json.numberPattern n with
  | Some (Regex.Found whole None EmptyString) => String.eqb whole n
  | _ => false
  end.

(** A value whose numbers are written as JSON numbers: what
    [JSON.stringify] writes of it, [JSON.parse] reads. *)
Fixpoint canonical (j : Json.json) : bool :=
  match j with
  | Json.JNum n => numberLexeme n
  | Json.JArr items => forallb canonical items
  | Json.JObj fields => forallb (fun kv => canonical (snd kv)) fields
  | _ => true
  end.

(** The characters a number starts with. *)
Definition numberStart (c : ascii) : bool := Ascii.eqb c "-" || Regex.digit c.

(** The characters the text of a value starts with. *)
Definition valueStart (c : ascii) : bool :=
  numberStart c || Str.mem c "ntf[{" || Ascii.eqb c (Str.chr 34).

(** What follows a value in the text that [JSON.stringify] writes: the
    end, a comma or a line feed. *)
Definition stops (rest : string) : Prop :=
  match rest with
  | EmptyString => True
  | String c _ => c = ","%char \/ c = Str.chr 10
  end.

(** The two loops of [Json.parseValue], by their names. *)
Definition parseElements (fuel : nat)
  : nat -> string -> list Json.json -> option (Json.json * string) :=
  fix elements (n : nat) (s : string) (acc : list Json.json) : option (Json.json * string) :=
    match n with
    | O => None
    | S n' =>
        match Json.parseValue fuel s with
        | Some (v, rest) =>
            match Json.skipWs rest with
            | String "," rest' => elements n' rest' (v :: acc)
            | String "]" rest' => Some (Json.JArr (rev (v :: acc)), rest')
            | _ => None
            end
        | None => None
        end
    end.

Definition parseMembers (fuel : nat)
  : nat -> string -> list (string * Json.json) -> option (Json.json * string) :=
  fix members (n : nat) (s : string) (acc : list (string * Json.json))
    : option (Json.json * string) :=
    match n with
    | O => None
    | S n' =>
        match Json.skipWs s with
        | String q s1 =>
            if Ascii.eqb q (Str.chr 34) then
              match Json.parseChars s1 with
              | Some (key, s2) =>
                  match Json.skipWs s2 with
                  | String ":" s3 =>
                      match Json.parseValue fuel s3 with
                      | Some (v, rest) =>
                          match Json.skipWs rest with
                          | String "," rest' => members n' rest' ((key, v) :: acc)
                          | String "}" rest' => Some (Json.JObj (rev ((key, v) :: acc)), rest')
                          | _ => None
                          end
                      | None => None
                      end
                  | _ => None
                  end
              | None => None
              end
            else None
        | EmptyString => None
        end
    end.

Module SampleRegistry.

(** A world without a registry file, and the module as it is loaded. *)
Definition fresh : FixRegistry.store :=
  FixRegistry.Store (Sample.worldOf Sample.bareProject)
                    (FixRegistry.DEFAULT_REGISTRY "2025-03-01T09:00:00.000Z").

Definition registryPath : string := "/proj/fix-registry.json".

Definition sampleChance : FixRegistry.chance :=
  FixRegistry.Chance (fun _ => 1740823200000%Z) (fun _ => 7042%Z).

(** A fix without an [id]. *)
Definition sampleFix : list (string * Json.json) :=
  [ ("errorPattern", Json.JStr "Runtime nodejs12.x is not supported");
    ("components", Json.JArr [Json.JStr "Lambda"]) ].

End SampleRegistry.

(** The registry file holds the text [data]: the path names a file below
    a directory, with that content. *)
Definition registryOnDisk (w : world) (registryPath data : string) (writable : bool) : Prop :=
  Str.endsWith registryPath "/" = false /\
  String.eqb (Fs.key w registryPath) "/" = false /\
  Fs.isDirAt (fs w) (Path.dirname (Fs.key w registryPath)) = true /\
  fs w !! Fs.key w registryPath = Some (File data writable).

Module SampleStored.

(** The registry as [loadRegistry] leaves it on disk when it makes it. *)
Definition data : string :=
  Json.stringify (FixRegistry.DEFAULT_REGISTRY "2025-03-01T09:00:00.000Z").

Definition withRegistry (writable : bool) : FixRegistry.store :=
  FixRegistry.Store
    (Sample.worldOf (<["/proj/fix-registry.json" := File data writable]> Sample.bareProject))
    (FixRegistry.DEFAULT_REGISTRY "2025-03-01T09:00:00.000Z").

Definition fields : list (string * Json.json) :=
  [ ("version", Json.JStr "1.0");
    ("lastUpdated", Json.JStr "2025-03-01T09:00:00.000Z");
    ("fixes", Json.JArr []) ].

End SampleStored.


Module SampleFilled.

(** A registry with one fix in it. *)
Definition fields : list (string * Json.json) :=
  [ ("version", Json.JStr "1.0");
    ("lastUpdated", Json.JStr "2025-03-01T09:00:00.000Z");
    ("fixes", Json.JArr
       [ Json.JObj [ ("id", Json.JStr "fix-1");
                     ("errorPattern", Json.JStr "Runtime nodejs12.x is not supported");
                     ("solution", Json.JStr "Modified lib/stack.ts (40 lines)") ] ]) ].

Definition data : string := Json.stringify (Json.JObj fields).

Definition withRegistry : FixRegistry.store :=
  FixRegistry.Store
    (Sample.worldOf (<["/proj/fix-registry.json" := File data true]> Sample.bareProject))
    (FixRegistry.DEFAULT_REGISTRY "2025-03-01T09:00:00.000Z").

End SampleFilled.
(** * Verification *)

(** ** Error fingerprints *)

Section Fingerprints.

Import Registry.

Lemma generateErrorHash_allocates workDir error (h : heap) :
  generateErrorHash workDir error h =
  (h ++ [Fingerprint (calculateHash (cleanErrorText workDir
           (orEmpty (stderr error) +:+ Str.nl +:+ orEmpty (stdout error) +:+ Str.nl +:+
            orEmpty (message error))))
         (cleanErrorText workDir
           (orEmpty (stderr error) +:+ Str.nl +:+ orEmpty (stdout error) +:+ Str.nl +:+
            orEmpty (message error)))],
   Ret (length h)).
Proof. reflexivity. Qed.

(** C10.  [isSameErrorByHash] answers [false] for every pair of errors,
    whatever objects exist already: for two errors that are there, the two
    references it compares are those of the two objects it has just made,
    one after the other, and these are never the same object.  It does so
    even when the same error is given twice, although the two objects then
    carry the same [hash]. *)
Theorem isSameErrorByHash_constantly_false :
  (forall workDir error1 error2 (h : heap),
      snd (isSameErrorByHash workDir error1 error2 h) = Ret false) /\
  (forall workDir error (h : heap),
      exists o1 o2,
        fst (isSameErrorByHash workDir (Some error) (Some error) h) = h ++ [o1; o2] /\
        hash o1 = hash o2 /\ cleanedText o1 = cleanedText o2).
Proof.
  split.
  - intros workDir [e1|] [e2|] h; try reflexivity.
    unfold isSameErrorByHash, bind. rewrite !generateErrorHash_allocates.
    cbn [snd ret]. unfold sameObject. rewrite length_app. cbn [length].
    f_equal. apply Nat.eqb_neq. lia.
  - intros workDir error h. eexists _, _.
    unfold isSameErrorByHash, bind. rewrite !generateErrorHash_allocates.
    cbn [fst ret]. rewrite <- app_assoc. cbn [app]. split; [reflexivity|]. split; reflexivity.
Qed.

End Fingerprints.

(** ** Paths of the error text *)

(** C8.  A path is tested for lying inside the project root by
    [filePath.startsWith(projectDir)], a test on characters: with the root
    [/proj], the absolute path [/project2/lib/x.ts] of a neighbouring
    directory passes it and is made relative to the root, where its base
    name [x.ts] is what a path outside the root should become.  An absolute
    path under the root is made relative to it, one that does not start
    with the characters of the root becomes its base name, and a relative
    path is left as it is. *)
Theorem normalizeFilePath_sibling_of_root :
  normalizeFilePath "/" "/project2/lib/x.ts" "/proj" = "../project2/lib/x.ts" /\
  Path.basename "/project2/lib/x.ts" = "x.ts" /\
  normalizeFilePath "/" "/proj/lib/x.ts" "/proj" = "lib/x.ts" /\
  normalizeFilePath "/" "/opt/other/x.ts" "/proj" = "x.ts" /\
  (forall workDir filePath projectDir,
      Path.isAbsolute filePath = true \/
      normalizeFilePath workDir filePath projectDir = filePath).
Proof.
  repeat split; try reflexivity.
  intros workDir filePath projectDir. unfold normalizeFilePath.
  destruct (Path.isAbsolute filePath); [left | right]; reflexivity.
Qed.

(** C4.  For a path under [dist/] the source file is added, and then the
    path under [dist/] is handled like any other path: the compiled file is
    read and returned as well, after the source file. *)
Theorem extractRelevantFiles_reads_dist_file_too :
  sourceFileOf "dist/lib/a.js" = "lib/a.ts" /\
  sourceFileOf "dist/lib/a.d.ts" = "lib/a.ts" /\
  candidates SampleDist.errorText = ["dist/lib/a.js"] /\
  snd (extractRelevantFiles SampleDist.errorText "/proj" (Sample.worldOf SampleDist.project)) =
    Ret [RelevantFile "lib/a.ts" "source"; RelevantFile "dist/lib/a.js" "compiled"] /\
  reads (fst (extractRelevantFiles SampleDist.errorText "/proj" (Sample.worldOf SampleDist.project))) =
    ["/proj/lib/a.ts"; "/proj/dist/lib/a.js"].
Proof. repeat split; vm_compute; reflexivity. Qed.

(** ** The retry loop *)

Section Counting.

Lemma deploySteps_app l1 l2 : deploySteps (l1 ++ l2) = (deploySteps l1 + deploySteps l2)%Z.
Proof. unfold deploySteps. rewrite List.filter_app, length_app. lia. Qed.

Lemma fixSteps_app l1 l2 : fixSteps (l1 ++ l2) = (fixSteps l1 + fixSteps l2)%Z.
Proof. unfold fixSteps. rewrite List.filter_app, length_app. lia. Qed.

Lemma returnedFixSteps_app l1 l2 :
  returnedFixSteps (l1 ++ l2) = (returnedFixSteps l1 + returnedFixSteps l2)%Z.
Proof. unfold returnedFixSteps. rewrite List.filter_app, length_app. lia. Qed.

Lemma allDeploysFailed_app l1 l2 :
  allDeploysFailed (l1 ++ l2) <-> allDeploysFailed l1 /\ allDeploysFailed l2.
Proof.
  unfold allDeploysFailed. split.
  - intros H. split; intros n ok Hin; apply (H n ok); apply in_or_app; auto.
  - intros [H1 H2] n ok Hin. apply in_app_or in Hin as [Hin|Hin]; eauto.
Qed.

Lemma allDeploysFailed_fix n ok : allDeploysFailed [FixStep n ok].
Proof. intros m b [Heq|[]]. discriminate. Qed.

Lemma allDeploysFailed_failed n : allDeploysFailed [DeployStep n false].
Proof. intros m b [Heq|[]]. congruence. Qed.

Lemma not_allDeploysFailed_succeeded l n : ~ allDeploysFailed (l ++ [DeployStep n true]).
Proof.
  intros H. specialize (H n true). discriminate H.
  apply in_or_app. right. left. reflexivity.
Qed.

Lemma snoc_split_fix (l : list event) n0 ok0 before n ok after :
  l ++ [DeployStep n0 ok0] = before ++ FixStep n ok :: after ->
  exists after0, l = before ++ FixStep n ok :: after0 /\ after = after0 ++ [DeployStep n0 ok0].
Proof.
  intros H. destruct (exists_last (l := FixStep n ok :: after)) as [body [x Hx]]; [discriminate|].
  rewrite Hx, app_assoc in H. apply app_inj_tail in H as [Hl Hlast]. subst x.
  destruct after as [|a after].
  - destruct body as [|b body]; simpl in Hx.
    + discriminate.
    + injection Hx as _ Hx. destruct body; discriminate.
  - destruct (exists_last (l := a :: after)) as [after0 [y Hy]]; [discriminate|].
    rewrite Hy in Hx. change (FixStep n ok :: after0 ++ [y]) with ((FixStep n ok :: after0) ++ [y]) in Hx.
    apply app_inj_tail in Hx as [Hbody Hy']. subst.
    exists after0. split; [reflexivity | exact Hy].
Qed.

Lemma snoc_split_fix_last (l : list event) n0 ok0 before n ok after :
  l ++ [FixStep n0 ok0] = before ++ FixStep n ok :: after ->
  (after = [] /\ l = before /\ n0 = n /\ ok0 = ok) \/
  (exists after0, l = before ++ FixStep n ok :: after0 /\ after = after0 ++ [FixStep n0 ok0]).
Proof.
  intros H. destruct after as [|a after].
  - apply app_inj_tail in H as [Hl Hlast]. injection Hlast as -> ->. left. auto.
  - destruct (exists_last (l := a :: after)) as [after0 [y Hy]]; [discriminate|].
    rewrite Hy in H.
    change (before ++ FixStep n ok :: after0 ++ [y])
      with (before ++ (FixStep n ok :: after0) ++ [y]) in H.
    rewrite app_assoc in H. apply app_inj_tail in H as [Hl Hlast]. subst.
    right. exists after0. split; [reflexivity | exact Hy].
Qed.

Lemma grown_fixesBetweenDeploys evs : grown evs -> fixesBetweenDeploys evs.
Proof.
  induction 1 as [|l n0 ok0 Hl IH|l m n0 ok0 ok' Hl IH]; intros before n ok after Heq.
  - destruct before; discriminate.
  - apply snoc_split_fix in Heq as [after0 [Hl' ->]].
    destruct (IH _ _ _ _ Hl') as [Hb [m' [ok1 [after' ->]]]].
    split; [exact Hb|]. exists m', ok1, (after' ++ [DeployStep n0 ok0]). reflexivity.
  - change [FixStep n0 ok0; DeployStep n0 ok'] with ([FixStep n0 ok0] ++ [DeployStep n0 ok']) in Heq.
    rewrite app_assoc in Heq.
    apply snoc_split_fix in Heq as [after0 [Hl' ->]].
    apply snoc_split_fix_last in Hl' as [[-> [Hb [-> ->]]]|[after1 [Hl' ->]]].
    + subst before. split; [eauto|]. exists n, ok', []. reflexivity.
    + destruct (IH _ _ _ _ Hl') as [Hb [m' [ok1 [after' ->]]]].
      split; [exact Hb|]. eexists m', ok1, _. simpl. reflexivity.
Qed.

End Counting.

Section WhileRule.

Context {S : Type}.
Variables (I T : S -> Prop) (measure : S -> nat) (cond : S -> bool) (body : M S unit).

Hypothesis body_step :
  forall s, I s -> cond s = true ->
    match body s with
    | (s', Ret _) => I s' /\ (measure s' < measure s)%nat
    | (s', Throw _) => T s'
    end.
Hypothesis measure_positive : forall s, I s -> cond s = true -> (0 < measure s)%nat.

(** With as many rounds as the measure allows, the loop comes to its end
    or stops with an exception of its body. *)
Lemma while_rule fuel s :
  I s -> (measure s <= fuel)%nat ->
  match while fuel cond body s with
  | (s', Ret true) => I s' /\ cond s' = false
  | (s', Ret false) => False
  | (s', Throw _) => T s'
  end.
Proof.
  revert s. induction fuel as [|fuel IH]; intros s HI Hm; simpl.
  - destruct (cond s) eqn:Hc; [|auto].
    specialize (measure_positive s HI Hc). lia.
  - destruct (cond s) eqn:Hc; [|auto].
    specialize (body_step s HI Hc). destruct (body s) as [s' [[]|ex]].
    + destruct body_step as [HI' Hlt]. apply IH; [exact HI' | lia].
    + exact body_step.
Qed.

End WhileRule.

Section Steps.

Variable e : env.
Variables projectDir plantUmlContent : string.

(** A computation on the world leaves the variables of the loop and the
    record of steps alone. *)
Lemma perform_run {A : Type} (m : IO A) s :
  perform m s =
  (MainState (fst (m (ms_world s))) (attempt s) (lastError s) (success s) (fixHistory s) (events s),
   snd (m (ms_world s))).
Proof. unfold perform. destruct (m (ms_world s)). reflexivity. Qed.

(** What the fix block does to the variables of the loop. *)
Lemma fixStep_spec s :
  let '(s', r) := fixStep e projectDir plantUmlContent s in
  r = Ret tt /\ attempt s' = attempt s /\ lastError s' = lastError s /\ success s' = success s /\
  match lastError s with
  | None => fixHistory s' = fixHistory s /\ events s' = events s
  | Some err =>
      let call := fixDeploymentErrors e projectDir plantUmlContent err (fixHistory s) (ms_world s) in
      (exists result,
          snd call = Ret result /\
          fixHistory s' = fixHistory s ++ [historyEntryOf (attempt s) err result] /\
          events s' = events s ++ [FixStep (attempt s) true]) \/
      (exists ex,
          snd call = Throw ex /\
          fixHistory s' = fixHistory s /\
          events s' = events s ++ [FixStep (attempt s) false])
  end.
Proof.
  unfold fixStep, bind, get. destruct (lastError s) as [err|] eqn:Herr.
  - unfold tryCatch, bind. rewrite perform_run.
    destruct (fixDeploymentErrors e projectDir plantUmlContent err (fixHistory s) (ms_world s))
      as [w' [result|ex]]; cbn; rewrite ?Herr.
    + repeat split; try reflexivity. left. exists result. auto.
    + repeat split; try reflexivity. right. exists ex. auto.
  - cbn. rewrite Herr. repeat split; reflexivity.
Qed.

(** What the deployment block does to them. *)
Lemma deployStep_spec s :
  let '(s', r) := deployStep e projectDir s in
  attempt s' = attempt s /\ fixHistory s' = fixHistory s /\
  ((r = Ret tt /\ success s' = true /\ lastError s' = lastError s /\
    events s' = events s ++ [DeployStep (attempt s) true]) \/
   (success s' = success s /\ (exists err, lastError s' = Some err) /\
    events s' = events s ++ [DeployStep (attempt s) false])).
Proof.
  unfold deployStep, bind, get, tryCatch. rewrite perform_run.
  destruct (buildWithOverwrite e (ms_world s)) as [w1 [[]|ex1]]; cbn [fst snd].
  - rewrite perform_run; cbn [ms_world].
    destruct (execPromise e "npx cdk synth" w1) as [w2 [[out2 err2]|ex2]]; cbn [fst snd].
    + rewrite perform_run; cbn [ms_world].
      destruct (execPromise e "npx cdk deploy --require-approval never" w2)
        as [w3 [[out3 err3]|ex3]]; cbn [fst snd].
      * cbn. repeat split; try reflexivity. left. auto.
      * cbn. rewrite perform_run. cbn. repeat split; try reflexivity. right. eauto.
    + cbn. rewrite perform_run. cbn. repeat split; try reflexivity. right. eauto.
  - cbn. rewrite perform_run. cbn. repeat split; try reflexivity. right. eauto.
Qed.

End Steps.

Section Loop.

Variable e : env.
Variables projectDir plantUmlContent : string.
Variable N : Z.

Lemma steps_of_deploy n ok :
  deploySteps [DeployStep n ok] = 1%Z /\ fixSteps [DeployStep n ok] = 0%Z /\
  returnedFixSteps [DeployStep n ok] = 0%Z.
Proof. repeat split. Qed.

Lemma steps_of_fix n ok :
  deploySteps [FixStep n ok] = 0%Z /\ fixSteps [FixStep n ok] = 1%Z /\
  returnedFixSteps [FixStep n ok] = (if ok then 1 else 0)%Z.
Proof. destruct ok; repeat split. Qed.

Lemma steps_of_nil :
  deploySteps [] = 0%Z /\ fixSteps [] = 0%Z /\ returnedFixSteps [] = 0%Z.
Proof. repeat split. Qed.

Lemma iteration_keeps_invariant s :
  loopInvariant N s -> continues N s = true ->
  match iteration e projectDir plantUmlContent s with
  | (s', Ret _) => loopInvariant N s' /\ (roundsLeft N s' < roundsLeft N s)%nat
  | (s', Throw _) => stoppedInvariant N s'
  end.
Proof.
  intros (Hatt & Hdep & Hfix & Hhist & Hgrown & Hlast) Hcont.
  unfold continues in Hcont. apply andb_true_iff in Hcont as [HltN Hsucc].
  apply Z.ltb_lt in HltN. apply negb_true_iff in Hsucc. rewrite Hsucc in Hlast.
  destruct Hlast as [Hfailed Hlast].
  unfold iteration, bind at 1, get. unfold bind at 1, setAttempt. unfold bind at 1.
  rewrite perform_run. cbn [ms_world attempt lastError success fixHistory events fst snd].
  destruct (handleOverwrite (lastError s) (ms_world s)) as [w2 [[]|ex2]]; cbn [fst snd].
  2:{ unfold stoppedInvariant; cbn [events fixHistory].
      repeat split; try assumption; [rewrite Hdep; lia | etransitivity; [exact Hfix | lia]]. }
  unfold bind at 1.
  pose proof (fixStep_spec e projectDir plantUmlContent
                (MainState w2 (attempt s + 1) (lastError s) (success s) (fixHistory s) (events s)))
    as Hf.
  destruct (fixStep e projectDir plantUmlContent _) as [s3 r3].
  cbn [ms_world attempt lastError success fixHistory events] in Hf.
  destruct Hf as (-> & Hatt3 & Herr3 & Hsucc3 & Hf).
  pose proof (deployStep_spec e projectDir s3) as Hd.
  destruct (deployStep e projectDir s3) as [s4 r4].
  destruct Hd as (Hatt4 & Hhist4 & Hd).
  rewrite Hatt3 in *. rewrite Hsucc3, Hsucc in Hd.
  assert (Hshape :
            exists fixEvs ok',
              events s4 = events s ++ fixEvs ++ [DeployStep (attempt s + 1) ok'] /\
              grown (events s4) /\
              deploySteps fixEvs = 0%Z /\
              (fixSteps (events s) + fixSteps fixEvs <= Z.max 0 (attempt s))%Z /\
              Z.of_nat (length (fixHistory s4)) =
                (returnedFixSteps (events s) + returnedFixSteps fixEvs)%Z /\
              allDeploysFailed fixEvs /\
              ((r4 = Ret tt /\ success s4 = true /\ ok' = true) \/
               (success s4 = false /\ (exists err, lastError s4 = Some err) /\ ok' = false))).
  { destruct (lastError s) as [err|] eqn:Herr.
    - destruct Hlast as (l & n & Hevs).
      assert (1 <= attempt s)%Z as Hone.
      { rewrite <- Hdep, Hevs, deploySteps_app.
        rewrite (proj1 (steps_of_deploy n false)). unfold deploySteps. lia. }
      assert (forall ok ok',
                 events s4 = (events s ++ [FixStep (attempt s + 1) ok]) ++ [DeployStep (attempt s + 1) ok'] ->
                 events s4 = events s ++ [FixStep (attempt s + 1) ok] ++ [DeployStep (attempt s + 1) ok'] /\
                 grown (events s4)) as Hg.
      { intros ok ok' ->. rewrite <- app_assoc. split; [reflexivity|].
        rewrite Hevs. apply grown_fix. rewrite <- Hevs. exact Hgrown. }
      destruct Hf as [(result & _ & Hh3 & He3)|(ex & _ & Hh3 & He3)];
        destruct Hd as [(-> & Hs4 & _ & He4)|(Hs4 & Herr4 & He4)];
        rewrite He3 in He4; apply Hg in He4 as [He4 Hg4];
        eexists _, _; (split; [exact He4|]); (split; [exact Hg4|]);
        rewrite Hhist4, Hh3, ?length_app;
        destruct (steps_of_fix (attempt s + 1) true) as (Ht1 & Ht2 & Ht3);
        destruct (steps_of_fix (attempt s + 1) false) as (Hf1 & Hf2 & Hf3);
        rewrite ?Ht1, ?Ht2, ?Ht3, ?Hf1, ?Hf2, ?Hf3;
        cbn [length];
        (repeat split; try apply allDeploysFailed_fix; try lia; auto).
    - destruct Hf as [Hh3 He3].
      assert (forall ok', events s4 = events s ++ [DeployStep (attempt s + 1) ok'] ->
                          grown (events s4)) as Hg.
      { intros ok' ->. apply grown_deploy. exact Hgrown. }
      destruct Hd as [(-> & Hs4 & _ & He4)|(Hs4 & Herr4 & He4)];
        rewrite He3 in He4; pose proof (Hg _ He4) as Hg4;
        eexists [], _; (split; [exact He4|]); (split; [exact Hg4|]);
        rewrite Hhist4, Hh3;
        destruct steps_of_nil as (Hn1 & Hn2 & Hn3);
        rewrite ?Hn1, ?Hn2, ?Hn3;
        (repeat split; try (intros ? ? []); try lia; auto). }
  destruct Hshape as (fixEvs & ok' & He4 & Hg4 & Hd0 & Hfx & Hh4 & Hff & Hout).
  assert (deploySteps (events s4) = attempt s + 1)%Z as Hdep4.
  { rewrite He4, !deploySteps_app, Hd0, Hdep, (proj1 (steps_of_deploy (attempt s + 1) ok')). lia. }
  assert (fixSteps (events s4) <= Z.max 0 (attempt s))%Z as Hfix4.
  { rewrite He4, !fixSteps_app, (proj1 (proj2 (steps_of_deploy (attempt s + 1) ok'))). lia. }
  assert (Z.of_nat (length (fixHistory s4)) = returnedFixSteps (events s4)) as Hret4.
  { rewrite He4, !returnedFixSteps_app, Hh4, (proj2 (proj2 (steps_of_deploy (attempt s + 1) ok'))). lia. }
  assert (fixSteps (events s4) <= Z.max 0 (attempt s + 1 - 1))%Z as Hfix4'.
  { replace (attempt s + 1 - 1)%Z with (attempt s) by lia. exact Hfix4. }
  assert (0 <= attempt s + 1 <= Z.max 0 N)%Z as Hatt4' by lia.
  assert (roundsLeft N s4 < roundsLeft N s)%nat as Hless.
  { unfold roundsLeft. rewrite Hatt4. lia. }
  destruct Hout as [(-> & Hs4 & ->)|(Hs4 & (err4 & Herr4) & ->)].
  - split; [|exact Hless].
    unfold loopInvariant. rewrite Hatt4, Hs4.
    refine (conj Hatt4' (conj Hdep4 (conj Hfix4' (conj Hret4 (conj Hg4 _))))).
    exists (events s ++ fixEvs), (attempt s + 1)%Z. rewrite <- app_assoc.
    split; [exact He4|]. apply allDeploysFailed_app. auto.
  - assert (allDeploysFailed (events s4)) as Hall.
    { rewrite He4. apply allDeploysFailed_app. split; [exact Hfailed|].
      apply allDeploysFailed_app. split; [exact Hff | apply allDeploysFailed_failed]. }
    destruct r4 as [[]|ex4].
    + split; [|exact Hless].
      unfold loopInvariant. rewrite Hatt4, Hs4, Herr4.
      refine (conj Hatt4' (conj Hdep4 (conj Hfix4' (conj Hret4 (conj Hg4 (conj Hall _)))))).
      exists (events s ++ fixEvs), (attempt s + 1)%Z. rewrite <- app_assoc. exact He4.
    + unfold stoppedInvariant.
      refine (conj _ (conj _ (conj Hret4 (conj Hg4 Hall)))).
      * rewrite Hdep4. lia.
      * etransitivity; [exact Hfix4|]. lia.
Qed.

End Loop.

(** The test for [cdk.json] gives an answer, whatever the shell makes of
    the command; it is the test of the file system when the path stands
    for itself in the command. *)
Lemma hasCdkJson_returns e projectDir w :
  exists w' valid,
    hasCdkJson e projectDir w = (w', Ret valid) /\
    cwd w' = cwd w /\ audits w' = audits w /\ reads w' = reads w /\
    (shellSafe projectDir = true ->
     w' = w /\
     valid = match fs w !! Fs.key w (projectDir +:+ "/cdk.json") with
             | Some (File _ _) => true
             | _ => false
             end).
Proof.
  unfold hasCdkJson. destruct (shellSafe projectDir).
  - eexists _, _. split; [reflexivity|]. repeat split.
  - unfold tryCatch, bind, execPromise.
    destruct (runCommand e (ticks w) _ (fs w)) as [f [out err|m out err]];
      eexists _, _; (split; [reflexivity|]); repeat split; discriminate.
Qed.

Section Main.

Variable e : env.

Lemma loopInvariant_start N w : loopInvariant N (start w).
Proof.
  unfold loopInvariant, start. cbn [attempt events fixHistory success lastError].
  destruct steps_of_nil as (-> & -> & ->).
  repeat split; try lia; try constructor. intros n ok [].
Qed.

Lemma loopInvariant_world N s w :
  loopInvariant N s ->
  loopInvariant N (MainState w (attempt s) (lastError s) (success s) (fixHistory s) (events s)).
Proof. intros H. exact H. Qed.

Lemma stopped_runSummary N s : stoppedInvariant N s -> runSummary N s.
Proof.
  intros (H1 & H2 & H3 & H4 & H5).
  refine (conj H1 (conj H2 (conj H3 (conj H4 _)))). left. exact H5.
Qed.

Lemma loopInvariant_runSummary N s : loopInvariant N s -> runSummary N s.
Proof.
  intros (Hatt & Hdep & Hfix & Hhist & Hgrown & Hlast).
  refine (conj _ (conj _ (conj Hhist (conj Hgrown _)))).
  - rewrite Hdep. lia.
  - etransitivity; [exact Hfix|]. lia.
  - destruct (success s); [right; exact Hlast | left; apply Hlast].
Qed.

Lemma runSummary_world N s w :
  runSummary N s ->
  runSummary N (MainState w (attempt s) (lastError s) (success s) (fixHistory s) (events s)).
Proof. intros H. exact H. Qed.

(** The loop comes to its end within [maxAttempts] rounds, and the exit
    code is [0] after a successful deployment and [1] after failed ones. *)
Lemma deployLoop_spec projectDir plantUmlContent N s0 :
  loopInvariant N s0 -> attempt s0 = 0%Z ->
  let '(s', r) := deployLoop e projectDir plantUmlContent N s0 in
  runSummary N s' /\ exitCodeTells s' r.
Proof.
  intros Hinv Hzero. unfold deployLoop, bind at 1. rewrite perform_run.
  destruct (Fs.chdir projectDir (ms_world s0)) as [w1 [[]|ex1]]; cbn [fst snd].
  2:{ split; [|exact I]. apply runSummary_world, loopInvariant_runSummary, Hinv. }
  unfold bind at 1.
  pose proof (while_rule (loopInvariant N) (stoppedInvariant N) (roundsLeft N) (continues N)
                (iteration e projectDir plantUmlContent)
                (iteration_keeps_invariant e projectDir plantUmlContent N)) as Hwhile.
  specialize (Hwhile ltac:(intros s _ Hc; unfold continues in Hc; apply andb_true_iff in Hc as [Hc _];
                           apply Z.ltb_lt in Hc; unfold roundsLeft; lia)).
  specialize (Hwhile (Z.to_nat N)
                (MainState w1 (attempt s0) (lastError s0) (success s0) (fixHistory s0) (events s0))
                (loopInvariant_world N s0 w1 Hinv)).
  specialize (Hwhile ltac:(unfold roundsLeft; cbn [attempt]; rewrite Hzero; lia)).
  destruct (while _ _ _ _) as [s2 [[|]|ex2]].
  - destruct Hwhile as [Hinv2 Hstop].
    unfold bind at 1, get. unfold bind at 1.
    assert (exitCodeTells s2 (Ret (Some (if success s2 then 0%Z else 1%Z)))) as Hcode.
    { destruct Hinv2 as (_ & _ & _ & _ & _ & Hlast). cbn.
      destruct (success s2); [left | right].
      - destruct Hlast as (l & n & Hl & _). split; [reflexivity | eauto].
      - split; [reflexivity | apply Hlast]. }
    assert (forall w,
               let s := MainState w (attempt s2) (lastError s2) (success s2) (fixHistory s2) (events s2) in
               let '(s', r) :=
                 (if success s2
                  then tryCatch (_ <- perform (execPromise e "npx cdk list-exports") ;; ret tt)
                                (fun _ => ret tt) >> ret (Some 0%Z)
                  else ret (Some 1%Z)) s in
               runSummary N s' /\ exitCodeTells s' r) as Hend.
    { intros w. cbn zeta. destruct (success s2) eqn:Hs.
      - unfold bind at 1, tryCatch, bind. rewrite perform_run. cbn [ms_world fst snd].
        destruct (execPromise e "npx cdk list-exports" w) as [w' [[]|ex]]; cbn;
          (split; [exact (loopInvariant_runSummary N s2 Hinv2) | exact Hcode]).
      - cbn. split; [exact (loopInvariant_runSummary N s2 Hinv2) | exact Hcode]. }
    destruct s2 as [w2 attempt2 lastError2 success2 history2 events2].
    cbn [ms_world attempt lastError success fixHistory events] in *.
    destruct history2 as [|entry entries].
    + cbn [ret]. exact (Hend w2).
    + rewrite perform_run. cbn [fst snd ms_world attempt lastError success fixHistory events].
      destruct (Fs.writeFile _ _ w2) as [w3 [[]|ex3]]; cbn [fst snd].
      * exact (Hend w3).
      * split; [|exact I]. exact (loopInvariant_runSummary N _ Hinv2).
  - destruct Hwhile.
  - cbn. split; [|exact I]. apply stopped_runSummary, Hwhile.
Qed.

(** The same for the [try] block of [main]. *)
Lemma mainBody_spec o w :
  let '(s', r) := mainBody e o (start w) in
  runSummary (maxAttemptsOf o) s' /\ exitCodeTells s' r.
Proof.
  unfold mainBody, bind at 1. rewrite perform_run. cbn [getCwd fst snd start ms_world].
  unfold bind at 1. rewrite perform_run.
  cbn [start ms_world attempt lastError success fixHistory events].
  set (projectDir := Path.resolve (cwd w) (opt_project o)). clearbody projectDir.
  destruct (hasCdkJson_returns e projectDir w) as (w1 & valid & -> & _). clear w.
  rename w1 into w. cbn [fst snd].
  set (N := maxAttemptsOf o).
  destruct valid.
  2:{ cbn. split.
      - exact (loopInvariant_runSummary N _ (loopInvariant_start N w)).
      - right. split; [reflexivity|]. intros n ok []. }
  unfold bind at 1.
  cbn [start attempt lastError success fixHistory events ms_world].
  assert (exists w',
             (match opt_diagram o with
              | Some diagram =>
                  if negb (String.eqb diagram "")
                  then tryCatch (perform (Fs.readFile diagram)) (fun _ => ret "")
                  else ret ""
              | None => ret ""
              end) (MainState w 0 None false [] []) = (start w', Ret "") \/
             exists text,
               (match opt_diagram o with
                | Some diagram =>
                    if negb (String.eqb diagram "")
                    then tryCatch (perform (Fs.readFile diagram)) (fun _ => ret "")
                    else ret ""
                | None => ret ""
                end) (MainState w 0 None false [] []) = (start w', Ret text)) as [w' Hdiagram].
  { destruct (opt_diagram o) as [diagram|]; [|exists w; left; reflexivity].
    destruct (negb (String.eqb diagram "")); [|exists w; left; reflexivity].
    unfold tryCatch. rewrite perform_run. cbn [ms_world fst snd attempt lastError success fixHistory events].
    destruct (Fs.readFile diagram w) as [w' [text|ex]]; exists w'; cbn; eauto. }
  destruct Hdiagram as [->|[text ->]];
    apply deployLoop_spec; try reflexivity; apply loopInvariant_start.
Qed.

End Main.

(** ** The claims about the retry loop *)

Lemma main_state e o s : fst (main e o s) = fst (mainBody e o s).
Proof. unfold main, tryCatch. destruct (mainBody e o s) as [s' [code|ex]]; reflexivity. Qed.

Lemma main_result e o s :
  snd (main e o s) =
  match snd (mainBody e o s) with
  | Ret code => Ret code
  | Throw _ => Ret (Some 1%Z)
  end.
Proof. unfold main, tryCatch. destruct (mainBody e o s) as [s' [code|ex]]; reflexivity. Qed.

Lemma returned_le_fixSteps evs : (returnedFixSteps evs <= fixSteps evs)%Z.
Proof.
  unfold returnedFixSteps, fixSteps. apply inj_le.
  induction evs as [|[n [|]|n ok] evs IH];
    cbn [List.filter isReturnedFix isFixStep length]; lia.
Qed.

(** The state and the exit code of [main]. *)
Lemma main_spec e o w :
  runSummary (maxAttemptsOf o) (fst (main e o (start w))) /\
  exitCodeTells (fst (main e o (start w))) (snd (mainBody e o (start w))).
Proof.
  rewrite main_state. pose proof (mainBody_spec e o w) as H.
  destruct (mainBody e o (start w)) as [s' r]. exact H.
Qed.

(** C1 (as amended).  With a bound [N >= 1], a run deploys at most [N]
    times and asks for a fix at most [N - 1] times; a fix step comes right
    after a failed deployment and right before the next deployment; the
    exit code is [0] or [1], and it is [1] exactly when every deployment
    failed or an exception reached the [catch] block of [main]. *)
Theorem main_attempts_and_exit_code e o w :
  (1 <= maxAttemptsOf o)%Z ->
  let run := main e o (start w) in
  let evs := events (fst run) in
  (snd run = Ret (Some 0%Z) \/ snd run = Ret (Some 1%Z)) /\
  (deploySteps evs <= maxAttemptsOf o)%Z /\
  (fixSteps evs <= maxAttemptsOf o - 1)%Z /\
  fixesBetweenDeploys evs /\
  (snd run = Ret (Some 1%Z) <->
   allDeploysFailed evs \/ exists ex, snd (mainBody e o (start w)) = Throw ex).
Proof.
  intros HN run evs. subst run evs.
  destruct (main_spec e o w) as [(Hd & Hf & _ & Hg & _) Hcode].
  rewrite main_result. set (s' := fst (main e o (start w))) in *.
  assert (deploySteps (events s') <= maxAttemptsOf o)%Z as Hd' by lia.
  assert (fixSteps (events s') <= maxAttemptsOf o - 1)%Z as Hf' by lia.
  pose proof (grown_fixesBetweenDeploys _ Hg) as Hshape.
  refine (conj _ (conj Hd' (conj Hf' (conj Hshape _))));
    destruct (snd (mainBody e o (start w))) as [[code|]|ex]; cbn in Hcode;
    try contradiction.
  - destruct Hcode as [[-> _]|[-> _]]; auto.
  - auto.
  - destruct Hcode as [[-> (l & n & Hl)]|[-> Hall]].
    + split; [discriminate|].
      intros [Hall|[ex Hex]]; [|discriminate].
      rewrite Hl in Hall. destruct (not_allDeploysFailed_succeeded _ _ Hall).
    + split; auto.
  - split; eauto.
Qed.

Lemma main_attempts_and_exit_code_witness :
  let o := Sample.optionsWith (Some "3") in
  let run := main (Sample.environment Sample.always (Some Sample.goodReply)) o
                  (start (Sample.worldOf Sample.bareProject)) in
  (1 <= maxAttemptsOf o)%Z /\
  (deploySteps (events (fst run)) <= maxAttemptsOf o)%Z /\
  (fixSteps (events (fst run)) <= maxAttemptsOf o - 1)%Z.
Proof.
  intros o run.
  assert (1 <= maxAttemptsOf o)%Z as HN by (vm_compute; discriminate).
  split; [exact HN|].
  pose proof (main_attempts_and_exit_code
                (Sample.environment Sample.always (Some Sample.goodReply)) o
                (Sample.worldOf Sample.bareProject) HN) as H.
  split; [exact (proj1 (proj2 H)) | exact (proj1 (proj2 (proj2 H)))].
Defined.

(** C1 as it was stated fails: the first deployment fails, a fix is
    applied, the second deployment succeeds, and then the history file
    cannot be written, so that [main] returns [1] although a deployment
    succeeded. *)
Lemma exit_code_one_after_successful_deploy :
  events (fst SampleRuns.fatalAfterSuccess) =
    [DeployStep 1 false; FixStep 2 true; DeployStep 2 true] /\
  snd SampleRuns.fatalAfterSuccess = Ret (Some 1%Z) /\
  ~ (snd SampleRuns.fatalAfterSuccess = Ret (Some 1%Z) <->
     allDeploysFailed (events (fst SampleRuns.fatalAfterSuccess))).
Proof.
  assert (events (fst SampleRuns.fatalAfterSuccess) =
            [DeployStep 1 false; FixStep 2 true; DeployStep 2 true]) as Hevs
      by (vm_compute; reflexivity).
  assert (snd SampleRuns.fatalAfterSuccess = Ret (Some 1%Z)) as Hcode
      by (vm_compute; reflexivity).
  split; [exact Hevs|]. split; [exact Hcode|].
  intros [Hall _]. specialize (Hall Hcode). rewrite Hevs in Hall.
  specialize (Hall 2%Z true). discriminate Hall. right. right. left. reflexivity.
Qed.



(** C9.  When the text given for [--max-attempts] does not parse to a
    number other than zero, the bound is [MAX_FIX_ATTEMPTS], which is 5;
    [0] and [abc] are such texts.  With [0] a run deploys up to five
    times: never more, and five times when every deployment fails. *)
Theorem maxAttempts_zero_or_unparsable_is_five :
  MAX_FIX_ATTEMPTS = 5%Z /\
  (forall o text,
      opt_maxAttempts o = Some text ->
      Num.parseInt text = None \/ Num.parseInt text = Some 0%Z ->
      maxAttemptsOf o = MAX_FIX_ATTEMPTS) /\
  Num.parseInt "0" = Some 0%Z /\
  Num.parseInt "abc" = None /\
  (forall e o w,
      opt_maxAttempts o = Some "0" ->
      (deploySteps (events (fst (main e o (start w)))) <= 5)%Z) /\
  deploySteps (events (fst SampleRuns.boundZero)) = 5%Z /\
  snd SampleRuns.boundZero = Ret (Some 1%Z).
Proof.
  assert (forall o text,
             opt_maxAttempts o = Some text ->
             Num.parseInt text = None \/ Num.parseInt text = Some 0%Z ->
             maxAttemptsOf o = MAX_FIX_ATTEMPTS) as Hdefault.
  { intros o text Ho Hparse. unfold maxAttemptsOf. rewrite Ho.
    destruct Hparse as [-> | ->]; reflexivity. }
  split; [reflexivity|]. split; [exact Hdefault|].
  split; [reflexivity|]. split; [reflexivity|]. split.
  - intros e o w Ho.
    destruct (main_spec e o w) as [(Hd & _) _].
    rewrite (Hdefault o "0" Ho) in Hd by (right; reflexivity).
    exact Hd.
  - split; vm_compute; reflexivity.
Qed.

Lemma maxAttempts_zero_or_unparsable_is_five_witness :
  opt_maxAttempts (Sample.optionsWith (Some "0")) = Some "0" /\
  (Num.parseInt "0" = None \/ Num.parseInt "0" = Some 0%Z) /\
  maxAttemptsOf (Sample.optionsWith (Some "0")) = MAX_FIX_ATTEMPTS.
Proof.
  split; [reflexivity|]. split; [right; reflexivity|].
  apply (proj1 (proj2 maxAttempts_zero_or_unparsable_is_five)
           (Sample.optionsWith (Some "0")) "0").
  - reflexivity.
  - right. reflexivity.
Defined.

(** ** The fix applicator *)

Section Applicator.

Lemma mkdirAll_spec keys (f f' : gmap string node) :
  Fs.mkdirAll keys f = Some f' ->
  (forall k, In k keys -> f' !! k = Some Dir) /\
  (forall k v, f !! k = Some v -> f' !! k = Some v).
Proof.
  revert f. induction keys as [|k keys IH]; intros f H; cbn in H.
  - injection H as <-. split; [intros k []|auto].
  - destruct (f !! k) as [[|c b]|] eqn:Hk; try discriminate.
    + destruct (IH _ H) as [Hdirs Hkeep]. split; [|exact Hkeep].
      intros k' [<-|Hin]; [apply Hkeep, Hk | apply Hdirs, Hin].
    + destruct (IH _ H) as [Hdirs Hkeep]. split.
      * intros k' [<-|Hin]; [apply Hkeep, lookup_insert_eq | apply Hdirs, Hin].
      * intros k' v Hv. apply Hkeep.
        rewrite lookup_insert_ne; [exact Hv|]. intros ->. congruence.
Qed.

Lemma mkdirRecursive_spec p w w' :
  Fs.mkdirRecursive p w = (w', Ret tt) ->
  cwd w' = cwd w /\
  (forall k, In k (Fs.ancestorsFrom "" (Path.resolveSegments (cwd w) p)) -> fs w' !! k = Some Dir) /\
  (forall k v, fs w !! k = Some v -> fs w' !! k = Some v).
Proof.
  unfold Fs.mkdirRecursive.
  destruct (Fs.mkdirAll _ (fs w)) as [f|] eqn:Hmk; [|discriminate].
  intros H. injection H as <-. cbn. split; [reflexivity|].
  exact (mkdirAll_spec _ _ _ Hmk).
Qed.

Lemma writeFile_spec p text w w' :
  Fs.writeFile p text w = (w', Ret tt) ->
  cwd w' = cwd w /\
  fs w' = <[Fs.key w p := File text true]> (fs w) /\
  fs w !! Fs.key w p <> Some Dir.
Proof.
  unfold Fs.writeFile.
  destruct (Str.endsWith p "/" || String.eqb (Fs.key w p) "/"); [discriminate|].
  destruct (negb (Fs.isDirAt (fs w) (Path.dirname (Fs.key w p)))); [discriminate|].
  destruct (fs w !! Fs.key w p) as [[|c [|]]|] eqn:Hk; try discriminate;
    intros H; injection H as <-; cbn; repeat split; congruence.
Qed.

(** One file of the reply: it is written under its name, below
    directories, and nothing else is lost. *)
Lemma applyFix_spec projectDir f w w' written :
  applyFix projectDir (fileObject f) w = (w', Ret written) ->
  written = f /\ cwd w' = cwd w /\
  fs w' !! Fs.key w (Path.join projectDir (filename f)) = Some (File (content f) true) /\
  (forall k,
      In k (Fs.ancestorsFrom ""
              (Path.resolveSegments (cwd w) (Path.dirname (Path.join projectDir (filename f))))) ->
      fs w' !! k = Some Dir) /\
  (forall k, fs w !! k = Some Dir -> fs w' !! k = Some Dir) /\
  (forall k v, k <> Fs.key w (Path.join projectDir (filename f)) ->
               fs w !! k = Some v -> fs w' !! k = Some v).
Proof.
  unfold applyFix, fileObject. cbn [Json.get Json.lookupField String.eqb Ascii.eqb Bool.eqb].
  cbn. unfold bind.
  destruct (Fs.mkdirRecursive _ w) as [w1 [[]|ex]] eqn:Hmk; [|discriminate].
  apply mkdirRecursive_spec in Hmk as (Hcwd1 & Hdirs & Hkeep).
  destruct (Fs.writeFile _ _ w1) as [w2 [[]|ex]] eqn:Hwr; [|discriminate].
  apply writeFile_spec in Hwr as (Hcwd2 & Hfs & Hnodir).
  unfold ret. intros H. injection H as <- <-.
  assert (Fs.key w1 (Path.join projectDir (filename f)) =
          Fs.key w (Path.join projectDir (filename f))) as Hkey
      by (unfold Fs.key; rewrite Hcwd1; reflexivity).
  rewrite Hkey in *.
  split; [destruct f; reflexivity|]. split; [congruence|].
  rewrite Hfs. split; [apply lookup_insert_eq|]. split; [|split].
  - intros k Hin. rewrite lookup_insert_ne; [apply Hdirs, Hin|].
    intros <-. apply Hnodir, Hdirs, Hin.
  - intros k Hk. rewrite lookup_insert_ne; [apply Hkeep, Hk|].
    intros <-. apply Hnodir, Hkeep, Hk.
  - intros k v Hne Hk. rewrite lookup_insert_ne; [apply Hkeep, Hk | congruence].
Qed.

Lemma applyFixes_cons projectDir file files w :
  applyFixes projectDir (file :: files) w =
  match applyFix projectDir file w with
  | (w1, Ret written) =>
      match applyFixes projectDir files w1 with
      | (w2, Ret rest) => (w2, Ret (written :: rest))
      | (w2, Throw ex) => (w2, Throw ex)
      end
  | (w1, Throw ex) => (w1, Throw ex)
  end.
Proof.
  cbn [applyFixes]. unfold bind at 1. destruct (applyFix projectDir file w) as [w1 [written|ex]];
    [|reflexivity].
  unfold bind, ret. destruct (applyFixes projectDir files w1) as [w2 [rest|ex]]; reflexivity.
Qed.

(** The files of a reply, one after the other. *)
Lemma applyFixes_spec projectDir files : forall w written,
  snd (applyFixes projectDir (map fileObject files) w) = Ret written ->
  let w' := fst (applyFixes projectDir (map fileObject files) w) in
  written = files /\ cwd w' = cwd w /\
  (forall k, fs w !! k = Some Dir -> fs w' !! k = Some Dir) /\
  (forall k v,
      (forall g, In g files -> Fs.key w (Path.join projectDir (filename g)) <> k) ->
      fs w !! k = Some v -> fs w' !! k = Some v) /\
  (forall (i : nat) f,
      files !! i = Some f ->
      (forall (j : nat) g, (i < j)%nat -> files !! j = Some g ->
                   Fs.key w (Path.join projectDir (filename g)) <>
                   Fs.key w (Path.join projectDir (filename f))) ->
      fs w' !! Fs.key w (Path.join projectDir (filename f)) = Some (File (content f) true) /\
      (forall k,
          In k (Fs.ancestorsFrom ""
                  (Path.resolveSegments (cwd w) (Path.dirname (Path.join projectDir (filename f))))) ->
          fs w' !! k = Some Dir)).
Proof.
  induction files as [|f files IH]; intros w written; cbn [map].
  - cbn. intros H. injection H as <-.
    split; [reflexivity|]. split; [reflexivity|]. split; [auto|]. split; [auto|].
    intros i f Hf. discriminate.
  - rewrite applyFixes_cons.
    destruct (applyFix projectDir (fileObject f) w) as [w1 [f1|ex]] eqn:Hone; [|discriminate].
    apply applyFix_spec in Hone as (-> & Hcwd1 & Hfile & Hdirs & Hkeepd & Hkeep).
    specialize (IH w1).
    destruct (applyFixes projectDir (map fileObject files) w1) as [w2 [rest|ex]];
      [|discriminate].
    cbn [fst snd ret] in *. intros H. injection H as <-.
    destruct (IH rest eq_refl) as (-> & Hcwd2 & Hkeepd2 & Hkeep2 & Hfiles).
    assert (forall g, Fs.key w1 (Path.join projectDir (filename g)) =
                      Fs.key w (Path.join projectDir (filename g))) as Hkey
        by (intros g; unfold Fs.key; rewrite Hcwd1; reflexivity).
    split; [reflexivity|]. split; [congruence|]. split; [auto|]. split.
    + intros k v Hother Hk. apply Hkeep2.
      * intros g Hg. rewrite Hkey. apply Hother. right. exact Hg.
      * apply Hkeep; [|exact Hk]. intros ->. apply (Hother f); [left|]; reflexivity.
    + intros [|i] g Hg Hlater.
      * injection Hg as <-. split.
        -- apply Hkeep2; [|exact Hfile].
           intros g Hg. rewrite Hkey.
           apply list_elem_of_In, list_elem_of_lookup in Hg as [j Hj].
           apply (Hlater (S j) g); [lia | exact Hj].
        -- intros k Hin. apply Hkeepd2, Hdirs, Hin.
      * cbn in Hg. rewrite <- !Hkey, <- Hcwd1. apply (Hfiles i); [exact Hg|].
        intros j g' Hij Hg'. rewrite !Hkey. apply (Hlater (S j) g'); [lia | exact Hg'].
Qed.

End Applicator.

(** C5 (as amended).  When the applicator comes to its end, every file of
    the list that no later file of the list overwrites is at the project
    root joined with its name, with exactly its content, below directories
    that exist now; the file [lib/a.ts] with the content [X], alone in the
    list, is such a file. *)
Theorem applyFixes_writes_files projectDir files w :
  snd (applyFixes projectDir (map fileObject files) w) = Ret files ->
  let w' := fst (applyFixes projectDir (map fileObject files) w) in
  (forall (i : nat) f,
      files !! i = Some f ->
      (forall (j : nat) g, (i < j)%nat -> files !! j = Some g ->
                   Fs.key w (Path.join projectDir (filename g)) <>
                   Fs.key w (Path.join projectDir (filename f))) ->
      fs w' !! Fs.key w (Path.join projectDir (filename f)) = Some (File (content f) true) /\
      (forall k,
          In k (Fs.ancestorsFrom ""
                  (Path.resolveSegments (cwd w) (Path.dirname (Path.join projectDir (filename f))))) ->
          fs w' !! k = Some Dir)) /\
  (files = [FixFile "lib/a.ts" "X"] ->
   fs w' !! Fs.key w (Path.join projectDir "lib/a.ts") = Some (File "X" true)).
Proof.
  intros Hret w'. destruct (applyFixes_spec projectDir files w files Hret) as (_ & _ & _ & _ & H).
  split; [exact H|].
  intros ->. apply (H 0%nat (FixFile "lib/a.ts" "X")); [reflexivity|].
  intros [|[|j]] g Hj Hg; [lia| |]; discriminate.
Qed.

Lemma applyFixes_writes_files_witness :
  snd (SampleFixes.apply SampleFixes.one) = Ret SampleFixes.one /\
  fs (fst (SampleFixes.apply SampleFixes.one)) !! "/proj/lib/a.ts" = Some (File "X" true) /\
  fs (fst (SampleFixes.apply SampleFixes.one)) !! "/proj/lib" = Some Dir.
Proof.
  assert (snd (SampleFixes.apply SampleFixes.one) = Ret SampleFixes.one) as Hret
      by (vm_compute; reflexivity).
  split; [exact Hret|].
  pose proof (applyFixes_writes_files "/proj" SampleFixes.one
                (Sample.worldOf Sample.bareProject) Hret) as [Hall Hone].
  split.
  - exact (Hone eq_refl).
  - destruct (Hall 0%nat (FixFile "lib/a.ts" "X") eq_refl) as [_ Hdirs].
    + intros [|[|j]] g Hj Hg; [lia| |]; discriminate.
    + apply Hdirs. vm_compute. right. left. reflexivity.
Defined.

(** C5 as it was stated fails for a list that names a file twice: the
    content of the later entry is what the file holds. *)
Lemma applyFixes_later_entry_wins :
  snd (SampleFixes.apply SampleFixes.twice) = Ret SampleFixes.twice /\
  In (FixFile "lib/a.ts" "X") SampleFixes.twice /\
  fs (fst (SampleFixes.apply SampleFixes.twice)) !! "/proj/lib/a.ts" = Some (File "Y" true) /\
  fs (fst (SampleFixes.apply SampleFixes.twice)) !! "/proj/lib/a.ts" <> Some (File "X" true).
Proof.
  assert (fs (fst (SampleFixes.apply SampleFixes.twice)) !! "/proj/lib/a.ts" = Some (File "Y" true))
    as Hfile by (vm_compute; reflexivity).
  split; [vm_compute; reflexivity|]. split; [left; reflexivity|].
  split; [exact Hfile|]. rewrite Hfile. discriminate.
Qed.

(** ** Substrings and path segments *)

Section Substrings.

#[local] Arguments String.append _ _ : simpl nomatch.

Lemma startsWith_app_sep c needle : Str.mem c needle = false ->
  forall a b, Str.startsWith (a +:+ String c b) needle = Str.startsWith a needle.
Proof.
  induction needle as [|d needle IH]; intros Hmem a b.
  - destruct a; reflexivity.
  - cbn in Hmem. apply orb_false_iff in Hmem as [Hcd Hmem].
    destruct a as [|x a]; cbn [Str.startsWith String.append].
    + rewrite Ascii.eqb_sym, Hcd. reflexivity.
    + destruct (Ascii.eqb d x); [apply IH, Hmem | reflexivity].
Qed.

(** An occurrence of the needle does not reach across a character that
    the needle does not have. *)
Lemma includes_app_sep c needle : Str.mem c needle = false ->
  forall a b,
    Str.includes (a +:+ String c b) needle = Str.includes a needle || Str.includes b needle.
Proof.
  intros Hmem a b. induction a as [|x a IH].
  - pose proof (startsWith_app_sep c needle Hmem "" b) as H0.
    cbn [String.append Str.includes] in *. rewrite H0.
    destruct (Str.startsWith "" needle); reflexivity.
  - pose proof (startsWith_app_sep c needle Hmem (String x a) b) as H0.
    cbn [String.append Str.includes] in *. rewrite H0, IH.
    rewrite orb_assoc. reflexivity.
Qed.

Lemma startsWith_app a b needle :
  Str.startsWith a needle = true -> Str.startsWith (a +:+ b) needle = true.
Proof.
  revert a. induction needle as [|d needle IH]; intros a H.
  - destruct (a +:+ b); reflexivity.
  - destruct a as [|x a]; cbn [Str.startsWith String.append] in *; [discriminate|].
    destruct (Ascii.eqb d x); [apply IH, H | discriminate].
Qed.

Lemma includes_prefix a b needle :
  Str.includes a needle = true -> Str.includes (a +:+ b) needle = true.
Proof.
  induction a as [|x a IH]; cbn [Str.includes String.append]; intros H.
  - rewrite orb_false_r in H. destruct needle; [|discriminate].
    destruct b; reflexivity.
  - apply orb_true_iff in H as [H|H].
    + pose proof (startsWith_app _ b _ H) as H0. cbn [String.append] in H0.
      rewrite H0. reflexivity.
    + rewrite (IH H). apply orb_true_r.
Qed.

Lemma includes_suffix a b needle :
  Str.includes b needle = true -> Str.includes (a +:+ b) needle = true.
Proof.
  induction a as [|x a IH]; cbn [Str.includes String.append]; intros H; [exact H|].
  rewrite (IH H). apply orb_true_r.
Qed.

Lemma take_drop n s : Str.take n s +:+ Str.drop n s = s.
Proof.
  revert s. induction n as [|n IH]; intros [|c s]; cbn; try reflexivity.
  rewrite IH. reflexivity.
Qed.

Lemma includes_take n s needle :
  Str.includes (Str.take n s) needle = true -> Str.includes s needle = true.
Proof. intros H. rewrite <- (take_drop n s). apply includes_prefix, H. Qed.

Lemma includes_drop n s needle :
  Str.includes (Str.drop n s) needle = true -> Str.includes s needle = true.
Proof. intros H. rewrite <- (take_drop n s). apply includes_suffix, H. Qed.

Lemma split_nonempty c s : Str.split c s <> [].
Proof.
  destruct s as [|d s]; cbn; [discriminate|].
  destruct (Ascii.eqb d c); [discriminate|]. destruct (Str.split c s); discriminate.
Qed.

Lemma join_cons sep x y l : Str.join sep (x :: y :: l) = x +:+ sep +:+ Str.join sep (y :: l).
Proof. reflexivity. Qed.

(** Joining the pieces of a split gives the string back. *)
Lemma join_split c s : Str.join (Str.single c) (Str.split c s) = s.
Proof.
  induction s as [|d s IH]; [reflexivity|]. cbn [Str.split].
  destruct (Ascii.eqb_spec d c) as [->|Hne].
  - pose proof (split_nonempty c s) as Hs. destruct (Str.split c s) as [|p ps]; [contradiction|].
    rewrite join_cons, IH. reflexivity.
  - pose proof (split_nonempty c s) as Hs. destruct (Str.split c s) as [|p ps]; [contradiction|].
    destruct ps as [|q ps].
    + cbn in *. rewrite IH. reflexivity.
    + rewrite join_cons in *. cbn [String.append]. rewrite IH. reflexivity.
Qed.

(** The needle occurs in a joined list only inside one of its elements,
    when it does not have the separator. *)
Lemma includes_join c needle l :
  Str.mem c needle = false -> needle <> "" ->
  Str.includes (Str.join (Str.single c) l) needle = true ->
  exists seg, In seg l /\ Str.includes seg needle = true.
Proof.
  intros Hmem Hne. induction l as [|x [|y l] IH]; intros H.
  - cbn in H. rewrite orb_false_r in H. destruct needle; [contradiction | discriminate].
  - exists x. split; [left; reflexivity | exact H].
  - rewrite join_cons in H.
    change (Str.single c +:+ Str.join (Str.single c) (y :: l))
      with (String c (Str.join (Str.single c) (y :: l))) in H.
    rewrite (includes_app_sep c needle Hmem) in H. apply orb_true_iff in H as [H|H].
    + exists x. split; [left; reflexivity | exact H].
    + destruct (IH H) as (seg & Hin & Hseg). exists seg. split; [right; exact Hin | exact Hseg].
Qed.

(** A piece of a split has the needle only if the whole string has it. *)
Lemma includes_split c needle s seg :
  In seg (Str.split c s) -> Str.includes seg needle = true -> Str.includes s needle = true.
Proof.
  rewrite <- (join_split c s) at 2. generalize (Str.split c s) as l.
  induction l as [|x [|y l] IH]; intros Hin Hseg.
  - destruct Hin.
  - destruct Hin as [<-|[]]. exact Hseg.
  - rewrite join_cons. destruct Hin as [<-|Hin].
    + apply includes_prefix, Hseg.
    + apply includes_suffix, includes_suffix, IH; assumption.
Qed.

End Substrings.

Section PathSegments.

#[local] Arguments String.append _ _ : simpl nomatch.

Lemma pushSegment_subset allow acc seg x :
  In x (Path.pushSegment allow acc seg) -> In x acc \/ x = seg.
Proof.
  unfold Path.pushSegment.
  destruct (String.eqb seg "" || String.eqb seg "."); [auto|].
  destruct (String.eqb seg "..").
  - destruct acc as [|top rest].
    + destruct allow; cbn; intuition.
    + destruct (String.eqb top ".."); [destruct allow|]; cbn; intuition.
  - cbn. intuition.
Qed.

Lemma fold_pushSegment_subset allow segs : forall acc x,
  In x (fold_left (Path.pushSegment allow) segs acc) -> In x acc \/ In x segs.
Proof.
  induction segs as [|seg segs IH]; intros acc x H; cbn in *; [auto|].
  apply IH in H as [H|H]; [|auto].
  apply pushSegment_subset in H as [H|H]; auto.
Qed.

(** The segments of a normalized path are segments of the path. *)
Lemma normalizeSegments_subset allow p x :
  In x (Path.normalizeSegments allow p) -> In x (Str.split Path.slash p).
Proof.
  unfold Path.normalizeSegments. rewrite <- in_rev. intros H.
  apply fold_pushSegment_subset in H as [[]|H]. exact H.
Qed.

Lemma dropCommon_subset a : forall b ra rb x,
  Path.dropCommon a b = (ra, rb) -> In x rb -> In x b.
Proof.
  induction a as [|s a IH]; intros [|t b] ra rb x H Hin; cbn in H;
    try (injection H as <- <-; exact Hin).
  destruct (String.eqb s t).
  - right. eapply IH; eassumption.
  - injection H as <- <-. exact Hin.
Qed.

Variable needle : string.
Hypothesis needle_no_slash : Str.mem Path.slash needle = false.
Hypothesis needle_not_empty : needle <> "".
Hypothesis needle_not_in_dots : Str.includes ".." needle = false.

Lemma relative_excludes workDir from to :
  Path.isAbsolute to = true ->
  Str.includes to needle = false ->
  Str.includes (Path.relative workDir from to) needle = false.
Proof.
  intros Habs Hto. unfold Path.relative.
  destruct (Path.dropCommon _ _) as [ra rb] eqn:Hdrop.
  destruct (Str.includes (Str.join "/" _) needle) eqn:Hinc; [|reflexivity].
  apply (includes_join Path.slash needle _ needle_no_slash needle_not_empty) in Hinc
    as (seg & Hin & Hseg).
  apply in_app_or in Hin as [Hin|Hin].
  - apply in_map_iff in Hin as (y & <- & _). congruence.
  - eapply dropCommon_subset in Hin; [|exact Hdrop].
    unfold Path.resolveSegments in Hin. rewrite Habs in Hin.
    apply normalizeSegments_subset in Hin.
    rewrite (includes_split _ _ _ _ Hin Hseg) in Hto. discriminate.
Qed.

Lemma basename_excludes p :
  Str.includes p needle = false -> Str.includes (Path.basename p) needle = false.
Proof.
  intros Hp. unfold Path.basename.
  destruct (List.filter _ _) as [|seg segs] eqn:Hf.
  - cbn. rewrite orb_false_r. destruct needle; [contradiction | reflexivity].
  - assert (In seg (Str.split Path.slash p)) as Hin.
    { apply in_rev. eapply proj1. apply filter_In. rewrite Hf. left. reflexivity. }
    destruct (Str.includes seg needle) eqn:Hseg; [|reflexivity].
    rewrite (includes_split _ _ _ _ Hin Hseg) in Hp. discriminate.
Qed.

(** What [normalizeFilePath] makes of a path has the needle only if the
    path has it. *)
Lemma normalizeFilePath_excludes workDir filePath projectDir :
  Str.includes filePath needle = false ->
  Str.includes (normalizeFilePath workDir filePath projectDir) needle = false.
Proof.
  intros H. unfold normalizeFilePath.
  destruct (Path.isAbsolute filePath) eqn:Habs; [|exact H].
  destruct (Str.startsWith filePath projectDir).
  - apply relative_excludes; assumption.
  - apply basename_excludes, H.
Qed.

Hypothesis needle_no_dot : Str.mem "."%char needle = false.
Hypothesis needle_not_in_ts : Str.includes "ts" needle = false.

Lemma replaceSuffix_ts_excludes old s :
  Str.includes s needle = false ->
  Str.includes (Str.replaceSuffix old ".ts" s) needle = false.
Proof.
  intros H. unfold Str.replaceSuffix. destruct (Str.endsWith s old); [|exact H].
  change ".ts" with (String "."%char "ts").
  rewrite (includes_app_sep _ _ needle_no_dot), needle_not_in_ts, orb_false_r.
  destruct (Str.includes (Str.take _ s) needle) eqn:Ht; [|reflexivity].
  rewrite (includes_take _ _ _ Ht) in H. discriminate.
Qed.

(** The same for the source file of a path under [dist/]. *)
Lemma sourceFileOf_excludes filePath :
  Str.includes filePath needle = false ->
  Str.includes (sourceFileOf filePath) needle = false.
Proof.
  intros H. unfold sourceFileOf. apply replaceSuffix_ts_excludes, replaceSuffix_ts_excludes.
  unfold Str.stripPrefix. destruct (Str.startsWith filePath "dist/"); [|exact H].
  destruct (Str.includes (Str.drop _ filePath) needle) eqn:Hd; [|reflexivity].
  rewrite (includes_drop _ _ _ Hd) in H. discriminate.
Qed.

End PathSegments.

(** ** The error-context extractor *)

(** Whether a file can be read depends on the file system and on the
    working directory. *)
Lemma readable_frame w w0 p : fs w = fs w0 -> cwd w = cwd w0 -> readable w p = readable w0 p.
Proof.
  intros Hfs Hcwd. unfold readable, Fs.readFile, Fs.key. rewrite Hfs, Hcwd.
  destruct (Str.endsWith p "/"); [reflexivity|].
  destruct (fs w0 !! _) as [[|]|]; try reflexivity.
  destruct (String.eqb _ _); reflexivity.
Qed.

Section Extractor.

Variable projectDir : string.
Variable found : list string.
Variable w0 : world.

Lemma readFile_spec p w :
  fst (Fs.readFile p w) = addRead p w /\
  forall text, snd (Fs.readFile p w) = Ret text ->
               exists writable, fs w !! Fs.key w p = Some (File text writable).
Proof.
  unfold Fs.readFile. destruct (Str.endsWith p "/"); [split; [reflexivity | discriminate]|].
  destruct (fs w !! Fs.key w p) as [[|text b]|] eqn:Hk; cbn.
  - split; [reflexivity | discriminate].
  - split; [reflexivity|]. intros t H. injection H as <-. eauto.
  - destruct (String.eqb (Fs.key w p) "/"); split; try reflexivity; discriminate.
Qed.

(** A path that was not mentioned is mentioned, and nothing is read. *)
Lemma invariant_mention p x w :
  extractionInvariant projectDir found w0 x w -> extractionInvariant projectDir found w0 (mention p x) w.
Proof.
  intros (Hw & Hnd & Hfiles & keys & Hk & Hin & Hreads & Hres).
  split; [exact Hw|]. split; [exact Hnd|]. split.
  - intros f Hf. destruct (Hfiles f Hf) as (Hm & Hd & Hc).
    split; [apply elem_of_union_r, Hm | auto].
  - exists keys. split; [exact Hk|]. split; [|split; [exact Hreads | exact Hres]].
    intros k Hkin. apply elem_of_union_r, Hin, Hkin.
Qed.

(** A path that was not mentioned is mentioned and read: the file is
    added when it could be read. *)
Lemma invariant_read p x w :
  extractionInvariant projectDir found w0 x w -> p ∉ filesMentioned x ->
  derivedFrom (cwd w0) projectDir found p ->
  let '(w', r) :=
    tryCatch (text <- Fs.readFile (Path.join projectDir p) ;; ret (pushFile p text (mention p x)))
             (fun _ => ret (mention p x)) w in
  exists x', r = Ret x' /\ extractionInvariant projectDir found w0 x' w'.
Proof.
  intros (Hw & Hnd & Hfiles & keys & Hk & Hin & Hreads & Hres) Hfresh Hder.
  assert (NoDup (keys ++ [p])) as Hkeys.
  { apply NoDup_app. split; [exact Hk|]. split; [|apply NoDup_singleton].
    intros q Hq Hq'. apply list_elem_of_In in Hq'. destruct Hq' as [<-|[]].
    apply list_elem_of_In in Hq. apply Hfresh, Hin, Hq. }
  assert (forall k, In k (keys ++ [p]) -> k ∈ {[ p ]} ∪ filesMentioned x) as Hmentioned.
  { intros k Hkin. apply in_app_or in Hkin as [Hkin|[<-|[]]];
      [apply elem_of_union_r, Hin, Hkin | apply elem_of_union_l, elem_of_singleton; reflexivity]. }
  destruct Hw as (Hfs & Hcwd & Hticks & Haud).
  pose proof (readable_frame w w0 (Path.join projectDir p) Hfs Hcwd) as Hreadable.
  unfold readable in Hreadable at 1.
  unfold tryCatch, bind.
  destruct (readFile_spec (Path.join projectDir p) w) as [Hfst Hsnd].
  destruct (Fs.readFile (Path.join projectDir p) w) as [w' [text|ex]]; cbn [fst snd] in *; subst w'.
  - eexists. split; [reflexivity|].
    destruct (Hsnd text eq_refl) as [writable Hfile].
    split; [cbn; auto|]. split; [|split].
    + cbn [pushFile relevantFiles mention]. rewrite map_app. cbn [map rf_path].
      apply NoDup_app. split; [exact Hnd|]. split; [|apply NoDup_singleton].
      intros q Hq Hq'. apply list_elem_of_In in Hq. apply in_map_iff in Hq as (f & <- & Hf).
      apply list_elem_of_In in Hq'. destruct Hq' as [Heq|[]].
      destruct (Hfiles f Hf) as (Hm & _). rewrite <- Heq in Hm. contradiction.
    + cbn [pushFile relevantFiles mention filesMentioned]. intros f Hf.
      apply in_app_or in Hf as [Hf|[<-|[]]].
      * destruct (Hfiles f Hf) as (Hm & Hd & Hc). split; [apply elem_of_union_r, Hm | auto].
      * cbn [rf_path rf_content].
        split; [apply elem_of_union_l, elem_of_singleton; reflexivity|]. split; [exact Hder|].
        exists writable. unfold Fs.key in *. rewrite <- Hfs, <- Hcwd. exact Hfile.
    + exists (keys ++ [p]). split; [exact Hkeys|]. split; [exact Hmentioned|]. split.
      * cbn [reads addRead]. rewrite Hreads, map_app, <- app_assoc. reflexivity.
      * cbn [pushFile relevantFiles mention]. rewrite map_app, List.filter_app, Hres.
        cbn [map rf_path List.filter]. rewrite <- Hreadable. reflexivity.
  - eexists. split; [reflexivity|].
    split; [cbn; auto|]. split; [exact Hnd|]. split.
    + intros f Hf. destruct (Hfiles f Hf) as (Hm & Hd & Hc).
      split; [apply elem_of_union_r, Hm | auto].
    + exists (keys ++ [p]). split; [exact Hkeys|]. split; [exact Hmentioned|]. split.
      * cbn [reads addRead]. rewrite Hreads, map_app, <- app_assoc. reflexivity.
      * cbn [relevantFiles mention]. rewrite List.filter_app, Hres.
        cbn [List.filter]. rewrite <- Hreadable. symmetry. apply app_nil_r.
Qed.

(** The part of the loop body for a path under [dist/]. *)
Lemma invariant_addSourceOfDist c x w :
  extractionInvariant projectDir found w0 x w -> In c found -> skipped c = false ->
  let '(w', r) := addSourceOfDist projectDir (normalizeFilePath (cwd w0) c projectDir) x w in
  exists x', r = Ret x' /\ extractionInvariant projectDir found w0 x' w'.
Proof.
  intros Hinv Hc Hskip. unfold addSourceOfDist.
  destruct (Str.startsWith _ "dist/"); [|eexists; split; [reflexivity | exact Hinv]].
  set (sourceFile := sourceFileOf _).
  destruct (decide (sourceFile ∈ filesMentioned x)) as [Hseen|Hfresh];
    [eexists; split; [reflexivity | exact Hinv]|].
  assert (derivedFrom (cwd w0) projectDir found sourceFile) as Hder
      by (exists c; auto).
  pose proof (invariant_read sourceFile x w Hinv Hfresh Hder) as Hread.
  unfold tryCatch, bind at 1, Fs.existsSync.
  match goal with |- context [if ?b then _ else _] => destruct b end.
  - exact Hread.
  - cbn. eexists. split; [reflexivity|]. apply invariant_mention, Hinv.
Qed.

(** The body of the inner loop. *)
Lemma invariant_visit c x w :
  extractionInvariant projectDir found w0 x w -> In c found ->
  let '(w', r) := visit projectDir x c w in
  exists x', r = Ret x' /\ extractionInvariant projectDir found w0 x' w'.
Proof.
  intros Hinv Hc. unfold visit.
  destruct (skipped c) eqn:Hskip; [eexists; split; [reflexivity | exact Hinv]|].
  unfold bind at 1, getCwd.
  assert (cwd w = cwd w0) as -> by apply Hinv.
  unfold bind at 1.
  pose proof (invariant_addSourceOfDist c x w Hinv Hc Hskip) as Hdist.
  destruct (addSourceOfDist _ _ x w) as [w1 r1].
  destruct Hdist as (x1 & -> & Hinv1).
  destruct (decide (_ ∈ filesMentioned x1)) as [Hseen|Hfresh];
    [eexists; split; [reflexivity | exact Hinv1]|].
  apply invariant_read; [exact Hinv1 | exact Hfresh |].
  exists c. auto.
Qed.

Lemma invariant_visitAll cs : forall x w,
  extractionInvariant projectDir found w0 x w -> (forall c, In c cs -> In c found) ->
  let '(w', r) := visitAll projectDir x cs w in
  exists x', r = Ret x' /\ extractionInvariant projectDir found w0 x' w'.
Proof.
  induction cs as [|c cs IH]; intros x w Hinv Hsub; cbn [visitAll].
  - eexists. split; [reflexivity | exact Hinv].
  - unfold bind.
    pose proof (invariant_visit c x w Hinv (Hsub c (or_introl eq_refl))) as Hv.
    destruct (visit projectDir x c w) as [w1 r1]. destruct Hv as (x1 & -> & Hinv1).
    apply IH; [exact Hinv1|]. intros c' Hc'. apply Hsub. right. exact Hc'.
Qed.

End Extractor.

Lemma extractionInvariant_start projectDir found w :
  extractionInvariant projectDir found w (Extraction [] ∅) w.
Proof.
  split; [auto|]. split; [constructor|]. split; [intros f []|].
  exists []. split; [constructor|]. split; [intros k []|].
  split; [|reflexivity]. cbn. rewrite app_nil_r. reflexivity.
Qed.



(** ** The fix requestor and its audit log *)

Section Requestor.

Variable e : env.
Variable projectDir : string.

Lemma dirsKept_refl w : dirsKept w w.
Proof. split; auto. Qed.

Lemma dirsKept_trans w1 w2 w3 : dirsKept w1 w2 -> dirsKept w2 w3 -> dirsKept w1 w3.
Proof. intros [H1 H2] [H3 H4]. split; [congruence | auto]. Qed.

(** What [fs.mkdir] with [recursive] changes: it makes a directory where
    there was nothing. *)
Lemma mkdirAll_effect keys : forall (f f' : gmap string node),
  Fs.mkdirAll keys f = Some f' ->
  forall k, f' !! k = f !! k \/ (In k keys /\ f !! k = None /\ f' !! k = Some Dir).
Proof.
  induction keys as [|k0 keys IH]; intros f f' H k; cbn in H.
  - injection H as <-. left. reflexivity.
  - destruct (f !! k0) as [[|c b]|] eqn:Hk0; try discriminate.
    + destruct (IH _ _ H k) as [Hsame|(Hin & Hnone & Hdir)]; [left; exact Hsame|].
      right. split; [right; exact Hin | auto].
    + destruct (IH _ _ H k) as [Hsame|(Hin & Hnone & Hdir)].
      * destruct (decide (k0 = k)) as [->|Hne].
        -- right. rewrite Hsame, lookup_insert_eq. split; [left; reflexivity | auto].
        -- left. rewrite Hsame. apply lookup_insert_ne. exact Hne.
      * destruct (decide (k0 = k)) as [->|Hne].
        -- rewrite lookup_insert_eq in Hnone. discriminate.
        -- rewrite lookup_insert_ne in Hnone by exact Hne.
           right. split; [right; exact Hin | auto].
Qed.

Lemma mkdirRecursive_frame p w :
  dirsKept w (fst (Fs.mkdirRecursive p w)) /\
  audits (fst (Fs.mkdirRecursive p w)) = audits w.
Proof.
  unfold Fs.mkdirRecursive. destruct (Fs.mkdirAll _ (fs w)) as [f|] eqn:Hmk; cbn.
  - split; [|reflexivity]. split; [reflexivity|].
    intros k Hk. exact (proj2 (mkdirAll_spec _ _ _ Hmk) k Dir Hk).
  - split; [apply dirsKept_refl | reflexivity].
Qed.

Lemma writeFile_frame p text w :
  dirsKept w (fst (Fs.writeFile p text w)) /\
  audits (fst (Fs.writeFile p text w)) = audits w.
Proof.
  unfold Fs.writeFile.
  destruct (Str.endsWith p "/" || String.eqb (Fs.key w p) "/");
    [split; [apply dirsKept_refl | reflexivity]|].
  destruct (negb (Fs.isDirAt (fs w) (Path.dirname (Fs.key w p))));
    [split; [apply dirsKept_refl | reflexivity]|].
  destruct (fs w !! Fs.key w p) as [[|c [|]]|] eqn:Hk; cbn;
    try (split; [apply dirsKept_refl | reflexivity]).
  - split; [|reflexivity]. split; [reflexivity|]. cbn.
    intros k Hd. rewrite lookup_insert_ne; [exact Hd | congruence].
  - split; [|reflexivity]. split; [reflexivity|]. cbn.
    intros k Hd. rewrite lookup_insert_ne; [exact Hd | congruence].
Qed.

(** When [fs.writeFile] succeeds, and what it does then. *)
Lemma writeFile_cases p text w :
  let ok :=
    negb (Str.endsWith p "/" || String.eqb (Fs.key w p) "/") &&
    Fs.isDirAt (fs w) (Path.dirname (Fs.key w p)) &&
    match fs w !! Fs.key w p with
    | Some Dir | Some (File _ false) => false
    | Some (File _ true) | None => true
    end in
  (ok = true /\
   Fs.writeFile p text w = (withFs (<[Fs.key w p := File text true]> (fs w)) w, Ret tt)) \/
  (ok = false /\ exists ex, Fs.writeFile p text w = (w, Throw ex)).
Proof.
  cbn zeta. unfold Fs.writeFile.
  destruct (Str.endsWith p "/" || String.eqb (Fs.key w p) "/"); [right; eauto|].
  cbn [negb andb].
  destruct (Fs.isDirAt (fs w) (Path.dirname (Fs.key w p))); [|right; eauto].
  cbn [negb andb].
  destruct (fs w !! Fs.key w p) as [[|c [|]]|]; eauto.
Qed.

(** What [fs.writeFile] changes: the entry of its path, which is then a
    file that can be written. *)
Lemma writeFile_effect p text w k :
  fs (fst (Fs.writeFile p text w)) !! k = fs w !! k \/
  (k = Fs.key w p /\ fs (fst (Fs.writeFile p text w)) !! k = Some (File text true)).
Proof.
  unfold Fs.writeFile.
  destruct (Str.endsWith p "/" || String.eqb (Fs.key w p) "/"); [left; reflexivity|].
  destruct (negb (Fs.isDirAt (fs w) (Path.dirname (Fs.key w p)))); [left; reflexivity|].
  destruct (fs w !! Fs.key w p) as [[|c [|]]|] eqn:Hk; try (left; reflexivity);
    cbn [fst fs withFs];
    (destruct (decide (Fs.key w p = k)) as [<-|Hne];
     [right; split; [reflexivity | apply lookup_insert_eq]
     | left; apply lookup_insert_ne; exact Hne]).
Qed.

Lemma applyFix_frame file w w' r :
  applyFix projectDir file w = (w', r) -> dirsKept w w' /\ audits w' = audits w.
Proof.
  unfold applyFix.
  destruct (Json.get "filename" file) as [[|b|n|name|items|fields]|];
    try (intros H; injection H as <- <-; split; [apply dirsKept_refl | reflexivity]).
  unfold bind at 1.
  pose proof (mkdirRecursive_frame (Path.dirname (Path.join projectDir name)) w) as [Hd1 Ha1].
  destruct (Fs.mkdirRecursive _ w) as [w1 [[]|ex]]; cbn [fst] in *;
    [|intros H; injection H as <- <-; auto].
  destruct (Json.get "content" file) as [[|b|n|text|items|fields]|];
    try (intros H; injection H as <- <-; split; assumption).
  unfold bind, ret.
  pose proof (writeFile_frame (Path.join projectDir name) text w1) as [Hd2 Ha2].
  destruct (Fs.writeFile _ _ w1) as [w2 [[]|ex]]; cbn [fst] in *;
    intros H; injection H as <- <-;
    (split; [eapply dirsKept_trans; eassumption | congruence]).
Qed.

(** The applicator keeps the directories and the audit records, however it
    ends. *)
Lemma applyFixes_frame files : forall w w' r,
  applyFixes projectDir files w = (w', r) -> dirsKept w w' /\ audits w' = audits w.
Proof.
  induction files as [|file files IH]; intros w w' r.
  - intros H. injection H as <- <-. split; [apply dirsKept_refl | reflexivity].
  - rewrite applyFixes_cons.
    destruct (applyFix projectDir file w) as [w1 [written|ex]] eqn:Hone;
      apply applyFix_frame in Hone as [Hd1 Ha1];
      [|intros H; injection H as <- <-; auto].
    destruct (applyFixes projectDir files w1) as [w2 [rest|ex]] eqn:Hrest;
      apply IH in Hrest as [Hd2 Ha2];
      intros H; injection H as <- <-;
      (split; [eapply dirsKept_trans; eassumption | congruence]).
Qed.

(** The readable log: whether it is written or not, the directories and
    the audit records are kept, and nothing changes but the entry of its
    path, which is then a file that can be written. *)
Lemma writeReadableLog_frame readableLog n a w :
  let w' := fst (writeReadableLog e readableLog n a w) in
  dirsKept w w' /\ audits w' = audits w /\
  forall k, fs w' !! k = fs w !! k \/
            (k = Fs.key w readableLog /\ exists text, fs w' !! k = Some (File text true)).
Proof.
  cbn zeta. unfold writeReadableLog, bind at 1, nowISO.
  assert (dirsKept w (tick w)) as Htick by (split; [reflexivity | auto]).
  destruct (au_response a) as [response|]; [|cbn; split; [exact Htick | auto]].
  unfold bind. destruct (filesModified response) as [modified|ex];
    [|cbn; split; [exact Htick | auto]].
  set (text := readableContent _ _ _ _ _).
  pose proof (writeFile_frame readableLog text (tick w)) as [Hd Ha].
  pose proof (writeFile_effect readableLog text (tick w)) as He.
  split; [exact (dirsKept_trans _ _ _ Htick Hd)|]. split; [exact Ha|].
  intros k. destruct (He k) as [Hsame|[-> Hnew]]; [left; exact Hsame|].
  right. split; [reflexivity | eauto].
Qed.

(** [logAudit] never throws.  It keeps the directories, it leaves its
    record exactly when the file of the record can be written, and it
    changes nothing of the file system but this: it makes the directories
    on the way to the audit directory, and it writes its two files. *)
Lemma logAudit_spec n a w :
  exists w' file,
    logAudit e projectDir n a w = (w', Ret file) /\
    dirsKept w w' /\
    (if auditWritable e projectDir n w
     then audits w' = audits w ++ [a] /\
          isFileAt (fs w') (Fs.key w (auditLogFile e projectDir n w))
     else audits w' = audits w) /\
    (forall k,
        fs w' !! k = fs w !! k \/
        (In k (auditDirectories projectDir w) /\ fs w !! k = None /\ fs w' !! k = Some Dir) \/
        ((k = Fs.key w (auditLogFile e projectDir n w) \/
          k = Fs.key w (readableLogFile e projectDir n w)) /\
         exists text, fs w' !! k = Some (File text true))).
Proof.
  unfold logAudit, tryCatch, bind at 1, ensureAuditDirectory. unfold bind at 1.
  unfold auditWritable, Fs.mkdirRecursive, auditDirectories.
  destruct (Fs.mkdirAll _ (fs w)) as [f|] eqn:Hmk.
  2:{ cbn. exists w, None. split; [reflexivity|]. split; [apply dirsKept_refl|].
      split; [reflexivity | auto]. }
  pose proof (mkdirAll_spec _ _ _ Hmk) as [_ Hkeep].
  pose proof (mkdirAll_effect _ _ _ Hmk) as Hmade.
  cbn [ret]. unfold bind at 1, nowISO. unfold bind at 1, writeAuditFile. unfold bind at 1.
  cbn [ticks withFs]. fold (auditLogFile e projectDir n w).
  fold (readableLogFile e projectDir n w).
  set (file := auditLogFile e projectDir n w).
  set (readable := readableLogFile e projectDir n w).
  set (w1 := tick (withFs f w)).
  assert (dirsKept w w1) as Hd1.
  { split; [reflexivity|]. intros k Hk. apply (Hkeep k Dir Hk). }
  assert (forall w2,
             (forall k, fs w2 !! k = fs w1 !! k \/
                        ((k = Fs.key w file \/ k = Fs.key w readable) /\
                         exists text, fs w2 !! k = Some (File text true))) ->
             forall k,
               fs w2 !! k = fs w !! k \/
               (In k (Fs.ancestorsFrom ""
                        (Path.resolveSegments (cwd w) (Path.join projectDir ".archline-audit"))) /\
                fs w !! k = None /\ fs w2 !! k = Some Dir) \/
               ((k = Fs.key w file \/ k = Fs.key w readable) /\
                exists text, fs w2 !! k = Some (File text true))) as Hfs.
  { intros w2 H2 k. destruct (H2 k) as [Hsame|Hnew]; [|right; right; exact Hnew].
    rewrite Hsame. cbn [w1 tick withFs fs].
    destruct (Hmade k) as [Hf|Hdir]; [left; exact Hf | right; left; exact Hdir]. }
  pose proof (writeFile_frame file (Json.stringify (auditJson a)) w1) as [Hd2 Ha2].
  pose proof (writeFile_effect file (Json.stringify (auditJson a)) w1) as He2.
  set (can := negb (Str.endsWith file "/" || String.eqb (Fs.key w file) "/") &&
              Fs.isDirAt f (Path.dirname (Fs.key w file)) &&
              match f !! Fs.key w file with
              | Some Dir | Some (File _ false) => false
              | Some (File _ true) | None => true
              end).
  destruct (writeFile_cases file (Json.stringify (auditJson a)) w1) as [[Hcan Hw]|[Hcan [ex Hw]]];
    change (can = true) in Hcan || change (can = false) in Hcan;
    rewrite Hcan; rewrite Hw in *; cbn [fst] in *.
  2:{ cbn [ret]. exists w1, None. split; [reflexivity|].
      split; [exact Hd1|]. split; [reflexivity|].
      apply Hfs. intros k. left. reflexivity. }
  set (w2 := withFs (<[Fs.key w1 file := File (Json.stringify (auditJson a)) true]> (fs w1)) w1) in *.
  assert (isFileAt (fs w2) (Fs.key w file)) as Hfile.
  { eexists _, _. apply lookup_insert_eq. }
  unfold bind at 1. cbn [addAudit].
  set (w3 := addAudit a w2).
  pose proof (writeReadableLog_frame readable n a w3) as (Hd4 & Ha4 & He4).
  cbn zeta in Hd4, Ha4, He4.
  assert (exists file',
             (let (w', o) := writeReadableLog e readable n a w3 in
              match o with
              | Ret _ => (w', Ret (Some file))
              | Throw _ => (w', Ret None)
              end) = (fst (writeReadableLog e readable n a w3), Ret file')) as [file' Hend].
  { destruct (writeReadableLog e readable n a w3) as [w4 [[]|ex]]; eexists; reflexivity. }
  match goal with
  | |- exists w' file0, ?lhs = _ /\ _ =>
      assert (lhs = (fst (writeReadableLog e readable n a w3), Ret file')) as ->
  end.
  { rewrite <- Hend. unfold bind, ret.
    destruct (writeReadableLog e readable n a w3) as [w4 [[]|ex]]; reflexivity. }
  set (w4 := fst (writeReadableLog e readable n a w3)) in *.
  exists w4, file'. split; [reflexivity|].
  assert (dirsKept w2 w3) as Hd3 by (split; [reflexivity | auto]).
  split.
  { eapply dirsKept_trans; [exact Hd1|]. eapply dirsKept_trans; [exact Hd2|].
    exact (dirsKept_trans _ _ _ Hd3 Hd4). }
  split.
  { split.
    - rewrite Ha4. reflexivity.
    - destruct Hfile as (text & b & Hfile).
      destruct (He4 (Fs.key w file)) as [Hsame|[_ [text' Hnew]]].
      + exists text, b. rewrite Hsame. exact Hfile.
      + exists text', true. exact Hnew. }
  intros k. apply Hfs. clear Hfs. intros k'.
  destruct (He4 k') as [Hsame|[-> Hnew]].
  - rewrite Hsame. change (fs w3 !! k') with (fs w2 !! k').
    destruct (He2 k') as [Hsame2|[-> Hnew]]; [left; exact Hsame2|].
    right. split; [left; reflexivity | eauto].
  - right. split; [right; reflexivity | exact Hnew].
Qed.

Lemma logAudit_returns n a w :
  exists file, logAudit e projectDir n a w = (fst (logAudit e projectDir n a w), Ret file).
Proof.
  destruct (logAudit_spec n a w) as (w' & file & H & _). exists file. rewrite H. reflexivity.
Qed.

Lemma logCurrentAudit_spec s :
  exists w',
    logCurrentAudit e projectDir s = (FixState w' (fx_audit s), Ret tt) /\
    w' = fst (logAudit e projectDir (au_attempt (fx_audit s)) (fx_audit s) (fx_world s)) /\
    dirsKept (fx_world s) w'.
Proof.
  unfold logCurrentAudit, bind at 1, getAudit. unfold bind at 1, inWorld.
  destruct (logAudit_spec (au_attempt (fx_audit s)) (fx_audit s) (fx_world s))
    as (w' & file & H & Hd & _).
  rewrite H. exists w'. cbn. auto.
Qed.

(** The outer [catch] block. *)
Lemma outerCatch_spec error s :
  exists w',
    outerCatch e projectDir error s =
    (FixState w' (setApiError (messageOf error) (responseDataOf error) (fx_audit s)),
     Throw failedToGetFixes) /\
    w' = fst (logAudit e projectDir (au_attempt (fx_audit s))
                (setApiError (messageOf error) (responseDataOf error) (fx_audit s))
                (fx_world s)) /\
    dirsKept (fx_world s) w'.
Proof.
  unfold outerCatch, bind at 1, setAudit. unfold bind at 1.
  destruct (logCurrentAudit_spec
              (FixState (fx_world s)
                 (setApiError (messageOf error) (responseDataOf error) (fx_audit s))))
    as (w' & -> & Hw & Hd).
  exists w'. cbn [fx_world fx_audit] in *. auto.
Qed.

(** The inner [catch] block. *)
Lemma innerCatch_spec fragment error s :
  exists w',
    innerCatch e projectDir fragment error s =
    (FixState w' (setParseError (messageOf error) fragment (fx_audit s)),
     Throw (Error invalidJsonFormat)) /\
    w' = fst (logAudit e projectDir (au_attempt (fx_audit s))
                (setParseError (messageOf error) fragment (fx_audit s)) (fx_world s)) /\
    dirsKept (fx_world s) w'.
Proof.
  unfold innerCatch, bind at 1, setAudit. unfold bind at 1.
  destruct (logCurrentAudit_spec
              (FixState (fx_world s) (setParseError (messageOf error) fragment (fx_audit s))))
    as (w' & -> & Hw & Hd).
  exists w'. cbn [fx_world fx_audit] in *. auto.
Qed.

(** A call of [logAudit] adds at most its record to those written. *)
Lemma logAudit_audits n a w :
  exists added, audits (fst (logAudit e projectDir n a w)) = audits w ++ added.
Proof.
  destruct (logAudit_spec n a w) as (w' & file & H & _ & Ha & _). rewrite H. cbn [fst].
  destruct (auditWritable e projectDir n w).
  - exists [a]. apply Ha.
  - exists []. rewrite app_nil_r. exact Ha.
Qed.

(** The request, the reading of the reply and the writing of the files:
    the call ends with a call of [logAudit] for the record as it is at the
    end. *)
Lemma requestAndApply_spec prompt s :
  let '(s', r) := requestAndApply e projectDir prompt s in
  auditedOutcome (postMessage e (ticks (fx_world s)) prompt) (fx_audit s) (fx_audit s') r /\
  dirsKept (fx_world s) (fx_world s') /\
  exists wlog,
    fx_world s' = fst (logAudit e projectDir (au_attempt (fx_audit s')) (fx_audit s') wlog) /\
    logStart e projectDir (fx_world s) wlog (fx_audit s').
Proof.
  unfold requestAndApply, tryCatch at 1. unfold bind at 1, inWorld at 1, postPrompt.
  unfold auditedOutcome.
  set (w1 := tick (fx_world s)).
  assert (dirsKept (fx_world s) w1 /\ audits w1 = audits (fx_world s) /\
          fs w1 = fs (fx_world s) /\ cwd w1 = cwd (fx_world s)) as (Hd1 & Ha1 & Hf1 & Hc1)
      by (split; [split; auto | auto]).
  assert (forall error w2 a,
             au_attempt a = au_attempt (fx_audit s) ->
             logStart e projectDir (fx_world s) w2
               (setApiError (messageOf error) (responseDataOf error) a) ->
             let '(s', r) := outerCatch e projectDir error (FixState w2 a) in
             (r = Throw failedToGetFixes /\
              fx_audit s' = setApiError (messageOf error) (responseDataOf error) a) /\
             dirsKept (fx_world s) (fx_world s') /\
             exists wlog,
               fx_world s' =
               fst (logAudit e projectDir (au_attempt (fx_audit s')) (fx_audit s') wlog) /\
               logStart e projectDir (fx_world s) wlog (fx_audit s')) as Houter.
  { intros error w2 a Hatt Hstart.
    destruct (outerCatch_spec error (FixState w2 a)) as (w3 & -> & Hw3 & Hd3).
    cbn [fx_world fx_audit] in *. split; [auto|]. split.
    - eapply dirsKept_trans; [apply Hstart | exact Hd3].
    - exists w2. split; [exact Hw3 | exact Hstart]. }
  destruct (postMessage e (ticks (fx_world s)) prompt) as [text|m details].
  2:{ apply (Houter (HttpError m details) w1 (fx_audit s) eq_refl).
      split; [exact Hd1|]. split; [exists []; rewrite app_nil_r; exact Ha1|].
      intros _. left. exact Hf1. }
  unfold bind at 1, setAudit at 1. cbn [fx_world fx_audit].
  set (a2 := setRawResponse text (fx_audit s)).
  destruct (jsonMatch text) as [fragment|].
  2:{ apply (Houter (Error couldNotFindJson) w1 a2 eq_refl).
      split; [exact Hd1|]. split; [exists []; rewrite app_nil_r; exact Ha1|].
      intros _. left. exact Hf1. }
  unfold bind at 1, tryCatch at 1, parseFixes.
  assert (forall message,
             let '(s', r) :=
               match innerCatch e projectDir fragment (Error message) (FixState w1 a2) with
               | (s1, Ret result) => applyAndReturn e projectDir result s1
               | (s1, Throw ex) => (s1, Throw ex)
               end in
             match r with
             | Ret _ => False
             | Throw error =>
                 let '(s'', r') := outerCatch e projectDir error s' in
                 (r' = Throw failedToGetFixes /\
                  fx_audit s'' =
                  setApiError invalidJsonFormat None (setParseError message fragment a2)) /\
                 dirsKept (fx_world s) (fx_world s'') /\
                 exists wlog,
                   fx_world s'' =
                   fst (logAudit e projectDir (au_attempt (fx_audit s'')) (fx_audit s'') wlog) /\
                   logStart e projectDir (fx_world s) wlog (fx_audit s'')
             end) as Hinner.
  { intros message.
    destruct (innerCatch_spec fragment (Error message) (FixState w1 a2))
      as (w2 & -> & Hw2 & Hd2).
    cbn [fx_world fx_audit messageOf] in *.
    apply (Houter (Error invalidJsonFormat) w2 (setParseError message fragment a2) eq_refl).
    split; [exact (dirsKept_trans _ _ _ Hd1 Hd2)|]. split.
    - destruct (logAudit_audits (au_attempt a2) (setParseError message fragment a2) w1)
        as [added Hadded].
      exists added. rewrite Hw2, Hadded, Ha1. reflexivity.
    - intros _. right. exists (setParseError message fragment a2), w1.
      split; [exact Hf1|]. split; [exact Hc1 | exact Hw2]. }
  destruct (Json.parse fragment) as [parsed|].
  2:{ specialize (Hinner syntaxErrorMessage). unfold throw at 1.
      destruct (innerCatch e projectDir fragment (Error syntaxErrorMessage) (FixState w1 a2))
        as [s1 [result|ex]].
      - destruct (applyAndReturn e projectDir result s1) as [s2 [res|ex]];
          [destruct Hinner|].
        destruct (outerCatch e projectDir ex s2). exact Hinner.
      - destruct (outerCatch e projectDir ex s1). exact Hinner. }
  destruct (nonEmptyFiles (ensureSummary parsed)) as [files|] eqn:Hfiles.
  2:{ specialize (Hinner noFilesIncluded). unfold throw at 1.
      destruct (innerCatch e projectDir fragment (Error noFilesIncluded) (FixState w1 a2))
        as [s1 [result|ex]].
      - destruct (applyAndReturn e projectDir result s1) as [s2 [res|ex]];
          [destruct Hinner|].
        destruct (outerCatch e projectDir ex s2). exact Hinner.
      - destruct (outerCatch e projectDir ex s1). exact Hinner. }
  clear Hinner. unfold bind at 1, setAudit at 1, ret at 1. cbn [fx_world fx_audit].
  unfold applyAndReturn, filesOf. rewrite Hfiles.
  set (a3 := setResponse (ensureSummary parsed) a2).
  unfold bind at 1, inWorld at 1. cbn [fx_world fx_audit].
  destruct (applyFixes projectDir files w1) as [w2 [written|ex]] eqn:Happly;
    apply applyFixes_frame in Happly as [Hd2 Ha2].
  - unfold bind at 1, setAudit at 1. unfold bind at 1. cbn [fx_world fx_audit].
    destruct (logCurrentAudit_spec (FixState w2 (setSuccess a3))) as (w3 & -> & Hw3 & Hd3).
    cbn [fx_world fx_audit ret] in *. split; [left; eauto|]. split.
    + exact (dirsKept_trans _ _ _ Hd1 (dirsKept_trans _ _ _ Hd2 Hd3)).
    + exists w2. split; [exact Hw3|].
      split; [exact (dirsKept_trans _ _ _ Hd1 Hd2)|].
      split; [exists []; rewrite app_nil_r; congruence | discriminate].
  - assert (logStart e projectDir (fx_world s) w2
              (setApiError (messageOf ex) (responseDataOf ex) a3)) as Hstart.
    { split; [exact (dirsKept_trans _ _ _ Hd1 Hd2)|].
      split; [exists []; rewrite app_nil_r; congruence | discriminate]. }
    pose proof (Houter ex w2 a3 eq_refl Hstart) as H.
    destruct (outerCatch e projectDir ex (FixState w2 a3)) as [s' r].
    destruct H as ((-> & ->) & Hd & Hl). split; [right; eauto|]. auto.
Qed.

End Requestor.

(** ** Reading the reply *)

Section Reply.

Lemma lookupField_filter_other key key' fields :
  key' <> key ->
  Json.lookupField key' (List.filter (fun kv => negb (String.eqb (fst kv) key)) fields) =
  Json.lookupField key' fields.
Proof.
  intros Hne. induction fields as [|[k v] fields IH]; [reflexivity|].
  cbn [List.filter fst]. destruct (String.eqb_spec k key) as [->|Hk]; cbn [negb Json.lookupField].
  - rewrite IH. destruct (Json.lookupField key' fields); [reflexivity|].
    destruct (String.eqb_spec key key'); [congruence | reflexivity].
  - rewrite IH. reflexivity.
Qed.

Lemma lookupField_filter_same key fields :
  Json.lookupField key (List.filter (fun kv => negb (String.eqb (fst kv) key)) fields) = None.
Proof.
  induction fields as [|[k v] fields IH]; [reflexivity|].
  cbn [List.filter fst]. destruct (String.eqb_spec k key) as [->|Hk]; cbn [negb Json.lookupField].
  - exact IH.
  - rewrite IH. destruct (String.eqb_spec k key); [contradiction | reflexivity].
Qed.

Lemma lookupField_setField_other key key' v fields :
  key' <> key ->
  Json.lookupField key' (Json.setField key v fields) = Json.lookupField key' fields.
Proof.
  intros Hne. induction fields as [|[k v0] fields IH]; cbn [Json.setField Json.lookupField].
  - destruct (String.eqb_spec key key'); [congruence | reflexivity].
  - destruct (String.eqb_spec k key) as [->|Hk]; cbn [Json.lookupField].
    + rewrite lookupField_filter_other by exact Hne.
      destruct (Json.lookupField key' fields); [reflexivity|].
      destruct (String.eqb_spec key key'); [congruence | reflexivity].
    + rewrite IH. reflexivity.
Qed.

Lemma lookupField_setField_same key v fields :
  Json.lookupField key (Json.setField key v fields) = Some v.
Proof.
  induction fields as [|[k v0] fields IH]; cbn [Json.setField Json.lookupField].
  - rewrite String.eqb_refl. reflexivity.
  - destruct (String.eqb_spec k key) as [->|Hk]; cbn [Json.lookupField].
    + rewrite lookupField_filter_same, String.eqb_refl. reflexivity.
    + rewrite IH. reflexivity.
Qed.

(** The placeholder summary does not touch the files. *)
Lemma nonEmptyFiles_ensureSummary parsed :
  nonEmptyFiles (ensureSummary parsed) = nonEmptyFiles parsed.
Proof.
  unfold ensureSummary. destruct (Json.truthy _); [reflexivity|].
  destruct parsed; try reflexivity.
  unfold nonEmptyFiles, Json.get. rewrite lookupField_setField_other by discriminate.
  reflexivity.
Qed.

(** An object that has files and lacks a summary gets the placeholder. *)
Lemma summaryOf_ensureSummary parsed files :
  nonEmptyFiles parsed = Some files ->
  Json.truthy (Json.get "summary" parsed) = false ->
  summaryOf (ensureSummary parsed) = Json.JStr noSummary.
Proof.
  intros Hfiles Hsummary. unfold ensureSummary. rewrite Hsummary.
  destruct parsed; try discriminate Hfiles.
  unfold summaryOf, Json.get. rewrite lookupField_setField_same. reflexivity.
Qed.

Lemma auditedOutcome_tells reply a1 a r :
  freshAudit a1 -> auditedOutcome reply a1 a r -> recordTells reply a r.
Proof.
  intros (H1 & H2 & H3 & H4 & H5 & H6). unfold auditedOutcome, recordTells.
  destruct reply as [text|m details].
  - destruct (jsonMatch text) as [fragment|].
    + destruct (Json.parse fragment) as [parsed|].
      * rewrite nonEmptyFiles_ensureSummary. destruct (nonEmptyFiles parsed) as [files|].
        -- intros [(written & -> & ->)|(ex & -> & ->)]; cbn;
             (split; [reflexivity|]); (split; [reflexivity|]); (split; [exact H4|]);
             [left | right]; eauto 10.
        -- intros [-> ->]. cbn. auto 10.
      * intros [-> ->]. cbn. auto 10.
    + intros [-> ->]. cbn. auto 10.
  - intros [-> ->]. cbn. auto 10.
Qed.

End Reply.

(** ** The claims about the fix requestor *)

Section FixRequestor.

Variable e : env.
Variable projectDir : string.

Lemma relevantOrFallback_frame errorText w :
  exists w1 files,
    relevantOrFallback errorText projectDir w = (w1, Ret files) /\
    fs w1 = fs w /\ cwd w1 = cwd w /\ ticks w1 = ticks w /\ audits w1 = audits w.
Proof.
  unfold relevantOrFallback, bind at 1, extractRelevantFiles, bind at 1.
  pose proof (invariant_visitAll projectDir (candidates errorText) w (candidates errorText)
                (Extraction [] ∅) w (extractionInvariant_start _ _ w) (fun c H => H)) as Hrun.
  destruct (visitAll projectDir _ _ w) as [w1 r].
  destruct Hrun as (x & -> & (Hfs & Hcwd & Hticks & Haud) & _).
  cbn [ret]. destruct (relevantFiles x) as [|f files].
  - unfold tryCatch, bind.
    destruct (readFile_spec (Path.join projectDir "lib/stack.ts") w1) as [Hfst _].
    destruct (Fs.readFile _ w1) as [w2 [text|ex]]; cbn [fst] in Hfst; subst w2;
      eexists _, _; (split; [reflexivity|]); cbn; auto.
  - eexists _, _. split; [reflexivity|]. auto.
Qed.

Lemma auditedOutcome_prompt reply a1 a r :
  auditedOutcome reply a1 a r -> au_prompt a = au_prompt a1.
Proof.
  unfold auditedOutcome. destruct reply as [text|m details].
  - destruct (jsonMatch text) as [fragment|]; [|intros [_ ->]; reflexivity].
    destruct (Json.parse fragment) as [parsed|]; [|intros [_ ->]; reflexivity].
    destruct (nonEmptyFiles _); [|intros [_ ->]; reflexivity].
    intros [(written & _ & ->)|(ex & _ & ->)]; reflexivity.
  - intros [_ ->]. reflexivity.
Qed.

Lemma recordTells_success reply a r :
  recordTells reply a r ->
  au_success a = match r with Ret _ => true | Throw _ => false end.
Proof.
  unfold recordTells. destruct reply as [text|m details].
  - intros [_ H]. destruct (jsonMatch text) as [fragment|]; [|destruct H as (-> & -> & _); reflexivity].
    destruct (Json.parse fragment) as [parsed|]; [|destruct H as (-> & -> & _); reflexivity].
    destruct (nonEmptyFiles _); [|destruct H as (-> & -> & _); reflexivity].
    destruct H as (_ & _ & [(written & -> & -> & _)|(-> & -> & _)]); reflexivity.
  - intros (-> & -> & _). reflexivity.
Qed.

(** A call of [fixDeploymentErrors] with a key: it ends with a call of
    [logAudit] for the record as it is at the end. *)
Lemma fixDeploymentErrors_spec plantUmlContent error history w :
  keyConfigured e = true ->
  let '(w', r) := fixDeploymentErrors e projectDir plantUmlContent error history w in
  exists files a wlog,
    au_prompt a =
      buildPrompt plantUmlContent (err_stdout error +:+ Str.nl +:+ err_stderr error) files history /\
    recordTells (postMessage e (S (ticks w)) (au_prompt a)) a r /\
    w' = fst (logAudit e projectDir (au_attempt a) a wlog) /\
    logStart e projectDir w wlog a.
Proof.
  intros Hkey. unfold fixDeploymentErrors. rewrite Hkey. cbn [negb].
  unfold bind at 1.
  destruct (relevantOrFallback_frame (err_stdout error +:+ Str.nl +:+ err_stderr error) w)
    as (w1 & files & -> & Hfs & Hcwd & Hticks & Haud).
  unfold bind at 1, nowISO.
  set (prompt := buildPrompt _ _ files history).
  set (a0 := AuditData _ _ _ _ prompt None false None None None None None).
  pose proof (requestAndApply_spec e projectDir prompt (FixState (tick w1) a0)) as Hrun.
  destruct (requestAndApply e projectDir prompt (FixState (tick w1) a0)) as [s' r].
  destruct Hrun as (Hout & _ & wlog & Hlog & Hd & (earlier & Hearlier) & Hfixes).
  cbn [fx_world fx_audit] in *.
  exists files, (fx_audit s'), wlog.
  pose proof (auditedOutcome_prompt _ _ _ _ Hout) as Hprompt. cbn in Hprompt.
  split; [exact Hprompt|]. split; [|split; [exact Hlog|]].
  - rewrite Hprompt. replace (S (ticks w)) with (ticks (tick w1)) by (cbn; congruence).
    eapply auditedOutcome_tells; [|exact Hout]. repeat split.
  - split; [|split].
    + destruct Hd as [Hc Hk]. split; [cbn in Hc; congruence|].
      intros k Hdir. apply Hk. cbn. rewrite Hfs. exact Hdir.
    + exists earlier. rewrite Hearlier. cbn. rewrite Haud. reflexivity.
    + intros Hnone. destruct (Hfixes Hnone) as [Hsame|(a1 & w2 & Hf2 & Hc2 & Hw2)].
      * left. rewrite Hsame. cbn. exact Hfs.
      * right. exists a1, w2. cbn in Hf2, Hc2. split; [congruence|]. split; [congruence|].
        exact Hw2.
Qed.

End FixRequestor.

(** ** The JSON object in a reply *)

Section JsonObject.

#[local] Arguments String.append _ _ : simpl nomatch.

(** The loop of [[\s\S]*]: it fails when the rest of the pattern fails
    after every prefix. *)
Lemma star_any_none {R : Type} (k : string -> option string -> option R) cap fuel :
  forall s, (String.length s <= fuel)%nat ->
  (fix star (fuel : nat) (s : string) (cap : option string) {struct fuel} : option R :=
     match fuel with
     | O => k s cap
     | S fuel' =>
         match Regex.rmatch (Regex.Chr Regex.anyChar) s cap
                 (fun s' cap' =>
                    if (String.length s' <? String.length s)%nat
                    then star fuel' s' cap' else None) with
         | Some x => Some x
         | None => k s cap
         end
     end) fuel s cap = None <->
  (forall t u, s = t +:+ u -> k u cap = None).
Proof.
  induction fuel as [|fuel IH]; intros s Hlen.
  - destruct s as [|c s]; [|cbn in Hlen; lia]. split.
    + intros H t u Htu. destruct t; [|discriminate]. cbn in Htu. subst u. exact H.
    + intros H. apply (H "" ""). reflexivity.
  - destruct s as [|c s].
    + cbn [Regex.rmatch]. split.
      * intros H t u Htu. destruct t; [|discriminate]. cbn in Htu. subst u. exact H.
      * intros H. apply (H "" ""). reflexivity.
    + cbn [Regex.rmatch Regex.anyChar].
      replace (String.length s <? String.length (String c s))%nat with true
        by (symmetry; apply Nat.ltb_lt; cbn; lia).
      cbn in Hlen. specialize (IH s ltac:(lia)).
      split.
      * intros H t u Htu.
        match type of H with match ?m with _ => _ end = None => destruct m eqn:Hm end;
          [discriminate|].
        destruct t as [|d t].
        -- cbn in Htu. subst u. exact H.
        -- cbn in Htu. injection Htu as _ Hs. apply (proj1 IH Hm t u Hs).
      * intros H.
        match goal with |- match ?m with _ => _ end = None => assert (m = None) as -> end.
        { apply IH. intros t u Htu. apply (H (String c t) u). cbn. rewrite Htu. reflexivity. }
        apply (H "" (String c s)). reflexivity.
Qed.

(** No match at the start of [s]. *)
Lemma matchHere_jsonObject_none s :
  Regex.matchHere jsonObjectPattern s = None <->
  (forall b c, s <> "{" +:+ b +:+ "}" +:+ c).
Proof.
  unfold Regex.matchHere, jsonObjectPattern. cbn [Regex.lit Regex.rmatch].
  destruct s as [|c0 s].
  - split; [intros _ b c; discriminate | reflexivity].
  - unfold Regex.only at 1. destruct (Ascii.eqb_spec "{"%char c0) as [<-|Hne].
    + rewrite star_any_none by lia. split.
      * intros H b c Heq. cbn in Heq. injection Heq as Hs.
        specialize (H b ("}" +:+ c) Hs). cbn in H. discriminate.
      * intros H t u Htu. destruct u as [|d u]; [reflexivity|].
        unfold Regex.only. destruct (Ascii.eqb_spec "}"%char d) as [<-|]; [|reflexivity].
        exfalso. apply (H t u). cbn. rewrite Htu. reflexivity.
    + split; [|reflexivity]. intros _ b c Heq. cbn in Heq. injection Heq as Hc _.
      apply Hne. symmetry. exact Hc.
Qed.

Lemma search_none r s :
  Regex.search r s = None <-> (forall t u, s = t +:+ u -> Regex.matchHere r u = None).
Proof.
  induction s as [|c s IH]; cbn [Regex.search].
  - split.
    + intros H t u Htu. destruct t; [|discriminate]. cbn in Htu. subst u.
      destruct (Regex.matchHere r ""); [discriminate|reflexivity].
    + intros H. rewrite (H "" "" eq_refl). reflexivity.
  - split.
    + intros H t u Htu. destruct (Regex.matchHere r (String c s)) eqn:Hm; [discriminate|].
      destruct t as [|d t].
      * cbn in Htu. subst u. exact Hm.
      * cbn in Htu. injection Htu as _ Hs. apply (proj1 IH H t u Hs).
    + intros H. rewrite (H "" (String c s) eq_refl). apply IH.
      intros t u Htu. apply (H (String c t) u). cbn. rewrite Htu. reflexivity.
Qed.

(** [responseText.match(/\{[\s\S]*\}/)] is [null] exactly when no [{] of
    the text is followed by a [}]. *)
Lemma jsonMatch_none text :
  jsonMatch text = None <->
  (forall a b c, text <> a +:+ "{" +:+ b +:+ "}" +:+ c).
Proof.
  unfold jsonMatch. split.
  - intros H a b c Heq.
    destruct (Regex.search jsonObjectPattern text) eqn:Hs; [discriminate|].
    pose proof (proj1 (search_none _ _) Hs a _ Heq) as Hm.
    apply (proj1 (matchHere_jsonObject_none _) Hm b c). reflexivity.
  - intros H.
    assert (Regex.search jsonObjectPattern text = None) as ->; [|reflexivity].
    apply search_none. intros t u Htu. apply matchHere_jsonObject_none.
    intros b c Hu. apply (H t b c). rewrite Htu, Hu. reflexivity.
Qed.

End JsonObject.

(** ** The claim about the reading of the reply *)

Section Reading.

Variable e : env.
Variable projectDir : string.

(** With a reply whose files are there, the call fails only when a file
    cannot be written. *)
Lemma requestAndApply_applies prompt s text fragment parsed files :
  postMessage e (ticks (fx_world s)) prompt = PostOk text ->
  jsonMatch text = Some fragment ->
  Json.parse fragment = Some parsed ->
  nonEmptyFiles parsed = Some files ->
  snd (requestAndApply e projectDir prompt s) =
  match snd (applyFixes projectDir files (tick (fx_world s))) with
  | Ret written => Ret (FixResult written (summaryOf (ensureSummary parsed)))
  | Throw _ => Throw failedToGetFixes
  end.
Proof.
  intros Hpost Hmatch Hparse Hfiles.
  unfold requestAndApply, tryCatch at 1. unfold bind at 1, inWorld at 1, postPrompt.
  rewrite Hpost. unfold bind at 1, setAudit at 1. cbn [fx_world fx_audit].
  rewrite Hmatch. unfold bind at 1, tryCatch at 1, parseFixes. rewrite Hparse.
  rewrite nonEmptyFiles_ensureSummary, Hfiles.
  unfold bind at 1, setAudit at 1, ret at 1. cbn [fx_world fx_audit].
  unfold applyAndReturn, bind at 1, inWorld at 1, filesOf. cbn [fx_world fx_audit].
  rewrite nonEmptyFiles_ensureSummary, Hfiles.
  destruct (applyFixes projectDir files (tick (fx_world s))) as [w2 [written|ex]]; cbn [snd].
  - unfold bind at 1, setAudit at 1. unfold bind at 1.
    match goal with |- context [logCurrentAudit e projectDir ?s1] =>
      destruct (logCurrentAudit_spec e projectDir s1) as (w3 & -> & _) end.
    reflexivity.
  - match goal with |- context [outerCatch e projectDir ex ?s1] =>
      destruct (outerCatch_spec e projectDir ex s1) as (w3 & -> & _) end.
    reflexivity.
Qed.

End Reading.

(** C6 (as amended).  The reading of a reply in [fixDeploymentErrors], for
    a request that was answered with the text [text].  The call fails in
    three cases, each time with the one error [Failed to get fixes from
    Claude]; what tells the cases apart is kept in the audit record only:
    - when no [{] of the text is followed by a [}], the search for the JSON
      object finds nothing; the record has the message of that as its
      [apiError] and no [parseError];
    - when the fragment that was found does not parse, the inner [try]
      throws the syntax error; the record has the message of the syntax
      error as its [parseError], and [Invalid JSON format in Claude's
      response] as its [apiError];
    - when the parsed object has no array [files] with an element, the
      inner [try] throws [No files included in the response]; the record
      has that message as its [parseError], and the same [Invalid JSON
      format in Claude's response] as its [apiError].
    When the files are there, the inner [try] returns, a summary that is
    missing or falsy is replaced by [No summary provided], a summary that
    is given and truthy is kept, and the call fails only if a file cannot
    be written. *)
Theorem reply_parsing_outcomes e projectDir prompt s text :
  postMessage e (ticks (fx_world s)) prompt = PostOk text ->
  freshAudit (fx_audit s) ->
  let run := requestAndApply e projectDir prompt s in
  let a := fx_audit (fst run) in
  (jsonMatch text = None <-> (forall l m r, text <> l +:+ "{" +:+ m +:+ "}" +:+ r)) /\
  match jsonMatch text with
  | None =>
      snd run = Throw failedToGetFixes /\
      au_apiError a = Some couldNotFindJson /\ au_parseError a = None
  | Some fragment =>
      forall s1,
      match Json.parse fragment with
      | None =>
          parseFixes fragment s1 = (s1, Throw (Error syntaxErrorMessage)) /\
          snd run = Throw failedToGetFixes /\
          au_parseError a = Some syntaxErrorMessage /\
          au_apiError a = Some invalidJsonFormat
      | Some parsed =>
          match nonEmptyFiles parsed with
          | None =>
              parseFixes fragment s1 = (s1, Throw (Error noFilesIncluded)) /\
              snd run = Throw failedToGetFixes /\
              au_parseError a = Some noFilesIncluded /\
              au_apiError a = Some invalidJsonFormat
          | Some files =>
              snd (parseFixes fragment s1) = Ret (ensureSummary parsed) /\
              nonEmptyFiles (ensureSummary parsed) = Some files /\
              (Json.truthy (Json.get "summary" parsed) = false ->
               summaryOf (ensureSummary parsed) = Json.JStr noSummary) /\
              (Json.truthy (Json.get "summary" parsed) = true ->
               Json.get "summary" (ensureSummary parsed) = Json.get "summary" parsed) /\
              au_parseError a = None /\
              snd run =
                match snd (applyFixes projectDir files (tick (fx_world s))) with
                | Ret written => Ret (FixResult written (summaryOf (ensureSummary parsed)))
                | Throw _ => Throw failedToGetFixes
                end
          end
      end
  end.
Proof.
  intros Hpost Hfresh run a. split; [apply jsonMatch_none|].
  pose proof (requestAndApply_spec e projectDir prompt s) as Hrun.
  pose proof (requestAndApply_applies e projectDir prompt s text) as Happ.
  subst a run. destruct (requestAndApply e projectDir prompt s) as [s' r].
  destruct Hrun as (Hout & _). apply (auditedOutcome_tells _ _ _ _ Hfresh) in Hout.
  rewrite Hpost in Hout. cbn [recordTells] in Hout. destruct Hout as [_ Hout].
  cbn [fst snd] in *.
  destruct (jsonMatch text) as [fragment|].
  2:{ destruct Hout as (-> & _ & _ & Hp & Ha). auto. }
  intros s1. specialize (Happ fragment). unfold parseFixes.
  destruct (Json.parse fragment) as [parsed|].
  2:{ destruct Hout as (-> & _ & _ & Hp & Ha). auto. }
  rewrite nonEmptyFiles_ensureSummary.
  destruct (nonEmptyFiles parsed) as [files|] eqn:Hfiles.
  2:{ destruct Hout as (-> & _ & _ & Hp & Ha). auto. }
  destruct Hout as (_ & Hp & _).
  split; [reflexivity|]. split; [reflexivity|].
  split; [apply (summaryOf_ensureSummary _ _ Hfiles)|].
  split; [intros Ht; unfold ensureSummary; rewrite Ht; reflexivity|].
  split; [exact Hp|]. apply (Happ parsed files Hpost eq_refl eq_refl Hfiles).
Qed.

Lemma reply_parsing_outcomes_witness :
  snd (SampleReplies.answer SampleReplies.prose) = Throw failedToGetFixes /\
  au_apiError (fx_audit (fst (SampleReplies.answer SampleReplies.prose))) = Some couldNotFindJson /\
  snd (SampleReplies.answer SampleReplies.broken) = Throw failedToGetFixes /\
  au_parseError (fx_audit (fst (SampleReplies.answer SampleReplies.broken))) =
    Some syntaxErrorMessage /\
  snd (SampleReplies.answer SampleReplies.noFiles) = Throw failedToGetFixes /\
  au_parseError (fx_audit (fst (SampleReplies.answer SampleReplies.noFiles))) =
    Some noFilesIncluded /\
  snd (SampleReplies.answer SampleReplies.noSummaryGiven) =
    Ret (FixResult [FixFile "lib/a.ts" "X"] (Json.JStr noSummary)).
Proof.
  assert (freshAudit (fx_audit SampleReplies.startState)) as Hfresh by (repeat split).
  pose proof (reply_parsing_outcomes
                (Sample.environment Sample.always (Some SampleReplies.prose))
                "/proj" "prompt" SampleReplies.startState SampleReplies.prose
                eq_refl Hfresh) as [_ H1].
  pose proof (reply_parsing_outcomes
                (Sample.environment Sample.always (Some SampleReplies.broken))
                "/proj" "prompt" SampleReplies.startState SampleReplies.broken
                eq_refl Hfresh) as [_ H2].
  pose proof (reply_parsing_outcomes
                (Sample.environment Sample.always (Some SampleReplies.noFiles))
                "/proj" "prompt" SampleReplies.startState SampleReplies.noFiles
                eq_refl Hfresh) as [_ H3].
  pose proof (reply_parsing_outcomes
                (Sample.environment Sample.always (Some SampleReplies.noSummaryGiven))
                "/proj" "prompt" SampleReplies.startState SampleReplies.noSummaryGiven
                eq_refl Hfresh) as [_ H4].
  replace (jsonMatch SampleReplies.prose) with (@None string) in H1 by (vm_compute; reflexivity).
  replace (jsonMatch SampleReplies.broken) with (Some "{files: none}") in H2
    by (vm_compute; reflexivity).
  specialize (H2 SampleReplies.startState).
  replace (Json.parse "{files: none}") with (@None Json.json) in H2 by (vm_compute; reflexivity).
  set (f3 := jsonMatch SampleReplies.noFiles) in H3.
  vm_compute in f3. subst f3. cbv beta iota in H3.
  specialize (H3 SampleReplies.startState).
  match type of H3 with match Json.parse ?f with _ => _ end =>
    set (p3 := Json.parse f) in H3; vm_compute in p3; subst p3 end.
  cbv beta iota in H3.
  match type of H3 with match nonEmptyFiles ?f with _ => _ end =>
    set (n3 := nonEmptyFiles f) in H3; vm_compute in n3; subst n3 end.
  cbv beta iota in H3.
  set (f4 := jsonMatch SampleReplies.noSummaryGiven) in H4.
  vm_compute in f4. subst f4. cbv beta iota in H4.
  specialize (H4 SampleReplies.startState).
  match type of H4 with match Json.parse ?f with _ => _ end =>
    set (p4 := Json.parse f) in H4; vm_compute in p4; subst p4 end.
  cbv beta iota in H4.
  match type of H4 with match nonEmptyFiles ?f with _ => _ end =>
    set (n4 := nonEmptyFiles f) in H4; vm_compute in n4; subst n4 end.
  cbv beta iota in H4.
  destruct H1 as (R1 & A1 & _). destruct H2 as (_ & R2 & P2 & _).
  destruct H3 as (_ & R3 & P3 & _). destruct H4 as (_ & _ & S4 & _ & _ & R4).
  split; [exact R1|]. split; [exact A1|]. split; [exact R2|]. split; [exact P2|].
  split; [exact R3|]. split; [exact P3|].
  unfold SampleReplies.answer. rewrite R4, (S4 eq_refl). vm_compute. reflexivity.
Defined.

(** C6 as it was stated fails: the program has one error for the three
    cases.  A reply with an empty list of files and a reply whose braces
    do not hold JSON end the call with the same exception, and both leave
    [Invalid JSON format in Claude's response] in the audit record: the
    error of the empty list is caught by the handler of the syntax error
    and thrown again as that.  The same exception ends the call when the
    reply has no JSON object. *)
Lemma empty_fix_set_fails_as_malformed_response :
  snd (SampleReplies.answer SampleReplies.noFiles) = Throw failedToGetFixes /\
  snd (SampleReplies.answer SampleReplies.broken) = Throw failedToGetFixes /\
  snd (SampleReplies.answer SampleReplies.prose) = Throw failedToGetFixes /\
  au_apiError (fx_audit (fst (SampleReplies.answer SampleReplies.noFiles))) =
    Some invalidJsonFormat /\
  au_apiError (fx_audit (fst (SampleReplies.answer SampleReplies.broken))) =
    Some invalidJsonFormat /\
  Json.parse "{files: none}" = None /\
  (exists parsed,
      jsonMatch SampleReplies.noFiles = Some SampleReplies.noFiles /\
      Json.parse SampleReplies.noFiles = Some parsed /\
      Json.get "files" parsed = Some (Json.JArr [])).
Proof.
  repeat split; try (vm_compute; reflexivity).
  eexists. repeat split; vm_compute; reflexivity.
Qed.

(** * More of the code *)

(** ** The checksum of a file content *)

Section Checksum.

Local Open Scope Z_scope.

Lemma toInt32_range z : - 2 ^ 31 <= Num.toInt32 z < 2 ^ 31.
Proof.
  unfold Num.toInt32.
  pose proof (Z.mod_pos_bound (z + 2 ^ 31) (2 ^ 32) ltac:(lia)). lia.
Qed.

Lemma toInt32_congruent a b k : a = b + k * 2 ^ 32 -> Num.toInt32 a = Num.toInt32 b.
Proof.
  intros ->. unfold Num.toInt32.
  replace (b + k * 2 ^ 32 + 2 ^ 31) with (b + 2 ^ 31 + k * 2 ^ 32) by lia.
  rewrite Z.mod_add by lia. reflexivity.
Qed.

Lemma toInt32_offset z : exists k, Num.toInt32 z = z + k * 2 ^ 32.
Proof.
  exists (- ((z + 2 ^ 31) / 2 ^ 32)). unfold Num.toInt32.
  pose proof (Z.div_mod (z + 2 ^ 31) (2 ^ 32) ltac:(lia)). lia.
Qed.

Lemma toInt32_small z : - 2 ^ 31 <= z < 2 ^ 31 -> Num.toInt32 z = z.
Proof.
  intros H. unfold Num.toInt32. rewrite Z.mod_small by lia. lia.
Qed.

(** One round of the loop multiplies by 31 and adds the code unit, in
    32-bit arithmetic. *)
Lemma checksumStep_31 h c :
  checksumStep h c = Num.toInt32 (31 * h + Z.of_nat (nat_of_ascii c)).
Proof.
  unfold checksumStep. cbv zeta. rewrite Z.land_diag, Z.shiftl_mul_pow2 by lia.
  destruct (toInt32_offset (h * 2 ^ 5)) as [k1 Hk1].
  apply (toInt32_congruent _ _ k1). rewrite Hk1. lia.
Qed.

Lemma checksumStep_wraps z c :
  checksumStep (Num.toInt32 z) c = Num.toInt32 (31 * z + Z.of_nat (nat_of_ascii c)).
Proof.
  rewrite checksumStep_31. destruct (toInt32_offset z) as [k Hk].
  apply (toInt32_congruent _ _ (31 * k)). rewrite Hk. lia.
Qed.

Lemma checksumFrom_wraps content : forall z,
  checksumFrom (Num.toInt32 z) content = Num.toInt32 (polynomial z content).
Proof.
  induction content as [|c content IH]; intros z; cbn [checksumFrom polynomial].
  - reflexivity.
  - rewrite checksumStep_wraps. apply IH.
Qed.

Lemma checksumFrom_cons h c content :
  checksumFrom h (String c content) = Num.toInt32 (polynomial h (String c content)).
Proof. cbn [checksumFrom polynomial]. rewrite checksumStep_31. apply checksumFrom_wraps. Qed.

Lemma checksumFrom_zero content :
  checksumFrom 0 content = Num.toInt32 (polynomial 0 content).
Proof. rewrite <- checksumFrom_wraps. reflexivity. Qed.

Lemma checksumFrom_app a b : forall h,
  checksumFrom h (a +:+ b) = checksumFrom (checksumFrom h a) b.
Proof.
  induction a as [|c a IH]; intros h; [reflexivity|].
  cbn [String.append checksumFrom]. apply IH.
Qed.

End Checksum.

(** X1.  [calculateChecksum] gives, in base 16, the value of the content
    as a number in base 31 (its code units being the digits), reduced to a
    signed 32-bit integer: the loop never leaves the range of these
    integers, and the empty content has the checksum [0]. *)
Theorem calculateChecksum_is_polynomial_hash :
  (forall content,
      calculateChecksum content = Num.toString16 (Num.toInt32 (polynomial 0 content)) /\
      (- 2 ^ 31 <= checksumFrom 0 content < 2 ^ 31)%Z) /\
  (forall content c,
      checksumFrom 0 (content +:+ Str.single c) =
      Num.toInt32 (31 * checksumFrom 0 content + Z.of_nat (nat_of_ascii c))) /\
  calculateChecksum "" = "0".
Proof.
  split; [|split].
  - intros content. unfold calculateChecksum. rewrite checksumFrom_zero.
    split; [reflexivity | apply toInt32_range].
  - intros content c. rewrite checksumFrom_app. cbn [Str.single checksumFrom].
    apply checksumStep_31.
  - reflexivity.
Qed.

(** X2.  The checksum does not tell contents apart: wherever [Aa] stands
    in a content, [BB] in its place gives the same checksum. *)
Theorem calculateChecksum_collides :
  forall before after,
    before +:+ "Aa" +:+ after <> before +:+ "BB" +:+ after /\
    calculateChecksum (before +:+ "Aa" +:+ after) =
    calculateChecksum (before +:+ "BB" +:+ after).
Proof.
  intros before after. split.
  - induction before as [|c before IH]; cbn; [discriminate|].
    intros H. injection H as H. apply IH, H.
  - unfold calculateChecksum. rewrite !checksumFrom_app.
    rewrite (checksumFrom_cons _ "A" "a"), (checksumFrom_cons _ "B" "B").
    cbn [polynomial].
    change (Z.of_nat (nat_of_ascii "A")) with 65%Z. change (Z.of_nat (nat_of_ascii "a")) with 97%Z.
    change (Z.of_nat (nat_of_ascii "B")) with 66%Z.
    replace (31 * (31 * checksumFrom 0 before + 65) + 97)%Z
      with (31 * (31 * checksumFrom 0 before + 66) + 66)%Z by lia.
    reflexivity.
Qed.

(** X3.  The hash of the fix registry is the checksum of [debug.js]: the
    two loops are the same, and the early return of [calculateHash] for
    the empty text gives what the loop would give. *)
Theorem calculateHash_is_calculateChecksum :
  forall text,
    Registry.calculateHash text = calculateChecksum text /\
    Registry.calculateHash text = Num.toString16 (Num.toInt32 (polynomial 0 text)).
Proof.
  intros text. assert (Registry.calculateHash text = calculateChecksum text) as H.
  { unfold Registry.calculateHash, calculateChecksum. destruct text; reflexivity. }
  split; [exact H|]. rewrite H. unfold calculateChecksum. rewrite checksumFrom_zero. reflexivity.
Qed.

(** ** Facts about strings *)

Section StringFacts.

#[local] Arguments String.append _ _ : simpl nomatch.

Lemma append_assoc (a b c : string) : (a +:+ b) +:+ c = a +:+ b +:+ c.
Proof. induction a as [|x a IH]; cbn; [reflexivity | rewrite IH; reflexivity]. Qed.

Lemma append_nil_r (a : string) : a +:+ "" = a.
Proof. induction a as [|x a IH]; cbn; [reflexivity | rewrite IH; reflexivity]. Qed.

Lemma length_append (a b : string) :
  String.length (a +:+ b) = (String.length a + String.length b)%nat.
Proof. induction a as [|x a IH]; cbn; [reflexivity | rewrite IH; reflexivity]. Qed.

Lemma startsWith_refl s : Str.startsWith s s = true.
Proof. induction s as [|c s IH]; cbn; [reflexivity | rewrite Ascii.eqb_refl; exact IH]. Qed.

Lemma startsWith_nil s : Str.startsWith s "" = true.
Proof. destruct s; reflexivity. Qed.

Lemma startsWith_append p s : Str.startsWith (p +:+ s) p = true.
Proof. induction p as [|c p IH]; cbn; [apply startsWith_nil | rewrite Ascii.eqb_refl; exact IH]. Qed.

Lemma includes_refl s : Str.includes s s = true.
Proof. destruct s; cbn; [reflexivity|]. rewrite Ascii.eqb_refl, startsWith_refl. reflexivity. Qed.

Lemma includes_nil s : Str.includes s "" = true.
Proof. destruct s; reflexivity. Qed.

(** A string that stands between two others is included in the whole. *)
Lemma includes_middle a x b : Str.includes (a +:+ x +:+ b) x = true.
Proof.
  apply includes_suffix, includes_prefix, includes_refl.
Qed.

Lemma includes_trans s x y :
  Str.includes s x = true -> Str.includes x y = true -> Str.includes s y = true.
Proof.
  induction s as [|c s IH]; cbn [Str.includes].
  - destruct x; cbn; [auto | discriminate].
  - intros Hx Hy. apply orb_true_iff in Hx. destruct Hx as [Hx|Hx].
    + clear IH. revert y Hy. 
      assert (forall x s y, Str.startsWith s x = true -> Str.includes x y = true ->
                            Str.includes s y = true) as Hgen.
      { clear. induction x as [|d x IH]; intros s y Hs Hy.
        - destruct y; [apply includes_nil | discriminate].
        - destruct s as [|e s]; [discriminate|]. cbn in Hs.
          destruct (Ascii.eqb_spec d e) as [->|]; [|discriminate].
          cbn [Str.includes] in Hy |- *. apply orb_true_iff in Hy. destruct Hy as [Hy|Hy].
          + apply orb_true_iff. left.
            clear IH. revert s Hs. revert x Hy. 
            assert (forall y x s, Str.startsWith x y = true -> Str.startsWith s x = true ->
                                  Str.startsWith s y = true) as Htr.
            { clear. induction y as [|a y IH]; intros x s Hy Hs; [apply startsWith_nil|].
              destruct x as [|b x]; [discriminate|]. destruct s as [|c s]; [discriminate|].
              cbn in *. destruct (Ascii.eqb_spec a b) as [->|]; [|discriminate].
              destruct (Ascii.eqb_spec b c) as [->|]; [|discriminate].
              eapply IH; eassumption. }
            intros x Hy s Hs. apply (Htr y (String e x) (String e s) Hy).
            cbn. rewrite Ascii.eqb_refl. exact Hs.
          + apply orb_true_iff. right. eapply IH; eassumption. }
      intros y Hy. apply (Hgen x (String c s) y Hx Hy).
    + apply orb_true_iff. right. apply IH; assumption.
Qed.

Lemma includes_join_member sep l x : In x l -> Str.includes (Str.join sep l) x = true.
Proof.
  induction l as [|y l IH]; [intros []|].
  intros [->|Hin].
  - destruct l as [|z l]; [apply includes_refl|].
    rewrite join_cons. apply includes_prefix, includes_refl.
  - destruct l as [|z l]; [destruct Hin|].
    rewrite join_cons. apply includes_suffix, includes_suffix, IH, Hin.
Qed.

Lemma includes_concat_member l x : In x l -> Str.includes (String.concat "" l) x = true.
Proof.
  induction l as [|y l IH]; [intros []|].
  intros Hin. cbn [String.concat]. destruct l as [|z l].
  - destruct Hin as [->|[]]. apply includes_refl.
  - destruct Hin as [->|Hin].
    + apply includes_prefix, includes_refl.
    + apply includes_suffix. cbn [String.append]. apply IH, Hin.
Qed.

Lemma take_append a b : Str.take (String.length a) (a +:+ b) = a.
Proof. induction a as [|x a IH]; cbn; [destruct b; reflexivity | rewrite IH; reflexivity]. Qed.

Lemma mem_append c a b : Str.mem c (a +:+ b) = Str.mem c a || Str.mem c b.
Proof.
  induction a as [|x a IH]; cbn; [reflexivity|]. rewrite IH, orb_assoc. reflexivity.
Qed.

(** Two ways to cut a string: the shorter end is an end of the longer one. *)
Lemma append_cut (t u t' u' : string) :
  t +:+ u = t' +:+ u' -> (String.length u' <= String.length u)%nat ->
  exists v, u = v +:+ u' /\ t' = t +:+ v.
Proof.
  revert t'. induction t as [|c t IH]; intros t' Heq Hlen.
  - cbn in Heq. exists t'. split; [exact Heq | reflexivity].
  - destruct t' as [|c' t'].
    + cbn in Heq. subst u'. cbn in Hlen. rewrite length_append in Hlen. lia.
    + cbn in Heq. injection Heq as -> Heq.
      destruct (IH t' Heq Hlen) as (v & Hu & Ht). exists v. split; [exact Hu|].
      cbn. rewrite Ht. reflexivity.
Qed.

End StringFacts.

(** ** The prompt *)

(** X4.  The prompt of [fixDeploymentErrors] holds the text of the error,
    the diagram, the path and the content of every relevant file, and, of
    every earlier fix, the snippet of its error and the names of its
    files. *)
Theorem buildPrompt_holds_context plantUmlContent errorText files history :
  let prompt := buildPrompt plantUmlContent errorText files history in
  Str.includes prompt errorText = true /\
  Str.includes prompt plantUmlContent = true /\
  (forall f, In f files ->
             Str.includes prompt (rf_path f) = true /\
             Str.includes prompt (rf_content f) = true) /\
  (forall h, In h history ->
             Str.includes prompt (h_snippet h) = true /\
             Str.includes prompt (Str.join ", " (map ff_filename (h_fixedFiles h))) = true).
Proof.
  intros prompt.
  assert (forall part x,
             In part [diagramContext plantUmlContent; fixHistoryContext history;
                      filesContent files; errorText] ->
             Str.includes part x = true -> Str.includes prompt x = true) as Hpart.
  { intros part x Hin Hx. apply (includes_trans _ part); [|exact Hx].
    apply includes_join_member, in_or_app. left.
    cbn [In] in Hin |- *. destruct Hin as [<-|[<-|[<-|[<-|[]]]]]; auto 20. }
  split; [|split; [|split]].
  - apply (Hpart errorText); [cbn; auto | apply includes_refl].
  - apply (Hpart (diagramContext plantUmlContent)); [cbn; auto|].
    unfold diagramContext. destruct (String.eqb_spec plantUmlContent "") as [->|Hne]; cbn [negb].
    + apply includes_nil.
    + rewrite <- !append_assoc. apply includes_prefix, includes_prefix, includes_suffix, includes_refl.
  - intros f Hf.
    assert (forall x,
               Str.includes (fence +:+ "typescript" +:+ Str.nl +:+ "// " +:+ rf_path f +:+ Str.nl +:+
                             rf_content f +:+ Str.nl +:+ fence) x = true ->
               Str.includes prompt x = true) as Hfile.
    { intros x Hx. apply (Hpart (filesContent files)); [cbn; auto|].
      eapply includes_trans; [|exact Hx]. unfold filesContent.
      apply includes_join_member.
      apply (in_map (fun file =>
                       fence +:+ "typescript" +:+ Str.nl +:+ "// " +:+ rf_path file +:+ Str.nl +:+
                       rf_content file +:+ Str.nl +:+ fence) files f Hf). }
    split; apply Hfile.
    + do 4 apply includes_suffix. apply includes_prefix, includes_refl.
    + do 6 apply includes_suffix. apply includes_prefix, includes_refl.
  - intros h Hh.
    assert (forall x, Str.includes (historyLine h) x = true -> Str.includes prompt x = true)
      as Hline.
    { intros x Hx. apply (Hpart (fixHistoryContext history)); [cbn; auto|].
      eapply includes_trans; [|exact Hx]. unfold fixHistoryContext.
      destruct history as [|h0 history]; [destruct Hh|].
      do 3 apply includes_suffix. apply includes_prefix.
      apply includes_concat_member, in_map, Hh. }
    split; apply Hline; unfold historyLine.
    + do 6 apply includes_suffix. apply includes_prefix, includes_refl.
    + do 12 apply includes_suffix. apply includes_prefix, includes_refl.
Qed.

(** ** The span of a match from an opening to a closing character *)

Section Span.

Variables opening closing : ascii.

#[local] Arguments String.append _ _ : simpl nomatch.

Lemma mem_split c s : Str.mem c s = true -> exists a b, s = a +:+ String c b.
Proof.
  induction s as [|d s IH]; [discriminate|]. cbn [Str.mem].
  destruct (Ascii.eqb_spec c d) as [->|Hne].
  - intros _. exists "", s. reflexivity.
  - cbn [orb]. intros H. destruct (IH H) as (a & b & ->). exists (String d a), b. reflexivity.
Qed.

(** The loop of [[\s\S]*] gives back characters until the rest of the
    pattern matches: it ends at the last place where it does. *)
Lemma star_any_some {R : Type} (k : string -> option string -> option R) cap fuel :
  forall s, (String.length s <= fuel)%nat -> forall x,
  (fix star (fuel : nat) (s : string) (cap : option string) {struct fuel} : option R :=
     match fuel with
     | O => k s cap
     | S fuel' =>
         match Regex.rmatch (Regex.Chr Regex.anyChar) s cap
                 (fun s' cap' =>
                    if (String.length s' <? String.length s)%nat
                    then star fuel' s' cap' else None) with
         | Some x => Some x
         | None => k s cap
         end
     end) fuel s cap = Some x <->
  (exists t u, s = t +:+ u /\ k u cap = Some x /\
               forall t' u', s = t' +:+ u' -> (String.length u' < String.length u)%nat ->
                             k u' cap = None).
Proof.
  assert (forall s x, s = "" ->
            (k s cap = Some x <->
             exists t u, s = t +:+ u /\ k u cap = Some x /\
                         forall t' u', s = t' +:+ u' ->
                                       (String.length u' < String.length u)%nat ->
                                       k u' cap = None)) as Hnil.
  { intros s x ->. split.
    - intros H. exists "", "". split; [reflexivity|]. split; [exact H|].
      intros t' u' _ Hlt. cbn in Hlt. lia.
    - intros (t & u & Htu & H & _). destruct t; [|discriminate]. cbn in Htu. subst u. exact H. }
  induction fuel as [|fuel IH]; intros s Hlen x.
  - destruct s as [|c s]; [|cbn in Hlen; lia]. apply Hnil. reflexivity.
  - destruct s as [|c s]; [cbn [Regex.rmatch]; apply Hnil; reflexivity|].
    cbn [Regex.rmatch Regex.anyChar].
    replace (String.length s <? String.length (String c s))%nat with true
      by (symmetry; apply Nat.ltb_lt; cbn; lia).
    cbn in Hlen. specialize (IH s ltac:(lia)).
    pose proof (star_any_none k cap fuel s ltac:(lia)) as Hnone.
    match goal with |- match ?m with _ => _ end = Some x <-> _ => destruct m as [y|] eqn:Hm end.
    + pose proof (proj1 (IH y) Hm) as (t & u & -> & Hk & Hshort).
      split.
      * intros Hy. injection Hy as ->.
        exists (String c t), u. split; [reflexivity|]. split; [exact Hk|].
        intros t' u' Heq Hlt. destruct t' as [|c' t'].
        -- cbn in Heq. subst u'. cbn in Hlt. rewrite length_append in Hlt. lia.
        -- cbn in Heq. injection Heq as _ Heq. apply (Hshort t' u' Heq Hlt).
      * intros (t1 & u1 & Heq & Hk1 & Hshort1). destruct t1 as [|c' t1].
        -- cbn in Heq. subst u1. exfalso.
           rewrite (Hshort1 (String c t) u) in Hk; [discriminate | reflexivity|].
           cbn. rewrite length_append. lia.
        -- cbn in Heq. injection Heq as _ Heq.
           rewrite <- Hm. apply (IH x). exists t1, u1. split; [exact Heq|]. split; [exact Hk1|].
           intros t' u' Heq' Hlt. apply (Hshort1 (String c t') u'); [cbn; rewrite Heq'; reflexivity|].
           exact Hlt.
    + pose proof (proj1 Hnone Hm) as Hall.
      split.
      * intros Hk. exists "", (String c s). split; [reflexivity|]. split; [exact Hk|].
        intros t' u' Heq Hlt. destruct t' as [|c' t'].
        -- cbn in Heq. subst u'. lia.
        -- cbn in Heq. injection Heq as _ Heq. apply (Hall t' u' Heq).
      * intros (t & u & Heq & Hk & Hshort). destruct t as [|c' t].
        -- cbn in Heq. subst u. exact Hk.
        -- cbn in Heq. injection Heq as _ Heq.
           rewrite (Hall t u Heq) in Hk. discriminate.
Qed.

Lemma consumed_span b c :
  Regex.consumed (String opening (b +:+ String closing c)) c =
  String opening (b +:+ String closing "").
Proof.
  unfold Regex.consumed.
  replace (String.length (String opening (b +:+ String closing c)) - String.length c)%nat
    with (String.length (String opening (b +:+ String closing "")))
    by (cbn; rewrite !length_append; cbn; lia).
  replace (String opening (b +:+ String closing c))
    with (String opening (b +:+ String closing "") +:+ c)
    by (cbn; rewrite append_assoc; reflexivity).
  apply take_append.
Qed.

(** No match at the start of [s]. *)
Lemma matchHere_span_none s :
  Regex.matchHere (spanPattern opening closing) s = None <->
  (forall b c, s <> String opening (b +:+ String closing c)).
Proof.
  unfold Regex.matchHere, spanPattern. cbn [Regex.rmatch].
  destruct s as [|c0 s].
  - split; [intros _ b c; discriminate | reflexivity].
  - unfold Regex.only at 1. destruct (Ascii.eqb_spec opening c0) as [<-|Hne].
    + rewrite star_any_none by lia. split.
      * intros H b c Heq. injection Heq as Hs.
        specialize (H b (String closing c) Hs). cbn in H.
        unfold Regex.only in H. rewrite Ascii.eqb_refl in H. discriminate.
      * intros H t u Htu. destruct u as [|d u]; [reflexivity|].
        unfold Regex.only. destruct (Ascii.eqb_spec closing d) as [<-|]; [|reflexivity].
        exfalso. apply (H t u). rewrite Htu. reflexivity.
    + split; [|reflexivity]. intros _ b c Heq. injection Heq as Hc _.
      apply Hne. symmetry. exact Hc.
Qed.

(** A match at the start of [u]: from its first character, the opening
    one, to the last closing one. *)
Lemma matchHere_span_some u m :
  Regex.matchHere (spanPattern opening closing) u = Some m <->
  (exists b c, u = String opening (b +:+ String closing c) /\ without closing c /\
               m = Regex.Found (String opening (b +:+ String closing "")) None c).
Proof.
  unfold Regex.matchHere, spanPattern. cbn [Regex.rmatch].
  destruct u as [|c0 s].
  - split; [discriminate | intros (b & c & H & _); discriminate].
  - unfold Regex.only at 1. destruct (Ascii.eqb_spec opening c0) as [<-|Hne].
    2:{ split; [discriminate|]. intros (b & c & H & _). injection H as H _.
        exfalso. apply Hne. symmetry. exact H. }
    rewrite star_any_some by lia. split.
    + intros (t & u1 & -> & Hk & Hshort).
      destruct u1 as [|d c]; [discriminate|].
      unfold Regex.only in Hk. destruct (Ascii.eqb_spec closing d) as [<-|]; [|discriminate].
      injection Hk as <-. exists t, c. split; [reflexivity|]. split.
      * unfold without. destruct (Str.mem closing c) eqn:Hmem; [|reflexivity]. exfalso.
        destruct (mem_split _ _ Hmem) as (c1 & c2 & ->).
        assert (t +:+ String closing (c1 +:+ String closing c2) =
                (t +:+ String closing c1) +:+ String closing c2)
          as Hcut by (rewrite !append_assoc; reflexivity).
        assert (String.length (String closing c2) <
                String.length (String closing (c1 +:+ String closing c2)))%nat
          as Hlt by (cbn; rewrite length_append; cbn; lia).
        pose proof (Hshort _ _ Hcut Hlt) as Hbad. cbn in Hbad.
        unfold Regex.only in Hbad. rewrite Ascii.eqb_refl in Hbad. discriminate Hbad.
      * rewrite consumed_span. reflexivity.
    + intros (b & c & Heq & Hc & ->). injection Heq as ->.
      exists b, (String closing c). split; [reflexivity|]. split.
      * unfold Regex.only. rewrite Ascii.eqb_refl, consumed_span. reflexivity.
      * intros t' u' Heq Hlt.
        destruct (append_cut b (String closing c) t' u' Heq ltac:(lia)) as (v & Hv & _).
        destruct v as [|x v]; [cbn in Hv; subst u'; lia|].
        cbn in Hv. injection Hv as _ Hv.
        destruct u' as [|d u']; [reflexivity|].
        unfold Regex.only. destruct (Ascii.eqb_spec closing d) as [<-|]; [|reflexivity].
        unfold without in Hc. rewrite Hv, mem_append in Hc. cbn in Hc.
        rewrite Ascii.eqb_refl, orb_true_r in Hc. discriminate.
Qed.

(** The leftmost match: from the first opening character that has a
    closing one after it to the last closing character. *)
Lemma search_span text m :
  Regex.search (spanPattern opening closing) text = Some m <->
  (exists a b c,
      text = a +:+ String opening (b +:+ String closing c) /\
      without opening a /\ without closing c /\
      m = Regex.Found (String opening (b +:+ String closing "")) None c).
Proof.
  induction text as [|c0 text IH].
  - cbn. split; [discriminate|]. intros (a & b & c & H & _). destruct a; discriminate.
  - cbn [Regex.search].
    destruct (Regex.matchHere (spanPattern opening closing) (String c0 text)) as [m0|] eqn:Hm.
    + pose proof Hm as Hm0.
      apply matchHere_span_some in Hm. destruct Hm as (b & c & Heq & Hc & ->).
      split.
      * intros H. injection H as <-. exists "", b, c. repeat split; assumption.
      * intros (a & b' & c' & Heq' & Ha & Hc' & ->). f_equal.
        destruct a as [|x a].
        -- cbn in Heq'.
           assert (Regex.matchHere (spanPattern opening closing) (String c0 text) =
                   Some (Regex.Found (String opening (b' +:+ String closing "")) None c')) as H2
               by (apply matchHere_span_some; exists b', c'; auto).
           congruence.
        -- exfalso. cbn in Heq'. injection Heq as -> _. injection Heq' as <- _.
           unfold without in Ha. cbn in Ha. rewrite Ascii.eqb_refl in Ha. discriminate.
    + rewrite IH. split.
      * intros (a & b & c & -> & Ha & Hc & ->). exists (String c0 a), b, c.
        split; [reflexivity|]. split; [|auto].
        unfold without in *. cbn [Str.mem]. rewrite Ha, orb_false_r.
        destruct (Ascii.eqb_spec opening c0) as [<-|]; [|reflexivity]. exfalso.
        apply (proj1 (matchHere_span_none _) Hm (a +:+ String opening b) c).
        rewrite !append_assoc. reflexivity.
      * intros (a & b & c & Heq & Ha & Hc & ->). destruct a as [|x a].
        -- exfalso. cbn in Heq. apply (proj1 (matchHere_span_none _) Hm b c Heq).
        -- cbn in Heq. injection Heq as _ ->. exists a, b, c.
           split; [reflexivity|]. split; [|auto].
           unfold without in *. cbn in Ha. apply orb_false_iff in Ha. apply Ha.
Qed.

(** There is no match when no opening character has a closing one after
    it. *)
Lemma search_span_none text :
  Regex.search (spanPattern opening closing) text = None <->
  (forall a b c, text <> a +:+ String opening (b +:+ String closing c)).
Proof.
  split.
  - intros Hs a b c Heq.
    pose proof (proj1 (search_none _ _) Hs a _ Heq) as Hm.
    apply (proj1 (matchHere_span_none _) Hm b c). reflexivity.
  - intros H. apply search_none. intros t u Htu. apply matchHere_span_none.
    intros b c Hu. apply (H t b c). rewrite Htu, Hu. reflexivity.
Qed.

Lemma span_text a b c :
  a +:+ (Str.single opening +:+ b +:+ Str.single closing) +:+ c =
  a +:+ String opening (b +:+ String closing c).
Proof. cbn. rewrite append_assoc. reflexivity. Qed.

Lemma span_whole b :
  String opening (b +:+ String closing "") = Str.single opening +:+ b +:+ Str.single closing.
Proof. reflexivity. Qed.

End Span.

(** X5.  The JSON object that [fixDeploymentErrors] takes out of a reply
    is the text from the first [{] of the reply to its last [}], whatever
    stands between them: braces are not counted. *)
Theorem jsonMatch_spans_first_to_last text fragment :
  jsonMatch text = Some fragment <->
  (exists a b c,
      text = a +:+ fragment +:+ c /\ fragment = "{" +:+ b +:+ "}" /\
      without "{" a /\ without "}" c).
Proof.
  unfold jsonMatch. change jsonObjectPattern with (spanPattern "{" "}").
  change "{" with (Str.single "{"). change "}" with (Str.single "}").
  split.
  - destruct (Regex.search (spanPattern "{" "}") text) as [m|] eqn:Hs; [|discriminate].
    intros H. injection H as <-.
    apply search_span in Hs. destruct Hs as (a & b & c & -> & Ha & Hc & ->).
    exists a, b, c. cbn [Regex.whole]. rewrite span_whole, span_text. auto.
  - intros (a & b & c & -> & -> & Ha & Hc).
    assert (Regex.search (spanPattern "{" "}")
              (a +:+ (Str.single "{" +:+ b +:+ Str.single "}") +:+ c) =
            Some (Regex.Found (String "{" (b +:+ String "}" "")) None c)) as ->;
      [|cbn [Regex.whole]; rewrite span_whole; reflexivity].
    apply search_span. exists a, b, c. rewrite span_text. auto.
Qed.

(** ** A run without an API key *)

Section Silent.

Lemma silent_ret {A : Type} (a : A) : silent (ret a).
Proof. intros w. split; reflexivity. Qed.

Lemma silent_throw {A : Type} ex : silent (@throw world A ex).
Proof. intros w. split; reflexivity. Qed.

Lemma silent_bind {A B : Type} (m : IO A) (k : A -> IO B) :
  silent m -> (forall a, silent (k a)) -> silent (bind m k).
Proof.
  intros Hm Hk w. unfold bind. specialize (Hm w).
  destruct (m w) as [w1 [a|ex]]; cbn [fst] in *.
  - destruct (Hk a w1) as [H1 H2]. rewrite H1, H2. exact Hm.
  - exact Hm.
Qed.

Lemma silent_tryCatch {A : Type} (m : IO A) (h : exn -> IO A) :
  silent m -> (forall ex, silent (h ex)) -> silent (tryCatch m h).
Proof.
  intros Hm Hh w. unfold tryCatch. specialize (Hm w).
  destruct (m w) as [w1 [a|ex]]; cbn [fst] in *.
  - exact Hm.
  - destruct (Hh ex w1) as [H1 H2]. rewrite H1, H2. exact Hm.
Qed.

Lemma silent_forEach {A : Type} (l : list A) (body : A -> IO unit) :
  (forall x, silent (body x)) -> silent (forEach l body).
Proof.
  intros Hbody. induction l as [|x l IH]; cbn [forEach].
  - apply silent_ret.
  - apply silent_bind; [apply Hbody | intros _; exact IH].
Qed.

Lemma silent_execPromise e command : silent (execPromise e command).
Proof.
  intros w. unfold execPromise.
  destruct (runCommand e (ticks w) command (fs w)) as [f [out err|m out err]]; split; reflexivity.
Qed.

Lemma silent_writeFile p text : silent (Fs.writeFile p text).
Proof.
  intros w. unfold Fs.writeFile.
  destruct (Str.endsWith p "/" || String.eqb (Fs.key w p) "/"); [split; reflexivity|].
  destruct (negb (Fs.isDirAt (fs w) (Path.dirname (Fs.key w p)))); [split; reflexivity|].
  destruct (fs w !! Fs.key w p) as [[|text0 [|]]|]; split; reflexivity.
Qed.

Lemma silent_existsSync p : silent (Fs.existsSync p).
Proof. intros w. split; reflexivity. Qed.

Lemma silent_chmodWritable p : silent (Fs.chmodWritable p).
Proof.
  intros w. unfold Fs.chmodWritable.
  destruct (fs w !! Fs.key w p) as [[|text0 b]|]; [split; reflexivity..|].
  destruct (String.eqb (Fs.key w p) "/"); split; reflexivity.
Qed.

Lemma silent_accessWritable p : silent (Fs.accessWritable p).
Proof.
  intros w. unfold Fs.accessWritable.
  destruct (fs w !! Fs.key w p) as [[|text0 [|]]|]; [split; reflexivity..|].
  destruct (String.eqb (Fs.key w p) "/"); split; reflexivity.
Qed.

Lemma silent_unlink p : silent (Fs.unlink p).
Proof.
  intros w. unfold Fs.unlink.
  destruct (fs w !! Fs.key w p) as [[|text0 b]|]; split; reflexivity.
Qed.

Lemma silent_chdir d : silent (Fs.chdir d).
Proof.
  intros w. unfold Fs.chdir. destruct (Fs.isDirAt (fs w) (Fs.key w d)); split; reflexivity.
Qed.

Lemma silent_buildWithOverwrite e : silent (buildWithOverwrite e).
Proof.
  unfold buildWithOverwrite. apply silent_tryCatch.
  - apply silent_bind; [apply silent_execPromise | intros; apply silent_ret].
  - intros ex. destruct (stderrOf ex) as [err|]; [|apply silent_throw].
    destruct (negb (String.eqb err "") && Str.includes err "overwrite input file");
      [|apply silent_throw].
    apply silent_bind; [apply silent_execPromise | intros; apply silent_ret].
Qed.

Lemma silent_makeWritable filePath : silent (makeWritable filePath).
Proof.
  unfold makeWritable. apply silent_bind; [apply silent_existsSync|].
  intros [|]; [|apply silent_ret].
  apply silent_tryCatch; [|intros; apply silent_ret].
  apply silent_bind; [apply silent_chmodWritable|]. intros _.
  apply silent_bind; [apply silent_existsSync|].
  intros [|]; [|apply silent_ret].
  apply silent_tryCatch; [apply silent_accessWritable | intros; apply silent_unlink].
Qed.

Lemma silent_handleOverwrite last : silent (handleOverwrite last).
Proof.
  unfold handleOverwrite. destruct last as [err|]; [|apply silent_ret].
  destruct (negb (String.eqb (err_stderr err) "") &&
            Str.includes (err_stderr err) "overwrite input file"); [|apply silent_ret].
  apply silent_forEach. intros matched.
  destruct (Regex.search quotedName matched); [apply silent_makeWritable | apply silent_throw].
Qed.

End Silent.

Section Unaided.

Variable e : env.
Hypothesis no_key : keyConfigured e = false.

Variable w0 : world.
Variable rd : list string.

Lemma fixDeploymentErrors_without_key projectDir plantUmlContent error history w :
  fixDeploymentErrors e projectDir plantUmlContent error history w =
  (w, Throw (Error "Anthropic API key is not set. Please set the ANTHROPIC_API_KEY environment variable.")).
Proof. unfold fixDeploymentErrors. rewrite no_key. reflexivity. Qed.

Lemma keeps_bind {A B : Type} P (m : M mainState A) (k : A -> M mainState B) :
  keeps P m -> (forall a, keeps P (k a)) -> keeps P (bind m k).
Proof.
  intros Hm Hk s Hs. unfold bind. specialize (Hm s Hs).
  destruct (m s) as [s1 [a|ex]]; cbn [fst] in *; [apply Hk, Hm | exact Hm].
Qed.

Lemma keeps_tryCatch {A : Type} P (m : M mainState A) (h : exn -> M mainState A) :
  keeps P m -> (forall ex, keeps P (h ex)) -> keeps P (tryCatch m h).
Proof.
  intros Hm Hh s Hs. unfold tryCatch. specialize (Hm s Hs).
  destruct (m s) as [s1 [a|ex]]; cbn [fst] in *; [exact Hm | apply Hh, Hm].
Qed.

Lemma keeps_ret {A : Type} P (a : A) : keeps P (ret a).
Proof. intros s Hs. exact Hs. Qed.

Lemma keeps_while P fuel cond (body : M mainState unit) :
  keeps P body -> keeps P (while fuel cond body).
Proof.
  intros Hbody. induction fuel as [|fuel IH]; intros s Hs; cbn [while].
  - destruct (cond s); exact Hs.
  - destruct (cond s); [|exact Hs]. specialize (Hbody s Hs).
    destruct (body s) as [s1 [[]|ex]]; cbn [fst] in *; [apply IH, Hbody | exact Hbody].
Qed.

Lemma keeps_perform {A : Type} (m : IO A) : silent m -> keeps (unaided w0 rd) (perform m).
Proof.
  intros Hm s (Hh & Ha & Hr & Hev). rewrite perform_run. cbn [fst].
  destruct (Hm (ms_world s)) as [H1 H2].
  split; [exact Hh|]. split; [cbn; congruence|]. split; [cbn; congruence | exact Hev].
Qed.

Lemma keeps_note ev :
  (forall n, ev <> FixStep n true) -> keeps (unaided w0 rd) (note ev).
Proof.
  intros Hev s (Hh & Ha & Hr & Hevs). split; [exact Hh|]. split; [exact Ha|]. split; [exact Hr|].
  cbn. intros n ok Hin. apply in_app_or in Hin. destruct Hin as [Hin|[->|[]]].
  - apply (Hevs n ok Hin).
  - destruct ok; [exfalso; apply (Hev n); reflexivity | reflexivity].
Qed.

Lemma keeps_fixStep projectDir plantUmlContent :
  keeps (unaided w0 rd) (fixStep e projectDir plantUmlContent).
Proof.
  intros s Hs. unfold fixStep, bind at 1, get.
  destruct (lastError s) as [err|]; [|exact Hs].
  unfold tryCatch, bind at 1. rewrite perform_run, fixDeploymentErrors_without_key. cbn [fst snd].
  apply (keeps_note (FixStep (attempt s) false)); [discriminate|].
  destruct s; exact Hs.
Qed.

Lemma keeps_deployStep projectDir : keeps (unaided w0 rd) (deployStep e projectDir).
Proof.
  intros s Hs. unfold deployStep, bind at 1, get.
  revert s Hs. 
  assert (forall n, keeps (unaided w0 rd)
            (tryCatch
               (perform (buildWithOverwrite e) >>
                _ <- perform (execPromise e "npx cdk synth") ;;
                _ <- perform (execPromise e "npx cdk deploy --require-approval never") ;;
                note (DeployStep n true) >> setSucceeded)
               (fun error =>
                  note (DeployStep n false) >>
                  setLastError (ErrorRecord (messageOf error) (orEmpty (stdoutOf error))
                                            (orEmpty (stderrOf error))) >>
                  perform (Fs.writeFile
                             (Path.join projectDir ("deployment-error-" +:+ Num.toString10 n +:+ ".log"))
                             ("STDOUT:" +:+ Str.nl +:+ orEmpty (stdoutOf error) +:+ Str.nl +:+ Str.nl +:+
                              "STDERR:" +:+ Str.nl +:+ orEmpty (stderrOf error)))))) as H.
  { intros n. apply keeps_tryCatch.
    - apply keeps_bind; [apply keeps_perform, silent_buildWithOverwrite|]. intros _.
      apply keeps_bind; [apply keeps_perform, silent_execPromise|]. intros _.
      apply keeps_bind; [apply keeps_perform, silent_execPromise|]. intros _.
      apply keeps_bind; [apply keeps_note; discriminate|]. intros _.
      intros s Hs. exact Hs.
    - intros error.
      apply keeps_bind; [apply keeps_note; discriminate|]. intros _.
      apply keeps_bind; [intros s Hs; exact Hs|]. intros _.
      apply keeps_perform, silent_writeFile. }
  intros s Hs. apply H, Hs.
Qed.

Lemma keeps_iteration projectDir plantUmlContent :
  keeps (unaided w0 rd) (iteration e projectDir plantUmlContent).
Proof.
  intros s Hs. unfold iteration, bind at 1, get.
  revert Hs. generalize (lastError s) as last. generalize (attempt s + 1)%Z as n. revert s.
  assert (forall n last,
             keeps (unaided w0 rd)
               (setAttempt n >> perform (handleOverwrite last) >>
                fixStep e projectDir plantUmlContent >> deployStep e projectDir)) as H.
  { intros n last.
    apply keeps_bind; [intros s Hs; exact Hs|]. intros _.
    apply keeps_bind; [apply keeps_perform, silent_handleOverwrite|]. intros _.
    apply keeps_bind; [apply keeps_fixStep|]. intros _. apply keeps_deployStep. }
  intros s n last Hs. apply H, Hs.
Qed.

Lemma keeps_deployLoop projectDir plantUmlContent N :
  keeps (unaided w0 rd) (deployLoop e projectDir plantUmlContent N).
Proof.
  unfold deployLoop.
  apply keeps_bind; [apply keeps_perform, silent_chdir|]. intros _.
  apply keeps_bind; [apply keeps_while, keeps_iteration|]. intros [|]; [|apply keeps_ret].
  intros s Hs. unfold bind at 1, get.
  revert Hs. generalize (success s) as ok. generalize (fixHistory s) as history. revert s.
  assert (forall history ok,
             keeps (unaided w0 rd)
               ((match history with
                 | [] => ret tt
                 | _ => perform (Fs.writeFile (Path.join projectDir "fix-history.json")
                                   (Json.stringify (historyJson history)))
                 end) >>
                if ok : bool then
                  tryCatch (_ <- perform (execPromise e "npx cdk list-exports") ;; ret tt)
                           (fun _ => ret tt) >>
                  ret (Some 0%Z)
                else ret (Some 1%Z))) as H.
  { intros history ok. apply keeps_bind.
    - destruct history; [apply keeps_ret | apply keeps_perform, silent_writeFile].
    - intros _. destruct ok; [|apply keeps_ret].
      apply keeps_bind; [|intros; apply keeps_ret].
      apply keeps_tryCatch; [|intros; apply keeps_ret].
      apply keeps_bind; [apply keeps_perform, silent_execPromise | intros; apply keeps_ret]. }
  intros s history ok Hs. apply H, Hs.
Qed.

End Unaided.

Lemma unaided_main e o w :
  keyConfigured e = false ->
  exists rd,
    (rd = [] \/ rd = diagramRead o) /\
    unaided w (reads w ++ rd) (fst (main e o (start w))).
Proof.
  intros Hkey. rewrite main_state. unfold mainBody, bind at 1. rewrite perform_run.
  cbn [getCwd fst snd start ms_world attempt lastError success fixHistory events].
  unfold bind at 1. rewrite perform_run.
  cbn [ms_world attempt lastError success fixHistory events].
  destruct (hasCdkJson_returns e (Path.resolve (cwd w) (opt_project o)) w)
    as (w1 & valid & -> & _ & Ha1 & Hr1 & _).
  cbn [fst snd].
  assert (forall w2 rd, audits w2 = audits w -> reads w2 = reads w ++ rd ->
                        unaided w (reads w ++ rd) (MainState w2 0 None false [] [])) as Hstart.
  { intros w2 rd Ha Hr. split; [reflexivity|]. split; [exact Ha|]. split; [exact Hr|].
    intros n ok []. }
  destruct valid.
  2:{ exists []. split; [left; reflexivity|]. apply Hstart; [exact Ha1|].
      rewrite app_nil_r. exact Hr1. }
  exists (diagramRead o). split; [right; reflexivity|].
  unfold bind at 1, diagramRead.
  destruct (opt_diagram o) as [diagram|].
  2:{ cbn [ret]. apply (keeps_deployLoop e Hkey), Hstart; [exact Ha1|].
      rewrite app_nil_r. exact Hr1. }
  destruct (negb (String.eqb diagram "")).
  2:{ cbn [ret]. apply (keeps_deployLoop e Hkey), Hstart; [exact Ha1|].
      rewrite app_nil_r. exact Hr1. }
  unfold tryCatch. rewrite perform_run.
  cbn [ms_world attempt lastError success fixHistory events].
  destruct (readFile_spec diagram w1) as [Hw _].
  destruct (Fs.readFile diagram w1) as [w2 [text|ex]]; cbn [fst snd] in *; subst w2;
    cbn [ret]; apply (keeps_deployLoop e Hkey), Hstart; cbn [audits reads addRead];
    try exact Ha1; rewrite Hr1; reflexivity.
Qed.

(** X6.  Without an API key [fixDeploymentErrors] throws at once, and
    [main] only logs that: in a whole run no fix is obtained and the
    history stays empty, nothing is written to the audit directory, no file
    is read but the diagram, and every fix step fails.  The run itself goes
    on: each failed fix step stands between a failed deployment and the
    next deployment. *)
Theorem main_without_api_key e o w :
  keyConfigured e = false ->
  let s := fst (main e o (start w)) in
  (forall projectDir plantUmlContent error history w1,
      fixDeploymentErrors e projectDir plantUmlContent error history w1 =
      (w1, Throw (Error "Anthropic API key is not set. Please set the ANTHROPIC_API_KEY environment variable."))) /\
  fixHistory s = [] /\
  audits (ms_world s) = audits w /\
  (forall n ok, In (FixStep n ok) (events s) -> ok = false) /\
  (forall p, In p (reads (ms_world s)) -> In p (reads w) \/ opt_diagram o = Some p) /\
  fixesBetweenDeploys (events s).
Proof.
  intros Hkey s.
  split; [intros; apply fixDeploymentErrors_without_key, Hkey|].
  destruct (unaided_main e o w Hkey) as (rd & Hrd & Hh & Ha & Hr & Hev).
  split; [exact Hh|]. split; [exact Ha|]. split; [exact Hev|].
  split.
  2:{ destruct (main_spec e o w) as [(_ & _ & _ & Hg & _) _].
      apply grown_fixesBetweenDeploys, Hg. }
  intros p Hp. subst s. rewrite Hr in Hp. apply in_app_or in Hp.
  destruct Hp as [Hp|Hp]; [left; exact Hp | right].
  destruct Hrd as [->| ->]; [destruct Hp|].
  unfold diagramRead in Hp. destruct (opt_diagram o) as [diagram|]; [|destruct Hp].
  destruct (negb (String.eqb diagram "")); [|destruct Hp].
  destruct Hp as [->|[]]. reflexivity.
Qed.

Lemma main_without_api_key_witness :
  keyConfigured SampleNoKey.environment = false /\
  fixHistory (fst SampleNoKey.run) = [] /\
  events (fst SampleNoKey.run) =
    [DeployStep 1 false; FixStep 2 false; DeployStep 2 false; FixStep 3 false; DeployStep 3 false] /\
  snd SampleNoKey.run = Ret (Some 1%Z).
Proof.
  split; [reflexivity|].
  split; [exact (proj1 (proj2 (main_without_api_key SampleNoKey.environment
                                 (Sample.optionsWith (Some "3"))
                                 (Sample.worldOf Sample.bareProject) eq_refl)))|].
  split; vm_compute; reflexivity.
Defined.

(** X7.  The test for [cdk.json] is the shell command
    [test -f "<project directory>/cdk.json"].  When the path of the
    project directory stands for itself between the double quotes of that
    command (it has no double quote, dollar sign, backquote or backslash)
    and the directory has no file [cdk.json], the run ends right after the
    test: no command of the build or the deployment is run, no request is
    sent, nothing is read or written, no step of the loop is taken, and
    the exit code is 1.  (For any other path the shell runs another
    command, and the run goes on when that command succeeds.) *)
Theorem main_rejects_directory_without_cdk_json e o w :
  shellSafe (Path.resolve (cwd w) (opt_project o)) = true ->
  (forall text writable,
      fs w !! Fs.key w (Path.resolve (cwd w) (opt_project o) +:+ "/cdk.json") <>
      Some (File text writable)) ->
  main e o (start w) = (start w, Ret (Some 1%Z)).
Proof.
  intros Hsafe Hmissing. unfold main, tryCatch, mainBody, bind at 1. rewrite perform_run.
  cbn [getCwd fst snd start ms_world attempt lastError success fixHistory events].
  unfold bind at 1. rewrite perform_run.
  unfold hasCdkJson. rewrite Hsafe.
  cbn [fst snd ms_world attempt lastError success fixHistory events].
  destruct (fs w !! Fs.key w (Path.resolve (cwd w) (opt_project o) +:+ "/cdk.json"))
    as [[|text writable]|] eqn:Hk; try reflexivity.
  exfalso. apply (Hmissing text writable). reflexivity.
Qed.

Lemma main_rejects_directory_without_cdk_json_witness :
  shellSafe (Path.resolve "/proj" "/proj") = true /\
  main SampleNoKey.environment (Sample.optionsWith None)
       (start (Sample.worldOf SampleNoKey.emptyDirectory)) =
  (start (Sample.worldOf SampleNoKey.emptyDirectory), Ret (Some 1%Z)).
Proof.
  split; [reflexivity|].
  apply main_rejects_directory_without_cdk_json; [reflexivity|].
  intros text writable. vm_compute. discriminate.
Defined.

(** ** Facts about paths *)

Section PathFacts.

#[local] Arguments String.append _ _ : simpl nomatch.

Lemma split_append c a b :
  Str.split c (a +:+ String c b) = Str.split c a ++ Str.split c b.
Proof.
  induction a as [|d a IH]; cbn [String.append Str.split].
  - rewrite Ascii.eqb_refl. reflexivity.
  - destruct (Ascii.eqb d c); [rewrite IH; reflexivity|].
    rewrite IH. destruct (Str.split c a) as [|p ps] eqn:Hs; [|reflexivity].
    exfalso. exact (split_nonempty c a Hs).
Qed.

Lemma split_without c s : Str.mem c s = false -> Str.split c s = [s].
Proof.
  induction s as [|d s IH]; [reflexivity|]. cbn [Str.mem Str.split].
  intros H. apply orb_false_iff in H as [Hd Hs].
  rewrite Ascii.eqb_sym, Hd, (IH Hs). reflexivity.
Qed.

Lemma rev_app_append s : forall acc, String.rev_app s acc = String.rev_app s "" +:+ acc.
Proof.
  induction s as [|c s IH]; intros acc; cbn [String.rev_app]; [reflexivity|].
  rewrite (IH (String c acc)), (IH (String c "")), append_assoc. reflexivity.
Qed.

Lemma rev_cons c s : String.rev (String c s) = String.rev s +:+ String c "".
Proof. unfold String.rev. cbn [String.rev_app]. apply rev_app_append. Qed.

Lemma rev_append a b : String.rev (a +:+ b) = String.rev b +:+ String.rev a.
Proof.
  induction a as [|c a IH]; cbn [String.append].
  - rewrite append_nil_r. reflexivity.
  - rewrite !rev_cons, IH, append_assoc. reflexivity.
Qed.

Lemma rev_involutive s : String.rev (String.rev s) = s.
Proof.
  induction s as [|c s IH]; [reflexivity|].
  rewrite rev_cons, rev_append, IH. reflexivity.
Qed.

(** A string ends with a slash when its last character is one. *)
Lemma endsWith_slash s : Str.endsWith s "/" = true <-> exists a, s = a +:+ "/".
Proof.
  unfold Str.endsWith. split.
  - intros H. destruct (String.rev s) as [|c r] eqn:Hr; [discriminate|].
    change (String.rev "/") with "/" in H.
    change ((if Ascii.eqb "/" c then Str.startsWith r "" else false) = true) in H.
    destruct (Ascii.eqb_spec "/"%char c) as [<-|]; [|discriminate].
    exists (String.rev r). rewrite <- (rev_involutive s), Hr. apply rev_cons.
  - intros [a ->]. rewrite rev_append. change (String.rev "/") with "/".
    cbn [String.append Str.startsWith]. rewrite Ascii.eqb_refl. apply startsWith_nil.
Qed.

Lemma last_character s : s <> "" -> exists a c, s = a +:+ String c "".
Proof.
  induction s as [|d s IH]; [intros H; contradiction|]. intros _.
  destruct s as [|d' s].
  - exists "", d. reflexivity.
  - destruct (IH ltac:(discriminate)) as (a & c & Hs). exists (String d a), c.
    cbn. rewrite <- Hs. reflexivity.
Qed.

Lemma append_last_inj a c b d : a +:+ String c "" = b +:+ String d "" -> a = b /\ c = d.
Proof.
  revert b. induction a as [|x a IH]; intros [|y b] H; cbn in H.
  - injection H as ->. auto.
  - injection H as -> H. destruct b; discriminate.
  - injection H as -> H. destruct a; discriminate.
  - injection H as -> H. destruct (IH b H) as [-> ->]. auto.
Qed.

Lemma endsWith_slash_name x name :
  name <> "" -> Str.mem Path.slash name = false -> Str.endsWith (x +:+ name) "/" = false.
Proof.
  intros Hne Hmem. destruct (Str.endsWith (x +:+ name) "/") eqn:He; [|reflexivity].
  exfalso. apply endsWith_slash in He as [a Ha].
  destruct (last_character name Hne) as (n & c & ->).
  rewrite <- append_assoc in Ha. apply append_last_inj in Ha as [_ ->].
  rewrite mem_append in Hmem. cbn in Hmem. rewrite orb_true_r in Hmem. discriminate.
Qed.

Lemma isAbsolute_name name :
  Str.mem Path.slash name = false -> Path.isAbsolute name = false.
Proof.
  destruct name as [|c name]; [reflexivity|]. cbn. intros H. apply orb_false_iff in H as [H _].
  rewrite Ascii.eqb_sym. exact H.
Qed.

Lemma pushSegment_name allow acc name :
  segmentName name -> Path.pushSegment allow acc name = name :: acc.
Proof.
  intros (Hne & _ & Hdot & Hdots). unfold Path.pushSegment.
  destruct (String.eqb_spec name ""); [contradiction|].
  destruct (String.eqb_spec name "."); [contradiction|].
  destruct (String.eqb_spec name ".."); [contradiction|]. reflexivity.
Qed.

(** The segments of a path that ends with a name end with that name. *)
Lemma normalizeSegments_name allow x name :
  segmentName name ->
  Path.normalizeSegments allow (x +:+ "/" +:+ name) = Path.normalizeSegments allow x ++ [name].
Proof.
  intros Hname. unfold Path.normalizeSegments.
  change (x +:+ "/" +:+ name) with (x +:+ String Path.slash name).
  rewrite split_append, (split_without _ name) by apply Hname.
  rewrite fold_left_app. cbn [fold_left]. rewrite pushSegment_name by exact Hname.
  reflexivity.
Qed.

Lemma normalizeSegments_only_name allow name :
  segmentName name -> Path.normalizeSegments allow name = [name].
Proof.
  intros Hname. unfold Path.normalizeSegments.
  rewrite (split_without _ name) by apply Hname.
  cbn [fold_left]. rewrite pushSegment_name by exact Hname. reflexivity.
Qed.

Lemma join_snoc segs name :
  Str.join "/" (segs ++ [name]) =
  match segs with
  | [] => name
  | _ => Str.join "/" segs +:+ "/" +:+ name
  end.
Proof.
  induction segs as [|s segs IH]; [reflexivity|].
  destruct segs as [|s' segs]; [reflexivity|].
  change ((s :: s' :: segs) ++ [name]) with (s :: s' :: (segs ++ [name])).
  rewrite !join_cons. change (s' :: segs ++ [name]) with ((s' :: segs) ++ [name]).
  rewrite IH, !append_assoc. reflexivity.
Qed.

Lemma join_snoc_nonempty segs name : name <> "" -> Str.join "/" (segs ++ [name]) <> "".
Proof.
  intros Hne. rewrite join_snoc. destruct segs as [|s segs]; [exact Hne|].
  intros H. destruct (Str.join "/" (s :: segs)); discriminate.
Qed.

(** [path.join(dir, name)] for a name: a path that is the name, or that
    ends with a slash and the name. *)
Lemma join_name dir name :
  segmentName name ->
  Path.join dir name = name \/ exists x, Path.join dir name = x +:+ "/" +:+ name.
Proof.
  intros Hname. pose proof Hname as (Hne & Hmem & _).
  unfold Path.join. destruct (String.eqb_spec dir "") as [->|Hdir];
    destruct (String.eqb_spec name "") as [|_]; try contradiction.
  - left. unfold Path.normalize. destruct (String.eqb_spec name ""); [contradiction|].
    rewrite (isAbsolute_name name Hmem). cbn [negb].
    unfold Path.normalizeString. rewrite normalizeSegments_only_name by exact Hname.
    cbn [Str.join]. destruct (String.eqb_spec name ""); [contradiction|].
    replace (Str.endsWith name "/") with false
      by (symmetry; apply (endsWith_slash_name "" name Hne Hmem)).
    reflexivity.
  - unfold Path.normalize.
    destruct (String.eqb_spec (dir +:+ "/" +:+ name) "") as [Hempty|_].
    { destruct dir; [contradiction | discriminate]. }
    replace (Str.endsWith (dir +:+ "/" +:+ name) "/") with false
      by (symmetry; rewrite <- append_assoc; apply endsWith_slash_name; assumption).
    unfold Path.normalizeString. rewrite normalizeSegments_name by exact Hname.
    set (segs := Path.normalizeSegments _ dir).
    destruct (String.eqb_spec (Str.join "/" (segs ++ [name])) "") as [Hempty|_].
    { exfalso. exact (join_snoc_nonempty segs name Hne Hempty). }
    rewrite join_snoc. destruct segs as [|s segs].
    + destruct (Path.isAbsolute (dir +:+ "/" +:+ name)).
      * right. exists "". reflexivity.
      * left. reflexivity.
    + destruct (Path.isAbsolute (dir +:+ "/" +:+ name)).
      * right. exists ("/" +:+ Str.join "/" (s :: segs)). rewrite !append_assoc. reflexivity.
      * right. exists (Str.join "/" (s :: segs)). reflexivity.
Qed.

(** The entry that [path.join(dir, name)] names: its last segment is the
    name. *)
Lemma resolveSegments_join_name workDir dir name :
  segmentName name ->
  exists segs, Path.resolveSegments workDir (Path.join dir name) = segs ++ [name].
Proof.
  intros Hname. unfold Path.resolveSegments.
  destruct (join_name dir name Hname) as [->|[x ->]].
  - rewrite (isAbsolute_name name) by apply Hname.
    eexists. apply normalizeSegments_name, Hname.
  - destruct (Path.isAbsolute (x +:+ "/" +:+ name)).
    + eexists. apply normalizeSegments_name, Hname.
    + eexists.
      replace (workDir +:+ "/" +:+ x +:+ "/" +:+ name)
        with ((workDir +:+ "/" +:+ x) +:+ "/" +:+ name) by (rewrite !append_assoc; reflexivity).
      apply normalizeSegments_name, Hname.
Qed.

Lemma split_key segs name :
  Str.mem Path.slash name = false ->
  exists pieces, Str.split Path.slash ("/" +:+ Str.join "/" (segs ++ [name])) = pieces ++ [name].
Proof.
  intros Hmem. rewrite join_snoc. destruct segs as [|s segs].
  - exists [""]. change ("/" +:+ name) with ("" +:+ String Path.slash name).
    rewrite split_append, (split_without _ name Hmem). reflexivity.
  - eexists. rewrite <- append_assoc.
    change (("/" +:+ Str.join "/" (s :: segs)) +:+ "/" +:+ name)
      with (("/" +:+ Str.join "/" (s :: segs)) +:+ String Path.slash name).
    rewrite split_append, (split_without _ name Hmem). reflexivity.
Qed.

(** Two names in one directory are two entries. *)
Lemma key_join_injective w dir name1 name2 :
  segmentName name1 -> segmentName name2 ->
  Fs.key w (Path.join dir name1) = Fs.key w (Path.join dir name2) -> name1 = name2.
Proof.
  intros H1 H2. unfold Fs.key, Path.resolve.
  destruct (resolveSegments_join_name (cwd w) dir name1 H1) as [segs1 ->].
  destruct (resolveSegments_join_name (cwd w) dir name2 H2) as [segs2 ->].
  intros Heq.
  destruct (split_key segs1 name1 (proj1 (proj2 H1))) as [p1 Hp1].
  destruct (split_key segs2 name2 (proj1 (proj2 H2))) as [p2 Hp2].
  rewrite Heq, Hp2 in Hp1. apply app_inj_tail in Hp1 as [_ Hp1]. symmetry. exact Hp1.
Qed.

End PathFacts.

(** ** The project generator *)

Section Generator.

Import PlantUml.

Lemma isFileAt_insert (f : gmap string node) k k' text :
  isFileAt f k -> isFileAt (<[k' := File text true]> f) k.
Proof.
  intros (t & b & H). destruct (decide (k' = k)) as [->|Hne].
  - exists text, true. apply lookup_insert_eq.
  - exists t, b. rewrite lookup_insert_ne by exact Hne. exact H.
Qed.

(** What [fs.writeFile] does, however it ends. *)
Lemma writeFile_outcome p text w :
  let '(w', r) := Fs.writeFile p text w in
  cwd w' = cwd w /\
  (forall k, k <> Fs.key w p -> fs w' !! k = fs w !! k) /\
  (forall k, isFileAt (fs w) k -> isFileAt (fs w') k) /\
  (r = Ret tt -> fs w' !! Fs.key w p = Some (File text true)).
Proof.
  unfold Fs.writeFile.
  destruct (Str.endsWith p "/" || String.eqb (Fs.key w p) "/");
    [repeat split; auto; discriminate|].
  destruct (negb (Fs.isDirAt (fs w) (Path.dirname (Fs.key w p))));
    [repeat split; auto; discriminate|].
  destruct (fs w !! Fs.key w p) as [[|text0 [|]]|] eqn:Hk;
    try (repeat split; auto; discriminate);
    (split; [reflexivity|]); cbn [fs withFs];
    (split; [intros k Hne; apply lookup_insert_ne; congruence|]);
    (split; [intros k; apply isFileAt_insert | intros _; apply lookup_insert_eq]).
Qed.

Lemma mkdirRecursive_outcome p w :
  let '(w', r) := Fs.mkdirRecursive p w in
  cwd w' = cwd w /\
  (forall k v, fs w !! k = Some v -> fs w' !! k = Some v).
Proof.
  pose proof (mkdirRecursive_spec p w) as H. unfold Fs.mkdirRecursive in *.
  destruct (Fs.mkdirAll _ (fs w)) as [f|]; [|auto].
  destruct (H _ eq_refl) as (Hc & _ & Hk). auto.
Qed.

(** What one round of the loop over the files does, however it ends. *)
Lemma applyFix_outcome dir file w :
  let '(w', r) := applyFix dir file w in
  cwd w' = cwd w /\
  (forall k, isFileAt (fs w) k -> isFileAt (fs w') k) /\
  (forall written,
      r = Ret written ->
      Json.get "filename" file = Some (Json.JStr (filename written)) /\
      Json.get "content" file = Some (Json.JStr (content written)) /\
      isFileAt (fs w') (Fs.key w (Path.join dir (filename written)))).
Proof.
  unfold applyFix.
  destruct (Json.get "filename" file) as [[| | |name| |]|];
    try (unfold throw; repeat split; auto; discriminate).
  unfold bind at 1.
  pose proof (mkdirRecursive_outcome (Path.dirname (Path.join dir name)) w) as Hm.
  destruct (Fs.mkdirRecursive _ w) as [w1 [[]|ex]].
  2:{ destruct Hm as [Hc Hk]. split; [exact Hc|]. split; [|discriminate].
      intros k (t & b & H). exists t, b. apply Hk, H. }
  destruct Hm as [Hc1 Hk1].
  destruct (Json.get "content" file) as [[| | |text| |]|];
    try (unfold throw; split; [exact Hc1|]; split; [|discriminate];
         intros k (tx & bx & H); exists tx, bx; apply Hk1, H).
  unfold bind at 1.
  pose proof (writeFile_outcome (Path.join dir name) text w1) as Hw.
  destruct (Fs.writeFile _ text w1) as [w2 [[]|ex]];
    destruct Hw as (Hc2 & _ & Hf2 & Hw2).
  - cbn [ret]. split; [congruence|]. split.
    + intros k (t & b & H). apply Hf2. exists t, b. apply Hk1, H.
    + intros written Hr. injection Hr as <-. cbn [filename content].
      split; [reflexivity|]. split; [reflexivity|].
      exists text, true. unfold Fs.key in *. rewrite <- Hc1. apply Hw2. reflexivity.
  - split; [congruence|]. split; [|discriminate].
    intros k (t & b & H). apply Hf2. exists t, b. apply Hk1, H.
Qed.

Lemma applyFixes_outcome dir files : forall w,
  let '(w', r) := applyFixes dir files w in
  cwd w' = cwd w /\
  (forall k, isFileAt (fs w) k -> isFileAt (fs w') k) /\
  (forall written,
      r = Ret written ->
      forall file, In file files ->
        exists name text,
          Json.get "filename" file = Some (Json.JStr name) /\
          Json.get "content" file = Some (Json.JStr text) /\
          isFileAt (fs w') (Fs.key w (Path.join dir name))).
Proof.
  induction files as [|file files IH]; intros w.
  - cbn. repeat split; auto. intros written _ file [].
  - rewrite applyFixes_cons.
    pose proof (applyFix_outcome dir file w) as H1.
    destruct (applyFix dir file w) as [w1 [written1|ex]].
    2:{ destruct H1 as (Hc & Hf & _). split; [exact Hc|]. split; [exact Hf | discriminate]. }
    destruct H1 as (Hc1 & Hf1 & Hr1). specialize (Hr1 written1 eq_refl).
    specialize (IH w1). destruct (applyFixes dir files w1) as [w2 [rest|ex]];
      destruct IH as (Hc2 & Hf2 & Hr2).
    + split; [congruence|]. split; [auto|].
      intros written _ f [<-|Hin].
      * destruct Hr1 as (Hn & Ht & Hfile). eexists _, _. split; [exact Hn|]. split; [exact Ht|].
        apply Hf2, Hfile.
      * destruct (Hr2 rest eq_refl f Hin) as (name & text & Hn & Ht & Hfile).
        exists name, text. split; [exact Hn|]. split; [exact Ht|].
        unfold Fs.key in *. rewrite <- Hc1. exact Hfile.
    + split; [congruence|]. split; [auto | discriminate].
Qed.

Lemma listed_insert (m : gmap string bool) k name :
  listed (<[k := true]> m) name = true <-> k = name \/ listed m name = true.
Proof.
  unfold listed. destruct (decide (k = name)) as [->|Hne].
  - rewrite lookup_insert_eq. tauto.
  - rewrite lookup_insert_ne by exact Hne. split; [auto|]. intros [H|H]; [contradiction | exact H].
Qed.

(** The names that [fileMap] holds are those of the generated files. *)
Lemma fileMapFrom_listed files : forall m0 m name,
  fileMapFrom m0 files = Ret m ->
  (listed m name = true <-> listed m0 name = true \/ In name (generatedNames files)).
Proof.
  induction files as [|file files IH]; intros m0 m name H.
  - injection H as <-. cbn. tauto.
  - assert (fileMapFrom (<[propertyKey (Json.get "filename" file) := true]> m0) files = Ret m)
      as H' by (destruct file; first [discriminate H | exact H]).
    rewrite (IH _ _ name H'), listed_insert. cbn [generatedNames map In].
    fold (generatedNames files). tauto.
Qed.

Lemma essential_segmentName name text : In (name, text) essentialFiles -> segmentName name.
Proof.
  intros [H|[H|[H|[H|[]]]]]; injection H as <- _; repeat split; discriminate.
Qed.

(** What one of the four blocks of [ensureEssentialFiles] does. *)
Lemma writeDefault_outcome outputDir m name text w :
  let '(w', r) := writeDefault outputDir m name text w in
  cwd w' = cwd w /\
  (forall k, k <> Fs.key w (Path.join outputDir name) -> fs w' !! k = fs w !! k) /\
  (forall k, isFileAt (fs w) k -> isFileAt (fs w') k) /\
  (listed m name = true -> w' = w) /\
  (listed m name = false -> r = Ret tt ->
   fs w' !! Fs.key w (Path.join outputDir name) = Some (File text true)).
Proof.
  unfold writeDefault. destruct (listed m name).
  - cbn. repeat split; auto. discriminate.
  - pose proof (writeFile_outcome (Path.join outputDir name) text w) as H.
    destruct (Fs.writeFile _ text w) as [w' r]. destruct H as (Hc & Hk & Hf & Hr).
    repeat split; auto. discriminate.
Qed.

(** The four blocks of [ensureEssentialFiles], one after the other. *)
Lemma ensureEssentialFiles_blocks outputDir files w :
  ensureEssentialFiles outputDir files w =
  match fileMapFrom ∅ files with
  | Throw ex => (w, Throw ex)
  | Ret fileMap =>
      forEach essentialFiles
        (fun entry => writeDefault outputDir fileMap (fst entry) (snd entry)) w
  end.
Proof.
  unfold ensureEssentialFiles. destruct (fileMapFrom ∅ files) as [m|ex]; [|reflexivity].
  unfold essentialFiles. cbn [forEach fst snd]. unfold bind.
  destruct (writeDefault outputDir m "package.json" _ w) as [w1 [[]|ex1]]; [|reflexivity].
  destruct (writeDefault outputDir m "tsconfig.json" _ w1) as [w2 [[]|ex2]]; [|reflexivity].
  destruct (writeDefault outputDir m "cdk.json" _ w2) as [w3 [[]|ex3]]; [|reflexivity].
  destruct (writeDefault outputDir m ".gitignore" _ w3) as [w4 [[]|ex4]]; reflexivity.
Qed.

Lemma writeDefaults_outcome outputDir m (entries : list (string * string)) :
  (forall name text, In (name, text) entries -> segmentName name) ->
  NoDup (map fst entries) ->
  forall w,
  let '(w', r) :=
    forEach entries (fun entry => writeDefault outputDir m (fst entry) (snd entry)) w in
  cwd w' = cwd w /\
  (forall k, (forall name text, In (name, text) entries ->
                                k <> Fs.key w (Path.join outputDir name)) ->
             fs w' !! k = fs w !! k) /\
  (forall k, isFileAt (fs w) k -> isFileAt (fs w') k) /\
  (forall name text, In (name, text) entries -> listed m name = true ->
                     fs w' !! Fs.key w (Path.join outputDir name) =
                     fs w !! Fs.key w (Path.join outputDir name)) /\
  (r = Ret tt ->
   forall name text, In (name, text) entries -> listed m name = false ->
                     fs w' !! Fs.key w (Path.join outputDir name) = Some (File text true)).
Proof.
  induction entries as [|[name text] entries IH]; intros Hseg Hnd w.
  - cbn. repeat split; auto; intros; contradiction.
  - cbn [forEach fst snd]. unfold bind at 1.
    pose proof (writeDefault_outcome outputDir m name text w) as H1.
    destruct (writeDefault outputDir m name text w) as [w1 r1].
    destruct H1 as (C1 & K1 & F1 & L1 & D1).
    cbn [map fst] in Hnd. apply NoDup_cons in Hnd as [Hnotin Hnd].
    assert (forall name' text', In (name', text') entries ->
                                Fs.key w (Path.join outputDir name') <>
                                Fs.key w (Path.join outputDir name)) as Hother.
    { intros name' text' Hin Heq. apply Hnotin.
      apply key_join_injective in Heq;
        [|apply (Hseg name' text'); right; exact Hin | apply (Hseg name text); left; reflexivity].
      subst name'. apply list_elem_of_In. apply (in_map fst entries (name, text') Hin). }
    assert (forall p, Fs.key w1 p = Fs.key w p) as Hkey
        by (intros p; unfold Fs.key; rewrite C1; reflexivity).
    destruct r1 as [[]|ex1].
    + specialize (IH (fun n t H => Hseg n t (or_intror H)) Hnd w1).
      destruct (forEach entries _ w1) as [w' r].
      destruct IH as (C2 & K2 & F2 & L2 & D2).
      split; [congruence|]. split; [|split; [|split]].
      * intros k Hk. rewrite K2, K1; [reflexivity | |].
        -- apply (Hk name text). left. reflexivity.
        -- intros n t Hin. rewrite Hkey. apply (Hk n t). right. exact Hin.
      * auto.
      * intros n t [Heq|Hin] Hl.
        -- injection Heq as <- <-. rewrite K2.
           ++ rewrite (L1 Hl). reflexivity.
           ++ intros n' t' Hin'. rewrite Hkey. intros Heq. symmetry in Heq.
              exact (Hother n' t' Hin' Heq).
        -- rewrite <- Hkey, (L2 n t Hin Hl), Hkey. apply K1. apply (Hother n t Hin).
      * intros Hr n t [Heq|Hin] Hl.
        -- injection Heq as <- <-. rewrite K2; [apply (D1 Hl eq_refl)|].
           intros n' t' Hin'. rewrite Hkey. intros Heq. symmetry in Heq.
           exact (Hother n' t' Hin' Heq).
        -- rewrite <- Hkey. apply (D2 Hr n t Hin Hl).
    + split; [exact C1|]. split; [|split; [|split]].
      * intros k Hk. apply K1. apply (Hk name text). left. reflexivity.
      * exact F1.
      * intros n t [Heq|Hin] Hl.
        -- injection Heq as <- <-. rewrite (L1 Hl). reflexivity.
        -- apply K1. apply (Hother n t Hin).
      * discriminate.
Qed.

Lemma essentialFiles_distinct : NoDup (map fst essentialFiles).
Proof.
  unfold essentialFiles. cbn [map fst].
  repeat (apply NoDup_cons_2;
          [rewrite list_elem_of_In; cbn [In]; intros H;
           repeat (destruct H as [H|H]; [discriminate H|]); exact H|]).
  apply NoDup_nil_2.
Qed.

Lemma createCdkProject_outcome outputDir files w :
  let '(w', r) := createCdkProject outputDir files w in
  r = Ret tt ->
  (forall file, In file files ->
     exists name text,
       Json.get "filename" file = Some (Json.JStr name) /\
       Json.get "content" file = Some (Json.JStr text) /\
       isFileAt (fs w') (Fs.key w (Path.join outputDir name))) /\
  (forall name text, In (name, text) essentialFiles ->
     isFileAt (fs w') (Fs.key w (Path.join outputDir name)) /\
     (~ In name (generatedNames files) ->
      fs w' !! Fs.key w (Path.join outputDir name) = Some (File text true))).
Proof.
  unfold createCdkProject, bind at 1.
  pose proof (mkdirRecursive_outcome outputDir w) as H1.
  destruct (Fs.mkdirRecursive outputDir w) as [w1 [[]|ex1]]; [|discriminate].
  destruct H1 as [C1 _].
  assert (forall p, Fs.key w1 p = Fs.key w p) as Hkey1
      by (intros p; unfold Fs.key; rewrite C1; reflexivity).
  unfold bind at 1.
  pose proof (applyFixes_outcome outputDir files w1) as H2.
  destruct (applyFixes outputDir files w1) as [w2 [written|ex2]]; [|discriminate].
  destruct H2 as (C2 & _ & R2). specialize (R2 written eq_refl).
  assert (forall p, Fs.key w2 p = Fs.key w p) as Hkey2
      by (intros p; unfold Fs.key; rewrite C2, C1; reflexivity).
  pose proof (ensureEssentialFiles_blocks outputDir files w2) as Hblocks.
  destruct (fileMapFrom ∅ files) as [m|ex] eqn:Hm.
  2:{ rewrite Hblocks. discriminate. }
  assert (forall name, listed m name = true <-> In name (generatedNames files)) as Hl.
  { intros name. rewrite (fileMapFrom_listed files ∅ m name Hm).
    unfold listed at 1. rewrite lookup_empty. split; [intros [H|H]; [discriminate | exact H] | auto]. }
  pose proof (writeDefaults_outcome outputDir m essentialFiles essential_segmentName
                essentialFiles_distinct w2) as H3.
  rewrite Hblocks. destruct (forEach essentialFiles _ w2) as [w3 r3].
  destruct H3 as (C3 & K3 & F3 & L3 & D3).
  intros Hr. split.
  - intros file Hin. destruct (R2 file Hin) as (name & text & Hn & Ht & Hfile).
    exists name, text. split; [exact Hn|]. split; [exact Ht|].
    rewrite <- Hkey1. apply F3, Hfile.
  - intros name text Hin.
    destruct (listed m name) eqn:Hlm.
    + split; [|intros Hgen; exfalso; apply Hgen, Hl, Hlm].
      apply Hl in Hlm. unfold generatedNames in Hlm. apply in_map_iff in Hlm.
      destruct Hlm as (file & Hkeyname & Hfile).
      destruct (R2 file Hfile) as (fname & ftext & Hn & _ & Hisfile).
      rewrite Hn in Hkeyname. cbn in Hkeyname. subst fname.
      rewrite <- Hkey1. apply F3, Hisfile.
    + rewrite <- Hkey2. pose proof (D3 Hr name text Hin Hlm) as Hd. split.
      * exists text, true. exact Hd.
      * intros _. exact Hd.
Qed.


End Generator.

(** X8.  [ensureEssentialFiles] touches no entry of the file system but
    [package.json], [tsconfig.json], [cdk.json] and [.gitignore] in the
    output directory; it leaves alone each of them that a generated file
    has as its name, and, when it returns, each of the others holds its
    default text. *)
Theorem ensureEssentialFiles_provides_defaults outputDir files w :
  let run := PlantUml.ensureEssentialFiles outputDir files w in
  cwd (fst run) = cwd w /\
  (forall k,
      (forall name text, In (name, text) essentialFiles ->
                         k <> Fs.key w (Path.join outputDir name)) ->
      fs (fst run) !! k = fs w !! k) /\
  (forall name text,
      In (name, text) essentialFiles -> In name (generatedNames files) ->
      fs (fst run) !! Fs.key w (Path.join outputDir name) =
      fs w !! Fs.key w (Path.join outputDir name)) /\
  (snd run = Ret tt ->
   forall name text,
     In (name, text) essentialFiles -> ~ In name (generatedNames files) ->
     fs (fst run) !! Fs.key w (Path.join outputDir name) = Some (File text true)).
Proof.
  intros run. subst run. rewrite ensureEssentialFiles_blocks.
  destruct (PlantUml.fileMapFrom ∅ files) as [m|ex] eqn:Hm.
  2:{ cbn [fst snd]. repeat split; auto. discriminate. }
  assert (forall name, PlantUml.listed m name = true <-> In name (generatedNames files)) as Hl.
  { intros name. rewrite (fileMapFrom_listed files ∅ m name Hm).
    unfold PlantUml.listed at 1. rewrite lookup_empty. split; [intros [H|H]; [discriminate | exact H] | auto]. }
  pose proof (writeDefaults_outcome outputDir m essentialFiles essential_segmentName
                essentialFiles_distinct w) as H.
  destruct (forEach essentialFiles _ w) as [w' r]. cbn [fst snd].
  destruct H as (C & K & _ & L & D).
  split; [exact C|]. split; [exact K|]. split.
  - intros name text Hin Hgen. apply (L name text Hin). apply Hl, Hgen.
  - intros Hr name text Hin Hgen. apply (D Hr name text Hin).
    destruct (PlantUml.listed m name) eqn:Hlm; [|reflexivity].
    exfalso. apply Hgen, Hl, Hlm.
Qed.

(** X9.  When [createCdkProject] returns, every generated file is a file
    of the output directory, and so are [package.json], [tsconfig.json],
    [cdk.json] and [.gitignore]; each of these four that no generated file
    has as its name holds its default text, even when a generated file was
    written to the same place under another name, such as
    [./package.json]. *)
Theorem createCdkProject_leaves_essential_files outputDir files w :
  snd (PlantUml.createCdkProject outputDir files w) = Ret tt ->
  let w' := fst (PlantUml.createCdkProject outputDir files w) in
  (forall file, In file files ->
     exists name text,
       Json.get "filename" file = Some (Json.JStr name) /\
       Json.get "content" file = Some (Json.JStr text) /\
       isFileAt (fs w') (Fs.key w (Path.join outputDir name))) /\
  (forall name text, In (name, text) essentialFiles ->
     isFileAt (fs w') (Fs.key w (Path.join outputDir name)) /\
     (~ In name (generatedNames files) ->
      fs w' !! Fs.key w (Path.join outputDir name) = Some (File text true))).
Proof.
  pose proof (createCdkProject_outcome outputDir files w) as H.
  destruct (PlantUml.createCdkProject outputDir files w) as [w' r]. exact H.
Qed.

Lemma createCdkProject_leaves_essential_files_witness :
  snd SamplePlantUml.created = Ret tt /\
  ~ In "package.json" (generatedNames SamplePlantUml.files) /\
  fs (fst SamplePlantUml.created) !! "/out/package.json" =
    Some (File (Json.stringify PlantUml.packageJson) true) /\
  fs (fst SamplePlantUml.created) !! "/out/package.json" <> Some (File "GENERATED" true).
Proof.
  assert (snd SamplePlantUml.created = Ret tt) as Hr by (vm_compute; reflexivity).
  assert (~ In "package.json" (generatedNames SamplePlantUml.files)) as Hgen.
  { cbn. intros [H|[H|[]]]; discriminate H. }
  split; [exact Hr|]. split; [exact Hgen|].
  destruct (createCdkProject_leaves_essential_files "/out" SamplePlantUml.files
              SamplePlantUml.emptyWorld Hr) as [_ Hess].
  destruct (Hess "package.json" (Json.stringify PlantUml.packageJson)
              ltac:(left; reflexivity)) as [_ Hdefault].
  specialize (Hdefault Hgen).
  change (Fs.key SamplePlantUml.emptyWorld (Path.join "/out" "package.json"))
    with "/out/package.json" in Hdefault.
  split; [exact Hdefault|].
  unfold SamplePlantUml.created. rewrite Hdefault. intros H. injection H as H.
  vm_compute in H. discriminate H.
Defined.

(** ** The reply of the project generator *)

Section GeneratedCode.

Import PlantUml.

(** The elements of an array are read into an array. *)
Lemma parseElements_array fuel : forall n s acc v rest,
  (fix elements (n : nat) (s : string) (acc : list Json.json)
     : option (Json.json * string) :=
     match n with
     | O => None
     | S n' =>
         match Json.parseValue fuel s with
         | Some (v, rest) =>
             match Json.skipWs rest with
             | String "," rest' => elements n' rest' (v :: acc)
             | String "]" rest' => Some (Json.JArr (rev (v :: acc)), rest')
             | _ => None
             end
         | None => None
         end
     end) n s acc = Some (v, rest) ->
  exists items, v = Json.JArr items.
Proof.
  induction n as [|n IH]; intros s acc v rest; [discriminate|].
  destruct (Json.parseValue fuel s) as [[v1 rest1]|]; [|discriminate].
  destruct (Json.skipWs rest1) as [|c rest2]; [discriminate|].
  destruct (Ascii.eqb_spec c ",") as [->|Hcomma].
  - apply IH.
  - destruct (Ascii.eqb_spec c "]") as [->|Hclose].
    + intros H. injection H as <- _. eauto.
    + intros H. exfalso.
      destruct c as [[|] [|] [|] [|] [|] [|] [|] [|]];
        first [discriminate H | apply Hcomma; reflexivity | apply Hclose; reflexivity].
Qed.

(** A text that starts with [[] parses as an array, if it parses. *)
Lemma parse_array s v : Json.parse (String "[" s) = Some v -> exists items, v = Json.JArr items.
Proof.
  unfold Json.parse.
  destruct (Json.parseValue (S (String.length (String "[" s))) (String "[" s))
    as [[v1 rest]|] eqn:Hp; [|discriminate].
  intros H. destruct (String.eqb (Json.skipWs rest) ""); [|discriminate]. injection H as <-.
  cbn [Json.parseValue] in Hp.
  change (Json.skipWs (String "[" s)) with (String "[" s) in Hp. cbv iota beta in Hp.
  destruct (Json.skipWs s) as [|c s1] eqn:Hs.
  - apply parseElements_array in Hp. exact Hp.
  - destruct (Ascii.eqb_spec c "]") as [->|Hne].
    + injection Hp as <- _. eauto.
    + assert (forall (X : Type) (a b : X),
                 match c with
                 | "]"%char => a
                 | _ => b
                 end = b) as Hc.
      { intros X a b. destruct c as [[|] [|] [|] [|] [|] [|] [|] [|]];
          first [reflexivity | exfalso; apply Hne; reflexivity]. }
      rewrite Hc in Hp. apply parseElements_array in Hp. exact Hp.
Qed.

End GeneratedCode.

(** X10.  [generateCdkCode] throws at once when no API key is set.  With
    a key it sends one request and changes nothing else; it returns only a
    JSON array, the one that the text from the first [[] of the reply to
    its last []] parses to, and it throws [Failed to generate CDK code] when
    the request fails, when the reply has no such text, and when that text
    is not JSON. *)
Theorem generateCdkCode_outcomes e plantUmlContent contextContent w :
  let run := PlantUml.generateCdkCode e plantUmlContent contextContent w in
  let prompt := PlantUml.buildPrompt plantUmlContent contextContent in
  (keyConfigured e = false ->
   run = (w, Throw (Error "Anthropic API key is not set. Please set the ANTHROPIC_API_KEY environment variable."))) /\
  (keyConfigured e = true ->
   fst run = tick w /\
   match postMessage e (ticks w) prompt with
   | PostFail _ _ => snd run = Throw PlantUml.failedToGenerate
   | PostOk text =>
       match PlantUml.jsonMatch text with
       | None => snd run = Throw PlantUml.failedToGenerate
       | Some fragment =>
           match Json.parse fragment with
           | None => snd run = Throw PlantUml.failedToGenerate
           | Some files => snd run = Ret files /\ exists items, files = Json.JArr items
           end
       end
   end) /\
  (forall text fragment,
      PlantUml.jsonMatch text = Some fragment <->
      exists a b c,
        text = a +:+ fragment +:+ c /\ fragment = "[" +:+ b +:+ "]" /\
        without "[" a /\ without "]" c).
Proof.
  intros run prompt. subst run. unfold PlantUml.generateCdkCode.
  split; [intros ->; reflexivity|]. split.
  - intros ->. cbn [negb]. fold prompt. unfold tryCatch, bind, postPrompt.
    destruct (postMessage e (ticks w) prompt) as [text|m data]; [|split; reflexivity].
    destruct (PlantUml.jsonMatch text) as [fragment|] eqn:Hmatch; [|split; reflexivity].
    destruct (Json.parse fragment) as [files|] eqn:Hparse; [|split; reflexivity].
    split; [reflexivity|]. split; [reflexivity|].
    unfold PlantUml.jsonMatch in Hmatch. change PlantUml.jsonArrayPattern with (spanPattern "[" "]") in Hmatch.
    destruct (Regex.search (spanPattern "[" "]") text) as [m|] eqn:Hs; [|discriminate].
    injection Hmatch as <-. apply search_span in Hs.
    destruct Hs as (a & b & c & _ & _ & _ & ->). cbn [Regex.whole] in Hparse.
    apply (parse_array _ _ Hparse).
  - intros text fragment. unfold PlantUml.jsonMatch.
    change PlantUml.jsonArrayPattern with (spanPattern "[" "]").
    change "[" with (Str.single "["). change "]" with (Str.single "]").
    split.
    + destruct (Regex.search (spanPattern "[" "]") text) as [m|] eqn:Hs; [|discriminate].
      intros H. injection H as <-.
      apply search_span in Hs. destruct Hs as (a & b & c & -> & Ha & Hc & ->).
      exists a, b, c. cbn [Regex.whole]. rewrite span_whole, span_text. auto.
    + intros (a & b & c & -> & -> & Ha & Hc).
      assert (Regex.search (spanPattern "[" "]")
                (a +:+ (Str.single "[" +:+ b +:+ Str.single "]") +:+ c) =
              Some (Regex.Found (String "[" (b +:+ String "]" "")) None c)) as ->;
        [|cbn [Regex.whole]; rewrite span_whole; reflexivity].
      apply search_span. exists a, b, c. rewrite span_text. auto.
Qed.

(** ** The components of an error *)

Section Components.

Import FixRegistry.

Lemma existsb_eqb x l : existsb (String.eqb x) l = true <-> In x l.
Proof.
  rewrite existsb_exists. split.
  - intros (y & Hin & Heq). apply String.eqb_eq in Heq. subst y. exact Hin.
  - intros Hin. exists x. split; [exact Hin | apply String.eqb_refl].
Qed.

Lemma add_In x y l : In y (add x l) <-> In y l \/ y = x.
Proof.
  unfold add. destruct (existsb (String.eqb x) l) eqn:He.
  - apply existsb_eqb in He. split; [auto|]. intros [H| ->]; assumption.
  - rewrite in_app_iff. cbn. split; intros [H|H]; auto.
    + destruct H as [<-|[]]. auto.
Qed.

Lemma add_NoDup x l : NoDup l -> NoDup (add x l).
Proof.
  intros Hnd. unfold add. destruct (existsb (String.eqb x) l) eqn:He; [exact Hnd|].
  apply NoDup_app. split; [exact Hnd|]. split; [|apply NoDup_singleton].
  intros y Hy Hx. apply list_elem_of_singleton in Hx. subst y.
  apply list_elem_of_In, existsb_eqb in Hy. congruence.
Qed.

(** A loop that adds the value of each item that passes a test. *)
Lemma fold_add {A : Type} (test : A -> bool) (value : A -> string) items : forall acc,
  let result :=
    fold_left (fun components item =>
                 if test item then add (value item) components else components)
              items acc in
  (NoDup acc -> NoDup result) /\
  (forall y, In y result <->
             In y acc \/ exists item, In item items /\ test item = true /\ value item = y).
Proof.
  induction items as [|item items IH]; intros acc; cbn [fold_left].
  - split; [auto|]. intros y. split; [auto|]. intros [H|(item & [] & _)]. exact H.
  - specialize (IH (if test item then add (value item) acc else acc)).
    destruct IH as [Hnd Hin]. split.
    + intros H. apply Hnd. destruct (test item); [apply add_NoDup, H | exact H].
    + intros y. rewrite Hin. destruct (test item) eqn:Ht.
      * rewrite add_In. split.
        -- intros [[H| ->]|(i & Hi & Hti & Hv)]; [auto | right | right].
           ++ exists item. cbn. auto.
           ++ exists i. cbn. auto.
        -- intros [H|(i & [<-|Hi] & Hti & Hv)]; [auto | auto | right].
           exists i. auto.
      * split.
        -- intros [H|(i & Hi & Hti & Hv)]; [auto | right]. exists i. cbn. auto.
        -- intros [H|(i & [<-|Hi] & Hti & Hv)]; [auto | congruence | right].
           exists i. auto.
Qed.

Lemma startsWith_toLowerCase s x :
  Str.startsWith s x = true -> Str.startsWith (toLowerCase s) (toLowerCase x) = true.
Proof.
  revert s. induction x as [|c x IH]; intros s; [intros _; apply startsWith_nil|].
  destruct s as [|d s]; [discriminate|]. cbn [Str.startsWith toLowerCase].
  destruct (Ascii.eqb_spec c d) as [->|]; [|discriminate].
  rewrite Ascii.eqb_refl. apply IH.
Qed.

(** A text that holds a string holds it in small letters too. *)
Lemma includes_toLowerCase s x :
  Str.includes s x = true -> Str.includes (toLowerCase s) (toLowerCase x) = true.
Proof.
  induction s as [|c s IH]; cbn [Str.includes toLowerCase].
  - rewrite !orb_false_r. apply (startsWith_toLowerCase "" x).
  - intros H. apply orb_true_iff in H as [H|H]; apply orb_true_iff.
    + left. apply (startsWith_toLowerCase (String c s) x H).
    + right. apply IH, H.
Qed.

Lemma cdkPatterns_common pattern component :
  In (pattern, component) cdkPatterns -> In component commonComponents.
Proof.
  unfold cdkPatterns, commonComponents. cbn [In].
  intros H. repeat (destruct H as [H|H]; [injection H as _ <-; auto 20|]). destruct H.
Qed.

End Components.

(** X11.  The components that [extractComponentsFromError] finds in an
    error are components of its list, each of them once; a component is
    found exactly when the text of the error holds its name, in capital or
    small letters, or holds one of the words that stand for it. *)
Theorem extractComponentsFromError_finds error :
  let components := FixRegistry.extractComponentsFromError error in
  let errorText := FixRegistry.componentsText error in
  NoDup components /\
  (forall component, In component components -> In component FixRegistry.commonComponents) /\
  (forall component,
      In component components <->
      (In component FixRegistry.commonComponents /\
       Str.includes (FixRegistry.toLowerCase errorText)
                    (FixRegistry.toLowerCase component) = true) \/
      (exists word,
          In (word, component) FixRegistry.cdkPatterns /\
          Str.includes errorText word = true)).
Proof.
  intros components errorText. subst components. unfold FixRegistry.extractComponentsFromError.
  fold errorText. cbv zeta.
  pose proof (fold_add (fun component =>
                          Str.includes errorText component ||
                          Str.includes (FixRegistry.toLowerCase errorText)
                                       (FixRegistry.toLowerCase component))
                       (fun component => component) FixRegistry.commonComponents []) as [Hnd1 Hin1].
  set (named := fold_left _ FixRegistry.commonComponents []) in *.
  pose proof (fold_add (fun entry : string * string => Str.includes errorText (fst entry))
                       snd FixRegistry.cdkPatterns named) as [Hnd2 Hin2].
  set (result := fold_left _ FixRegistry.cdkPatterns named) in *.
  assert (forall component,
             In component result <->
             (In component FixRegistry.commonComponents /\
              Str.includes (FixRegistry.toLowerCase errorText)
                           (FixRegistry.toLowerCase component) = true) \/
             (exists word,
                 In (word, component) FixRegistry.cdkPatterns /\
                 Str.includes errorText word = true)) as Hchar.
  { intros component. rewrite Hin2, Hin1. split.
    - intros [[[]|(c & Hc & Ht & <-)]|([word c] & Hc & Ht & <-)].
      + left. split; [exact Hc|]. apply orb_true_iff in Ht as [Ht|Ht]; [|exact Ht].
        apply includes_toLowerCase, Ht.
      + right. exists word. auto.
    - intros [[Hc Ht]|(word & Hc & Ht)].
      + left. right. exists component. split; [exact Hc|]. split; [|reflexivity].
        rewrite Ht. apply orb_true_r.
      + right. exists (word, component). auto. }
  split; [apply Hnd2, Hnd1, NoDup_nil_2|]. split; [|exact Hchar].
  intros component Hin. apply Hchar in Hin as [[Hc _]|(word & Hc & _)]; [exact Hc|].
  apply (cdkPatterns_common word component Hc).
Qed.

(** ** The pattern of an error *)

Section Matching.

#[local] Arguments String.append _ _ : simpl nomatch.

(** A literal matches the text that starts with it. *)
Lemma rmatch_lit {R : Type} p : forall s cap (k : string -> option string -> option R),
  Regex.rmatch (Regex.lit p) s cap k =
  if Str.startsWith s p then k (Str.drop (String.length p) s) cap else None.
Proof.
  induction p as [|c p IH]; intros s cap k.
  - cbn. destruct s; reflexivity.
  - destruct p as [|c' p].
    + destruct s as [|d s]; [reflexivity|].
      cbn [Regex.lit Regex.rmatch Str.startsWith String.length Str.drop]. unfold Regex.only.
      destruct (Ascii.eqb c d); [|reflexivity].
      rewrite startsWith_nil. reflexivity.
    + change (Regex.lit (String c (String c' p)))
        with (Regex.Seq (Regex.Chr (Regex.only c)) (Regex.lit (String c' p))).
      cbn [Regex.rmatch]. destruct s as [|d s]; [reflexivity|].
      unfold Regex.only at 1. cbn [Str.startsWith].
      destruct (Ascii.eqb c d); [|reflexivity].
      rewrite IH. reflexivity.
Qed.

Lemma skipClass_length q s : (String.length (skipClass q s) <= String.length s)%nat.
Proof.
  induction s as [|c s IH]; cbn [skipClass]; [lia|].
  destruct (q c); cbn [String.length]; lia.
Qed.

(** The loop of [[q]*] before a rest of the pattern that always matches:
    it takes all the characters of the class. *)
Lemma star_class {R : Type} (q : ascii -> bool) (k : string -> option string -> option R) cap fuel :
  (forall s, k s cap <> None) ->
  forall s, (String.length s <= fuel)%nat ->
  (fix star (fuel : nat) (s : string) (cap : option string) {struct fuel} : option R :=
     match fuel with
     | O => k s cap
     | S fuel' =>
         match Regex.rmatch (Regex.Chr q) s cap
                 (fun s' cap' =>
                    if (String.length s' <? String.length s)%nat
                    then star fuel' s' cap' else None) with
         | Some x => Some x
         | None => k s cap
         end
     end) fuel s cap = k (skipClass q s) cap.
Proof.
  intros Hk. induction fuel as [|fuel IH]; intros s Hlen.
  - destruct s as [|c s]; [reflexivity | cbn in Hlen; lia].
  - destruct s as [|c s]; [reflexivity|].
    cbn [Regex.rmatch skipClass]. destruct (q c); [|reflexivity].
    replace (String.length s <? String.length (String c s))%nat with true
      by (symmetry; apply Nat.ltb_lt; cbn; lia).
    cbn in Hlen. pose proof (IH s ltac:(lia)) as IHs.
    match goal with
    | |- match ?m with _ => _ end = _ => assert (m = k (skipClass q s) cap) as -> by exact IHs
    end.
    destruct (k (skipClass q s) cap) eqn:Hks; [reflexivity|].
    exfalso. exact (Hk _ Hks).
Qed.

(** A match of [p([q]+)] at the start of [s], for a literal [p]. *)
Lemma matchHere_lit_group p q s :
  Regex.matchHere (Regex.Seq (Regex.lit p) (Regex.Group (Regex.Plus (Regex.Chr q)))) s =
  if Str.startsWith s p then
    match Str.drop (String.length p) s with
    | String c s2 =>
        if q c then
          Some (Regex.Found (Regex.consumed s (skipClass q s2))
                            (Some (Regex.consumed (String c s2) (skipClass q s2)))
                            (skipClass q s2))
        else None
    | EmptyString => None
    end
  else None.
Proof.
  unfold Regex.matchHere. cbn [Regex.rmatch]. rewrite rmatch_lit.
  destruct (Str.startsWith s p); [|reflexivity].
  destruct (Str.drop (String.length p) s) as [|c s2]; [reflexivity|].
  unfold Regex.Plus. cbn [Regex.rmatch]. destruct (q c); [|reflexivity].
  rewrite (star_class q
             (fun s' _ => Some (Regex.Found (Regex.consumed s s')
                                            (Some (Regex.consumed (String c s2) s')) s')));
    [reflexivity | discriminate | lia].
Qed.

Lemma consumed_nonempty c s2 rest :
  (String.length rest <= String.length s2)%nat -> Regex.consumed (String c s2) rest <> "".
Proof.
  intros Hlen. unfold Regex.consumed. cbn [String.length].
  replace (S (String.length s2) - String.length rest)%nat
    with (S (String.length s2 - String.length rest)) by lia.
  discriminate.
Qed.

(** The leftmost match starts somewhere in the text. *)
Lemma search_some r : forall text m,
  Regex.search r text = Some m -> exists n, Regex.matchHere r (Str.drop n text) = Some m.
Proof.
  induction text as [|c text IH]; intros m; cbn [Regex.search].
  - destruct (Regex.matchHere r "") eqn:H; [|discriminate].
    intros Hm. injection Hm as <-. exists 0%nat. exact H.
  - destruct (Regex.matchHere r (String c text)) eqn:H.
    + intros Hm. injection Hm as <-. exists 0%nat. exact H.
    + intros Hm. destruct (IH m Hm) as [n Hn]. exists (S n). exact Hn.
Qed.

(** A match somewhere in the text makes the search succeed. *)
Lemma search_found r : forall text n m,
  Regex.matchHere r (Str.drop n text) = Some m -> exists m', Regex.search r text = Some m'.
Proof.
  induction text as [|c text IH]; intros n m H; cbn [Regex.search].
  - destruct n; cbn in H; rewrite H; eauto.
  - destruct (Regex.matchHere r (String c text)) eqn:H0; [eauto|].
    destruct n as [|n]; [cbn in H; congruence|]. cbn in H. apply (IH n m H).
Qed.

Lemma drop_drop a b s : Str.drop a (Str.drop b s) = Str.drop (b + a) s.
Proof.
  revert s. induction b as [|b IH]; intros s; [reflexivity|].
  destruct s as [|c s]; [destruct a; reflexivity|]. cbn. apply IH.
Qed.

Lemma startsWith_drop a b s :
  Str.startsWith s (a +:+ b) = true -> Str.startsWith (Str.drop (String.length a) s) b = true.
Proof.
  revert s. induction a as [|c a IH]; intros s; [cbn; auto|].
  destruct s as [|d s]; [discriminate|]. cbn [String.append Str.startsWith String.length Str.drop].
  destruct (Ascii.eqb c d); [apply IH | discriminate].
Qed.

End Matching.

Section ErrorPattern.

Import FixRegistry.

(** Where [ValidationError: ...] is found, [Error: ...] is found as well,
    with a group that is not empty. *)
Lemma validationError_is_error text m :
  Regex.search (Regex.Seq (Regex.lit "ValidationError: ")
                          (Regex.Group (Regex.Plus (Regex.Chr notNewline)))) text = Some m ->
  exists m',
    Regex.search (Regex.Seq (Regex.lit "Error: ")
                            (Regex.Group (Regex.Plus (Regex.Chr notNewline)))) text = Some m' /\
    capture m' <> "".
Proof.
  intros Hs. apply search_some in Hs as [n Hn]. rewrite matchHere_lit_group in Hn.
  destruct (Str.startsWith (Str.drop n text) "ValidationError: ") eqn:Hstart; [|discriminate].
  destruct (Str.drop (String.length "ValidationError: ") (Str.drop n text)) as [|c s2] eqn:Hdrop;
    [discriminate|].
  destruct (notNewline c) eqn:Hc; [|discriminate]. clear Hn.
  assert (Str.startsWith (Str.drop 10 (Str.drop n text)) "Error: " = true) as Hstart2
      by exact (startsWith_drop "Validation" "Error: " _ Hstart).
  assert (Str.drop 7 (Str.drop 10 (Str.drop n text)) = String c s2) as Hdrop2
      by (rewrite drop_drop; exact Hdrop).
  assert (exists m1, Regex.matchHere
                       (Regex.Seq (Regex.lit "Error: ")
                                  (Regex.Group (Regex.Plus (Regex.Chr notNewline))))
                       (Str.drop 10 (Str.drop n text)) = Some m1) as [m1 Hm1].
  { rewrite matchHere_lit_group, Hstart2.
    change (String.length "Error: ") with 7%nat. rewrite Hdrop2, Hc. eauto. }
  rewrite drop_drop in Hm1.
  destruct (search_found _ _ _ _ Hm1) as [m' Hm']. exists m'. split; [exact Hm'|].
  apply search_some in Hm' as [n' Hn']. rewrite matchHere_lit_group in Hn'.
  destruct (Str.startsWith (Str.drop n' text) "Error: "); [|discriminate].
  destruct (Str.drop (String.length "Error: ") (Str.drop n' text)) as [|c' s2']; [discriminate|].
  destruct (notNewline c'); [|discriminate]. injection Hn' as <-.
  cbn [capture Regex.group1]. apply consumed_nonempty, skipClass_length.
Qed.

End ErrorPattern.

(** X12.  The pattern for [ValidationError: ...] never decides the result
    of [extractErrorPattern]: the pattern for [Error: ...] stands before it
    and matches wherever it does, so that the loop over the patterns gives
    the same with and without it. *)
Theorem extractErrorPattern_ignores_validationError :
  forall errorText,
    FixRegistry.firstCapture FixRegistry.errorPatterns errorText =
    FixRegistry.firstCapture errorPatternsInUse errorText.
Proof.
  intros errorText. unfold errorPatternsInUse, FixRegistry.errorPatterns.
  cbn [firstn skipn app FixRegistry.firstCapture].
  destruct (Regex.search _ errorText) as [m1|];
    [destruct (String.eqb (capture m1) ""); [|reflexivity]|];
    (destruct (Regex.search _ errorText) as [m2|];
     [destruct (String.eqb (capture m2) ""); [|reflexivity]|]);
    (destruct (Regex.search (Regex.Seq (Regex.lit "Error: ") _) errorText) as [m3|] eqn:H3;
     [destruct (String.eqb_spec (capture m3) "") as [He|]; [|reflexivity]|]);
    (destruct (Regex.search (Regex.Seq (Regex.lit "ValidationError: ") _) errorText)
       as [m4|] eqn:H4; [|reflexivity]);
    exfalso; destruct (validationError_is_error errorText m4 H4) as (m' & Hm' & Hcap);
    rewrite H3 in Hm'; first [discriminate Hm' | injection Hm' as <-; contradiction].
Qed.

Section Trimming.

#[local] Arguments String.append _ _ : simpl nomatch.

Lemma trimStart_trimmed s : trimmedStart (Regex.trimStart s).
Proof.
  induction s as [|c s IH]; cbn [Regex.trimStart]; [exact I|].
  destruct (Regex.space c) eqn:Hc; [exact IH | exact Hc].
Qed.

Lemma mem_trimStart c s : Str.mem c (Regex.trimStart s) = true -> Str.mem c s = true.
Proof.
  induction s as [|d s IH]; cbn [Regex.trimStart]; [auto|].
  destruct (Regex.space d); [|auto]. intros H. cbn [Str.mem]. rewrite (IH H). apply orb_true_r.
Qed.

Lemma mem_rev c s : Str.mem c (String.rev s) = Str.mem c s.
Proof.
  induction s as [|d s IH]; [reflexivity|].
  rewrite rev_cons, mem_append, IH. cbn [Str.mem]. rewrite orb_false_r. apply orb_comm.
Qed.

Lemma mem_trim c s : Str.mem c (Regex.trim s) = true -> Str.mem c s = true.
Proof.
  unfold Regex.trim. rewrite mem_rev. intros H. apply mem_trimStart in H.
  rewrite mem_rev in H. apply mem_trimStart, H.
Qed.

(** White space in front of a text that ends with another character does
    not reach that character. *)
Lemma trimStart_snoc a c :
  Regex.space c = false -> exists y, Regex.trimStart (a +:+ String c "") = y +:+ String c "".
Proof.
  intros Hc. induction a as [|d a IH]; cbn [String.append Regex.trimStart].
  - rewrite Hc. exists "". reflexivity.
  - destruct (Regex.space d); [exact IH|]. exists (String d a). reflexivity.
Qed.

Lemma trim_trimmedStart s : trimmedStart (Regex.trim s).
Proof.
  unfold Regex.trim. pose proof (trimStart_trimmed s) as Ht.
  destruct (Regex.trimStart s) as [|c t]; [exact I|]. cbn in Ht.
  rewrite rev_cons. destruct (trimStart_snoc (String.rev t) c Ht) as [y ->].
  rewrite rev_append. cbn. exact Ht.
Qed.

Lemma trim_trimmedEnd s : trimmedEnd (Regex.trim s).
Proof.
  unfold Regex.trim, trimmedEnd, Str.last_char. rewrite rev_involutive.
  pose proof (trimStart_trimmed (String.rev (Regex.trimStart s))) as H.
  destruct (Regex.trimStart (String.rev (Regex.trimStart s))); exact H.
Qed.

Lemma take_trimmedStart n s : trimmedStart s -> trimmedStart (Str.take n s).
Proof. destruct s as [|c s]; destruct n; cbn; auto. Qed.

Lemma take_length n : forall s, (String.length (Str.take n s) <= n)%nat.
Proof.
  induction n as [|n IH]; intros s; [cbn; lia|].
  destruct s as [|c s]; cbn; [lia|]. specialize (IH s). lia.
Qed.

Lemma mem_take c n : forall s, Str.mem c (Str.take n s) = true -> Str.mem c s = true.
Proof.
  induction n as [|n IH]; intros s; [discriminate|].
  destruct s as [|d s]; [discriminate|]. cbn [Str.take Str.mem].
  intros H. apply orb_true_iff in H as [H|H]; apply orb_true_iff; [left; exact H | right; auto].
Qed.

(** The first piece of a split has no separator. *)
Lemma split_first_without c s : Str.mem c (hd "" (Str.split c s)) = false.
Proof.
  induction s as [|d s IH]; [reflexivity|]. cbn [Str.split].
  destruct (Ascii.eqb_spec d c) as [->|Hne]; [reflexivity|].
  destruct (Str.split c s) as [|p ps]; unfold Str.single; cbn [hd Str.mem] in *.
  - rewrite orb_false_r. apply Ascii.eqb_neq. congruence.
  - rewrite IH, orb_false_r. apply Ascii.eqb_neq. congruence.
Qed.

End Trimming.

(** X13.  The result of [extractErrorPattern] never starts with white
    space.  When one of the patterns matches, the result is the group of
    the match without the white space around it, of whatever length; when
    none does, it is the start of the first line of the text: at most 100
    characters, without a line feed. *)
Theorem extractErrorPattern_result error :
  let result := FixRegistry.extractErrorPattern error in
  trimmedStart result /\
  match FixRegistry.firstCapture FixRegistry.errorPatterns (FixRegistry.patternText error) with
  | Some found => found <> "" /\ result = Regex.trim found /\ trimmedEnd result
  | None =>
      (String.length result <= 100)%nat /\ without (Str.chr 10) result /\
      exists rest, Regex.trim (hd "" (Str.split (Str.chr 10) (FixRegistry.patternText error))) =
                   result +:+ rest
  end.
Proof.
  intros result. subst result. unfold FixRegistry.extractErrorPattern. cbv zeta.
  destruct (FixRegistry.firstCapture FixRegistry.errorPatterns (FixRegistry.patternText error))
    as [found|] eqn:Hfound.
  - split; [apply trim_trimmedStart|]. split; [|split; [reflexivity | apply trim_trimmedEnd]].
    clear -Hfound. revert Hfound. generalize FixRegistry.errorPatterns as ps.
    intros ps. induction ps as [|p ps IH]; cbn [FixRegistry.firstCapture];
      [intros H; discriminate H|].
    destruct (Regex.search p (FixRegistry.patternText error)) as [m|]; [|exact IH].
    destruct (String.eqb_spec (capture m) "") as [|Hne]; [exact IH|].
    intros H. injection H as <-. exact Hne.
  - unfold Str.substring0. split; [apply take_trimmedStart, trim_trimmedStart|].
    split; [apply take_length|]. split.
    + unfold without.
      destruct (Str.mem (Str.chr 10) (Str.take 100 _)) eqn:Hmem; [|reflexivity].
      apply mem_take, mem_trim in Hmem. rewrite split_first_without in Hmem. discriminate.
    + eexists. symmetry. apply take_drop.
Qed.

(** ** The older script: its extractor *)

Section OlderExtractor.

Variable projectDir : string.
Variable origin : string -> Prop.
Variable w0 : world.

Lemma scan_mention p x w :
  scanInvariant origin projectDir w0 x w -> scanInvariant origin projectDir w0 (mention p x) w.
Proof.
  intros (Hw & Hnd & Hfiles & keys & Hk & Hin & Hreads & Hres).
  split; [exact Hw|]. split; [exact Hnd|]. split.
  - intros f Hf. destruct (Hfiles f Hf) as (Hm & Hd & Hc).
    split; [apply elem_of_union_r, Hm | auto].
  - exists keys. split; [exact Hk|]. split; [|split; [exact Hreads | exact Hres]].
    intros k Hkin. apply elem_of_union_r, Hin, Hkin.
Qed.

(** A path that was not mentioned is mentioned and read: the file is
    added when it could be read. *)
Lemma scan_read p x w :
  scanInvariant origin projectDir w0 x w -> p ∉ filesMentioned x -> origin p ->
  let '(w', r) :=
    tryCatch (text <- Fs.readFile (Path.join projectDir p) ;; ret (pushFile p text (mention p x)))
             (fun _ => ret (mention p x)) w in
  exists x', r = Ret x' /\ scanInvariant origin projectDir w0 x' w'.
Proof.
  intros (Hw & Hnd & Hfiles & keys & Hk & Hin & Hreads & Hres) Hfresh Hder.
  assert (NoDup (keys ++ [p])) as Hkeys.
  { apply NoDup_app. split; [exact Hk|]. split; [|apply NoDup_singleton].
    intros q Hq Hq'. apply list_elem_of_In in Hq'. destruct Hq' as [<-|[]].
    apply list_elem_of_In in Hq. apply Hfresh, Hin, Hq. }
  assert (forall k, In k (keys ++ [p]) -> k ∈ {[ p ]} ∪ filesMentioned x) as Hmentioned.
  { intros k Hkin. apply in_app_or in Hkin as [Hkin|[<-|[]]];
      [apply elem_of_union_r, Hin, Hkin | apply elem_of_union_l, elem_of_singleton; reflexivity]. }
  destruct Hw as (Hfs & Hcwd & Hticks & Haud).
  pose proof (readable_frame w w0 (Path.join projectDir p) Hfs Hcwd) as Hreadable.
  unfold readable in Hreadable at 1.
  unfold tryCatch, bind.
  destruct (readFile_spec (Path.join projectDir p) w) as [Hfst Hsnd].
  destruct (Fs.readFile (Path.join projectDir p) w) as [w' [text|ex]]; cbn [fst snd] in *; subst w'.
  - eexists. split; [reflexivity|].
    destruct (Hsnd text eq_refl) as [writable Hfile].
    split; [cbn; auto|]. split; [|split].
    + cbn [pushFile relevantFiles mention]. rewrite map_app. cbn [map rf_path].
      apply NoDup_app. split; [exact Hnd|]. split; [|apply NoDup_singleton].
      intros q Hq Hq'. apply list_elem_of_In in Hq. apply in_map_iff in Hq as (f & <- & Hf).
      apply list_elem_of_In in Hq'. destruct Hq' as [Heq|[]].
      destruct (Hfiles f Hf) as (Hm & _). rewrite <- Heq in Hm. contradiction.
    + cbn [pushFile relevantFiles mention filesMentioned]. intros f Hf.
      apply in_app_or in Hf as [Hf|[<-|[]]].
      * destruct (Hfiles f Hf) as (Hm & Hd & Hc). split; [apply elem_of_union_r, Hm | auto].
      * cbn [rf_path rf_content].
        split; [apply elem_of_union_l, elem_of_singleton; reflexivity|]. split; [exact Hder|].
        exists writable. unfold Fs.key in *. rewrite <- Hfs, <- Hcwd. exact Hfile.
    + exists (keys ++ [p]). split; [exact Hkeys|]. split; [exact Hmentioned|]. split.
      * cbn [reads addRead]. rewrite Hreads, map_app, <- app_assoc. reflexivity.
      * cbn [pushFile relevantFiles mention]. rewrite map_app, List.filter_app, Hres.
        cbn [map rf_path List.filter]. rewrite <- Hreadable. reflexivity.
  - eexists. split; [reflexivity|].
    split; [cbn; auto|]. split; [exact Hnd|]. split.
    + intros f Hf. destruct (Hfiles f Hf) as (Hm & Hd & Hc).
      split; [apply elem_of_union_r, Hm | auto].
    + exists (keys ++ [p]). split; [exact Hkeys|]. split; [exact Hmentioned|]. split.
      * cbn [reads addRead]. rewrite Hreads, map_app, <- app_assoc. reflexivity.
      * cbn [relevantFiles mention]. rewrite List.filter_app, Hres.
        cbn [List.filter]. rewrite <- Hreadable. symmetry. apply app_nil_r.
Qed.

End OlderExtractor.

Section OlderVisits.

Variable projectDir : string.
Variable found : list string.
Variable w0 : world.

Lemma scan_visit c x w :
  scanInvariant (takenFrom (cwd w0) projectDir found) projectDir w0 x w -> In c found ->
  let '(w', r) := FixCdkErrors.visit projectDir x c w in
  exists x', r = Ret x' /\ scanInvariant (takenFrom (cwd w0) projectDir found) projectDir w0 x' w'.
Proof.
  intros Hinv Hc. unfold FixCdkErrors.visit.
  destruct (skipped c) eqn:Hskip; [eexists; split; [reflexivity | exact Hinv]|].
  unfold bind at 1, getCwd.
  assert (cwd w = cwd w0) as -> by apply Hinv.
  destruct (decide (_ ∈ filesMentioned x)) as [Hseen|Hfresh];
    [eexists; split; [reflexivity | exact Hinv]|].
  apply scan_read; [exact Hinv | exact Hfresh |].
  exists c. auto.
Qed.

Lemma scan_visitAll cs : forall x w,
  scanInvariant (takenFrom (cwd w0) projectDir found) projectDir w0 x w ->
  (forall c, In c cs -> In c found) ->
  let '(w', r) := FixCdkErrors.visitAll projectDir x cs w in
  exists x', r = Ret x' /\ scanInvariant (takenFrom (cwd w0) projectDir found) projectDir w0 x' w'.
Proof.
  induction cs as [|c cs IH]; intros x w Hinv Hsub; cbn [FixCdkErrors.visitAll].
  - eexists. split; [reflexivity | exact Hinv].
  - unfold bind.
    pose proof (scan_visit c x w Hinv (Hsub c (or_introl eq_refl))) as Hv.
    destruct (FixCdkErrors.visit projectDir x c w) as [w1 r1]. destruct Hv as (x1 & -> & Hinv1).
    apply IH; [exact Hinv1|]. intros c' Hc'. apply Hsub. right. exact Hc'.
Qed.

End OlderVisits.

Lemma scanInvariant_start origin projectDir w :
  scanInvariant origin projectDir w (Extraction [] ∅) w.
Proof.
  split; [auto|]. split; [constructor|]. split; [intros f []|].
  exists []. split; [constructor|]. split; [intros k []|].
  split; [|reflexivity]. cbn. rewrite app_nil_r. reflexivity.
Qed.

Lemma relativeToProject_excludes workDir filePath projectDir :
  Str.includes filePath "node_modules" = false ->
  Str.includes (FixCdkErrors.relativeToProject workDir filePath projectDir) "node_modules" = false.
Proof.
  intros H. unfold FixCdkErrors.relativeToProject.
  destruct (Path.isAbsolute filePath) eqn:Habs; [|exact H].
  destruct (Str.startsWith filePath projectDir); [|exact H]. cbn [andb].
  apply relative_excludes; [reflexivity | discriminate | reflexivity | exact Habs | exact H].
Qed.


(** ** The older script: its loop *)

Section OlderSteps.

Variable e : env.
Variables projectDir plantUmlContent : string.

Lemma older_perform_run {A : Type} (m : IO A) s :
  FixCdkErrors.perform m s =
  (FixCdkErrors.MainState (fst (m (FixCdkErrors.ms_world s))) (FixCdkErrors.attempt s)
     (FixCdkErrors.lastError s) (FixCdkErrors.success s) (FixCdkErrors.fixHistory s)
     (FixCdkErrors.events s),
   snd (m (FixCdkErrors.ms_world s))).
Proof. unfold FixCdkErrors.perform. destruct (m (FixCdkErrors.ms_world s)). reflexivity. Qed.

(** What the fix block does to the variables of the loop. *)
Lemma older_fixStep_spec s :
  let '(s', r) := FixCdkErrors.fixStep e projectDir plantUmlContent s in
  r = Ret tt /\ FixCdkErrors.attempt s' = FixCdkErrors.attempt s /\
  FixCdkErrors.lastError s' = FixCdkErrors.lastError s /\
  FixCdkErrors.success s' = FixCdkErrors.success s /\
  match FixCdkErrors.lastError s with
  | None =>
      FixCdkErrors.fixHistory s' = FixCdkErrors.fixHistory s /\
      FixCdkErrors.events s' = FixCdkErrors.events s
  | Some err =>
      let call := FixCdkErrors.fixDeploymentErrors e projectDir plantUmlContent err
                    (FixCdkErrors.fixHistory s) (FixCdkErrors.ms_world s) in
      (exists fixedFiles,
          snd call = Ret fixedFiles /\
          FixCdkErrors.fixHistory s' =
            FixCdkErrors.fixHistory s ++
            [FixCdkErrors.historyEntryOf (FixCdkErrors.attempt s) err fixedFiles] /\
          FixCdkErrors.events s' =
            FixCdkErrors.events s ++ [FixStep (FixCdkErrors.attempt s) true]) \/
      (exists ex,
          snd call = Throw ex /\
          FixCdkErrors.fixHistory s' = FixCdkErrors.fixHistory s /\
          FixCdkErrors.events s' =
            FixCdkErrors.events s ++ [FixStep (FixCdkErrors.attempt s) false])
  end.
Proof.
  unfold FixCdkErrors.fixStep, bind, get.
  destruct (FixCdkErrors.lastError s) as [err|] eqn:Herr.
  - unfold tryCatch, bind. rewrite older_perform_run.
    destruct (FixCdkErrors.fixDeploymentErrors e projectDir plantUmlContent err
                (FixCdkErrors.fixHistory s) (FixCdkErrors.ms_world s))
      as [w' [result|ex]]; cbn; rewrite ?Herr.
    + repeat split; try reflexivity. left. exists result. auto.
    + repeat split; try reflexivity. right. exists ex. auto.
  - cbn. rewrite Herr. repeat split; reflexivity.
Qed.

(** What the deployment block does to them. *)
Lemma older_deployStep_spec s :
  let '(s', r) := FixCdkErrors.deployStep e projectDir s in
  FixCdkErrors.attempt s' = FixCdkErrors.attempt s /\
  FixCdkErrors.fixHistory s' = FixCdkErrors.fixHistory s /\
  ((r = Ret tt /\ FixCdkErrors.success s' = true /\
    FixCdkErrors.lastError s' = FixCdkErrors.lastError s /\
    FixCdkErrors.events s' =
      FixCdkErrors.events s ++ [DeployStep (FixCdkErrors.attempt s) true]) \/
   (FixCdkErrors.success s' = FixCdkErrors.success s /\
    (exists err, FixCdkErrors.lastError s' = Some err) /\
    FixCdkErrors.events s' =
      FixCdkErrors.events s ++ [DeployStep (FixCdkErrors.attempt s) false])).
Proof.
  unfold FixCdkErrors.deployStep, bind, get, tryCatch. rewrite older_perform_run.
  destruct (execPromise e "npm run build && npx cdk synth" (FixCdkErrors.ms_world s))
    as [w2 [[out2 err2]|ex2]]; cbn [fst snd].
  - rewrite older_perform_run; cbn [FixCdkErrors.ms_world].
    destruct (execPromise e "npx cdk deploy --require-approval never" w2)
      as [w3 [[out3 err3]|ex3]]; cbn [fst snd].
    + cbn. repeat split; try reflexivity. left. auto.
    + cbn. rewrite older_perform_run. cbn. repeat split; try reflexivity. right. eauto.
  - cbn. rewrite older_perform_run. cbn. repeat split; try reflexivity. right. eauto.
Qed.

End OlderSteps.

Section OlderLoop.

Variable e : env.
Variables projectDir plantUmlContent : string.
Variable N : Z.

Lemma asNewer_history s :
  Z.of_nat (length (fixHistory (asNewer s))) = Z.of_nat (length (FixCdkErrors.fixHistory s)).
Proof. unfold asNewer. cbn [fixHistory]. rewrite length_map. reflexivity. Qed.

Lemma older_iteration_keeps_invariant s :
  loopInvariant N (asNewer s) -> FixCdkErrors.continues N s = true ->
  match FixCdkErrors.iteration e projectDir plantUmlContent s with
  | (s', Ret _) =>
      loopInvariant N (asNewer s') /\
      (roundsLeft N (asNewer s') < roundsLeft N (asNewer s))%nat
  | (s', Throw _) => stoppedInvariant N (asNewer s')
  end.
Proof.
  intros (Hatt & Hdep & Hfix & Hhist & Hgrown & Hlast) Hcont.
  rewrite asNewer_history in Hhist.
  cbn [asNewer attempt lastError success events] in Hatt, Hdep, Hfix, Hhist, Hgrown, Hlast.
  unfold FixCdkErrors.continues in Hcont. apply andb_true_iff in Hcont as [HltN Hsucc].
  apply Z.ltb_lt in HltN. apply negb_true_iff in Hsucc. rewrite Hsucc in Hlast.
  destruct Hlast as [Hfailed Hlast].
  unfold FixCdkErrors.iteration, bind at 1, get. unfold bind at 1, FixCdkErrors.setAttempt.
  unfold bind at 1.
  pose proof (older_fixStep_spec e projectDir plantUmlContent
                (FixCdkErrors.MainState (FixCdkErrors.ms_world s) (FixCdkErrors.attempt s + 1)
                   (FixCdkErrors.lastError s) (FixCdkErrors.success s)
                   (FixCdkErrors.fixHistory s) (FixCdkErrors.events s)))
    as Hf.
  destruct (FixCdkErrors.fixStep e projectDir plantUmlContent _) as [s3 r3].
  cbn [FixCdkErrors.ms_world FixCdkErrors.attempt FixCdkErrors.lastError FixCdkErrors.success
       FixCdkErrors.fixHistory FixCdkErrors.events] in Hf.
  destruct Hf as (-> & Hatt3 & Herr3 & Hsucc3 & Hf).
  pose proof (older_deployStep_spec e projectDir s3) as Hd.
  destruct (FixCdkErrors.deployStep e projectDir s3) as [s4 r4].
  destruct Hd as (Hatt4 & Hhist4 & Hd).
  rewrite Hatt3 in *. rewrite Hsucc3, Hsucc in Hd.
  set (a := FixCdkErrors.attempt s) in *.
  set (evs := FixCdkErrors.events s) in *.
  assert (Hshape :
            exists fixEvs ok',
              FixCdkErrors.events s4 = evs ++ fixEvs ++ [DeployStep (a + 1) ok'] /\
              grown (FixCdkErrors.events s4) /\
              deploySteps fixEvs = 0%Z /\
              (fixSteps evs + fixSteps fixEvs <= Z.max 0 a)%Z /\
              Z.of_nat (length (FixCdkErrors.fixHistory s4)) =
                (returnedFixSteps evs + returnedFixSteps fixEvs)%Z /\
              allDeploysFailed fixEvs /\
              ((r4 = Ret tt /\ FixCdkErrors.success s4 = true /\ ok' = true) \/
               (FixCdkErrors.success s4 = false /\
                (exists err, FixCdkErrors.lastError s4 = Some err) /\ ok' = false))).
  { destruct (FixCdkErrors.lastError s) as [err|] eqn:Herr.
    - destruct Hlast as (l & n & Hevs).
      assert (1 <= a)%Z as Hone.
      { rewrite <- Hdep, Hevs, deploySteps_app.
        rewrite (proj1 (steps_of_deploy n false)). unfold deploySteps. lia. }
      assert (forall ok ok',
                 FixCdkErrors.events s4 = (evs ++ [FixStep (a + 1) ok]) ++ [DeployStep (a + 1) ok'] ->
                 FixCdkErrors.events s4 = evs ++ [FixStep (a + 1) ok] ++ [DeployStep (a + 1) ok'] /\
                 grown (FixCdkErrors.events s4)) as Hg.
      { intros ok ok' ->. rewrite <- app_assoc. split; [reflexivity|].
        rewrite Hevs. apply grown_fix. rewrite <- Hevs. exact Hgrown. }
      destruct Hf as [(result & _ & Hh3 & He3)|(ex & _ & Hh3 & He3)];
        destruct Hd as [(-> & Hs4 & _ & He4)|(Hs4 & Herr4 & He4)];
        rewrite He3 in He4; apply Hg in He4 as [He4 Hg4];
        eexists _, _; (split; [exact He4|]); (split; [exact Hg4|]);
        rewrite Hhist4, Hh3, ?length_app;
        destruct (steps_of_fix (a + 1) true) as (Ht1 & Ht2 & Ht3);
        destruct (steps_of_fix (a + 1) false) as (Hf1 & Hf2 & Hf3);
        rewrite ?Ht1, ?Ht2, ?Ht3, ?Hf1, ?Hf2, ?Hf3;
        cbn [length];
        (repeat split; try apply allDeploysFailed_fix; try lia; auto).
    - destruct Hf as [Hh3 He3].
      assert (forall ok', FixCdkErrors.events s4 = evs ++ [DeployStep (a + 1) ok'] ->
                          grown (FixCdkErrors.events s4)) as Hg.
      { intros ok' ->. apply grown_deploy. exact Hgrown. }
      destruct Hd as [(-> & Hs4 & _ & He4)|(Hs4 & Herr4 & He4)];
        rewrite He3 in He4; pose proof (Hg _ He4) as Hg4;
        eexists [], _; (split; [exact He4|]); (split; [exact Hg4|]);
        rewrite Hhist4, Hh3;
        destruct steps_of_nil as (Hn1 & Hn2 & Hn3);
        rewrite ?Hn1, ?Hn2, ?Hn3;
        (repeat split; try (intros ? ? []); try lia; auto). }
  destruct Hshape as (fixEvs & ok' & He4 & Hg4 & Hd0 & Hfx & Hh4 & Hff & Hout).
  assert (deploySteps (FixCdkErrors.events s4) = a + 1)%Z as Hdep4.
  { rewrite He4, !deploySteps_app, Hd0, Hdep, (proj1 (steps_of_deploy (a + 1) ok')). lia. }
  assert (fixSteps (FixCdkErrors.events s4) <= Z.max 0 a)%Z as Hfix4.
  { rewrite He4, !fixSteps_app, (proj1 (proj2 (steps_of_deploy (a + 1) ok'))). lia. }
  assert (Z.of_nat (length (fixHistory (asNewer s4))) = returnedFixSteps (FixCdkErrors.events s4))
    as Hret4.
  { rewrite asNewer_history.
    rewrite He4, !returnedFixSteps_app, Hh4, (proj2 (proj2 (steps_of_deploy (a + 1) ok'))). lia. }
  assert (fixSteps (FixCdkErrors.events s4) <= Z.max 0 (a + 1 - 1))%Z as Hfix4'.
  { replace (a + 1 - 1)%Z with a by lia. exact Hfix4. }
  assert (0 <= a + 1 <= Z.max 0 N)%Z as Hatt4' by lia.
  assert (roundsLeft N (asNewer s4) < roundsLeft N (asNewer s))%nat as Hless.
  { unfold roundsLeft. cbn [asNewer attempt]. rewrite Hatt4. fold a. lia. }
  destruct Hout as [(-> & Hs4 & ->)|(Hs4 & (err4 & Herr4) & ->)].
  - split; [|exact Hless].
    unfold loopInvariant. cbn [asNewer attempt lastError success events]. rewrite Hatt4, Hs4.
    refine (conj Hatt4' (conj Hdep4 (conj Hfix4' (conj Hret4 (conj Hg4 _))))).
    exists (evs ++ fixEvs), (a + 1)%Z. rewrite <- app_assoc.
    split; [exact He4|]. apply allDeploysFailed_app. auto.
  - assert (allDeploysFailed (FixCdkErrors.events s4)) as Hall.
    { rewrite He4. apply allDeploysFailed_app. split; [exact Hfailed|].
      apply allDeploysFailed_app. split; [exact Hff | apply allDeploysFailed_failed]. }
    destruct r4 as [[]|ex4].
    + split; [|exact Hless].
      unfold loopInvariant. cbn [asNewer attempt lastError success events].
      rewrite Hatt4, Hs4, Herr4.
      refine (conj Hatt4' (conj Hdep4 (conj Hfix4' (conj Hret4 (conj Hg4 (conj Hall _)))))).
      exists (evs ++ fixEvs), (a + 1)%Z. rewrite <- app_assoc. exact He4.
    + unfold stoppedInvariant. cbn [asNewer events].
      refine (conj _ (conj _ (conj Hret4 (conj Hg4 Hall)))).
      * rewrite Hdep4. lia.
      * etransitivity; [exact Hfix4|]. lia.
Qed.

End OlderLoop.

Section OlderMain.

Variable e : env.

Lemma older_loopInvariant_start N w : loopInvariant N (asNewer (FixCdkErrors.start w)).
Proof. exact (loopInvariant_start N w). Qed.

(** The loop of the older script comes to its end within [maxAttempts]
    rounds, and the exit code is [0] after a successful deployment and [1]
    after failed ones. *)
Lemma older_deployLoop_spec projectDir plantUmlContent N s0 :
  loopInvariant N (asNewer s0) -> FixCdkErrors.attempt s0 = 0%Z ->
  let '(s', r) := FixCdkErrors.deployLoop e projectDir plantUmlContent N s0 in
  runSummary N (asNewer s') /\ exitCodeTells (asNewer s') r.
Proof.
  intros Hinv Hzero. unfold FixCdkErrors.deployLoop, bind at 1. rewrite older_perform_run.
  destruct (Fs.chdir projectDir (FixCdkErrors.ms_world s0)) as [w1 [[]|ex1]]; cbn [fst snd].
  2:{ split; [|exact I]. exact (loopInvariant_runSummary N _ Hinv). }
  unfold bind at 1.
  pose proof (while_rule (fun s => loopInvariant N (asNewer s))
                (fun s => stoppedInvariant N (asNewer s))
                (fun s => roundsLeft N (asNewer s)) (FixCdkErrors.continues N)
                (FixCdkErrors.iteration e projectDir plantUmlContent)
                (older_iteration_keeps_invariant e projectDir plantUmlContent N)) as Hwhile.
  specialize (Hwhile ltac:(intros s _ Hc; unfold FixCdkErrors.continues in Hc;
                           apply andb_true_iff in Hc as [Hc _];
                           apply Z.ltb_lt in Hc; unfold roundsLeft; cbn [asNewer attempt]; lia)).
  specialize (Hwhile (Z.to_nat N)
                (FixCdkErrors.MainState w1 (FixCdkErrors.attempt s0) (FixCdkErrors.lastError s0)
                   (FixCdkErrors.success s0) (FixCdkErrors.fixHistory s0) (FixCdkErrors.events s0))
                Hinv).
  specialize (Hwhile ltac:(unfold roundsLeft; cbn [asNewer attempt FixCdkErrors.attempt];
                           rewrite Hzero; lia)).
  destruct (while _ _ _ _) as [s2 [[|]|ex2]].
  - destruct Hwhile as [Hinv2 Hstop].
    unfold bind at 1, get. unfold bind at 1.
    assert (exitCodeTells (asNewer s2)
              (Ret (Some (if FixCdkErrors.success s2 then 0%Z else 1%Z)))) as Hcode.
    { destruct Hinv2 as (_ & _ & _ & _ & _ & Hlast). cbn [asNewer success events lastError] in Hlast.
      cbn. destruct (FixCdkErrors.success s2); [left | right].
      - destruct Hlast as (l & n & Hl & _). split; [reflexivity | eauto].
      - split; [reflexivity | apply Hlast]. }
    assert (forall w,
               let s := FixCdkErrors.MainState w (FixCdkErrors.attempt s2) (FixCdkErrors.lastError s2)
                          (FixCdkErrors.success s2) (FixCdkErrors.fixHistory s2)
                          (FixCdkErrors.events s2) in
               let '(s', r) :=
                 (if FixCdkErrors.success s2
                  then tryCatch (_ <- FixCdkErrors.perform (execPromise e "npx cdk list-exports") ;; ret tt)
                                (fun _ => ret tt) >> ret (Some 0%Z)
                  else ret (Some 1%Z)) s in
               runSummary N (asNewer s') /\ exitCodeTells (asNewer s') r) as Hend.
    { intros w. cbn zeta. destruct (FixCdkErrors.success s2) eqn:Hs.
      - unfold bind at 1, tryCatch, bind. rewrite older_perform_run. cbn [FixCdkErrors.ms_world fst snd].
        destruct (execPromise e "npx cdk list-exports" w) as [w' [[]|ex]]; cbn [fst snd ret];
          (split; [exact (loopInvariant_runSummary N _ Hinv2) | exact Hcode]).
      - cbn [ret]. split; [exact (loopInvariant_runSummary N _ Hinv2) | exact Hcode]. }
    destruct s2 as [w2 attempt2 lastError2 success2 history2 events2].
    cbn [FixCdkErrors.ms_world FixCdkErrors.attempt FixCdkErrors.lastError FixCdkErrors.success
         FixCdkErrors.fixHistory FixCdkErrors.events] in *.
    destruct history2 as [|entry entries].
    + cbn [ret]. exact (Hend w2).
    + rewrite older_perform_run.
      cbn [fst snd FixCdkErrors.ms_world FixCdkErrors.attempt FixCdkErrors.lastError
           FixCdkErrors.success FixCdkErrors.fixHistory FixCdkErrors.events].
      destruct (Fs.writeFile _ _ w2) as [w3 [[]|ex3]]; cbn [fst snd].
      * exact (Hend w3).
      * split; [|exact I]. exact (loopInvariant_runSummary N _ Hinv2).
  - destruct Hwhile.
  - cbn. split; [|exact I]. apply stopped_runSummary, Hwhile.
Qed.

(** The same for the [try] block of its [main]. *)
Lemma older_mainBody_spec o w :
  let '(s', r) := FixCdkErrors.mainBody e o (FixCdkErrors.start w) in
  runSummary (maxAttemptsOf o) (asNewer s') /\ exitCodeTells (asNewer s') r.
Proof.
  unfold FixCdkErrors.mainBody, bind at 1. rewrite older_perform_run.
  cbn [getCwd fst snd FixCdkErrors.start FixCdkErrors.ms_world].
  unfold bind at 1. rewrite older_perform_run.
  cbn [FixCdkErrors.start FixCdkErrors.attempt FixCdkErrors.lastError FixCdkErrors.success
       FixCdkErrors.fixHistory FixCdkErrors.events FixCdkErrors.ms_world].
  set (projectDir := Path.resolve (cwd w) (opt_project o)). clearbody projectDir.
  destruct (hasCdkJson_returns e projectDir w) as (w1 & valid & -> & _). clear w.
  rename w1 into w. cbn [fst snd].
  set (N := maxAttemptsOf o).
  destruct valid.
  2:{ cbn. split.
      - exact (loopInvariant_runSummary N _ (loopInvariant_start N w)).
      - right. split; [reflexivity|]. intros n ok []. }
  unfold bind at 1.
  cbn [FixCdkErrors.start FixCdkErrors.attempt FixCdkErrors.lastError FixCdkErrors.success
       FixCdkErrors.fixHistory FixCdkErrors.events FixCdkErrors.ms_world].
  assert (exists w' text,
             (match opt_diagram o with
              | Some diagram =>
                  if negb (String.eqb diagram "")
                  then tryCatch (FixCdkErrors.perform (Fs.readFile diagram)) (fun _ => ret "")
                  else ret ""
              | None => ret ""
              end) (FixCdkErrors.MainState w 0 None false [] []) =
             (FixCdkErrors.start w', Ret text)) as (w' & text & ->).
  { destruct (opt_diagram o) as [diagram|]; [|exists w, ""; reflexivity].
    destruct (negb (String.eqb diagram "")); [|exists w, ""; reflexivity].
    unfold tryCatch. rewrite older_perform_run.
    cbn [FixCdkErrors.ms_world fst snd FixCdkErrors.attempt FixCdkErrors.lastError
         FixCdkErrors.success FixCdkErrors.fixHistory FixCdkErrors.events].
    destruct (Fs.readFile diagram w) as [w' [text|ex]]; exists w'; cbn; eauto. }
  apply older_deployLoop_spec; [apply older_loopInvariant_start | reflexivity].
Qed.

End OlderMain.

Lemma older_main_state e o s :
  fst (FixCdkErrors.main e o s) = fst (FixCdkErrors.mainBody e o s).
Proof.
  unfold FixCdkErrors.main, tryCatch.
  destruct (FixCdkErrors.mainBody e o s) as [s' [code|ex]]; reflexivity.
Qed.

Lemma older_main_result e o s :
  snd (FixCdkErrors.main e o s) =
  match snd (FixCdkErrors.mainBody e o s) with
  | Ret code => Ret code
  | Throw _ => Ret (Some 1%Z)
  end.
Proof.
  unfold FixCdkErrors.main, tryCatch.
  destruct (FixCdkErrors.mainBody e o s) as [s' [code|ex]]; reflexivity.
Qed.

(** X15.  The [main] of the older script keeps the bounds of the newer
    one.  With the bound [N] of the options it deploys at most [N] times
    and asks for a fix at most [N - 1] times (never, for [N <= 0]); a fix
    step comes right after a failed deployment and right before the next
    deployment; no deployment follows a successful one; [fixHistory] has one
    entry for each fix step that returned; the exit code is [0] or [1], and
    it is [1] exactly when every deployment failed or an exception reached
    the [catch] block of [main]. *)
Theorem older_main_attempts_and_exit_code e o w :
  let run := FixCdkErrors.main e o (FixCdkErrors.start w) in
  let evs := FixCdkErrors.events (fst run) in
  (snd run = Ret (Some 0%Z) \/ snd run = Ret (Some 1%Z)) /\
  (deploySteps evs <= Z.max 0 (maxAttemptsOf o))%Z /\
  (fixSteps evs <= Z.max 0 (maxAttemptsOf o - 1))%Z /\
  fixesBetweenDeploys evs /\
  onlyLastMaySucceed evs /\
  Z.of_nat (length (FixCdkErrors.fixHistory (fst run))) = returnedFixSteps evs /\
  (snd run = Ret (Some 1%Z) <->
   allDeploysFailed evs \/
   exists ex, snd (FixCdkErrors.mainBody e o (FixCdkErrors.start w)) = Throw ex).
Proof.
  intros run evs. subst run evs.
  rewrite older_main_result, older_main_state.
  pose proof (older_mainBody_spec e o w) as H.
  destruct (FixCdkErrors.mainBody e o (FixCdkErrors.start w)) as [s' r].
  destruct H as [(Hd & Hf & Hh & Hg & Hlast) Hcode]. cbn [fst snd].
  rewrite asNewer_history in Hh.
  cbn [asNewer events] in Hd, Hf, Hh, Hg, Hlast, Hcode.
  pose proof (grown_fixesBetweenDeploys _ Hg) as Hshape.
  refine (conj _ (conj Hd (conj Hf (conj Hshape (conj Hlast (conj Hh _))))));
    destruct r as [[code|]|ex]; cbn in Hcode; try contradiction.
  - destruct Hcode as [[-> _]|[-> _]]; auto.
  - auto.
  - destruct Hcode as [[-> (l & n & Hl)]|[-> Hall]].
    + split; [discriminate|].
      intros [Hall|[ex Hex]]; [|discriminate].
      rewrite Hl in Hall. destruct (not_allDeploysFailed_succeeded _ _ Hall).
    + split; auto.
  - split; eauto.
Qed.

(** ** The older script: its fix step *)

Section OlderFix.

Variable e : env.
Variable projectDir : string.

Lemma older_extract_world errorText w :
  exists files w1,
    FixCdkErrors.extractRelevantFiles errorText projectDir w = (w1, Ret files) /\
    fs w1 = fs w /\ cwd w1 = cwd w /\ ticks w1 = ticks w /\ audits w1 = audits w.
Proof.
  unfold FixCdkErrors.extractRelevantFiles, bind.
  pose proof (scan_visitAll projectDir (FixCdkErrors.candidates errorText) w
                (FixCdkErrors.candidates errorText) (Extraction [] ∅) w
                (scanInvariant_start _ _ w) (fun c H => H)) as Hrun.
  destruct (FixCdkErrors.visitAll projectDir _ _ w) as [w' r].
  destruct Hrun as (x & -> & (Hfs & Hcwd & Hticks & Haudits) & _).
  exists (relevantFiles x), w'. cbn [ret]. auto.
Qed.

(** The search for the relevant files returns, with [lib/stack.ts] alone
    when the error text led to no file that could be read, and with nothing
    when that file cannot be read either. *)
Lemma older_relevantOrFallback_world errorText w :
  exists files w1,
    FixCdkErrors.relevantOrFallback errorText projectDir w = (w1, Ret files) /\
    fs w1 = fs w /\ cwd w1 = cwd w /\ ticks w1 = ticks w /\ audits w1 = audits w /\
    (snd (FixCdkErrors.extractRelevantFiles errorText projectDir w) = Ret [] ->
     files = [] \/
     exists text writable,
       files = [RelevantFile "lib/stack.ts" text] /\
       fs w !! Fs.key w (Path.join projectDir "lib/stack.ts") = Some (File text writable)).
Proof.
  unfold FixCdkErrors.relevantOrFallback, bind.
  destruct (older_extract_world errorText w) as (files & w1 & -> & Hfs & Hcwd & Hticks & Haudits).
  destruct files as [|f files].
  - unfold tryCatch, bind.
    destruct (readFile_spec (Path.join projectDir "lib/stack.ts") w1) as [Hw Htext].
    destruct (Fs.readFile (Path.join projectDir "lib/stack.ts") w1) as [w2 [text|ex]];
      cbn [fst snd] in *; subst w2.
    + exists [RelevantFile "lib/stack.ts" text], (addRead (Path.join projectDir "lib/stack.ts") w1).
      cbn [ret addRead fs cwd ticks audits]. repeat split; auto.
      intros _. right. destruct (Htext text eq_refl) as [writable Hfile].
      exists text, writable. split; [reflexivity|].
      unfold Fs.key in *. rewrite <- Hfs, <- Hcwd. exact Hfile.
    + exists [], (addRead (Path.join projectDir "lib/stack.ts") w1).
      cbn [ret addRead fs cwd ticks audits]. repeat split; auto.
  - exists (f :: files), w1. cbn [ret snd]. repeat split; auto. discriminate.
Qed.

(** What [match] finds for the pattern of a JSON array starts with [[]. *)
Lemma jsonMatch_starts text fragment :
  PlantUml.jsonMatch text = Some fragment -> exists b, fragment = String "[" b.
Proof.
  unfold PlantUml.jsonMatch. change PlantUml.jsonArrayPattern with (spanPattern "[" "]").
  destruct (Regex.search (spanPattern "[" "]") text) as [m|] eqn:Hs; [|discriminate].
  intros H. injection H as <-. apply search_span in Hs.
  destruct Hs as (a & b & c & _ & _ & _ & ->). cbn [Regex.whole]. eauto.
Qed.

(** The [try] block of the call, under its [catch]. *)
Lemma older_requestAndApply_outcomes prompt w :
  let run := tryCatch (FixCdkErrors.requestAndApply e projectDir prompt)
                      (fun _ => throw failedToGetFixes) w in
  match postMessage e (ticks w) prompt with
  | PostFail _ _ => run = (tick w, Throw failedToGetFixes)
  | PostOk text =>
      match PlantUml.jsonMatch text with
      | None => run = (tick w, Throw failedToGetFixes)
      | Some fragment =>
          match Json.parse fragment with
          | None => run = (tick w, Throw failedToGetFixes)
          | Some parsed =>
              exists items,
                parsed = Json.JArr items /\
                fst run = fst (applyFixes projectDir items (tick w)) /\
                snd run =
                  match snd (applyFixes projectDir items (tick w)) with
                  | Ret written => Ret written
                  | Throw _ => Throw failedToGetFixes
                  end
          end
      end
  end.
Proof.
  cbn zeta. unfold FixCdkErrors.requestAndApply, postPrompt, tryCatch, bind.
  destruct (postMessage e (ticks w) prompt) as [text|m data]; [|reflexivity].
  destruct (PlantUml.jsonMatch text) as [fragment|] eqn:Hmatch; [|reflexivity].
  apply jsonMatch_starts in Hmatch as [b ->].
  unfold bind, tryCatch.
  destruct (Json.parse (String "[" b)) as [parsed|] eqn:Hparse; [|reflexivity].
  destruct (parse_array _ _ Hparse) as [items ->]. exists items.
  split; [reflexivity|]. cbn [ret].
  destruct (applyFixes projectDir items (tick w)) as [w' [written|ex]]; split; reflexivity.
Qed.

End OlderFix.

(** X16.  The fix step of the older script throws at once when no API key
    is set.  With a key its search for the files returns and leaves the
    file system alone, it sends one request, and every failure after that
    (a failed request, a reply without [[] ... []], a text that is not JSON,
    a file that cannot be written) comes out as the one error [Failed to
    get fixes from Claude].  What it parses is always an array, whose files
    it writes in order; an empty array is accepted: nothing is written and
    the call returns no file. *)
Theorem older_fixDeploymentErrors_outcomes e projectDir plantUmlContent error history w :
  let run := FixCdkErrors.fixDeploymentErrors e projectDir plantUmlContent error history w in
  let errorText := err_stdout error +:+ Str.nl +:+ err_stderr error in
  (keyConfigured e = false ->
   run = (w, Throw (Error "Anthropic API key is not set. Please set the ANTHROPIC_API_KEY environment variable."))) /\
  (keyConfigured e = true ->
   exists files w1,
     FixCdkErrors.relevantOrFallback errorText projectDir w = (w1, Ret files) /\
     fs w1 = fs w /\ cwd w1 = cwd w /\ ticks w1 = ticks w /\
     (snd run = Throw failedToGetFixes \/ exists written, snd run = Ret written) /\
     match postMessage e (ticks w) (FixCdkErrors.buildPrompt plantUmlContent errorText files history) with
     | PostFail _ _ => run = (tick w1, Throw failedToGetFixes)
     | PostOk text =>
         match PlantUml.jsonMatch text with
         | None => run = (tick w1, Throw failedToGetFixes)
         | Some fragment =>
             match Json.parse fragment with
             | None => run = (tick w1, Throw failedToGetFixes)
             | Some parsed =>
                 exists items,
                   parsed = Json.JArr items /\
                   fst run = fst (applyFixes projectDir items (tick w1)) /\
                   snd run =
                     match snd (applyFixes projectDir items (tick w1)) with
                     | Ret written => Ret written
                     | Throw _ => Throw failedToGetFixes
                     end /\
                   (items = [] -> run = (tick w1, Ret []))
             end
         end
     end).
Proof.
  intros run errorText. subst run. unfold FixCdkErrors.fixDeploymentErrors.
  split; [intros ->; reflexivity|]. intros ->. cbn [negb]. fold errorText.
  destruct (older_relevantOrFallback_world projectDir errorText w)
    as (files & w1 & Hfiles & Hfs & Hcwd & Hticks & _).
  assert ((files <- FixCdkErrors.relevantOrFallback errorText projectDir ;;
           tryCatch (FixCdkErrors.requestAndApply e projectDir
                       (FixCdkErrors.buildPrompt plantUmlContent errorText files history))
                    (fun _ => throw failedToGetFixes)) w =
          tryCatch (FixCdkErrors.requestAndApply e projectDir
                      (FixCdkErrors.buildPrompt plantUmlContent errorText files history))
                   (fun _ => throw failedToGetFixes) w1) as ->.
  { unfold bind at 1. rewrite Hfiles. reflexivity. }
  exists files, w1. split; [exact Hfiles|]. split; [exact Hfs|]. split; [exact Hcwd|]. split; [exact Hticks|].
  pose proof (older_requestAndApply_outcomes e projectDir
                (FixCdkErrors.buildPrompt plantUmlContent errorText files history) w1) as Hrun.
  cbn zeta in Hrun. rewrite Hticks in Hrun.
  destruct (postMessage e (ticks w) _) as [text|m data].
  2:{ rewrite Hrun. split; [left; reflexivity | reflexivity]. }
  destruct (PlantUml.jsonMatch text) as [fragment|].
  2:{ rewrite Hrun. split; [left; reflexivity | reflexivity]. }
  destruct (Json.parse fragment) as [parsed|].
  2:{ rewrite Hrun. split; [left; reflexivity | reflexivity]. }
  destruct Hrun as (items & -> & Hw & Hr). split.
  - rewrite Hr. destruct (snd (applyFixes projectDir items (tick w1))); eauto.
  - exists items. split; [reflexivity|]. split; [exact Hw|]. split; [exact Hr|].
    intros ->. cbn [applyFixes ret fst snd] in Hw, Hr.
    destruct (tryCatch _ _ w1) as [w' r]. cbn [fst snd] in Hw, Hr. subst. reflexivity.
Qed.

(** ** The cleaned text of an error *)

Section Cleaning.

#[local] Arguments String.append _ _ : simpl nomatch.

(** A match of [[q]+] at the start of [s] takes all the characters of the
    class that stand there. *)
Lemma matchHere_plus_class q s :
  Regex.matchHere (Regex.Plus (Regex.Chr q)) s =
  match s with
  | String c s' =>
      if q c
      then Some (Regex.Found (Regex.consumed s (skipClass q s')) None (skipClass q s'))
      else None
  | EmptyString => None
  end.
Proof.
  unfold Regex.matchHere, Regex.Plus. cbn [Regex.rmatch].
  destruct s as [|c s']; [reflexivity|]. destruct (q c); [|reflexivity].
  rewrite (star_class q
             (fun s1 cap => Some (Regex.Found (Regex.consumed (String c s') s1) cap s1)));
    [reflexivity | discriminate | lia].
Qed.

Lemma skipClass_trimmed s : trimmedStart (skipClass Regex.space s).
Proof.
  induction s as [|c s IH]; cbn [skipClass]; [exact I|].
  destruct (Regex.space c) eqn:Hc; [exact IH | exact Hc].
Qed.

(** After [replace(/\s+/g, ' ')] every run of white space is one space. *)
Lemma replace_spaces fuel : forall s,
  (String.length s < fuel)%nat ->
  singleSpaces (Regex.replaceAllFrom fuel (Regex.Plus (Regex.Chr Regex.space)) " " s) /\
  (trimmedStart s ->
   trimmedStart (Regex.replaceAllFrom fuel (Regex.Plus (Regex.Chr Regex.space)) " " s)).
Proof.
  induction fuel as [|fuel IH]; intros s Hlen; [lia|].
  cbn [Regex.replaceAllFrom]. rewrite matchHere_plus_class.
  destruct s as [|c s]; [split; [exact I | auto]|].
  cbn [String.length] in Hlen.
  destruct (Regex.space c) eqn:Hc.
  - cbn [Regex.rest]. pose proof (skipClass_length Regex.space s) as Hskip.
    replace (String.length (skipClass Regex.space s) <? String.length (String c s))%nat
      with true by (symmetry; apply Nat.ltb_lt; cbn [String.length]; lia).
    destruct (IH (skipClass Regex.space s) ltac:(lia)) as [Hsingle Hstart].
    cbn [String.append singleSpaces trimmedStart]. split.
    + split; [|exact Hsingle]. intros _. split; [reflexivity|].
      apply Hstart, skipClass_trimmed.
    + intros H. cbn in H. congruence.
  - destruct (IH s ltac:(lia)) as [Hsingle _].
    cbn [singleSpaces trimmedStart]. split; [|auto].
    split; [|exact Hsingle]. intros H. congruence.
Qed.

Lemma trimmedStart_prefix a b : trimmedStart (a +:+ b) -> a <> "" -> trimmedStart a.
Proof. destruct a as [|c a]; [congruence|]. cbn. auto. Qed.

Lemma singleSpaces_app a : forall b, singleSpaces (a +:+ b) -> singleSpaces a /\ singleSpaces b.
Proof.
  induction a as [|c a IH]; intros b; [cbn; auto|].
  cbn [String.append singleSpaces]. intros [Hc Hrest].
  destruct (IH b Hrest) as [Ha Hb]. split; [|exact Hb]. split; [|exact Ha].
  intros Hspace. destruct (Hc Hspace) as [-> Hnext]. split; [reflexivity|].
  destruct a as [|d a]; [exact I | exact Hnext].
Qed.

Lemma trimStart_suffix s : exists a, s = a +:+ Regex.trimStart s.
Proof.
  induction s as [|c s [a IH]]; [exists ""; reflexivity|].
  cbn [Regex.trimStart]. destruct (Regex.space c).
  - exists (String c a). cbn [String.append]. rewrite <- IH. reflexivity.
  - exists "". reflexivity.
Qed.

(** [trim] takes a piece out of the string. *)
Lemma trim_piece s : exists a b, s = a +:+ Regex.trim s +:+ b.
Proof.
  destruct (trimStart_suffix s) as [a Ha].
  destruct (trimStart_suffix (String.rev (Regex.trimStart s))) as [b Hb].
  exists a, (String.rev b). unfold Regex.trim. rewrite <- rev_append, <- Hb, rev_involutive.
  exact Ha.
Qed.

Lemma trim_singleSpaces s : singleSpaces s -> singleSpaces (Regex.trim s).
Proof.
  intros H. destruct (trim_piece s) as (a & b & Heq). rewrite Heq in H.
  apply singleSpaces_app in H as [_ H]. apply singleSpaces_app in H as [H _]. exact H.
Qed.

End Cleaning.

(** X17.  The cleaned text of an error is in a normal form for white
    space, whatever the text and the working directory: it neither starts
    nor ends with white space, and every white space character in it is a
    space that is followed by another kind of character. *)
Theorem cleanErrorText_normal_form workDir text :
  let cleaned := Registry.cleanErrorText workDir text in
  trimmedStart cleaned /\ trimmedEnd cleaned /\ singleSpaces cleaned.
Proof.
  cbn zeta. unfold Registry.cleanErrorText.
  split; [apply trim_trimmedStart|]. split; [apply trim_trimmedEnd|].
  apply trim_singleSpaces. unfold Regex.replaceAll. apply replace_spaces. lia.
Qed.

(** ** [normalizeFilePath] on absolute paths *)

Section Normalizing.

Lemma join_cons_nonempty sep x l : l <> [] -> Str.join sep (x :: l) = x +:+ sep +:+ Str.join sep l.
Proof. destruct l; [congruence | reflexivity]. Qed.

(** The text of a path starts with the text of each directory above it. *)
Lemma join_app_prefix a : forall b, exists t, Str.join "/" (a ++ b) = Str.join "/" a +:+ t.
Proof.
  induction a as [|x a IH]; intros b; [exists (Str.join "/" b); reflexivity|].
  destruct a as [|y a].
  - destruct b as [|z b]; [exists ""; symmetry; apply append_nil_r|].
    exists ("/" +:+ Str.join "/" (z :: b)). reflexivity.
  - destruct (IH b) as [t Ht]. exists t.
    change ((x :: y :: a) ++ b) with (x :: y :: (a ++ b)). rewrite !join_cons.
    change (y :: a ++ b) with ((y :: a) ++ b). rewrite Ht, !append_assoc. reflexivity.
Qed.

(** It also starts with the text of a directory beside one above it, if
    the name of that one is the start of the name of the other. *)
Lemma join_sibling_prefix d suffix b a :
  exists t, Str.join "/" (a ++ (d +:+ suffix) :: b) = Str.join "/" (a ++ [d]) +:+ t.
Proof.
  induction a as [|x a [t IH]].
  - destruct b as [|z b]; [exists suffix; reflexivity|].
    exists (suffix +:+ "/" +:+ Str.join "/" (z :: b)).
    cbn [app]. rewrite join_cons, !append_assoc. reflexivity.
  - exists t. cbn [app].
    rewrite !join_cons_nonempty by (destruct a; discriminate).
    rewrite IH, !append_assoc. reflexivity.
Qed.

(** The segments of an absolute path made of names are those names. *)
Lemma absolutePath_segments allow segs :
  Forall segmentName segs -> Path.normalizeSegments allow (absolutePath segs) = segs.
Proof.
  induction segs as [|name segs IH] using rev_ind; intros Hnames; [reflexivity|].
  apply Forall_app in Hnames as [Hsegs Hname]. apply Forall_inv in Hname.
  unfold absolutePath. rewrite join_snoc. destruct segs as [|s segs].
  - change ("/" +:+ name) with ("" +:+ "/" +:+ name).
    rewrite normalizeSegments_name by exact Hname. reflexivity.
  - change ("/" +:+ Str.join "/" (s :: segs) +:+ "/" +:+ name)
      with (absolutePath (s :: segs) +:+ "/" +:+ name).
    rewrite normalizeSegments_name by exact Hname. rewrite (IH Hsegs). reflexivity.
Qed.

Lemma dropCommon_prefix a b : Path.dropCommon a (a ++ b) = ([], b).
Proof.
  induction a as [|x a IH]; [destruct b; reflexivity|].
  cbn [app Path.dropCommon]. rewrite String.eqb_refl. exact IH.
Qed.

Lemma dropCommon_parts a x y ra rb :
  x <> y -> Path.dropCommon (a ++ x :: ra) (a ++ y :: rb) = (x :: ra, y :: rb).
Proof.
  intros Hne. induction a as [|z a IH]; cbn [app Path.dropCommon].
  - destruct (String.eqb_spec x y); [contradiction | reflexivity].
  - rewrite String.eqb_refl. exact IH.
Qed.

Lemma append_longer d suffix : suffix <> "" -> d <> d +:+ suffix.
Proof.
  intros Hne Heq. apply (f_equal String.length) in Heq. rewrite length_append in Heq.
  destruct suffix; [contradiction | cbn in Heq; lia].
Qed.

(** The segments of a path that goes on with names go on with those
    names. *)
Lemma normalizeSegments_names allow x rest :
  Forall segmentName rest ->
  Path.normalizeSegments allow (x +:+ "/" +:+ Str.join "/" rest) =
  Path.normalizeSegments allow x ++ rest.
Proof.
  induction rest as [|name rest IH] using rev_ind; intros Hnames.
  - rewrite app_nil_r. unfold Path.normalizeSegments.
    change (x +:+ "/" +:+ Str.join "/" []) with (x +:+ String Path.slash "").
    rewrite split_append, fold_left_app. reflexivity.
  - apply Forall_app in Hnames as [Hrest Hname]. apply Forall_inv in Hname.
    rewrite join_snoc. destruct rest as [|r rest].
    + rewrite normalizeSegments_name by exact Hname. reflexivity.
    + replace (x +:+ "/" +:+ Str.join "/" (r :: rest) +:+ "/" +:+ name)
        with ((x +:+ "/" +:+ Str.join "/" (r :: rest)) +:+ "/" +:+ name)
        by (rewrite !append_assoc; reflexivity).
      rewrite normalizeSegments_name by exact Hname. rewrite (IH Hrest), <- app_assoc.
      reflexivity.
Qed.

(** A path made of names ends with the last of them. *)
Lemma join_last segs name : exists x, Str.join "/" (segs ++ [name]) = x +:+ name.
Proof.
  rewrite join_snoc. destruct segs as [|s segs]; [exists ""; reflexivity|].
  exists (Str.join "/" (s :: segs) +:+ "/"). rewrite append_assoc. reflexivity.
Qed.

(** [path.normalize] of an absolute path that ends with a name. *)
Lemma normalize_absolute p segs name :
  Path.isAbsolute p = true -> segmentName name ->
  (exists x, p = x +:+ name) ->
  Path.normalizeSegments false p = segs ++ [name] ->
  Path.normalize p = absolutePath (segs ++ [name]).
Proof.
  intros Habs Hname [x ->] Hsegs. unfold Path.normalize, Path.normalizeString.
  rewrite Habs. cbn [negb]. rewrite Hsegs.
  destruct (String.eqb_spec (x +:+ name) "") as [Hempty|_].
  { rewrite Hempty in Habs. discriminate. }
  rewrite endsWith_slash_name by apply Hname.
  destruct (String.eqb_spec (Str.join "/" (segs ++ [name])) "") as [Hempty|_]; [|reflexivity].
  exfalso. apply (join_snoc_nonempty segs name); [apply Hname | exact Hempty].
Qed.

End Normalizing.

(** ** The files of the audit directory *)

Section AuditPaths.

#[local] Arguments String.append _ _ : simpl nomatch.

(** No piece of a split has the separator. *)
Lemma split_pieces_without c s piece : In piece (Str.split c s) -> Str.mem c piece = false.
Proof.
  revert piece. induction s as [|d s IH]; intros piece; cbn [Str.split].
  - intros [<-|[]]. reflexivity.
  - destruct (Ascii.eqb_spec d c) as [->|Hne].
    + intros [<-|Hin]; [reflexivity | apply IH, Hin].
    + destruct (Str.split c s) as [|p ps]; [intros [<-|[]]|intros [<-|Hin]].
      * cbn. destruct (Ascii.eqb_spec c d); [congruence | reflexivity].
      * cbn [Str.mem]. rewrite (IH p (or_introl eq_refl)).
        destruct (Ascii.eqb_spec c d); [congruence | reflexivity].
      * apply IH. right. exact Hin.
Qed.

(** The segments of a resolved path are names. *)
Lemma pushSegment_names acc seg :
  Str.mem Path.slash seg = false -> Forall segmentName acc ->
  Forall segmentName (Path.pushSegment false acc seg).
Proof.
  intros Hseg Hacc. unfold Path.pushSegment.
  destruct (String.eqb_spec seg "") as [|Hne]; [exact Hacc|].
  destruct (String.eqb_spec seg ".") as [|Hdot]; [exact Hacc|]. cbn [orb].
  destruct (String.eqb_spec seg "..") as [|Hup].
  - destruct acc as [|top rest]; [constructor|].
    destruct (String.eqb top ".."); [exact Hacc | exact (Forall_inv_tail Hacc)].
  - constructor; [|exact Hacc]. repeat split; assumption.
Qed.

Lemma normalizeSegments_false_names p : Forall segmentName (Path.normalizeSegments false p).
Proof.
  unfold Path.normalizeSegments. apply Forall_rev.
  assert (forall pieces acc,
             (forall piece, In piece pieces -> Str.mem Path.slash piece = false) ->
             Forall segmentName acc ->
             Forall segmentName (fold_left (Path.pushSegment false) pieces acc)) as H.
  { induction pieces as [|piece pieces IH]; intros acc Hpieces Hacc; [exact Hacc|].
    cbn [fold_left]. apply IH; [intros q Hq; apply Hpieces; right; exact Hq|].
    apply pushSegment_names; [apply Hpieces; left; reflexivity | exact Hacc]. }
  apply H; [apply split_pieces_without | constructor].
Qed.

(** A path made of names, from the root, is its own resolved form. *)
Lemma key_absolutePath w segs :
  Forall segmentName segs ->
  Path.resolveSegments (cwd w) (absolutePath segs) = segs /\
  Fs.key w (absolutePath segs) = absolutePath segs.
Proof.
  intros Hsegs.
  assert (Path.resolveSegments (cwd w) (absolutePath segs) = segs) as H.
  { unfold Path.resolveSegments. change (Path.isAbsolute (absolutePath segs)) with true.
    cbv iota. apply absolutePath_segments, Hsegs. }
  split; [exact H|]. unfold Fs.key, Path.resolve. rewrite H. reflexivity.
Qed.

(** [path.join] of such a path and a name. *)
Lemma join_absolutePath segs name :
  Forall segmentName segs -> segmentName name ->
  Path.join (absolutePath segs) name = absolutePath (segs ++ [name]).
Proof.
  intros Hsegs Hname. unfold Path.join.
  change (String.eqb (absolutePath segs) "") with false.
  destruct (String.eqb_spec name "") as [Hempty|_]; [destruct Hname as [Hne _]; contradiction|].
  apply normalize_absolute.
  - reflexivity.
  - exact Hname.
  - exists (absolutePath segs +:+ "/"). rewrite append_assoc. reflexivity.
  - rewrite normalizeSegments_name by exact Hname.
    rewrite absolutePath_segments by exact Hsegs. reflexivity.
Qed.

Lemma absolutePath_snoc segs name :
  segs <> [] -> absolutePath (segs ++ [name]) = absolutePath segs +:+ "/" +:+ name.
Proof.
  intros Hne. unfold absolutePath. rewrite join_snoc.
  destruct segs as [|s segs]; [contradiction|]. rewrite append_assoc. reflexivity.
Qed.

(** [path.join] of a path, from the root, and a name. *)
Lemma join_absolute_name dir name :
  Path.isAbsolute dir = true -> segmentName name ->
  Path.join dir name = absolutePath (Path.normalizeSegments false dir ++ [name]).
Proof.
  intros Habs Hname. unfold Path.join.
  destruct (String.eqb_spec dir "") as [->|_]; [discriminate|].
  destruct (String.eqb_spec name "") as [Hempty|_]; [destruct Hname as [Hne _]; contradiction|].
  apply normalize_absolute.
  - destruct dir; [discriminate | exact Habs].
  - exact Hname.
  - exists (dir +:+ "/"). rewrite append_assoc. reflexivity.
  - apply normalizeSegments_name, Hname.
Qed.

End AuditPaths.

Section AuditFiles.

#[local] Arguments String.append _ _ : simpl nomatch.

(** The scan of [path.dirname] stops at the slash in front of a name. *)
Lemma dirnameScan_name name : forall matched r,
  name <> "" -> Str.mem Path.slash name = false -> r <> "" ->
  Path.dirnameScan matched (name +:+ String Path.slash r) = Some r.
Proof.
  induction name as [|c name IH]; intros matched r Hne Hmem Hr; [contradiction|].
  cbn [Str.mem] in Hmem. apply orb_false_iff in Hmem as [Hc Hmem].
  cbn [String.append Path.dirnameScan].
  destruct (name +:+ String Path.slash r) as [|d rest] eqn:Hrest.
  { destruct name; discriminate. }
  rewrite <- Hrest. clear d rest Hrest.
  replace (Ascii.eqb c Path.slash) with false
    by (symmetry; rewrite Ascii.eqb_sym; exact Hc).
  destruct name as [|d name].
  - cbn [String.append Path.dirnameScan]. destruct r as [|x r]; [contradiction|].
    rewrite Ascii.eqb_refl. reflexivity.
  - apply IH; [discriminate | exact Hmem | exact Hr].
Qed.

(** The directory of a name in a directory. *)
Lemma dirname_name dir name :
  dir <> "" -> dir <> "/" -> name <> "" -> Str.mem Path.slash name = false ->
  Path.dirname (dir +:+ "/" +:+ name) = dir.
Proof.
  intros Hdir Hroot Hname Hmem. unfold Path.dirname.
  destruct (String.eqb_spec (dir +:+ "/" +:+ name) "") as [Hempty|_].
  { destruct dir; [contradiction | discriminate]. }
  rewrite !rev_append. change (String.rev "/") with "/".
  rewrite append_assoc.
  change ("/" +:+ String.rev dir) with (String Path.slash (String.rev dir)).
  rewrite dirnameScan_name.
  - destruct (String.eqb_spec (String.rev dir) "/") as [Hrev|_]; [|apply rev_involutive].
    exfalso. apply Hroot. rewrite <- (rev_involutive dir), Hrev. reflexivity.
  - intros H. apply Hname. rewrite <- (rev_involutive name), H. reflexivity.
  - rewrite mem_rev. exact Hmem.
  - intros H. apply Hdir. rewrite <- (rev_involutive dir), H. reflexivity.
Qed.

(** The directories that [fs.mkdir] makes on the way to a path: each is
    the path of some of its first segments. *)
Lemma ancestorsFrom_spec segs : forall prefix k,
  In k (Fs.ancestorsFrom prefix segs) ->
  exists first rest,
    segs = first ++ rest /\ first <> [] /\ k = prefix +:+ "/" +:+ Str.join "/" first.
Proof.
  induction segs as [|seg segs IH]; intros prefix k; [intros []|].
  cbn [Fs.ancestorsFrom]. intros [<-|Hin].
  - exists [seg], segs. split; [reflexivity|]. split; [discriminate | reflexivity].
  - destruct (IH _ _ Hin) as (first & rest & -> & Hne & ->).
    exists (seg :: first), rest. split; [reflexivity|]. split; [discriminate|].
    destruct first as [|f first]; [contradiction|].
    rewrite join_cons, !append_assoc. reflexivity.
Qed.

Lemma ancestorsFrom_last segs : forall prefix,
  segs <> [] -> In (prefix +:+ "/" +:+ Str.join "/" segs) (Fs.ancestorsFrom prefix segs).
Proof.
  induction segs as [|seg segs IH]; intros prefix Hne; [contradiction|].
  cbn [Fs.ancestorsFrom]. destruct segs as [|s segs]; [left; reflexivity|].
  right. rewrite join_cons, <- !append_assoc. rewrite append_assoc.
  replace ((prefix +:+ "/") +:+ seg) with (prefix +:+ "/" +:+ seg)
    by (rewrite append_assoc; reflexivity).
  specialize (IH (prefix +:+ "/" +:+ seg) ltac:(discriminate)).
  rewrite !append_assoc in *. exact IH.
Qed.

(** None of them is longer than the path. *)
Lemma ancestors_length segs k :
  In k (Fs.ancestorsFrom "" segs) -> (String.length k <= String.length (absolutePath segs))%nat.
Proof.
  intros Hin. destruct (ancestorsFrom_spec _ _ _ Hin) as (first & rest & -> & _ & ->).
  unfold absolutePath. destruct (join_app_prefix first rest) as [t ->].
  cbn [String.append String.length]. rewrite length_append. lia.
Qed.

(** The digits of a number, and the time stamp of a file name, have no
    slash. *)
Lemma decDigit_not_slash z : (0 <= z < 10)%Z -> Ascii.eqb Path.slash (Num.decDigit z) = false.
Proof.
  intros Hz.
  assert (z = 0 \/ z = 1 \/ z = 2 \/ z = 3 \/ z = 4 \/ z = 5 \/ z = 6 \/ z = 7 \/ z = 8 \/ z = 9)%Z
    as H by lia.
  repeat (destruct H as [->|H]; [reflexivity|]). subst z. reflexivity.
Qed.

Lemma mem_digitsOf fuel : forall z acc,
  Str.mem Path.slash acc = false ->
  Str.mem Path.slash (Num.digitsOf fuel 10 Num.decDigit z acc) = false.
Proof.
  induction fuel as [|fuel IH]; intros z acc Hacc; [exact Hacc|].
  cbn [Num.digitsOf].
  assert (Str.mem Path.slash (String (Num.decDigit (z mod 10)) acc) = false) as Hacc'.
  { cbn [Str.mem]. rewrite Hacc, orb_false_r. apply decDigit_not_slash.
    apply Z.mod_pos_bound. lia. }
  destruct (z / 10 =? 0)%Z; [exact Hacc' | apply IH, Hacc'].
Qed.

Lemma mem_toString10 z : Str.mem Path.slash (Num.toString10 z) = false.
Proof.
  unfold Num.toString10, Num.natural.
  destruct (z <? 0)%Z; [rewrite mem_append|]; rewrite mem_digitsOf; reflexivity.
Qed.

Lemma mem_replaceAll_class p fuel : forall s,
  Str.mem Path.slash s = false ->
  Str.mem Path.slash (Regex.replaceAllFrom fuel (Regex.Chr p) "-" s) = false.
Proof.
  induction fuel as [|fuel IH]; intros s Hs; [exact Hs|].
  cbn [Regex.replaceAllFrom]. unfold Regex.matchHere. cbn [Regex.rmatch].
  destruct s as [|c s]; [reflexivity|].
  cbn [Str.mem] in Hs. apply orb_false_iff in Hs as [Hc Hs].
  destruct (p c).
  - cbn [Regex.rest].
    replace (String.length s <? String.length (String c s))%nat with true
      by (symmetry; apply Nat.ltb_lt; cbn; lia).
    rewrite mem_append, IH by exact Hs. reflexivity.
  - cbn [Str.mem]. rewrite Hc, IH by exact Hs. reflexivity.
Qed.

(** The name of a file of the audit directory is a name. *)
Lemma auditFileName_name attempt iso extension :
  Str.mem Path.slash iso = false -> Str.mem Path.slash extension = false ->
  segmentName (auditFileName attempt iso extension).
Proof.
  intros Hiso Hext. unfold auditFileName. repeat split; try discriminate.
  rewrite !mem_append, mem_toString10. unfold Regex.replaceAll.
  rewrite mem_replaceAll_class by exact Hiso. rewrite Hext. reflexivity.
Qed.

End AuditFiles.

Section AuditDirectory.

#[local] Arguments String.append _ _ : simpl nomatch.

Variable e : env.
Variable projectDir : string.

Hypothesis Habsolute : Path.isAbsolute projectDir = true.
Hypothesis Hclock : clockTexts e.

(** The segments of the audit directory, and its path. *)
Let auditSegments : list string := Path.normalizeSegments false projectDir ++ [".archline-audit"].
Let auditDir : string := absolutePath auditSegments.

Lemma auditName : segmentName ".archline-audit".
Proof. repeat split; discriminate. Qed.

Lemma auditSegments_names : Forall segmentName auditSegments.
Proof.
  apply Forall_app. split; [apply normalizeSegments_false_names|].
  constructor; [apply auditName | constructor].
Qed.

Lemma auditDir_join : Path.join projectDir ".archline-audit" = auditDir.
Proof. apply join_absolute_name; [exact Habsolute | apply auditName]. Qed.

Lemma auditDirectories_segments w :
  auditDirectories projectDir w = Fs.ancestorsFrom "" auditSegments.
Proof.
  unfold auditDirectories. rewrite auditDir_join. unfold auditDir.
  rewrite (proj1 (key_absolutePath w _ auditSegments_names)). reflexivity.
Qed.

Lemma auditDir_key w : Fs.key w (Path.join projectDir ".archline-audit") = auditDir.
Proof. rewrite auditDir_join. apply key_absolutePath, auditSegments_names. Qed.

Lemma auditDir_made w : In auditDir (auditDirectories projectDir w).
Proof.
  rewrite auditDirectories_segments.
  apply (ancestorsFrom_last auditSegments ""). unfold auditSegments.
  intros H. apply app_eq_nil in H as [_ H]. discriminate.
Qed.

(** A name in the audit directory: its path, its entry, the directory of
    its entry. *)
Lemma auditEntry name w :
  segmentName name ->
  Fs.key w (Path.join (Path.join projectDir ".archline-audit") name) =
    auditDir +:+ "/" +:+ name /\
  Str.endsWith (Path.join (Path.join projectDir ".archline-audit") name) "/" = false.
Proof.
  intros Hname. rewrite auditDir_join. unfold auditDir.
  rewrite (join_absolutePath _ _ auditSegments_names Hname).
  assert (Forall segmentName (auditSegments ++ [name])) as Hall.
  { apply Forall_app. split; [apply auditSegments_names | constructor; [exact Hname | constructor]]. }
  rewrite (proj2 (key_absolutePath w _ Hall)).
  assert (auditSegments <> []) as Hne.
  { unfold auditSegments. intros H. apply app_eq_nil in H as [_ H]. discriminate. }
  rewrite (absolutePath_snoc _ _ Hne). split; [reflexivity|].
  rewrite <- append_assoc. apply endsWith_slash_name; apply Hname.
Qed.

Lemma auditDir_not_root : auditDir <> "" /\ auditDir <> "/".
Proof.
  unfold auditDir, absolutePath, auditSegments.
  destruct (join_last (Path.normalizeSegments false projectDir) ".archline-audit") as [x ->].
  split; intros H; apply (f_equal String.length) in H;
    cbn [String.append String.length] in H; rewrite length_append in H; cbn in H; lia.
Qed.

Lemma auditEntry_dirname name :
  segmentName name -> Path.dirname (auditDir +:+ "/" +:+ name) = auditDir.
Proof.
  intros Hname. destruct auditDir_not_root as [Hne Hroot].
  apply dirname_name; [exact Hne | exact Hroot | apply Hname | apply Hname].
Qed.

(** No directory on the way to the audit directory is below it. *)
Lemma auditEntry_not_made name w :
  ~ In (auditDir +:+ "/" +:+ name) (auditDirectories projectDir w).
Proof.
  rewrite auditDirectories_segments. intros Hin. apply ancestors_length in Hin.
  fold auditDir in Hin. rewrite !length_append in Hin. cbn in Hin. lia.
Qed.

Lemma auditLogFile_name n w :
  segmentName (auditFileName n (isoTime e (ticks w)) ".json") /\
  segmentName (auditFileName n (isoTime e (ticks w)) ".md").
Proof. split; apply auditFileName_name; try apply Hclock; reflexivity. Qed.

(** What can be made where nothing or a directory is. *)
Lemma mkdirAll_free keys : forall (f : gmap string node),
  (forall k, In k keys -> f !! k = None \/ f !! k = Some Dir) ->
  exists f', Fs.mkdirAll keys f = Some f'.
Proof.
  induction keys as [|k0 keys IH]; intros f Hfree; cbn [Fs.mkdirAll]; [eauto|].
  destruct (Hfree k0 (or_introl eq_refl)) as [Hk0|Hk0]; rewrite Hk0.
  - apply IH. intros k Hk. destruct (decide (k0 = k)) as [->|Hne].
    + right. apply lookup_insert_eq.
    + rewrite lookup_insert_ne by exact Hne. apply Hfree. right. exact Hk.
  - apply IH. intros k Hk. apply Hfree. right. exact Hk.
Qed.

(** In a project whose audit directory is free, [logAudit] can write its
    record. *)
Lemma auditWritable_free n w :
  auditDirectoryFree projectDir w -> auditWritable e projectDir n w = true.
Proof.
  intros [Hmade Hbelow]. unfold auditWritable.
  destruct (mkdirAll_free _ _ Hmade) as [f Hmk]. rewrite Hmk.
  pose proof (mkdirAll_spec _ _ _ Hmk) as [Hdirs _].
  pose proof (mkdirAll_effect _ _ _ Hmk) as Heffect.
  cbn zeta. unfold auditLogFile.
  destruct (auditLogFile_name n w) as [Hname _].
  destruct (auditEntry _ w Hname) as [-> ->].
  rewrite (auditEntry_dirname _ Hname).
  replace (String.eqb (auditDir +:+ "/" +:+ auditFileName n (isoTime e (ticks w)) ".json") "/")
    with false.
  2:{ symmetry. apply String.eqb_neq. intros H. apply (f_equal String.length) in H.
      rewrite !length_append in H. cbn in H. lia. }
  unfold Fs.isDirAt. rewrite (Hdirs _ (auditDir_made w)). rewrite orb_true_r. cbn [orb negb andb].
  destruct (Heffect (auditDir +:+ "/" +:+ auditFileName n (isoTime e (ticks w)) ".json"))
    as [Hsame|[Hin _]].
  - rewrite Hsame. rewrite auditDir_key in Hbelow.
    destruct (fs w !! _) as [node|] eqn:Hnode; [|reflexivity].
    destruct (Hbelow _ _ Hnode) as [text ->]. reflexivity.
  - exfalso. exact (auditEntry_not_made _ w Hin).
Qed.

(** The audit directory stays free when nothing but the clock and the
    record of the files read changes. *)
Lemma auditDirectoryFree_frame w w' :
  fs w' = fs w -> cwd w' = cwd w ->
  auditDirectoryFree projectDir w -> auditDirectoryFree projectDir w'.
Proof.
  intros Hfs Hcwd [Hmade Hbelow]. unfold auditDirectoryFree, auditDirectories, Fs.key in *.
  rewrite Hfs, Hcwd. split; assumption.
Qed.

(** It stays free through a call of [logAudit]. *)
Lemma auditDirectoryFree_logged n a w :
  auditDirectoryFree projectDir w ->
  auditDirectoryFree projectDir (fst (logAudit e projectDir n a w)).
Proof.
  intros [Hmade Hbelow].
  destruct (logAudit_spec e projectDir n a w) as (w' & file & -> & [Hcwd _] & _ & Heffect).
  cbn [fst]. destruct (auditLogFile_name n w) as [Hjson Hmd].
  unfold auditLogFile, readableLogFile in Heffect.
  rewrite (proj1 (auditEntry _ w Hjson)), (proj1 (auditEntry _ w Hmd)) in Heffect.
  assert (auditDirectories projectDir w' = auditDirectories projectDir w) as Hsame
      by (unfold auditDirectories; rewrite Hcwd; reflexivity).
  rewrite auditDir_key in Hbelow.
  split.
  - rewrite Hsame. intros k Hk.
    destruct (Heffect k) as [Hk1|[(_ & _ & Hk2)|([->| ->] & _)]].
    + rewrite Hk1. apply Hmade, Hk.
    + right. exact Hk2.
    + exfalso. exact (auditEntry_not_made _ w Hk).
    + exfalso. exact (auditEntry_not_made _ w Hk).
  - rewrite auditDir_key. intros name node Hnode.
    destruct (Heffect (auditDir +:+ "/" +:+ name)) as [Hk1|[(Hin & _)|(_ & text & Hk3)]].
    + rewrite Hk1 in Hnode. apply (Hbelow _ _ Hnode).
    + exfalso. exact (auditEntry_not_made _ w Hin).
    + exists text. congruence.
Qed.

(** So [logAudit] can write the record of the last call of a call of
    [fixDeploymentErrors] when the audit directory is free then, and when
    it was free at first and no file of a reply has been written. *)
Lemma auditWritable_last n a w wlog :
  logStart e projectDir w wlog a ->
  auditDirectoryFree projectDir wlog \/ (au_response a = None /\ auditDirectoryFree projectDir w) ->
  auditWritable e projectDir n wlog = true.
Proof.
  intros ([Hcwd _] & _ & Hnone) [Hfree|[Hresponse Hfree]]; apply auditWritable_free; [exact Hfree|].
  destruct (Hnone Hresponse) as [Hfs|(a1 & w1 & Hf1 & Hc1 & ->)].
  - apply (auditDirectoryFree_frame w); assumption.
  - apply auditDirectoryFree_logged, (auditDirectoryFree_frame w); assumption.
Qed.

End AuditDirectory.


(** A project that has no audit directory yet has a free one. *)
Lemma bareProject_free : auditDirectoryFree "/proj" (Sample.worldOf Sample.bareProject).
Proof.
  split.
  - intros k Hk. vm_compute in Hk. destruct Hk as [<-|[<-|[]]]; [right | left]; reflexivity.
  - intros name node. unfold Sample.worldOf, Sample.bareProject.
    change (Fs.key _ (Path.join "/proj" ".archline-audit")) with "/proj/.archline-audit".
    cbn [fs String.append].
    rewrite !lookup_insert_ne by discriminate. rewrite lookup_empty. discriminate.
Qed.



(** X18.  For a project directory given as an absolute path of plain names,
    [normalizeFilePath] turns the absolute path of a file below it into the
    path of that file from the project, whatever the working directory;
    [path.join] of the project directory and that path is the path of the
    file again. *)
Theorem normalizeFilePath_inside_project workDir dirs rest :
  Forall segmentName dirs -> Forall segmentName rest ->
  normalizeFilePath workDir (absolutePath (dirs ++ rest)) (absolutePath dirs) =
    Str.join "/" rest /\
  Path.join (absolutePath dirs)
            (normalizeFilePath workDir (absolutePath (dirs ++ rest)) (absolutePath dirs)) =
    absolutePath (dirs ++ rest).
Proof.
  intros Hdirs Hrest.
  assert (normalizeFilePath workDir (absolutePath (dirs ++ rest)) (absolutePath dirs) =
          Str.join "/" rest) as ->.
  { unfold normalizeFilePath.
    assert (Path.isAbsolute (absolutePath (dirs ++ rest)) = true) as -> by reflexivity.
    assert (Str.startsWith (absolutePath (dirs ++ rest)) (absolutePath dirs) = true) as ->.
    { unfold absolutePath. destruct (join_app_prefix dirs rest) as [t ->].
      rewrite <- append_assoc. apply startsWith_append. }
    unfold Path.relative, Path.resolveSegments.
    assert (Path.isAbsolute (absolutePath (dirs ++ rest)) = true) as -> by reflexivity.
    assert (Path.isAbsolute (absolutePath dirs) = true) as -> by reflexivity.
    rewrite !absolutePath_segments by (try apply Forall_app; auto).
    rewrite dropCommon_prefix. reflexivity. }
  split; [reflexivity|].
  unfold Path.join. assert (String.eqb (absolutePath dirs) "" = false) as -> by reflexivity.
  destruct rest as [|name rest _] using rev_ind.
  - rewrite app_nil_r. cbn [Str.join String.eqb].
    destruct dirs as [|name dirs _] using rev_ind; [reflexivity|].
    apply Forall_app in Hdirs as [Hdirs Hname]. apply Forall_inv in Hname.
    apply normalize_absolute; [reflexivity | exact Hname | |].
    + unfold absolutePath. destruct (join_last dirs name) as [x ->].
      exists ("/" +:+ x). rewrite append_assoc. reflexivity.
    + apply absolutePath_segments, Forall_app. auto.
  - pose proof Hrest as Hall. apply Forall_app in Hrest as [Hrest Hname]. apply Forall_inv in Hname.
    destruct (String.eqb_spec (Str.join "/" (rest ++ [name])) "") as [Hempty|_].
    { exfalso. apply (join_snoc_nonempty rest name); [apply Hname | exact Hempty]. }
    rewrite app_assoc. apply normalize_absolute; [reflexivity | exact Hname | |].
    + destruct (join_last rest name) as [x ->].
      exists (absolutePath dirs +:+ "/" +:+ x). rewrite !append_assoc. reflexivity.
    + rewrite normalizeSegments_names by exact Hall.
      rewrite absolutePath_segments by exact Hdirs. rewrite app_assoc. reflexivity.
Qed.

Lemma normalizeFilePath_inside_project_witness :
  normalizeFilePath "/tmp" "/home/app/lib/stack.ts" "/home/app" = "lib/stack.ts" /\
  Path.join "/home/app" (normalizeFilePath "/tmp" "/home/app/lib/stack.ts" "/home/app") =
    "/home/app/lib/stack.ts".
Proof.
  apply (normalizeFilePath_inside_project "/tmp" ["home"; "app"] ["lib"; "stack.ts"]);
    repeat constructor; discriminate.
Defined.

(** X19.  The test for a file of the project compares characters, not
    segments: the absolute path of a file in a directory beside the
    project, whose name starts with the name of the project directory,
    passes it, and [normalizeFilePath] gives a path that starts with [..]
    and leaves the project. *)
Theorem normalizeFilePath_sibling_directory workDir dirs d suffix rest :
  Forall segmentName dirs -> segmentName d -> segmentName (d +:+ suffix) -> suffix <> "" ->
  Forall segmentName rest ->
  normalizeFilePath workDir (absolutePath (dirs ++ (d +:+ suffix) :: rest))
                    (absolutePath (dirs ++ [d])) =
  Str.join "/" (".." :: (d +:+ suffix) :: rest).
Proof.
  intros Hdirs Hd Hsibling Hsuffix Hrest. unfold normalizeFilePath.
  assert (Path.isAbsolute (absolutePath (dirs ++ (d +:+ suffix) :: rest)) = true) as ->
      by reflexivity.
  assert (Str.startsWith (absolutePath (dirs ++ (d +:+ suffix) :: rest))
                         (absolutePath (dirs ++ [d])) = true) as ->.
  { unfold absolutePath. destruct (join_sibling_prefix d suffix rest dirs) as [t ->].
    rewrite <- append_assoc. apply startsWith_append. }
  unfold Path.relative, Path.resolveSegments.
  assert (Path.isAbsolute (absolutePath (dirs ++ (d +:+ suffix) :: rest)) = true) as ->
      by reflexivity.
  assert (Path.isAbsolute (absolutePath (dirs ++ [d])) = true) as -> by reflexivity.
  rewrite !absolutePath_segments
    by (apply Forall_app; split; [exact Hdirs | constructor; auto]).
  rewrite dropCommon_parts by (apply append_longer, Hsuffix). reflexivity.
Qed.

Lemma normalizeFilePath_sibling_directory_witness :
  normalizeFilePath "/tmp" "/home/app-old/lib/stack.ts" "/home/app" = "../app-old/lib/stack.ts".
Proof.
  apply (normalizeFilePath_sibling_directory "/tmp" ["home"] "app" "-old" ["lib"; "stack.ts"]);
    repeat constructor; discriminate.
Defined.

(** ** The repair of write-protected files *)

Section Backtracking.

#[local] Arguments String.append _ _ : simpl nomatch.

(** The loop of [[q]*] before any rest of the pattern. *)
Lemma star_greedy {R : Type} (q : ascii -> bool) (k : string -> option string -> option R) cap fuel :
  forall s, (String.length s <= fuel)%nat ->
  (fix star (fuel : nat) (s : string) (cap : option string) {struct fuel} : option R :=
     match fuel with
     | O => k s cap
     | S fuel' =>
         match Regex.rmatch (Regex.Chr q) s cap
                 (fun s' cap' =>
                    if (String.length s' <? String.length s)%nat
                    then star fuel' s' cap' else None) with
         | Some x => Some x
         | None => k s cap
         end
     end) fuel s cap = greedy q (fun s' => k s' cap) s.
Proof.
  induction fuel as [|fuel IH]; intros s Hlen.
  - destruct s as [|c s]; [reflexivity | cbn in Hlen; lia].
  - destruct s as [|c s]; [reflexivity|].
    cbn [Regex.rmatch greedy]. destruct (q c); [|reflexivity].
    replace (String.length s <? String.length (String c s))%nat with true
      by (symmetry; apply Nat.ltb_lt; cbn; lia).
    cbn in Hlen. pose proof (IH s ltac:(lia)) as IHs.
    match goal with
    | |- match ?m with _ => _ end = _ =>
        assert (m = greedy q (fun s' => k s' cap) s) as -> by exact IHs
    end.
    reflexivity.
Qed.

(** Before a rest that cannot start with a character of the class, the
    loop takes all the characters of the class. *)
Lemma greedy_disjoint {R : Type} q (k : string -> option R) s :
  (forall c s', q c = true -> k (String c s') = None) ->
  greedy q k s = k (skipClass q s).
Proof.
  intros Hk. induction s as [|c s IH]; [reflexivity|].
  cbn [greedy skipClass]. destruct (q c) eqn:Hc; [|reflexivity].
  rewrite IH. destruct (k (skipClass q s)); [reflexivity|]. apply Hk, Hc.
Qed.

(** A match of [[q0]([q]+)[q1]], when no character is both in [q] and in
    [q1]. *)
Lemma rmatch_quoted {R : Type} q0 q q1 (k : string -> option string -> option R) s cap :
  (forall c, q c = true -> q1 c = false) ->
  Regex.rmatch (Regex.Seq (Regex.Chr q0)
                  (Regex.Seq (Regex.Group (Regex.Plus (Regex.Chr q))) (Regex.Chr q1))) s cap k =
  match s with
  | String c0 (String c1 s2) =>
      if q0 c0 && q c1 then
        match skipClass q s2 with
        | String c s3 =>
            if q1 c then k s3 (Some (Regex.consumed (String c1 s2) (String c s3))) else None
        | EmptyString => None
        end
      else None
  | _ => None
  end.
Proof.
  intros Hdisjoint. unfold Regex.Plus. cbn [Regex.rmatch].
  destruct s as [|c0 s1]; [reflexivity|].
  destruct (q0 c0); [|destruct s1; reflexivity].
  destruct s1 as [|c1 s2]; [reflexivity|]. cbn [andb]. destruct (q c1); [|reflexivity].
  rewrite (star_greedy q
             (fun s' _ =>
                match s' with
                | String c s3 =>
                    if q1 c then k s3 (Some (Regex.consumed (String c1 s2) s')) else None
                | EmptyString => None
                end)) by lia.
  rewrite greedy_disjoint.
  - destruct (skipClass q s2) as [|c s3]; reflexivity.
  - intros c s' Hc. rewrite (Hdisjoint c Hc). reflexivity.
Qed.

Lemma skipClass_split q s :
  exists run, s = run +:+ skipClass q s /\ forall t, skipClass q (run +:+ t) = skipClass q t.
Proof.
  induction s as [|c s (run & Hs & Hrun)]; [exists ""; split; reflexivity|].
  cbn [skipClass]. destruct (q c) eqn:Hc.
  - exists (String c run). cbn [String.append]. split; [rewrite <- Hs; reflexivity|].
    intros t. cbn [skipClass]. rewrite Hc. apply Hrun.
  - exists "". split; reflexivity.
Qed.

Lemma startsWith_split p : forall s,
  Str.startsWith s p = true -> s = p +:+ Str.drop (String.length p) s.
Proof.
  induction p as [|c p IH]; intros s; [reflexivity|].
  destruct s as [|d s]; [discriminate|]. cbn [Str.startsWith String.length Str.drop String.append].
  destruct (Ascii.eqb_spec c d) as [->|]; [|discriminate].
  intros H. rewrite <- (IH s H). reflexivity.
Qed.

Lemma drop_append a b : Str.drop (String.length a) (a +:+ b) = b.
Proof. induction a as [|c a IH]; [reflexivity | exact IH]. Qed.

Lemma take_all a : Str.take (String.length a) a = a.
Proof. induction a as [|c a IH]; cbn; [reflexivity | rewrite IH; reflexivity]. Qed.

Lemma quotes_disjoint c : Regex.noneOf quoteChars c = true -> Regex.oneOf quoteChars c = false.
Proof. unfold Regex.noneOf, Regex.oneOf. destruct (Str.mem c quoteChars); [discriminate | reflexivity]. Qed.

(** What matches [/Cannot write file ['\x22]([^'\x22]+)['\x22]/] holds a
    match of [/['\x22]([^'\x22]+)['\x22]/]. *)
Lemma cannotWrite_holds_name s m :
  Regex.matchHere cannotWritePattern s = Some m ->
  exists m', Regex.search quotedName (Regex.whole m) = Some m'.
Proof.
  unfold Regex.matchHere, cannotWritePattern. cbn [Regex.rmatch]. rewrite rmatch_lit.
  destruct (Str.startsWith s "Cannot write file ") eqn:Hstart; [|discriminate].
  apply startsWith_split in Hstart.
  unfold quotedName. rewrite rmatch_quoted by exact quotes_disjoint.
  destruct (Str.drop (String.length "Cannot write file ") s) as [|c0 [|c1 s2]] eqn:Hdrop;
    try discriminate.
  destruct (Regex.oneOf quoteChars c0 && Regex.noneOf quoteChars c1) eqn:Hfirst; [|discriminate].
  destruct (skipClass_split (Regex.noneOf quoteChars) s2) as (run & Hs2 & Hrun).
  destruct (skipClass (Regex.noneOf quoteChars) s2) as [|c s3] eqn:Hskip; [discriminate|].
  destruct (Regex.oneOf quoteChars c) eqn:Hlast; [|discriminate].
  intros H. injection H as <-. cbn [Regex.whole].
  assert (Regex.consumed s s3 =
          "Cannot write file " +:+ String c0 (String c1 (run +:+ String c ""))) as ->.
  { unfold Regex.consumed.
    assert (s = ("Cannot write file " +:+ String c0 (String c1 (run +:+ String c ""))) +:+ s3)
      as Hs.
    { rewrite Hstart at 1. rewrite Hs2. rewrite append_assoc. cbn [String.append].
      rewrite append_assoc. reflexivity. }
    rewrite Hs at 2. rewrite Hs at 1. rewrite length_append, Nat.add_sub. apply take_append. }
  apply (search_found quotedName _ (String.length "Cannot write file ")
           (Regex.Found (String c0 (String c1 (run +:+ String c "")))
                        (Some (String c1 run)) "")).
  rewrite drop_append. unfold Regex.matchHere, quotedName.
  rewrite rmatch_quoted by exact quotes_disjoint. rewrite Hfirst, Hrun.
  cbn [skipClass]. 
  assert (Regex.noneOf quoteChars c = false) as ->
      by (unfold Regex.noneOf, Regex.oneOf in *; rewrite Hlast; reflexivity).
  rewrite Hlast. f_equal. f_equal.
  - unfold Regex.consumed. change (String.length "") with 0%nat. rewrite Nat.sub_0_r.
    apply take_all.
  - f_equal. unfold Regex.consumed.
    replace (String.length (String c1 (run +:+ String c "")) - String.length (String c ""))%nat
      with (String.length (String c1 run))
      by (cbn [String.length]; rewrite length_append; cbn [String.length]; lia).
    apply (take_append (String c1 run) (String c "")).
Qed.

(** Every match of a global search is a match at some place. *)
Lemma matchAllFrom_In r m fuel : forall s,
  In m (Regex.matchAllFrom fuel r s) -> exists t, Regex.matchHere r t = Some m.
Proof.
  induction fuel as [|fuel IH]; intros s; [intros []|].
  cbn [Regex.matchAllFrom].
  destruct (Regex.matchHere r s) as [m0|] eqn:Hm.
  - destruct (String.length (Regex.rest m0) <? String.length s)%nat.
    + intros [<-|Hin]; [eauto | apply (IH _ Hin)].
    + destruct s as [|c s]; (intros [<-|Hin]; [eauto|]); [destruct Hin | apply (IH _ Hin)].
  - destruct s as [|c s]; [intros [] | apply IH].
Qed.

End Backtracking.

Section Repair.

Variable w0 : world.
Variable names : list string.

(** What holds of the world during the repair. *)
Lemma makeWritable_outcome p w :
  In p names -> cwd w = cwd w0 -> repaired w0 names (fs w) ->
  let '(w', r) := makeWritable p w in
  r = Ret tt /\ cwd w' = cwd w0 /\ ticks w' = ticks w /\ repaired w0 names (fs w').
Proof.
  intros Hp Hcwd Hrep. unfold makeWritable, bind, Fs.existsSync.
  match goal with |- context [if ?b then _ else _] => destruct b end; [|cbn; auto].
  unfold tryCatch at 1. unfold bind, Fs.chmodWritable.
  destruct (fs w !! Fs.key w p) as [[|c b]|] eqn:Hk.
  - unfold Fs.existsSync.
    match goal with |- context [if ?b then _ else _] => destruct b end; [|cbn; auto].
    unfold tryCatch, Fs.accessWritable. rewrite Hk. cbn. auto.
  - unfold Fs.existsSync.
    assert (repaired w0 names (<[Fs.key w p := File c true]> (fs w))) as Hrep'.
    { intros k. destruct (decide (k = Fs.key w p)) as [->|Hne].
      - right. exists p, c. rewrite lookup_insert_eq.
        assert (Fs.key w p = Fs.key w0 p) as Hkey by (unfold Fs.key; rewrite Hcwd; reflexivity).
        destruct (Hrep (Fs.key w p)) as [Hsame|(name & c' & b' & _ & _ & H0 & Hw)].
        + exists b. rewrite <- Hsame. auto.
        + exists b'. rewrite Hw in Hk. injection Hk as <- _. auto.
      - rewrite lookup_insert_ne by congruence. apply Hrep. }
    match goal with |- context [if ?b then _ else _] => destruct b end; [|cbn; auto].
    unfold tryCatch, Fs.accessWritable.
    change (Fs.key (withFs (<[Fs.key w p := File c true]> (fs w)) w) p) with (Fs.key w p).
    change (fs (withFs (<[Fs.key w p := File c true]> (fs w)) w))
      with (<[Fs.key w p := File c true]> (fs w)).
    rewrite lookup_insert_eq. cbn. auto.
  - destruct (String.eqb (Fs.key w p) "/") eqn:Hroot; [|cbn; auto].
    unfold Fs.existsSync.
    match goal with |- context [if ?b then _ else _] => destruct b end; [|cbn; auto].
    unfold tryCatch, Fs.accessWritable. rewrite Hk, Hroot. cbn. auto.
Qed.

Lemma repairs_outcome (l : list string) : forall w,
  (forall matched, In matched l ->
     exists m, Regex.search quotedName matched = Some m /\ In (capture m) names) ->
  cwd w = cwd w0 -> repaired w0 names (fs w) ->
  let '(w', r) :=
    forEach l (fun matched =>
                 match Regex.search quotedName matched with
                 | Some m => makeWritable (capture m)
                 | None => throw (Error "Cannot read properties of null (reading '1')")
                 end) w in
  r = Ret tt /\ cwd w' = cwd w0 /\ ticks w' = ticks w /\ repaired w0 names (fs w').
Proof.
  induction l as [|matched l IH]; intros w Hl Hcwd Hrep; [cbn; auto|].
  cbn [forEach]. unfold bind at 1.
  destruct (Hl matched (or_introl eq_refl)) as (m & -> & Hin).
  pose proof (makeWritable_outcome (capture m) w Hin Hcwd Hrep) as Hstep.
  destruct (makeWritable (capture m) w) as [w1 r1].
  destruct Hstep as (-> & Hcwd1 & Hticks1 & Hrep1).
  specialize (IH w1 (fun x Hx => Hl x (or_intror Hx)) Hcwd1 Hrep1).
  destruct (forEach l _ w1) as [w2 r2]. rewrite <- Hticks1. exact IH.
Qed.

End Repair.



(** ** The run of the project generator *)

Section Commands.

Lemma runsAtMost_ret {A : Type} (a : A) : runsAtMost 0 (ret a).
Proof. intros w. cbn. lia. Qed.

Lemma runsAtMost_throw {A : Type} ex : runsAtMost 0 (@throw world A ex).
Proof. intros w. cbn. lia. Qed.

Lemma runsAtMost_more {A : Type} a b (m : IO A) : (a <= b)%nat -> runsAtMost a m -> runsAtMost b m.
Proof. intros Hab Hm w. specialize (Hm w). lia. Qed.

Lemma runsAtMost_bind {A B : Type} a b (m : IO A) (k : A -> IO B) :
  runsAtMost a m -> (forall x, runsAtMost b (k x)) -> runsAtMost (a + b) (bind m k).
Proof.
  intros Hm Hk w. unfold bind. specialize (Hm w).
  destruct (m w) as [w1 [x|ex]]; cbn [fst] in *; [|lia].
  specialize (Hk x w1). lia.
Qed.

Lemma runsAtMost_tryCatch {A : Type} a b (m : IO A) (h : exn -> IO A) :
  runsAtMost a m -> (forall ex, runsAtMost b (h ex)) -> runsAtMost (a + b) (tryCatch m h).
Proof.
  intros Hm Hh w. unfold tryCatch. specialize (Hm w).
  destruct (m w) as [w1 [x|ex]]; cbn [fst] in *; [lia|].
  specialize (Hh ex w1). lia.
Qed.

Lemma runsAtMost_readFile p : runsAtMost 0 (Fs.readFile p).
Proof. intros w. rewrite (proj1 (readFile_spec p w)). cbn. lia. Qed.

Lemma runsAtMost_writeFile p text : runsAtMost 0 (Fs.writeFile p text).
Proof.
  intros w. unfold Fs.writeFile.
  destruct (Str.endsWith p "/" || String.eqb (Fs.key w p) "/"); [cbn; lia|].
  destruct (negb (Fs.isDirAt (fs w) (Path.dirname (Fs.key w p)))); [cbn; lia|].
  destruct (fs w !! Fs.key w p) as [[|text0 [|]]|]; cbn; lia.
Qed.

Lemma runsAtMost_mkdirRecursive p : runsAtMost 0 (Fs.mkdirRecursive p).
Proof. intros w. unfold Fs.mkdirRecursive. destruct (Fs.mkdirAll _ _); cbn; lia. Qed.

Lemma runsAtMost_chdir d : runsAtMost 0 (Fs.chdir d).
Proof. intros w. unfold Fs.chdir. destruct (Fs.isDirAt _ _); cbn; lia. Qed.

Lemma runsAtMost_execPromise e command : runsAtMost 1 (execPromise e command).
Proof.
  intros w. unfold execPromise.
  destruct (runCommand e (ticks w) command (fs w)) as [f [out err|m out err]]; cbn; lia.
Qed.

Lemma runsAtMost_applyFix dir file : runsAtMost 0 (applyFix dir file).
Proof.
  unfold applyFix. destruct (Json.get "filename" file) as [[]|]; try apply runsAtMost_throw.
  apply (runsAtMost_bind 0 0); [apply runsAtMost_mkdirRecursive|]. intros _.
  destruct (Json.get "content" file) as [[]|]; try apply runsAtMost_throw.
  apply (runsAtMost_bind 0 0); [apply runsAtMost_writeFile | intros; apply runsAtMost_ret].
Qed.

Lemma runsAtMost_applyFixes dir files : runsAtMost 0 (applyFixes dir files).
Proof.
  induction files as [|file files IH]; [apply runsAtMost_ret|]. cbn [applyFixes].
  apply (runsAtMost_bind 0 0); [apply runsAtMost_applyFix|]. intros written.
  apply (runsAtMost_bind 0 0); [exact IH | intros; apply runsAtMost_ret].
Qed.

Lemma runsAtMost_writeDefault dir fileMap name text :
  runsAtMost 0 (PlantUml.writeDefault dir fileMap name text).
Proof.
  unfold PlantUml.writeDefault.
  destruct (PlantUml.listed fileMap name); [apply runsAtMost_ret | apply runsAtMost_writeFile].
Qed.

Lemma runsAtMost_createCdkProject dir files : runsAtMost 0 (PlantUml.createCdkProject dir files).
Proof.
  unfold PlantUml.createCdkProject.
  apply (runsAtMost_bind 0 0); [apply runsAtMost_mkdirRecursive|]. intros _.
  apply (runsAtMost_bind 0 0); [apply runsAtMost_applyFixes|]. intros _.
  unfold PlantUml.ensureEssentialFiles.
  destruct (PlantUml.fileMapFrom ∅ files) as [fileMap|ex]; [|apply runsAtMost_throw].
  repeat (apply (runsAtMost_bind 0 0); [apply runsAtMost_writeDefault | intros _]).
  apply runsAtMost_writeDefault.
Qed.

Lemma runsAtMost_installDependencies e dir : runsAtMost 1 (PlantUml.installDependencies e dir).
Proof.
  unfold PlantUml.installDependencies.
  apply (runsAtMost_tryCatch 1 0); [|intros; apply runsAtMost_throw].
  apply (runsAtMost_bind 0 1); [apply runsAtMost_chdir|]. intros _.
  apply (runsAtMost_bind 1 0); [apply runsAtMost_execPromise | intros; apply runsAtMost_ret].
Qed.

(** The deployment runs its three commands only when it was agreed to. *)
Lemma runsAtMost_deployCdkProject e o answer dir :
  runsAtMost (if PlantUml.opt_yes o || match answer with Ret true => true | _ => false end
              then 3 else 0)
             (PlantUml.deployCdkProject e o answer dir).
Proof.
  unfold PlantUml.deployCdkProject.
  assert (runsAtMost 3 (_ <- execPromise e "npm run cdk bootstrap" ;;
                        _ <- execPromise e "npm run cdk deploy --require-approval never" ;;
                        _ <- execPromise e "npm run cdk list-outputs" ;;
                        ret tt)) as Hthree.
  { apply (runsAtMost_bind 1 2); [apply runsAtMost_execPromise|]. intros _.
    apply (runsAtMost_bind 1 1); [apply runsAtMost_execPromise|]. intros _.
    apply (runsAtMost_bind 1 0); [apply runsAtMost_execPromise | intros; apply runsAtMost_ret]. }
  destruct (PlantUml.opt_yes o); cbn [negb orb].
  - apply (runsAtMost_tryCatch 3 0); [|intros; apply runsAtMost_throw].
    apply (runsAtMost_bind 0 3); [apply runsAtMost_chdir|]. intros _.
    apply (runsAtMost_bind 0 3); [apply runsAtMost_ret|]. intros [|]; [exact Hthree|].
    apply (runsAtMost_more 0); [lia | apply runsAtMost_ret].
  - destruct answer as [[|]|ex].
    + apply (runsAtMost_tryCatch 3 0); [|intros; apply runsAtMost_throw].
      apply (runsAtMost_bind 0 3); [apply runsAtMost_chdir|]. intros _.
      apply (runsAtMost_bind 0 3); [intros w; cbn; lia|]. intros [|]; [exact Hthree|].
      apply (runsAtMost_more 0); [lia | apply runsAtMost_ret].
    + apply (runsAtMost_tryCatch 0 0); [|intros; apply runsAtMost_throw].
      apply (runsAtMost_bind 0 0); [apply runsAtMost_chdir|]. intros _.
      intros w. cbn. lia.
    + apply (runsAtMost_tryCatch 0 0); [|intros; apply runsAtMost_throw].
      apply (runsAtMost_bind 0 0); [apply runsAtMost_chdir|]. intros _.
      intros w. cbn. lia.
Qed.

End Commands.

Section GeneratorRun.

Variable e : env.

(** What a call of [generateCdkCode] does to the world, and what it
    returns. *)
Lemma generateCdkCode_run plantUmlContent contextContent w :
  let '(w', r) := PlantUml.generateCdkCode e plantUmlContent contextContent w in
  (keyConfigured e = false -> w' = w /\ exists ex, r = Throw ex) /\
  (keyConfigured e = true -> w' = tick w) /\
  (forall files, r = Ret files -> exists items, files = Json.JArr items).
Proof.
  unfold PlantUml.generateCdkCode. destruct (keyConfigured e); cbn [negb].
  2:{ cbn. split; [eauto|]. split; [discriminate | discriminate]. }
  unfold tryCatch, bind, postPrompt.
  destruct (postMessage e (ticks w) _) as [text|m data].
  2:{ cbn. split; [discriminate|]. split; [reflexivity | discriminate]. }
  destruct (PlantUml.jsonMatch text) as [fragment|] eqn:Hmatch.
  2:{ cbn. split; [discriminate|]. split; [reflexivity | discriminate]. }
  apply jsonMatch_starts in Hmatch as [b ->].
  destruct (Json.parse (String "[" b)) as [files|] eqn:Hparse.
  2:{ cbn. split; [discriminate|]. split; [reflexivity | discriminate]. }
  cbn. split; [discriminate|]. split; [reflexivity|].
  intros files' H. injection H as <-. apply (parse_array _ _ Hparse).
Qed.

(** What follows the generation of the files in [main]. *)
Lemma afterGeneration_outcome o answer outputDir files w :
  let run :=
    (match files with
     | Json.JArr items => PlantUml.createCdkProject outputDir items
     | _ => Fs.mkdirRecursive outputDir >> throw (Error "files is not iterable")
     end >>
     _ <- PlantUml.installDependencies e outputDir ;;
     (if PlantUml.opt_deploy o
      then PlantUml.deployCdkProject e o answer outputDir
      else ret tt) >>
     ret PlantUml.Finished) w in
  (snd run = Ret PlantUml.Finished \/ exists ex, snd run = Throw ex) /\
  (ticks w <= ticks (fst run) <= ticks w + (if consent o answer then 4 else 1))%nat.
Proof.
  cbn zeta. split.
  - unfold bind.
    destruct (match files with
              | Json.JArr items => PlantUml.createCdkProject outputDir items
              | _ => _
              end w) as [w1 [[]|ex1]]; [|cbn; eauto].
    destruct (PlantUml.installDependencies e outputDir w1) as [w2 [ok|ex2]]; [|cbn; eauto].
    destruct ((if PlantUml.opt_deploy o
               then PlantUml.deployCdkProject e o answer outputDir
               else ret tt) w2) as [w3 [[]|ex3]]; cbn; eauto.
  - assert (runsAtMost 0 (match files with
                          | Json.JArr items => PlantUml.createCdkProject outputDir items
                          | _ => Fs.mkdirRecursive outputDir >> throw (Error "files is not iterable")
                          end)) as Hcreate.
    { destruct files; try apply runsAtMost_createCdkProject;
        (apply (runsAtMost_bind 0 0); [apply runsAtMost_mkdirRecursive |
                                       intros; apply runsAtMost_throw]). }
    assert (runsAtMost (if consent o answer then 3 else 0)
              (if PlantUml.opt_deploy o
               then PlantUml.deployCdkProject e o answer outputDir
               else ret tt)) as Hdeploy.
    { unfold consent. destruct (PlantUml.opt_deploy o); cbn [andb].
      - apply runsAtMost_deployCdkProject.
      - apply runsAtMost_ret. }
    destruct (consent o answer).
    + apply (runsAtMost_bind 0 4 _ _ Hcreate). intros _.
      apply (runsAtMost_bind 1 3); [apply runsAtMost_installDependencies|]. intros _.
      apply (runsAtMost_bind 3 0 _ _ Hdeploy). intros; apply runsAtMost_ret.
    + apply (runsAtMost_bind 0 1 _ _ Hcreate). intros _.
      apply (runsAtMost_bind 1 0); [apply runsAtMost_installDependencies|]. intros _.
      apply (runsAtMost_bind 0 0 _ _ Hdeploy). intros; apply runsAtMost_ret.
Qed.

(** The reading of the context file changes nothing but the record of the
    files read, and returns. *)
Lemma context_outcome (o : PlantUml.options) w :
  exists w2 contextContent,
    match PlantUml.opt_context o with
    | Some context =>
        if negb (String.eqb context "")
        then tryCatch (Fs.readFile context) (fun _ => ret "")
        else ret ""
    | None => ret ""
    end w = (w2, Ret contextContent) /\
    fs w2 = fs w /\ cwd w2 = cwd w /\ ticks w2 = ticks w.
Proof.
  destruct (PlantUml.opt_context o) as [context|]; [|exists w, ""; auto].
  destruct (negb (String.eqb context "")); [|exists w, ""; auto].
  unfold tryCatch. pose proof (proj1 (readFile_spec context w)) as Hw.
  destruct (Fs.readFile context w) as [w2 [text|ex]]; cbn [fst] in Hw; subst w2.
  - exists (addRead context w), text. auto.
  - exists (addRead context w), "". auto.
Qed.

End GeneratorRun.

Lemma plantuml_main_run e o answer w :
  let '(w', r) := PlantUml.main e o answer w in
  (r = Ret PlantUml.Finished \/ r = Ret (PlantUml.Exited 1) \/ r = Ret PlantUml.Help) /\
  (r = Ret PlantUml.Help <->
   PlantUml.opt_input o = None \/ PlantUml.opt_input o = Some "") /\
  (r = Ret PlantUml.Help -> w' = w) /\
  ((fs w' = fs w /\ cwd w' = cwd w /\ r <> Ret PlantUml.Finished /\
    (ticks w' <= ticks w + 1)%nat) \/
   (exists plantUmlContent contextContent w2 items,
       fs w2 = fs w /\ cwd w2 = cwd w /\ ticks w2 = ticks w /\
       PlantUml.generateCdkCode e plantUmlContent contextContent w2 =
       (tick w2, Ret (Json.JArr items)))) /\
  (keyConfigured e = false ->
   r <> Ret PlantUml.Finished /\ fs w' = fs w /\ ticks w' = ticks w) /\
  (ticks w <= ticks w' <= ticks w + (if consent o answer then 5 else 2))%nat.
Proof.
  unfold PlantUml.main. unfold tryCatch. unfold PlantUml.mainBody.
  destruct (PlantUml.opt_input o) as [inputPath|] eqn:Hinput.
  2:{ cbn [ret fst snd].
      split; [auto|]. split; [split; auto|]. split; [reflexivity|].
      split; [left; split; [reflexivity|]; split; [reflexivity|]; split; [discriminate | lia]|].
      split; [intros _; split; [discriminate|]; split; reflexivity|].
      destruct (consent o answer); lia. }
  destruct (String.eqb_spec inputPath "") as [->|Hne].
  { cbn [ret fst snd].
    split; [auto|]. split; [split; auto|]. split; [reflexivity|].
    split; [left; split; [reflexivity|]; split; [reflexivity|]; split; [discriminate | lia]|].
    split; [intros _; split; [discriminate|]; split; reflexivity|].
    destruct (consent o answer); lia. }
  assert (forall r : outcome PlantUml.ending,
             r <> Ret PlantUml.Help ->
             r = Ret PlantUml.Help <-> Some inputPath = None \/ Some inputPath = Some "")
    as Hhelp.
  { intros r Hr. split; [contradiction|]. intros [H|H]; [discriminate | congruence]. }
  unfold bind at 1. pose proof (proj1 (readFile_spec inputPath w)) as Hw1.
  destruct (Fs.readFile inputPath w) as [w1 [plantUmlContent|ex1]]; cbn [fst] in Hw1; subst w1.
  2:{ cbn [fst snd ret addRead fs cwd ticks].
      split; [auto|]. split; [apply Hhelp; discriminate|]. split; [discriminate|].
      split; [left; repeat split; [discriminate | lia]|].
      split; [intros _; repeat split; discriminate | destruct (consent o answer); lia]. }
  unfold bind at 1.
  destruct (context_outcome o (addRead inputPath w)) as (w2 & contextContent & -> & Hfs2 & Hcwd2 & Ht2).
  cbn [addRead fs cwd ticks] in Hfs2, Hcwd2, Ht2.
  unfold bind at 1.
  pose proof (generateCdkCode_run e plantUmlContent contextContent w2) as Hgen.
  destruct (PlantUml.generateCdkCode e plantUmlContent contextContent w2) as [w3 [files|ex3]] eqn:Hcall.
  2:{ destruct Hgen as (Hnokey & Hkey & _).
      assert (fs w3 = fs w /\ cwd w3 = cwd w /\ (ticks w <= ticks w3 <= ticks w + 1)%nat /\
              (keyConfigured e = false -> ticks w3 = ticks w)) as (Hfs3 & Hcwd3 & Ht3 & Hk3).
      { destruct (keyConfigured e).
        - rewrite (Hkey eq_refl). cbn [tick fs cwd ticks].
          split; [exact Hfs2|]. split; [exact Hcwd2|]. split; [lia | discriminate].
        - destruct (Hnokey eq_refl) as [-> _].
          split; [exact Hfs2|]. split; [exact Hcwd2|]. split; [lia | intros _; exact Ht2]. }
      cbn [fst snd ret].
      split; [auto|]. split; [apply Hhelp; discriminate|]. split; [discriminate|].
      split; [left; split; [exact Hfs3|]; split; [exact Hcwd3|]; split; [discriminate | lia]|].
      split; [intros Hk; split; [discriminate|]; split; [exact Hfs3 | exact (Hk3 Hk)]|].
      destruct (consent o answer); lia. }
  destruct Hgen as (Hnokey & Hkey & Harray).
  destruct (Harray files eq_refl) as [items ->].
  assert (keyConfigured e = true) as Hconfigured.
  { destruct (keyConfigured e); [reflexivity|]. destruct (Hnokey eq_refl) as [_ [ex Hex]]. discriminate. }
  rewrite (Hkey Hconfigured) in *.
  unfold bind at 1. cbn [getCwd].
  pose proof (afterGeneration_outcome e o answer (Path.resolve (cwd (tick w2)) (PlantUml.opt_output o))
                (Json.JArr items) (tick w2)) as Hrest.
  cbn zeta in Hrest. cbn [tick ticks] in Hrest.
  match type of Hrest with
  | context [snd (?m ?x)] => destruct (m x) as [w4 r4]
  end.
  cbn [fst snd] in Hrest. destruct Hrest as [Hend Hticks].
  assert (exists r, (let (w', o0) := (w4, r4) in
                     match o0 with
                     | Ret a => (w', Ret a)
                     | Throw _ => ret (PlantUml.Exited 1) w'
                     end) = (w4, r) /\
                    (r = Ret PlantUml.Finished \/ r = Ret (PlantUml.Exited 1))) as (r & -> & Hr).
  { destruct Hend as [->|[ex ->]]; eexists; split; try reflexivity; auto. }
  cbn [fst snd].
  split; [tauto|].
  split; [apply Hhelp; destruct Hr as [->| ->]; discriminate|].
  split; [destruct Hr as [->| ->]; discriminate|].
  split; [right; exists plantUmlContent, contextContent, w2, items; auto|].
  split; [rewrite Hconfigured; discriminate|].
  destruct (consent o answer); lia.
Qed.

(** Two computations that do the same in a world and go on alike do the
    same as a whole. *)
Lemma bind_same {S A B : Type} (m1 m2 : M S A) (k1 k2 : A -> M S B) s :
  m1 s = m2 s ->
  (forall a s', m1 s = (s', Ret a) -> k1 a s' = k2 a s') ->
  bind m1 k1 s = bind m2 k2 s.
Proof.
  intros Hm Hk. unfold bind. rewrite <- Hm.
  destruct (m1 s) as [s' [a|ex]]; [apply Hk|]; reflexivity.
Qed.

Lemma tryCatch_same {S A : Type} (m1 m2 : M S A) (h1 h2 : exn -> M S A) s :
  m1 s = m2 s ->
  (forall ex s', m1 s = (s', Throw ex) -> h1 ex s' = h2 ex s') ->
  tryCatch m1 h1 s = tryCatch m2 h2 s.
Proof.
  intros Hm Hh. unfold tryCatch. rewrite <- Hm.
  destruct (m1 s) as [s' [a|ex]]; [|apply Hh]; reflexivity.
Qed.

Section SameAnswers.

Variables e1 e2 : env.
Variable commands : list string.

Hypothesis Hkey : apiKey e1 = apiKey e2.
Hypothesis Hcommands :
  forall k command f, In command commands -> runCommand e1 k command f = runCommand e2 k command f.

Lemma execPromise_same command w :
  In command commands -> execPromise e1 command w = execPromise e2 command w.
Proof. intros Hin. unfold execPromise. rewrite (Hcommands _ _ _ Hin). reflexivity. Qed.

Lemma generateCdkCode_same plantUmlContent contextContent w :
  (forall prompt, postMessage e1 (ticks w) prompt = postMessage e2 (ticks w) prompt) ->
  PlantUml.generateCdkCode e1 plantUmlContent contextContent w =
  PlantUml.generateCdkCode e2 plantUmlContent contextContent w.
Proof.
  intros Hpost. unfold PlantUml.generateCdkCode, keyConfigured. rewrite Hkey.
  destruct (negb _); [reflexivity|].
  unfold tryCatch, bind, postPrompt. rewrite Hpost. reflexivity.
Qed.

Lemma installDependencies_same dir w :
  In "npm install" commands ->
  PlantUml.installDependencies e1 dir w = PlantUml.installDependencies e2 dir w.
Proof.
  intros Hin. unfold PlantUml.installDependencies.
  apply tryCatch_same; [|reflexivity].
  apply bind_same; [reflexivity|]. intros _ w1 _.
  apply bind_same; [apply execPromise_same, Hin | reflexivity].
Qed.

Lemma deployCdkProject_same o answer dir w :
  (consent o answer = true -> forall command, In command deployCommands -> In command commands) ->
  PlantUml.opt_deploy o = true ->
  PlantUml.deployCdkProject e1 o answer dir w = PlantUml.deployCdkProject e2 o answer dir w.
Proof.
  intros Hin Hdeploy. unfold PlantUml.deployCdkProject.
  apply tryCatch_same; [|reflexivity].
  apply bind_same; [reflexivity|]. intros _ w1 _.
  apply bind_same; [reflexivity|]. intros proceed w2 Hproceed.
  destruct proceed; [|reflexivity].
  assert (consent o answer = true) as Hconsent.
  { unfold consent. rewrite Hdeploy. cbn [andb].
    destruct (PlantUml.opt_yes o); [reflexivity|]. cbn [negb orb] in *.
    injection Hproceed as _ ->. reflexivity. }
  specialize (Hin Hconsent).
  apply bind_same; [apply execPromise_same, Hin; cbn; auto|]. intros _ w3 _.
  apply bind_same; [apply execPromise_same, Hin; cbn; auto|]. intros _ w4 _.
  apply bind_same; [apply execPromise_same, Hin; cbn; auto | reflexivity].
Qed.

End SameAnswers.

(** The run of [main] asks the environment for the key, for one reply and
    for the outcomes of its commands, and for nothing else. *)
Lemma plantuml_main_same e e2 o answer w :
  sameAnswers (ticks w) (commandsOf o answer) e e2 ->
  PlantUml.main e2 o answer w = PlantUml.main e o answer w.
Proof.
  intros (Hkey & Hpost & Hcommands). symmetry. unfold PlantUml.main.
  apply tryCatch_same; [|reflexivity]. unfold PlantUml.mainBody.
  destruct (PlantUml.opt_input o) as [inputPath|]; [|reflexivity].
  destruct (String.eqb inputPath ""); [reflexivity|].
  apply bind_same; [reflexivity|]. intros plantUmlContent w1 Hread.
  assert (ticks w1 = ticks w) as Ht1.
  { pose proof (proj1 (readFile_spec inputPath w)) as Hw. rewrite Hread in Hw.
    cbn [fst] in Hw. subst w1. reflexivity. }
  apply bind_same; [reflexivity|]. intros contextContent w2 Hcontext.
  assert (ticks w2 = ticks w) as Ht2.
  { destruct (context_outcome o w1) as (w2' & c & Hc & _ & _ & Ht). rewrite Hc in Hcontext.
    injection Hcontext as -> _. congruence. }
  apply bind_same.
  { apply (generateCdkCode_same e e2 Hkey). rewrite Ht2. exact Hpost. }
  intros files w3 _.
  apply bind_same; [reflexivity|]. intros workDir w4 _.
  apply bind_same; [reflexivity|]. intros _ w5 _.
  apply bind_same.
  { apply (installDependencies_same e e2 (commandsOf o answer) Hcommands). left. reflexivity. }
  intros _ w6 _.
  apply bind_same; [|reflexivity].
  destruct (PlantUml.opt_deploy o) eqn:Hdeploy; [|reflexivity].
  apply (deployCdkProject_same e e2 (commandsOf o answer) Hcommands); [|exact Hdeploy].
  intros Hconsent command Hin. unfold commandsOf. rewrite Hconsent. right. exact Hin.
Qed.

(** X21.  The [main] of the project generator never throws: it ends by
    returning, by [process.exit(1)] or, exactly when no input file is
    named, with the help of the program and the world as it was.  Until a
    reply has been parsed as a JSON array it changes neither the file
    system nor the working directory, and it does not return.  Without an
    API key it sends no request and runs no command.  A run has at most
    one request and four commands as its interactions, and at most one
    request and one command without the option to deploy, or without the
    agreement to it.  What it asks of its environment is the key, the
    reply to one request, which is its first interaction, and the outcome
    of [npm install] and, with the option to deploy and the agreement to
    it, of the three commands of the deployment: in an environment that
    answers these alike, whatever it does with another request or another
    command, the run is the same.  So no other command is run, and none
    of the deployment without the agreement to it. *)
Theorem plantuml_main_outcomes e o answer w :
  let run := PlantUml.main e o answer w in
  (snd run = Ret PlantUml.Finished \/ snd run = Ret (PlantUml.Exited 1) \/
   snd run = Ret PlantUml.Help) /\
  (snd run = Ret PlantUml.Help <->
   PlantUml.opt_input o = None \/ PlantUml.opt_input o = Some "") /\
  (snd run = Ret PlantUml.Help -> fst run = w) /\
  ((fs (fst run) = fs w /\ cwd (fst run) = cwd w /\ snd run <> Ret PlantUml.Finished /\
    (ticks (fst run) <= ticks w + 1)%nat) \/
   (exists plantUmlContent contextContent w2 items,
       fs w2 = fs w /\ cwd w2 = cwd w /\ ticks w2 = ticks w /\
       PlantUml.generateCdkCode e plantUmlContent contextContent w2 =
       (tick w2, Ret (Json.JArr items)))) /\
  (keyConfigured e = false ->
   snd run <> Ret PlantUml.Finished /\ fs (fst run) = fs w /\ ticks (fst run) = ticks w) /\
  (ticks w <= ticks (fst run) <= ticks w + 1 + (if consent o answer then 4 else 1))%nat /\
  (forall e2,
      sameAnswers (ticks w) (commandsOf o answer) e e2 ->
      PlantUml.main e2 o answer w = run).
Proof.
  cbn zeta. pose proof (plantuml_main_run e o answer w) as H.
  pose proof (fun e2 => plantuml_main_same e e2 o answer w) as Hsame.
  destruct (PlantUml.main e o answer w) as [w' r]. cbn [fst snd].
  destruct H as (H1 & H2 & H3 & H4 & H5 & H6).
  split; [exact H1|]. split; [exact H2|]. split; [exact H3|]. split; [exact H4|].
  split; [exact H5|]. split; [destruct (consent o answer); lia|].
  intros e2 He2. apply Hsame, He2.
Qed.

(** ** Patterns on a longer text *)

Section Extension.

#[local] Arguments String.append _ _ : simpl nomatch.

Lemma rmatch_star {R : Type} r s cap (k : string -> option string -> option R) :
  Regex.rmatch (Regex.Star r) s cap k = starLoop r k (String.length s) s cap.
Proof. reflexivity. Qed.

(** A match before a continuation that always fails fails. *)
Lemma rmatch_fail {R : Type} r : forall s cap (k : string -> option string -> option R),
  (forall s' cap', k s' cap' = None) -> Regex.rmatch r s cap k = None.
Proof.
  induction r as [|p|r1 IH1 r2 IH2|r1 IH1 r2 IH2|r IH|r IH]; intros s cap k Hk.
  - apply Hk.
  - cbn. destruct s as [|c s]; [reflexivity|]. destruct (p c); [apply Hk | reflexivity].
  - cbn [Regex.rmatch]. apply IH1. intros s' cap'. apply IH2, Hk.
  - cbn [Regex.rmatch]. rewrite (IH1 _ _ _ Hk). apply IH2, Hk.
  - rewrite rmatch_star. generalize (String.length s) as fuel. intros fuel. revert s cap.
    induction fuel as [|fuel IHf]; intros s cap; cbn [starLoop]; [apply Hk|].
    rewrite IH; [apply Hk|]. intros s' cap'.
    destruct (String.length s' <? String.length s)%nat; [apply IHf | reflexivity].
  - cbn [Regex.rmatch]. apply IH. intros s' cap'. apply Hk.
Qed.

Lemma take_app_le n : forall s t, (n <= String.length s)%nat -> Str.take n (s +:+ t) = Str.take n s.
Proof.
  induction n as [|n IH]; intros s t Hn; [reflexivity|].
  destruct s as [|c s]; [cbn in Hn; lia|]. cbn [String.append Str.take].
  rewrite IH by (cbn in Hn; lia). reflexivity.
Qed.

Lemma consumed_append s s' t : Regex.consumed (s +:+ t) (s' +:+ t) = Regex.consumed s s'.
Proof.
  unfold Regex.consumed. rewrite !length_append.
  replace (String.length s + String.length t - (String.length s' + String.length t))%nat
    with (String.length s - String.length s')%nat by lia.
  apply take_app_le. lia.
Qed.

(** A pattern on a text that goes on with a character it does not know:
    the match is the match on the text before that character. *)
Lemma rmatch_extend {R1 R2 : Type} (f : R2 -> R1) c0 t r :
  rejects c0 r = true ->
  forall s cap (k1 : string -> option string -> option R1)
         (k2 : string -> option string -> option R2),
    (forall s' cap', k1 (s' +:+ String c0 t) cap' = option_map f (k2 s' cap')) ->
    Regex.rmatch r (s +:+ String c0 t) cap k1 = option_map f (Regex.rmatch r s cap k2).
Proof.
  induction r as [|p|r1 IH1 r2 IH2|r1 IH1 r2 IH2|r IH|r IH]; cbn [rejects]; intros Hrej s cap k1 k2 Hk.
  - apply (Hk s cap).
  - apply negb_true_iff in Hrej. destruct s as [|c s]; cbn [String.append Regex.rmatch].
    + rewrite Hrej. reflexivity.
    + destruct (p c); [apply Hk | reflexivity].
  - apply andb_true_iff in Hrej as [H1 H2]. cbn [Regex.rmatch].
    apply (IH1 H1). intros s' cap'. apply (IH2 H2), Hk.
  - apply andb_true_iff in Hrej as [H1 H2]. cbn [Regex.rmatch].
    rewrite (IH1 H1 s cap k1 k2 Hk), (IH2 H2 s cap k1 k2 Hk).
    destruct (Regex.rmatch r1 s cap k2); reflexivity.
  - rewrite !rmatch_star.
    assert (forall fuel2 fuel1 s cap,
               (String.length s <= fuel2)%nat ->
               (String.length (s +:+ String c0 t) <= fuel1)%nat ->
               starLoop r k1 fuel1 (s +:+ String c0 t) cap =
               option_map f (starLoop r k2 fuel2 s cap)) as Hloop;
      [|apply Hloop; lia].
    clear s cap. induction fuel2 as [|fuel2 IHf]; intros fuel1 s cap H2 H1.
    + destruct s as [|c s]; [|cbn in H2; lia]. cbn [starLoop].
      destruct fuel1 as [|fuel1]; [cbn in H1; lia|]. cbn [starLoop].
      rewrite (IH Hrej "" cap _ (fun _ _ => @None R2)).
      * rewrite rmatch_fail by reflexivity. apply (Hk "" cap).
      * intros s' cap'. rewrite length_append.
        replace (String.length s' + String.length (String c0 t) <?
                 String.length ("" +:+ String c0 t))%nat with false; [reflexivity|].
        symmetry. apply Nat.ltb_ge. cbn. lia.
    + destruct fuel1 as [|fuel1]; [rewrite length_append in H1; cbn in H1; lia|].
      cbn [starLoop].
      rewrite (IH Hrej s cap _
                 (fun s' cap' =>
                    if (String.length s' <? String.length s)%nat
                    then starLoop r k2 fuel2 s' cap' else None)).
      * destruct (Regex.rmatch r s cap _); [reflexivity | apply Hk].
      * intros s' cap'. rewrite !length_append.
        replace (String.length s' + String.length (String c0 t) <?
                 String.length s + String.length (String c0 t))%nat
          with (String.length s' <? String.length s)%nat
          by (destruct (Nat.ltb_spec (String.length s') (String.length s));
              symmetry; [apply Nat.ltb_lt | apply Nat.ltb_ge]; lia).
        destruct (Nat.ltb_spec (String.length s') (String.length s)); [|reflexivity].
        apply IHf; [lia|]. rewrite length_append in *. lia.
  - cbn [Regex.rmatch]. apply (IH Hrej). intros s' cap'.
    rewrite consumed_append. apply Hk.
Qed.

(** A match goes on in the same way when the text goes on with such a
    character. *)
Lemma matchHere_extend r c0 t s :
  rejects c0 r = true ->
  Regex.matchHere r (s +:+ String c0 t) =
  option_map (fun m => Regex.Found (Regex.whole m) (Regex.group1 m) (Regex.rest m +:+ String c0 t))
             (Regex.matchHere r s).
Proof.
  intros Hrej. unfold Regex.matchHere. apply (rmatch_extend _ c0 t r Hrej).
  intros s' cap'. cbn [option_map Regex.whole Regex.group1 Regex.rest].
  rewrite consumed_append. reflexivity.
Qed.

End Extension.

(** ** What [JSON.stringify] writes, [JSON.parse] reads *)

Section JsonTexts.

#[local] Arguments String.append _ _ : simpl nomatch.

(** One character of a string, as it is written and read. *)
Lemma parseChars_escapeChar c t :
  Json.parseChars (Json.escapeChar c +:+ t) =
  match Json.parseChars t with
  | Some (u, r) => Some (String c u, r)
  | None => None
  end.
Proof.
  destruct c as [b0 b1 b2 b3 b4 b5 b6 b7].
  destruct b0, b1, b2, b3, b4, b5, b6, b7; reflexivity.
Qed.

Lemma parseChars_escape s t :
  Json.parseChars (Json.escape s +:+ String (Str.chr 34) t) = Some (s, t).
Proof.
  induction s as [|c s IH]; [reflexivity|].
  cbn [Json.escape]. rewrite append_assoc, parseChars_escapeChar, IH. reflexivity.
Qed.

Lemma quote_text s t :
  Json.quote s +:+ t = String (Str.chr 34) (Json.escape s +:+ String (Str.chr 34) t).
Proof.
  unfold Json.quote, Str.dquote, Str.single. cbn [String.append].
  rewrite append_assoc. reflexivity.
Qed.

Lemma skipWs_spaces n s : Json.skipWs (Json.spaces n +:+ s) = Json.skipWs s.
Proof. induction n as [|n IH]; [reflexivity | exact IH]. Qed.

Lemma skipWs_nl s : Json.skipWs (Str.nl +:+ s) = Json.skipWs s.
Proof. reflexivity. Qed.

(** White space in front of a value is skipped. *)
Lemma parseValue_skipWs fuel s : Json.parseValue fuel (Json.skipWs s) = Json.parseValue fuel s.
Proof.
  destruct fuel as [|fuel]; [reflexivity|].
  induction s as [|c s IH]; [reflexivity|].
  cbn [Json.skipWs]. destruct (Json.isWs c) eqn:Hc; [|reflexivity].
  rewrite IH. cbn [Json.parseValue Json.skipWs]. rewrite Hc. reflexivity.
Qed.

Lemma parseValue_spaces fuel n s :
  Json.parseValue fuel (Json.spaces n +:+ s) = Json.parseValue fuel s.
Proof. rewrite <- parseValue_skipWs, skipWs_spaces. apply parseValue_skipWs. Qed.

Lemma parseValue_nl fuel s : Json.parseValue fuel (Str.nl +:+ s) = Json.parseValue fuel s.
Proof. rewrite <- parseValue_skipWs, skipWs_nl. apply parseValue_skipWs. Qed.

(** The start of a number. *)
Lemma numberLexeme_start n :
  numberLexeme n = true -> exists c n', n = String c n' /\ numberStart c = true.
Proof.
  intros H. destruct n as [|c n']; [vm_compute in H; discriminate H|].
  exists c, n'. split; [reflexivity|].
  destruct (numberStart c) eqn:Hstart; [reflexivity|]. exfalso.
  destruct c as [b0 b1 b2 b3 b4 b5 b6 b7].
  destruct b0, b1, b2, b3, b4, b5, b6, b7; try discriminate Hstart;
    vm_compute in H; discriminate H.
Qed.

(** A number before what follows a value is read as that number. *)
Lemma number_extend n rest :
  numberLexeme n = true -> stops rest ->
  Regex.matchHere Json.numberPattern (n +:+ rest) = Some (Regex.Found n None rest).
Proof.
  unfold numberLexeme. intros H Hstops.
  destruct (Regex.matchHere Json.numberPattern n) as [[whole [g|] [|c r]]|] eqn:Hm;
    try discriminate H.
  apply String.eqb_eq in H. subst whole.
  destruct rest as [|c0 t]; [rewrite append_nil_r; exact Hm|].
  rewrite matchHere_extend, Hm; [reflexivity|].
  destruct Hstops as [->| ->]; reflexivity.
Qed.

Lemma parseValue_numberStart fuel c s :
  numberStart c = true ->
  Json.parseValue (S fuel) (String c s) =
  match Regex.matchHere Json.numberPattern (String c s) with
  | Some m => Some (Json.JNum (Regex.whole m), Regex.rest m)
  | None => None
  end.
Proof.
  intros Hstart. destruct c as [b0 b1 b2 b3 b4 b5 b6 b7].
  destruct b0, b1, b2, b3, b4, b5, b6, b7; try discriminate Hstart; reflexivity.
Qed.

Lemma parseValue_number fuel n rest :
  numberLexeme n = true -> stops rest ->
  Json.parseValue (S fuel) (n +:+ rest) = Some (Json.JNum n, rest).
Proof.
  intros Hn Hstops. pose proof (number_extend n rest Hn Hstops) as Hm.
  destruct (numberLexeme_start n Hn) as (c & n' & -> & Hstart).
  cbn [String.append] in *. rewrite parseValue_numberStart by exact Hstart.
  rewrite Hm. reflexivity.
Qed.

(** The text of a value starts with a character of its own. *)
Lemma stringifyAt_start indent j :
  canonical j = true ->
  exists c u, Json.stringifyAt indent j = String c u /\ valueStart c = true.
Proof.
  intros Hj. destruct j as [|[|]|n|s|[|x items]|[|kv fields]];
    try (eexists _, _; split; reflexivity).
  destruct (numberLexeme_start n Hj) as (c & n' & -> & Hstart).
  exists c, n'. split; [reflexivity|]. unfold valueStart. rewrite Hstart. reflexivity.
Qed.

Lemma parseValue_array fuel s1 :
  Json.parseValue (S fuel) (String "[" s1) =
  match Json.skipWs s1 with
  | String "]" rest => Some (Json.JArr [], rest)
  | _ => parseElements fuel (String.length s1) s1 []
  end.
Proof. reflexivity. Qed.

Lemma parseValue_object fuel s1 :
  Json.parseValue (S fuel) (String "{" s1) =
  match Json.skipWs s1 with
  | String "}" rest => Some (Json.JObj [], rest)
  | _ => parseMembers fuel (String.length s1) s1 []
  end.
Proof. reflexivity. Qed.

Lemma parseElements_S fuel n s acc :
  parseElements fuel (S n) s acc =
  match Json.parseValue fuel s with
  | Some (v, rest) =>
      match Json.skipWs rest with
      | String "," rest' => parseElements fuel n rest' (v :: acc)
      | String "]" rest' => Some (Json.JArr (rev (v :: acc)), rest')
      | _ => None
      end
  | None => None
  end.
Proof. reflexivity. Qed.

Lemma parseMembers_S fuel n s acc :
  parseMembers fuel (S n) s acc =
  match Json.skipWs s with
  | String q s1 =>
      if Ascii.eqb q (Str.chr 34) then
        match Json.parseChars s1 with
        | Some (key, s2) =>
            match Json.skipWs s2 with
            | String ":" s3 =>
                match Json.parseValue fuel s3 with
                | Some (v, rest) =>
                    match Json.skipWs rest with
                    | String "," rest' => parseMembers fuel n rest' ((key, v) :: acc)
                    | String "}" rest' => Some (Json.JObj (rev ((key, v) :: acc)), rest')
                    | _ => None
                    end
                | None => None
                end
            | _ => None
            end
        | None => None
        end
      else None
  | EmptyString => None
  end.
Proof. reflexivity. Qed.

(** The loop over the elements of an array, on the text of an array. *)
Lemma parseElements_text fuel indent rest items : forall acc n,
  (forall x, In x items ->
     forall more, stops more ->
       Json.parseValue fuel (Json.stringifyAt (indent + 2) x +:+ more) = Some (x, more)) ->
  items <> [] -> (length items <= n)%nat ->
  parseElements fuel n
    (Str.nl +:+
     Str.join ("," +:+ Str.nl)
       (map (fun x => Json.spaces (indent + 2) +:+ Json.stringifyAt (indent + 2) x) items) +:+
     Str.nl +:+ Json.spaces indent +:+ "]" +:+ rest) acc =
  Some (Json.JArr (rev acc ++ items), rest).
Proof.
  induction items as [|x items IH]; intros acc n Hx Hne Hn; [contradiction|].
  destruct n as [|n]; [cbn in Hn; lia|].
  rewrite parseElements_S, parseValue_nl.
  destruct items as [|y items].
  - cbn [map Str.join]. rewrite !append_assoc, parseValue_spaces.
    rewrite (Hx x (or_introl eq_refl)) by (left + right; reflexivity).
    rewrite skipWs_nl, skipWs_spaces. reflexivity.
  - cbn [map]. rewrite join_cons, !append_assoc, parseValue_spaces.
    rewrite (Hx x (or_introl eq_refl)) by (left; reflexivity).
    cbn [String.append Json.skipWs].
    change (Json.isWs ",") with false. cbv iota.
    assert (length (y :: items) <= n)%nat as Hn' by (cbn in Hn |- *; lia).
    specialize (IH (x :: acc) n (fun z Hz => Hx z (or_intror Hz)) ltac:(discriminate) Hn').
    etransitivity; [exact IH|]. cbn [rev]. rewrite <- app_assoc. reflexivity.
Qed.

(** The loop over the members of an object, on the text of an object. *)
Lemma parseMembers_text fuel indent rest fields : forall acc n,
  (forall kv, In kv fields ->
     forall more, stops more ->
       Json.parseValue fuel (Json.stringifyAt (indent + 2) (snd kv) +:+ more) =
       Some (snd kv, more)) ->
  fields <> [] -> (length fields <= n)%nat ->
  parseMembers fuel n
    (Str.nl +:+
     Str.join ("," +:+ Str.nl)
       (map (fun kv => Json.spaces (indent + 2) +:+ Json.quote (fst kv) +:+ ": " +:+
                       Json.stringifyAt (indent + 2) (snd kv)) fields) +:+
     Str.nl +:+ Json.spaces indent +:+ "}" +:+ rest) acc =
  Some (Json.JObj (rev acc ++ fields), rest).
Proof.
  induction fields as [|[key v] fields IH]; intros acc n Hx Hne Hn; [contradiction|].
  destruct n as [|n]; [cbn in Hn; lia|].
  rewrite parseMembers_S, skipWs_nl.
  destruct fields as [|kv fields].
  - cbn [map Str.join fst snd]. rewrite !append_assoc, skipWs_spaces, quote_text.
    cbn [Json.skipWs]. change (Json.isWs (Str.chr 34)) with false. cbv iota.
    rewrite Ascii.eqb_refl, parseChars_escape.
    cbn [String.append Json.skipWs]. change (Json.isWs ":") with false. cbv iota.
    change (String " " (Json.stringifyAt (indent + 2) v +:+
                        Str.nl +:+ Json.spaces indent +:+ String "}" rest))
      with (Json.spaces 1 +:+ Json.stringifyAt (indent + 2) v +:+
            Str.nl +:+ Json.spaces indent +:+ String "}" rest).
    rewrite parseValue_spaces.
    rewrite (Hx (key, v) (or_introl eq_refl)) by (right; reflexivity).
    rewrite skipWs_nl, skipWs_spaces. reflexivity.
  - cbn [map]. rewrite join_cons. cbn [fst snd].
    rewrite !append_assoc, skipWs_spaces, quote_text.
    cbn [Json.skipWs]. change (Json.isWs (Str.chr 34)) with false. cbv iota.
    rewrite Ascii.eqb_refl, parseChars_escape.
    cbn [String.append Json.skipWs]. change (Json.isWs ":") with false. cbv iota.
    match goal with
    | |- context [Json.parseValue fuel (String " " ?u)] =>
        change (String " " u) with (Json.spaces 1 +:+ u)
    end.
    rewrite parseValue_spaces.
    rewrite (Hx (key, v) (or_introl eq_refl)) by (left; reflexivity).
    cbn [Json.skipWs]. change (Json.isWs ",") with false. cbv iota.
    assert (length (kv :: fields) <= n)%nat as Hn' by (cbn in Hn |- *; lia).
    specialize (IH ((key, v) :: acc) n (fun z Hz => Hx z (or_intror Hz)) ltac:(discriminate) Hn').
    etransitivity; [exact IH|]. cbn [rev]. rewrite <- app_assoc. reflexivity.
Qed.

Lemma valueStart_skipWs c u : valueStart c = true -> Json.skipWs (String c u) = String c u.
Proof.
  intros Hc. destruct c as [b0 b1 b2 b3 b4 b5 b6 b7].
  destruct b0, b1, b2, b3, b4, b5, b6, b7; try discriminate Hc; reflexivity.
Qed.

Lemma length_spaces n : String.length (Json.spaces n) = n.
Proof. induction n as [|n IH]; [reflexivity | cbn; rewrite IH; reflexivity]. Qed.

Lemma length_join_member sep (l : list string) y :
  In y l -> (String.length y <= String.length (Str.join sep l))%nat.
Proof.
  induction l as [|x l IH]; [intros []|].
  destruct l as [|z l]; [intros [->|[]]; cbn; lia|].
  rewrite join_cons, !length_append. intros [->|Hin]; [lia|]. specialize (IH Hin). lia.
Qed.

Lemma length_join_count sep (l : list string) :
  (forall y, In y l -> (1 <= String.length y)%nat) ->
  (length l <= String.length (Str.join sep l))%nat.
Proof.
  induction l as [|x l IH]; intros Hl; [cbn; lia|].
  destruct l as [|z l].
  - specialize (Hl x (or_introl eq_refl)). cbn in *. lia.
  - rewrite join_cons, !length_append.
    pose proof (Hl x (or_introl eq_refl)). specialize (IH (fun y Hy => Hl y (or_intror Hy))).
    cbn [length] in *. lia.
Qed.

Lemma length_middle a b c : (String.length b <= String.length (a +:+ b +:+ c))%nat.
Proof. rewrite !length_append. lia. Qed.

Lemma join_head sep (x : string) l : exists more, Str.join sep (x :: l) = x +:+ more.
Proof.
  destruct l as [|y l]; [exists ""; symmetry; apply append_nil_r|].
  rewrite join_cons. eauto.
Qed.

(** The value of a text that [JSON.stringify] wrote, with enough rounds
    for its nesting. *)
Lemma parseValue_stringifyAt fuel : forall j indent rest,
  canonical j = true ->
  (String.length (Json.stringifyAt indent j) <= fuel)%nat ->
  stops rest ->
  Json.parseValue fuel (Json.stringifyAt indent j +:+ rest) = Some (j, rest).
Proof.
  induction fuel as [|fuel IH]; intros j indent rest Hj Hlen Hstops.
  { destruct (stringifyAt_start indent j Hj) as (c & u & Htext & _).
    rewrite Htext in Hlen. cbn in Hlen. lia. }
  destruct j as [|[|]|n|s|[|x items]|[|kv fields]]; try (destruct rest; reflexivity).
  - apply parseValue_number; assumption.
  - cbn [Json.stringifyAt]. rewrite quote_text.
    change (Json.parseValue (S fuel)
              (String (Str.chr 34) (Json.escape s +:+ String (Str.chr 34) rest)))
      with (match Json.parseChars (Json.escape s +:+ String (Str.chr 34) rest) with
            | Some (t, r) => Some (Json.JStr t, r)
            | None => None
            end).
    rewrite parseChars_escape. reflexivity.
  - cbn [canonical] in Hj.
    assert (forall z, In z (x :: items) ->
              forall more, stops more ->
                Json.parseValue fuel (Json.stringifyAt (indent + 2) z +:+ more) = Some (z, more))
      as Hitems.
    { intros z Hz more Hmore. apply IH; [|  |exact Hmore].
      - apply (proj1 (forallb_forall _ _) Hj z Hz).
      - cbn [Json.stringifyAt] in Hlen. rewrite !length_append in Hlen.
        pose proof (length_join_member ("," +:+ Str.nl)
                      (map (fun i => Json.spaces (indent + 2) +:+
                                     Json.stringifyAt (indent + 2) i) (x :: items))
                      (Json.spaces (indent + 2) +:+ Json.stringifyAt (indent + 2) z)
                      (in_map _ _ _ Hz)) as Hmember.
        rewrite length_append, length_spaces in Hmember. cbn [String.length] in Hlen. lia. }
    cbn [Json.stringifyAt]. rewrite !append_assoc. cbn [String.append].
    rewrite parseValue_array.
    match goal with
    | |- context [parseElements fuel (String.length ?s1) ?s1 []] =>
        assert (parseElements fuel (String.length s1) s1 [] =
                Some (Json.JArr (x :: items), rest)) as Hloop;
        [|assert (exists c u, Json.skipWs s1 = String c u /\ valueStart c = true)
            as (c & u & -> & Hc)]
    end.
    + apply (parseElements_text fuel indent rest (x :: items) []); [exact Hitems | discriminate|].
      pose proof (length_join_count ("," +:+ Str.nl)
                    (map (fun i => Json.spaces (indent + 2) +:+
                                   Json.stringifyAt (indent + 2) i) (x :: items))) as Hcount.
      rewrite length_map in Hcount.
      etransitivity; [|apply length_middle].
      apply Hcount. intros y Hy. apply in_map_iff in Hy as (z & <- & _).
      rewrite length_append, length_spaces. lia.
    + rewrite skipWs_nl. cbn [map].
      match goal with
      | |- context [Str.join ?sep (?a :: ?l)] => destruct (join_head sep a l) as [more ->]
      end.
      rewrite !append_assoc, skipWs_spaces.
      assert (canonical x = true) as Hx by (apply andb_true_iff in Hj; apply Hj).
      destruct (stringifyAt_start (indent + 2) x Hx) as (c & u & -> & Hc).
      cbn [String.append]. rewrite valueStart_skipWs by exact Hc. eauto.
    + destruct c as [b0 b1 b2 b3 b4 b5 b6 b7].
      destruct b0, b1, b2, b3, b4, b5, b6, b7; try discriminate Hc; exact Hloop.
  - cbn [canonical] in Hj.
    assert (forall z, In z (kv :: fields) ->
              forall more, stops more ->
                Json.parseValue fuel (Json.stringifyAt (indent + 2) (snd z) +:+ more) =
                Some (snd z, more))
      as Hfields.
    { intros z Hz more Hmore. apply IH; [|  |exact Hmore].
      - apply (proj1 (forallb_forall _ _) Hj z Hz).
      - cbn [Json.stringifyAt] in Hlen. rewrite !length_append in Hlen.
        pose proof (length_join_member ("," +:+ Str.nl)
                      (map (fun kv => Json.spaces (indent + 2) +:+ Json.quote (fst kv) +:+ ": " +:+
                                      Json.stringifyAt (indent + 2) (snd kv)) (kv :: fields))
                      (Json.spaces (indent + 2) +:+ Json.quote (fst z) +:+ ": " +:+
                       Json.stringifyAt (indent + 2) (snd z))
                      (in_map (fun kv => Json.spaces (indent + 2) +:+ Json.quote (fst kv) +:+ ": " +:+
                                         Json.stringifyAt (indent + 2) (snd kv)) _ _ Hz)) as Hmember.
        rewrite !length_append, length_spaces in Hmember. cbn [String.length] in Hlen. lia. }
    cbn [Json.stringifyAt]. rewrite !append_assoc. cbn [String.append].
    rewrite parseValue_object.
    match goal with
    | |- context [parseMembers fuel (String.length ?s1) ?s1 []] =>
        assert (parseMembers fuel (String.length s1) s1 [] =
                Some (Json.JObj (kv :: fields), rest)) as Hloop;
        [|assert (exists c u, Json.skipWs s1 = String c u /\ valueStart c = true)
            as (c & u & -> & Hc)]
    end.
    + apply (parseMembers_text fuel indent rest (kv :: fields) []); [exact Hfields | discriminate|].
      pose proof (length_join_count ("," +:+ Str.nl)
                    (map (fun kv => Json.spaces (indent + 2) +:+ Json.quote (fst kv) +:+ ": " +:+
                                    Json.stringifyAt (indent + 2) (snd kv)) (kv :: fields)))
        as Hcount.
      rewrite length_map in Hcount.
      etransitivity; [|apply length_middle].
      apply Hcount. intros y Hy. apply in_map_iff in Hy as (z & <- & _).
      rewrite length_append, length_spaces. lia.
    + rewrite skipWs_nl. cbn [map].
      match goal with
      | |- context [Str.join ?sep (?a :: ?l)] => destruct (join_head sep a l) as [more ->]
      end.
      rewrite !append_assoc, skipWs_spaces, quote_text.
      rewrite valueStart_skipWs by reflexivity. eexists _, _. split; reflexivity.
    + destruct c as [b0 b1 b2 b3 b4 b5 b6 b7].
      destruct b0, b1, b2, b3, b4, b5, b6, b7; try discriminate Hc; exact Hloop.
Qed.

(** [JSON.parse(JSON.stringify(value, null, 2))] is the value. *)
Lemma parse_stringify j : canonical j = true -> Json.parse (Json.stringify j) = Some j.
Proof.
  intros Hj. unfold Json.parse, Json.stringify.
  pose proof (parseValue_stringifyAt (S (String.length (Json.stringifyAt 0 j))) j 0 "" Hj
                ltac:(lia) I) as Hparse.
  rewrite append_nil_r in Hparse. rewrite Hparse. reflexivity.
Qed.

End JsonTexts.

(** ** The registry on disk *)

Section Storage.

Import FixRegistry.

Variable e : env.
Variable c : chance.
Variable registryPath : string.

Lemma lift_run {A : Type} (m : IO A) s :
  lift m s = (Store (fst (m (st_world s))) (st_default s), snd (m (st_world s))).
Proof. unfold lift. destruct (m (st_world s)). reflexivity. Qed.

(** A write that fails leaves the world as it is. *)
Lemma writeFile_failed p content w w' ex :
  Fs.writeFile p content w = (w', Throw ex) -> w' = w.
Proof.
  unfold Fs.writeFile.
  destruct (Str.endsWith p "/" || String.eqb (Fs.key w p) "/"); [congruence|].
  destruct (negb (Fs.isDirAt (fs w) (Path.dirname (Fs.key w p)))); [congruence|].
  destruct (fs w !! Fs.key w p) as [[|text0 [|]]|]; congruence.
Qed.

Lemma createRegistry_run s :
  createRegistry registryPath s =
  match Fs.writeFile registryPath (Json.stringify (st_default s)) (st_world s) with
  | (w', Ret _) => (Store w' (st_default s), Ret TheDefault)
  | (w', Throw ex) => (Store w' (st_default s), Throw ex)
  end.
Proof.
  unfold createRegistry, bind, valueOf. rewrite lift_run.
  destruct (Fs.writeFile registryPath (Json.stringify (st_default s)) (st_world s))
    as [w' [[]|ex]]; reflexivity.
Qed.

(** [loadRegistry] without a registry file: it hands out the object
    [DEFAULT_REGISTRY] itself, after it has written it to the file. *)
Lemma loadRegistry_missing s :
  snd (Fs.existsSync registryPath (st_world s)) = Ret false ->
  match Fs.writeFile registryPath (Json.stringify (st_default s)) (st_world s) with
  | (w', Ret _) => loadRegistry registryPath s = (Store w' (st_default s), Ret TheDefault)
  | (w', Throw ex) => loadRegistry registryPath s = (s, Throw ex)
  end.
Proof.
  intros Hmissing. unfold loadRegistry, tryCatch, bind. rewrite lift_run.
  assert (fst (Fs.existsSync registryPath (st_world s)) = st_world s) as -> by reflexivity.
  rewrite Hmissing. cbn [negb fst snd st_world st_default]. rewrite !createRegistry_run.
  cbn [st_world st_default].
  destruct (Fs.writeFile registryPath (Json.stringify (st_default s)) (st_world s))
    as [w' [[]|ex]] eqn:Hwrite; [reflexivity|].
  apply writeFile_failed in Hwrite as Hw. subst w'.
  rewrite createRegistry_run. cbn [st_world st_default].
  rewrite Hwrite. destruct s; reflexivity.
Qed.

(** [saveRegistry] on [DEFAULT_REGISTRY]: it returns, and the time of the
    call stays in the object, whether the file could be written or not. *)
Lemma saveRegistry_default s fields :
  st_default s = Json.JObj fields ->
  exists w' ok,
    saveRegistry e registryPath TheDefault s =
    (Store w' (Json.JObj (Json.setField "lastUpdated"
                            (Json.JStr (isoTime e (ticks (st_world s)))) fields)),
     Ret ok).
Proof.
  intros Hd. unfold saveRegistry, tryCatch, bind at 1. rewrite lift_run.
  cbn [nowISO fst snd]. unfold bind at 1, mutate. cbn [st_default st_world].
  rewrite Hd. cbn [assign]. unfold bind at 1, valueOf. cbn [st_default st_world].
  unfold bind. rewrite lift_run. cbn [st_default st_world].
  destruct (Fs.writeFile registryPath _ (tick (st_world s))) as [w' [[]|ex]]; cbn; eauto.
Qed.

(** Setting a property to such a value keeps an object one of those that
    are read back as they were written. *)
Lemma canonical_setField key v fields :
  canonical (Json.JObj fields) = true -> canonical v = true ->
  canonical (Json.JObj (Json.setField key v fields)) = true.
Proof.
  cbn [canonical]. intros Hfields Hv.
  induction fields as [|[k v0] fields IH]; cbn [Json.setField forallb snd] in *.
  - rewrite Hv. reflexivity.
  - apply andb_true_iff in Hfields as [H0 Hrest].
    destruct (String.eqb k key); cbn [forallb snd].
    + rewrite Hv. cbn [andb]. apply forallb_forall. intros kv Hkv.
      apply List.filter_In in Hkv as [Hkv _]. apply (proj1 (forallb_forall _ _) Hrest kv Hkv).
    + rewrite H0, (IH Hrest). reflexivity.
Qed.

(** The two steps of [addFix] that complete the fix: they leave
    [DEFAULT_REGISTRY] alone, give the fix an [id] that counts as true and
    keep its other properties, but for [lastUpdated]. *)
Lemma addFix_completes entry s :
  exists w' entry2,
    (forall (X : Type) (k : list (string * Json.json) -> M store X),
        (fix1 <-
           (if negb (Json.truthy (Json.lookupField "id" entry)) then
              now <- lift (nowMillis c) ;;
              n <- lift (randomBelow1000 c) ;;
              ret (Json.setField "id"
                     (Json.JStr ("fix-" +:+ Num.toString10 now +:+ "-" +:+ Num.toString10 n))
                     entry)
            else ret entry) ;;
         fix2 <-
           (if negb (Json.truthy (Json.lookupField "lastUpdated" fix1)) then
              now <- lift (nowISO e) ;;
              ret (Json.setField "lastUpdated" (Json.JStr now) fix1)
            else ret fix1) ;;
         k fix2) s = k entry2 (Store w' (st_default s))) /\
    (fs w' = fs (st_world s) /\ cwd w' = cwd (st_world s) /\
     (canonical (Json.JObj entry) = true -> canonical (Json.JObj entry2) = true)) /\
    Json.truthy (Json.lookupField "id" entry2) = true /\
    (Json.truthy (Json.lookupField "id" entry) = true ->
     Json.lookupField "id" entry2 = Json.lookupField "id" entry) /\
    (forall key, key <> "id" -> key <> "lastUpdated" ->
                 Json.lookupField key entry2 = Json.lookupField key entry).
Proof.
  assert (exists w1 entry1,
             (forall (X : Type) (k : list (string * Json.json) -> M store X),
                 (fix1 <-
                    (if negb (Json.truthy (Json.lookupField "id" entry)) then
                       now <- lift (nowMillis c) ;;
                       n <- lift (randomBelow1000 c) ;;
                       ret (Json.setField "id"
                              (Json.JStr ("fix-" +:+ Num.toString10 now +:+ "-" +:+
                                          Num.toString10 n))
                              entry)
                     else ret entry) ;;
                  k fix1) s = k entry1 (Store w1 (st_default s))) /\
             (fs w1 = fs (st_world s) /\ cwd w1 = cwd (st_world s) /\
              (canonical (Json.JObj entry) = true -> canonical (Json.JObj entry1) = true)) /\
             Json.truthy (Json.lookupField "id" entry1) = true /\
             (Json.truthy (Json.lookupField "id" entry) = true -> entry1 = entry) /\
             (forall key, key <> "id" ->
                          Json.lookupField key entry1 = Json.lookupField key entry))
    as (w1 & entry1 & Hrun1 & (Hfs1 & Hcwd1 & Hcan1) & Hid1 & Hsame1 & Hkeys1).
  { destruct (Json.truthy (Json.lookupField "id" entry)) eqn:Hid; cbn [negb].
    - exists (st_world s), entry. split; [|auto 6]. intros X k. destruct s. reflexivity.
    - eexists _, _. split.
      + intros X k. unfold bind. rewrite !lift_run.
        cbn [nowMillis randomBelow1000 fst snd st_world st_default ret]. reflexivity.
      + rewrite lookupField_setField_same.
        split; [|split; [reflexivity|]; split; [discriminate|];
                 intros key Hkey; apply lookupField_setField_other; exact Hkey].
        split; [reflexivity|]. split; [reflexivity|].
        intros Hcan. apply canonical_setField; [exact Hcan | reflexivity]. }
  destruct (Json.truthy (Json.lookupField "lastUpdated" entry1)) eqn:Htime.
  - exists w1, entry1. split.
    + intros X k. rewrite Hrun1. rewrite Htime. reflexivity.
    + split; [auto|]. split; [exact Hid1|].
      split; [intros H; rewrite (Hsame1 H); reflexivity|]. intros key Hkey _. apply Hkeys1, Hkey.
  - eexists _, _. split.
    + intros X k. rewrite Hrun1. rewrite Htime. cbn [negb]. unfold bind. rewrite lift_run.
      cbn [nowISO fst snd st_world st_default ret]. reflexivity.
    + split.
      { split; [exact Hfs1|]. split; [exact Hcwd1|].
        intros Hcan. apply canonical_setField; [apply Hcan1, Hcan | reflexivity]. }
      rewrite lookupField_setField_other by discriminate.
      split; [exact Hid1|]. split; [intros H; rewrite (Hsame1 H); reflexivity|].
      intros key Hkey Htime'. rewrite lookupField_setField_other by congruence.
      apply Hkeys1, Hkey.
Qed.

End Storage.

Lemma addFix_default_run e c registryPath entry s fields items :
  snd (Fs.existsSync registryPath (FixRegistry.st_world s)) = Ret false ->
  FixRegistry.st_default s = Json.JObj fields ->
  Json.lookupField "fixes" fields = Some (Json.JArr items) ->
  let '(s', result) := FixRegistry.addFix e c registryPath entry s in
  match result with
  | Throw _ =>
      FixRegistry.st_default s' = FixRegistry.st_default s /\
      exists ex,
        snd (Fs.writeFile registryPath (Json.stringify (FixRegistry.st_default s))
               (FixRegistry.st_world s)) = Throw ex
  | Ret id =>
      exists entry' fields',
        FixRegistry.st_default s' = Json.JObj fields' /\
        Json.lookupField "fixes" fields' = Some (Json.JArr (items ++ [Json.JObj entry'])) /\
        id = Json.lookupField "id" entry' /\
        Json.truthy id = true /\
        (forall key, key <> "id" -> key <> "lastUpdated" ->
                     Json.lookupField key entry' = Json.lookupField key entry) /\
        forall s2,
          FixRegistry.st_default s2 = FixRegistry.st_default s' ->
          snd (Fs.existsSync registryPath (FixRegistry.st_world s2)) = Ret false ->
          forall r, snd (FixRegistry.loadRegistry registryPath s2) = Ret r ->
            r = FixRegistry.TheDefault /\
            FixRegistry.st_default (fst (FixRegistry.loadRegistry registryPath s2)) =
              Json.JObj fields' /\
            fs (FixRegistry.st_world (fst (FixRegistry.loadRegistry registryPath s2)))
               !! Fs.key (FixRegistry.st_world s2) registryPath =
              Some (File (Json.stringify (Json.JObj fields')) true)
  end.
Proof.
  intros Hmissing Hdefault Hfixes. unfold FixRegistry.addFix, bind at 1.
  pose proof (loadRegistry_missing registryPath s Hmissing) as Hload.
  destruct (Fs.writeFile registryPath (Json.stringify (FixRegistry.st_default s))
              (FixRegistry.st_world s)) as [w1 [[]|ex]] eqn:Hwrite; rewrite Hload.
  2:{ cbn [fst snd]. split; [reflexivity | eauto]. }
  destruct (addFix_completes e c entry (FixRegistry.Store w1 (FixRegistry.st_default s)))
    as (w2 & entry2 & Hrun & _ & Hid & _ & Hkeys).
  rewrite Hrun. cbn [FixRegistry.st_default].
  unfold bind at 1, FixRegistry.mutate. cbn [FixRegistry.st_default FixRegistry.st_world].
  rewrite Hdefault. unfold FixRegistry.pushFix, FixRegistry.fixesOf. cbn [Json.get].
  rewrite Hfixes. unfold bind at 1.
  destruct (saveRegistry_default e registryPath
              (FixRegistry.Store w2 (Json.JObj (Json.setField "fixes"
                                                  (Json.JArr (items ++ [Json.JObj entry2])) fields)))
              _ eq_refl) as (w3 & ok & ->).
  cbn [fst snd ret FixRegistry.st_default FixRegistry.st_world].
  eexists entry2, _. split; [reflexivity|].
  split; [rewrite lookupField_setField_other by discriminate; apply lookupField_setField_same|].
  split; [reflexivity|]. split; [exact Hid|]. split; [exact Hkeys|].
  intros s2 Hsame Hmissing2 r.
  pose proof (loadRegistry_missing registryPath s2 Hmissing2) as Hload2.
  destruct (Fs.writeFile registryPath (Json.stringify (FixRegistry.st_default s2))
              (FixRegistry.st_world s2)) as [w4 [[]|ex]] eqn:Hwrite2; rewrite Hload2;
    cbn [fst snd FixRegistry.st_default FixRegistry.st_world]; [|discriminate].
  intros H. injection H as <-. split; [reflexivity|]. split; [exact Hsame|].
  pose proof (writeFile_outcome registryPath (Json.stringify (FixRegistry.st_default s2))
                (FixRegistry.st_world s2)) as Hout.
  rewrite Hwrite2 in Hout. destruct Hout as (_ & _ & _ & Hfile).
  rewrite (Hfile eq_refl), Hsame. reflexivity.
Qed.

(** X22.  Without a registry file [addFix] works on the object
    [DEFAULT_REGISTRY] itself: when it returns, the fix is the last of the
    fixes of that object, with an [id] that is the result of the call, and
    stays there.  A registry that is made later in the same process,
    because the file is missing again, is then not empty: it is that
    object, written to the file with the fix in it.  When [addFix] throws,
    it is because the file could not be written, and the object is as it
    was. *)
Theorem addFix_changes_default_registry e c registryPath entry s fields items :
  snd (Fs.existsSync registryPath (FixRegistry.st_world s)) = Ret false ->
  FixRegistry.st_default s = Json.JObj fields ->
  Json.lookupField "fixes" fields = Some (Json.JArr items) ->
  let run := FixRegistry.addFix e c registryPath entry s in
  match snd run with
  | Throw _ =>
      FixRegistry.st_default (fst run) = FixRegistry.st_default s /\
      exists ex,
        snd (Fs.writeFile registryPath (Json.stringify (FixRegistry.st_default s))
               (FixRegistry.st_world s)) = Throw ex
  | Ret id =>
      exists entry' fields',
        FixRegistry.st_default (fst run) = Json.JObj fields' /\
        Json.lookupField "fixes" fields' = Some (Json.JArr (items ++ [Json.JObj entry'])) /\
        id = Json.lookupField "id" entry' /\
        Json.truthy id = true /\
        (forall key, key <> "id" -> key <> "lastUpdated" ->
                     Json.lookupField key entry' = Json.lookupField key entry) /\
        forall s2,
          FixRegistry.st_default s2 = FixRegistry.st_default (fst run) ->
          snd (Fs.existsSync registryPath (FixRegistry.st_world s2)) = Ret false ->
          forall r, snd (FixRegistry.loadRegistry registryPath s2) = Ret r ->
            r = FixRegistry.TheDefault /\
            FixRegistry.st_default (fst (FixRegistry.loadRegistry registryPath s2)) =
              Json.JObj fields' /\
            fs (FixRegistry.st_world (fst (FixRegistry.loadRegistry registryPath s2)))
               !! Fs.key (FixRegistry.st_world s2) registryPath =
              Some (File (Json.stringify (Json.JObj fields')) true)
  end.
Proof.
  intros Hmissing Hdefault Hfixes run. subst run.
  pose proof (addFix_default_run e c registryPath entry s fields items Hmissing Hdefault Hfixes)
    as H.
  destruct (FixRegistry.addFix e c registryPath entry s) as [s' result]. exact H.
Qed.

Lemma addFix_changes_default_registry_witness :
  let run := FixRegistry.addFix (Sample.environment Sample.always None)
               SampleRegistry.sampleChance SampleRegistry.registryPath
               SampleRegistry.sampleFix SampleRegistry.fresh in
  snd run = Ret (Some (Json.JStr "fix-1740823200000-42")) /\
  exists entry' fields',
    FixRegistry.st_default (fst run) = Json.JObj fields' /\
    Json.lookupField "fixes" fields' = Some (Json.JArr [Json.JObj entry']) /\
    Json.lookupField "id" entry' = Some (Json.JStr "fix-1740823200000-42").
Proof.
  cbn zeta.
  pose proof (addFix_changes_default_registry (Sample.environment Sample.always None)
                SampleRegistry.sampleChance SampleRegistry.registryPath
                SampleRegistry.sampleFix SampleRegistry.fresh _ []
                eq_refl eq_refl eq_refl) as H.
  cbn zeta in H.
  assert (snd (FixRegistry.addFix (Sample.environment Sample.always None)
                 SampleRegistry.sampleChance SampleRegistry.registryPath
                 SampleRegistry.sampleFix SampleRegistry.fresh) =
          Ret (Some (Json.JStr "fix-1740823200000-42"))) as Hid
      by (vm_compute; reflexivity).
  rewrite Hid in H. split; [exact Hid|].
  destruct H as (entry' & fields' & Hdefault & Hfixes & Hsame & _).
  exists entry', fields'. split; [exact Hdefault|]. split; [exact Hfixes|].
  symmetry. exact Hsame.
Defined.

(** ** The registry on disk: what is added is found *)

Section Stored.

Import FixRegistry.

Variable e : env.
Variable c : chance.
Variable registryPath : string.

Lemma registryOnDisk_moved w w' data writable :
  fs w' = fs w -> cwd w' = cwd w ->
  registryOnDisk w registryPath data writable -> registryOnDisk w' registryPath data writable.
Proof.
  intros Hfs Hcwd. unfold registryOnDisk, Fs.key. rewrite Hfs, Hcwd. auto.
Qed.

Lemma existsSync_present w data writable :
  registryOnDisk w registryPath data writable -> Fs.existsSync registryPath w = (w, Ret true).
Proof.
  intros (Hend & Hroot & _ & Hfile). unfold Fs.existsSync. rewrite Hroot, Hfile, Hend. reflexivity.
Qed.

Lemma readFile_present w data writable :
  registryOnDisk w registryPath data writable ->
  Fs.readFile registryPath w = (addRead registryPath w, Ret data).
Proof. intros (Hend & _ & _ & Hfile). unfold Fs.readFile. rewrite Hend, Hfile. reflexivity. Qed.

Lemma writeFile_present w data content :
  registryOnDisk w registryPath data true ->
  Fs.writeFile registryPath content w =
    (withFs (<[Fs.key w registryPath := File content true]> (fs w)) w, Ret tt) /\
  registryOnDisk (withFs (<[Fs.key w registryPath := File content true]> (fs w)) w)
                 registryPath content true.
Proof.
  intros (Hend & Hroot & Hdir & Hfile). split.
  - unfold Fs.writeFile. rewrite Hend, Hroot, Hdir, Hfile. reflexivity.
  - unfold registryOnDisk.
    change (Fs.key (withFs (<[Fs.key w registryPath := File content true]> (fs w)) w) registryPath)
      with (Fs.key w registryPath).
    cbn [fs withFs]. split; [exact Hend|]. split; [exact Hroot|].
    split; [|apply lookup_insert_eq].
    unfold Fs.isDirAt in *.
    destruct (String.eqb (Path.dirname (Fs.key w registryPath)) "/"); [reflexivity|].
    cbn [orb] in *.
    destruct (decide (Path.dirname (Fs.key w registryPath) = Fs.key w registryPath)) as [Heq|Hne].
    + rewrite Heq, Hfile in Hdir. discriminate.
    + rewrite lookup_insert_ne by congruence. exact Hdir.
Qed.

Lemma writeFile_protected w data content :
  registryOnDisk w registryPath data false ->
  exists ex, Fs.writeFile registryPath content w = (w, Throw ex).
Proof.
  intros (Hend & Hroot & Hdir & Hfile). unfold Fs.writeFile.
  rewrite Hend, Hroot, Hdir, Hfile. eauto.
Qed.

(** [loadRegistry] with a registry file that can be read: the value of
    the file, in an object of its own. *)
Lemma loadRegistry_present s data writable value :
  registryOnDisk (st_world s) registryPath data writable ->
  Json.parse data = Some value ->
  loadRegistry registryPath s =
  (Store (addRead registryPath (st_world s)) (st_default s), Ret (Own value)).
Proof.
  intros Hdisk Hparse. unfold loadRegistry, tryCatch, bind. rewrite lift_run.
  rewrite (existsSync_present _ _ _ Hdisk). cbn [fst snd negb st_world st_default].
  rewrite lift_run. cbn [st_world st_default].
  rewrite (readFile_present _ _ _ Hdisk). cbn [fst snd]. rewrite Hparse.
  reflexivity.
Qed.

(** [saveRegistry] on an object of its own, when the file can be written. *)
Lemma saveRegistry_own s data fields :
  registryOnDisk (st_world s) registryPath data true ->
  let saved := Json.JObj (Json.setField "lastUpdated"
                            (Json.JStr (isoTime e (ticks (st_world s)))) fields) in
  exists w',
    saveRegistry e registryPath (Own (Json.JObj fields)) s = (Store w' (st_default s), Ret true) /\
    registryOnDisk w' registryPath (Json.stringify saved) true.
Proof.
  intros Hdisk saved. unfold saveRegistry, tryCatch, bind at 1. rewrite lift_run.
  cbn [nowISO fst snd]. unfold bind at 1, mutate. cbn [assign].
  unfold bind at 1, valueOf. unfold bind. rewrite lift_run. cbn [st_default st_world].
  assert (registryOnDisk (tick (st_world s)) registryPath data true) as Hdisk'
      by (apply (registryOnDisk_moved (st_world s)); auto).
  destruct (writeFile_present _ _ (Json.stringify saved) Hdisk') as [Hwrite Hafter].
  subst saved. rewrite Hwrite. cbn [fst snd ret]. eauto.
Qed.

(** [saveRegistry] when the file is write-protected: it returns [false]
    and the file system is as it was. *)
Lemma saveRegistry_protected s data r :
  registryOnDisk (st_world s) registryPath data false ->
  saveRegistry e registryPath (Own r) s = (Store (tick (st_world s)) (st_default s), Ret false).
Proof.
  intros Hdisk. unfold saveRegistry, tryCatch, bind at 1. rewrite lift_run.
  cbn [nowISO fst snd]. unfold bind at 1, mutate.
  destruct (assign "lastUpdated" _ r) as [value|ex]; [|reflexivity].
  unfold bind at 1, valueOf. unfold bind. rewrite lift_run. cbn [st_default st_world].
  assert (registryOnDisk (tick (st_world s)) registryPath data false) as Hdisk'
      by (apply (registryOnDisk_moved (st_world s)); auto).
  destruct (writeFile_protected _ _ (Json.stringify value) Hdisk') as [ex ->].
  reflexivity.
Qed.

(** [addFix] with a registry file that can be read and written. *)
Lemma addFix_stored entry s data fields items :
  registryOnDisk (st_world s) registryPath data true ->
  Json.parse data = Some (Json.JObj fields) ->
  Json.lookupField "fixes" fields = Some (Json.JArr items) ->
  exists entry2 w3 now,
    addFix e c registryPath entry s =
      (Store w3 (st_default s), Ret (Json.lookupField "id" entry2)) /\
    registryOnDisk w3 registryPath
      (Json.stringify
         (Json.JObj (Json.setField "lastUpdated" (Json.JStr now)
                       (Json.setField "fixes" (Json.JArr (items ++ [Json.JObj entry2])) fields))))
      true /\
    (canonical (Json.JObj entry) = true -> canonical (Json.JObj entry2) = true) /\
    Json.truthy (Json.lookupField "id" entry2) = true /\
    (Json.truthy (Json.lookupField "id" entry) = true ->
     Json.lookupField "id" entry2 = Json.lookupField "id" entry) /\
    (forall key, key <> "id" -> key <> "lastUpdated" ->
                 Json.lookupField key entry2 = Json.lookupField key entry).
Proof.
  intros Hdisk Hparse Hfixes. unfold addFix, bind at 1.
  rewrite (loadRegistry_present s data true _ Hdisk Hparse).
  destruct (addFix_completes e c entry (Store (addRead registryPath (st_world s)) (st_default s)))
    as (w2 & entry2 & Hrun & (Hfs & Hcwd & Hcan) & Hid & Hsame & Hkeys).
  rewrite Hrun. cbn [st_default st_world addRead fs cwd] in *.
  unfold bind at 1, mutate, pushFix, fixesOf. cbn [Json.get]. rewrite Hfixes.
  unfold bind at 1.
  destruct (saveRegistry_own (Store w2 (st_default s)) data
              (Json.setField "fixes" (Json.JArr (items ++ [Json.JObj entry2])) fields))
    as (w3 & -> & Hdisk3).
  { apply (registryOnDisk_moved (st_world s)); assumption. }
  cbn [st_world] in Hdisk3. cbn [ret]. eexists entry2, w3, _.
  split; [reflexivity|]. split; [exact Hdisk3|]. auto.
Qed.

(** [addFix] and, after it, [loadRegistry]. *)
Lemma addFix_then entry s data fields items :
  registryOnDisk (st_world s) registryPath data true ->
  Json.parse data = Some (Json.JObj fields) ->
  canonical (Json.JObj fields) = true ->
  Json.lookupField "fixes" fields = Some (Json.JArr items) ->
  canonical (Json.JObj entry) = true ->
  exists entry2 w3 fields',
    addFix e c registryPath entry s =
      (Store w3 (st_default s), Ret (Json.lookupField "id" entry2)) /\
    loadRegistry registryPath (Store w3 (st_default s)) =
      (Store (addRead registryPath w3) (st_default s), Ret (Own (Json.JObj fields'))) /\
    Json.lookupField "fixes" fields' = Some (Json.JArr (items ++ [Json.JObj entry2])) /\
    (forall key, key <> "fixes" -> key <> "lastUpdated" ->
                 Json.lookupField key fields' = Json.lookupField key fields) /\
    Json.truthy (Json.lookupField "id" entry2) = true /\
    (Json.truthy (Json.lookupField "id" entry) = true ->
     Json.lookupField "id" entry2 = Json.lookupField "id" entry) /\
    (forall key, key <> "id" -> key <> "lastUpdated" ->
                 Json.lookupField key entry2 = Json.lookupField key entry).
Proof.
  intros Hdisk Hparse Hcan Hfixes Hentry.
  destruct (addFix_stored entry s data fields items Hdisk Hparse Hfixes)
    as (entry2 & w3 & now & Hrun & Hdisk3 & Hcan2 & Hid & Hsame & Hkeys).
  eexists entry2, w3, _. split; [exact Hrun|]. split; [|split; [|split; [|auto]]].
  - apply (loadRegistry_present (Store w3 (st_default s)) _ true _ Hdisk3).
    apply parse_stringify. apply canonical_setField; [|reflexivity].
    apply canonical_setField; [exact Hcan|]. cbn [canonical].
    rewrite forallb_app. cbn [forallb]. rewrite (Hcan2 Hentry), andb_true_r. cbn [andb].
    cbn [canonical] in Hcan. rewrite forallb_forall in Hcan.
    assert (In ("fixes", Json.JArr items) fields) as Hin.
    { clear -Hfixes. induction fields as [|[k v] fields IH]; [discriminate|].
      cbn [Json.lookupField] in Hfixes.
      destruct (Json.lookupField "fixes" fields) as [v'|] eqn:Hl.
      - right. apply IH. rewrite <- Hfixes. reflexivity.
      - destruct (String.eqb_spec k "fixes") as [->|]; [|discriminate].
        injection Hfixes as ->. left. reflexivity. }
    apply (Hcan _ Hin).
  - rewrite lookupField_setField_other by discriminate. apply lookupField_setField_same.
  - intros key H1 H2. rewrite !lookupField_setField_other by congruence. reflexivity.
Qed.

Lemma filterWith_snoc test items x :
  filterWith test (items ++ [x]) =
  match filterWith test items with
  | Throw ex => Throw ex
  | Ret kept =>
      match test x with
      | Throw ex => Throw ex
      | Ret keep => Ret (kept ++ if keep then [x] else [])
      end
  end.
Proof.
  induction items as [|y items IH]; cbn [app filterWith].
  - destruct (test x) as [[|]|ex]; reflexivity.
  - destruct (test y) as [keep|ex]; [|reflexivity]. rewrite IH.
    destruct (filterWith test items) as [kept|ex]; [|reflexivity].
    destruct (test x) as [keep'|ex]; [|reflexivity]. destruct keep; reflexivity.
Qed.

End Stored.

(** X23.  What [addFix] adds, [loadRegistry] gives back.  With a registry
    file that can be written and whose value is an object with an array of
    fixes, [addFix] returns the [id] of the fix, one that counts as true: the
    [id] the fix came with, or a new one.  A call of [loadRegistry] after it
    gives an object of its own with the values of the file as they were, but
    for [lastUpdated], and with the fix as the last of the fixes, with the
    properties it came with, [id] and [lastUpdated] apart.
    [DEFAULT_REGISTRY] is not touched. *)
Theorem addFix_then_loadRegistry e c registryPath entry s data fields items :
  registryOnDisk (FixRegistry.st_world s) registryPath data true ->
  Json.parse data = Some (Json.JObj fields) ->
  canonical (Json.JObj fields) = true ->
  Json.lookupField "fixes" fields = Some (Json.JArr items) ->
  canonical (Json.JObj entry) = true ->
  let run := FixRegistry.addFix e c registryPath entry s in
  exists entry2 fields',
    snd run = Ret (Json.lookupField "id" entry2) /\
    Json.truthy (Json.lookupField "id" entry2) = true /\
    (Json.truthy (Json.lookupField "id" entry) = true ->
     Json.lookupField "id" entry2 = Json.lookupField "id" entry) /\
    (forall key, key <> "id" -> key <> "lastUpdated" ->
                 Json.lookupField key entry2 = Json.lookupField key entry) /\
    FixRegistry.st_default (fst run) = FixRegistry.st_default s /\
    snd (FixRegistry.loadRegistry registryPath (fst run)) =
      Ret (FixRegistry.Own (Json.JObj fields')) /\
    Json.lookupField "fixes" fields' = Some (Json.JArr (items ++ [Json.JObj entry2])) /\
    (forall key, key <> "fixes" -> key <> "lastUpdated" ->
                 Json.lookupField key fields' = Json.lookupField key fields).
Proof.
  intros Hdisk Hparse Hcan Hfixes Hentry run. subst run.
  destruct (addFix_then e c registryPath entry s data fields items Hdisk Hparse Hcan Hfixes Hentry)
    as (entry2 & w3 & fields' & -> & Hload & Hfixes' & Hkept & Hid & Hsame & Hkeys).
  exists entry2, fields'. cbn [fst snd]. rewrite Hload. cbn [snd FixRegistry.st_default].
  auto 10.
Qed.

Lemma addFix_protected_run e c registryPath entry s data fields items :
  registryOnDisk (FixRegistry.st_world s) registryPath data false ->
  Json.parse data = Some (Json.JObj fields) ->
  Json.lookupField "fixes" fields = Some (Json.JArr items) ->
  exists w' id,
    FixRegistry.addFix e c registryPath entry s =
      (FixRegistry.Store w' (FixRegistry.st_default s), Ret id) /\
    Json.truthy id = true /\
    fs w' = fs (FixRegistry.st_world s) /\ cwd w' = cwd (FixRegistry.st_world s).
Proof.
  intros Hdisk Hparse Hfixes. unfold FixRegistry.addFix, bind at 1.
  rewrite (loadRegistry_present registryPath s data false _ Hdisk Hparse).
  destruct (addFix_completes e c entry
              (FixRegistry.Store (addRead registryPath (FixRegistry.st_world s))
                                 (FixRegistry.st_default s)))
    as (w2 & entry2 & Hrun & (Hfs & Hcwd & _) & Hid & _ & _).
  rewrite Hrun. cbn [FixRegistry.st_default FixRegistry.st_world addRead fs cwd] in *.
  unfold bind at 1, FixRegistry.mutate, FixRegistry.pushFix, FixRegistry.fixesOf.
  cbn [Json.get]. rewrite Hfixes. unfold bind at 1.
  rewrite (saveRegistry_protected e registryPath
             (FixRegistry.Store w2 (FixRegistry.st_default s)) data)
    by (apply (registryOnDisk_moved registryPath (FixRegistry.st_world s)); assumption).
  cbn [fst snd ret FixRegistry.st_world FixRegistry.st_default].
  eexists _, _. split; [reflexivity|]. split; [exact Hid|]. split; assumption.
Qed.

(** X24.  When the registry file is write-protected, [addFix] still returns
    an [id] that counts as true: [saveRegistry] has caught the error and
    answered [false], and [addFix] does not look at that answer.  The file
    system is as it was and [DEFAULT_REGISTRY] too, so that the fix is
    nowhere. *)
Theorem addFix_on_protected_registry e c registryPath entry s data fields items :
  registryOnDisk (FixRegistry.st_world s) registryPath data false ->
  Json.parse data = Some (Json.JObj fields) ->
  Json.lookupField "fixes" fields = Some (Json.JArr items) ->
  let run := FixRegistry.addFix e c registryPath entry s in
  (exists id, snd run = Ret id /\ Json.truthy id = true) /\
  fs (FixRegistry.st_world (fst run)) = fs (FixRegistry.st_world s) /\
  FixRegistry.st_default (fst run) = FixRegistry.st_default s /\
  snd (FixRegistry.loadRegistry registryPath (fst run)) =
    Ret (FixRegistry.Own (Json.JObj fields)).
Proof.
  intros Hdisk Hparse Hfixes run. subst run.
  destruct (addFix_protected_run e c registryPath entry s data fields items Hdisk Hparse Hfixes)
    as (w' & id & -> & Hid & Hfs & Hcwd).
  cbn [fst snd FixRegistry.st_world FixRegistry.st_default].
  split; [eauto|]. split; [exact Hfs|]. split; [reflexivity|].
  rewrite (loadRegistry_present registryPath _ data false (Json.JObj fields));
    [reflexivity| |exact Hparse].
  apply (registryOnDisk_moved registryPath (FixRegistry.st_world s)); assumption.
Qed.

Lemma addFix_then_loadRegistry_witness :
  let run := FixRegistry.addFix (Sample.environment Sample.always None)
               SampleRegistry.sampleChance SampleRegistry.registryPath
               SampleRegistry.sampleFix (SampleStored.withRegistry true) in
  exists entry2 fields',
    snd run = Ret (Json.lookupField "id" entry2) /\
    snd (FixRegistry.loadRegistry SampleRegistry.registryPath (fst run)) =
      Ret (FixRegistry.Own (Json.JObj fields')) /\
    Json.lookupField "fixes" fields' = Some (Json.JArr [Json.JObj entry2]) /\
    Json.lookupField "errorPattern" entry2 =
      Some (Json.JStr "Runtime nodejs12.x is not supported").
Proof.
  cbn zeta.
  destruct (addFix_then_loadRegistry (Sample.environment Sample.always None)
              SampleRegistry.sampleChance SampleRegistry.registryPath
              SampleRegistry.sampleFix (SampleStored.withRegistry true)
              SampleStored.data SampleStored.fields [])
    as (entry2 & fields' & Hid & _ & _ & Hkeys & _ & Hload & Hfixes & _).
  - repeat split; vm_compute; reflexivity.
  - vm_compute; reflexivity.
  - reflexivity.
  - reflexivity.
  - reflexivity.
  - exists entry2, fields'. split; [exact Hid|]. split; [exact Hload|]. split; [exact Hfixes|].
    rewrite Hkeys by discriminate. reflexivity.
Defined.

Lemma addFix_on_protected_registry_witness :
  let run := FixRegistry.addFix (Sample.environment Sample.always None)
               SampleRegistry.sampleChance SampleRegistry.registryPath
               SampleRegistry.sampleFix (SampleStored.withRegistry false) in
  (exists id, snd run = Ret id /\ Json.truthy id = true) /\
  fs (FixRegistry.st_world (fst run)) =
    fs (FixRegistry.st_world (SampleStored.withRegistry false)) /\
  snd (FixRegistry.loadRegistry SampleRegistry.registryPath (fst run)) =
    Ret (FixRegistry.Own (Json.JObj SampleStored.fields)).
Proof.
  cbn zeta.
  destruct (addFix_on_protected_registry (Sample.environment Sample.always None)
              SampleRegistry.sampleChance SampleRegistry.registryPath
              SampleRegistry.sampleFix (SampleStored.withRegistry false)
              SampleStored.data SampleStored.fields [])
    as (Hid & Hfs & _ & Hload).
  - repeat split; vm_compute; reflexivity.
  - vm_compute; reflexivity.
  - reflexivity.
  - split; [exact Hid|]. split; [exact Hfs | exact Hload].
Defined.

(** X25.  A fix that [addFix] added is found again.  Under the conditions
    of the round trip, [getFixesForErrorPattern] answers, after the fixes it
    found before, with the new fix exactly when the error text contains its
    [errorPattern], and [getFixesForComponents] with the new fix exactly when
    one of its [components] is among those asked for; both throw where they
    threw before, on a fix that is [null] or has no array of components. *)
Theorem addFix_then_getFixes e c registryPath entry s data fields items :
  registryOnDisk (FixRegistry.st_world s) registryPath data true ->
  Json.parse data = Some (Json.JObj fields) ->
  canonical (Json.JObj fields) = true ->
  Json.lookupField "fixes" fields = Some (Json.JArr items) ->
  canonical (Json.JObj entry) = true ->
  let run := FixRegistry.addFix e c registryPath entry s in
  exists entry2,
    snd run = Ret (Json.lookupField "id" entry2) /\
    (forall errorText p,
        Json.lookupField "errorPattern" entry = Some (Json.JStr p) ->
        snd (FixRegistry.getFixesForErrorPattern registryPath errorText (fst run)) =
        match FixRegistry.filterWith (FixRegistry.matchesPattern errorText) items with
        | Ret kept => Ret (kept ++ if Str.includes errorText p then [Json.JObj entry2] else [])
        | Throw ex => Throw ex
        end) /\
    (forall components comps,
        Json.lookupField "components" entry = Some (Json.JArr comps) ->
        snd (FixRegistry.getFixesForComponents registryPath components (fst run)) =
        match FixRegistry.filterWith (FixRegistry.sharesComponent components) items with
        | Ret kept =>
            Ret (kept ++
                 if existsb (fun comp =>
                               match comp with
                               | Json.JStr name => existsb (String.eqb name) components
                               | _ => false
                               end) comps
                 then [Json.JObj entry2] else [])
        | Throw ex => Throw ex
        end).
Proof.
  intros Hdisk Hparse Hcan Hfixes Hentry run. subst run.
  destruct (addFix_then e c registryPath entry s data fields items Hdisk Hparse Hcan Hfixes Hentry)
    as (entry2 & w3 & fields' & -> & Hload & Hfixes' & _ & _ & _ & Hkeys).
  exists entry2. cbn [fst snd]. split; [reflexivity|]. split.
  - intros errorText p Hp.
    unfold FixRegistry.getFixesForErrorPattern, bind at 1. rewrite Hload.
    unfold bind, FixRegistry.valueOf, FixRegistry.fromOutcome, FixRegistry.fixesOf.
    cbn [Json.get]. rewrite Hfixes'. cbn [snd]. rewrite filterWith_snoc.
    destruct (FixRegistry.filterWith (FixRegistry.matchesPattern errorText) items)
      as [kept|ex]; [|reflexivity].
    cbn [FixRegistry.matchesPattern Json.get].
    rewrite Hkeys, Hp by discriminate. reflexivity.
  - intros components comps Hcomps.
    unfold FixRegistry.getFixesForComponents, bind at 1. rewrite Hload.
    unfold bind, FixRegistry.valueOf, FixRegistry.fromOutcome, FixRegistry.fixesOf.
    cbn [Json.get]. rewrite Hfixes'. cbn [snd]. rewrite filterWith_snoc.
    destruct (FixRegistry.filterWith (FixRegistry.sharesComponent components) items)
      as [kept|ex]; [|reflexivity].
    cbn [FixRegistry.sharesComponent Json.get].
    rewrite Hkeys, Hcomps by discriminate. reflexivity.
Qed.

Lemma addFix_then_getFixes_witness :
  let run := FixRegistry.addFix (Sample.environment Sample.always None)
               SampleRegistry.sampleChance SampleRegistry.registryPath
               SampleRegistry.sampleFix (SampleStored.withRegistry true) in
  exists entry2,
    snd (FixRegistry.getFixesForErrorPattern SampleRegistry.registryPath
           "Error: Runtime nodejs12.x is not supported in this region" (fst run)) =
      Ret [Json.JObj entry2] /\
    snd (FixRegistry.getFixesForComponents SampleRegistry.registryPath ["S3"] (fst run)) = Ret [].
Proof.
  cbn zeta.
  destruct (addFix_then_getFixes (Sample.environment Sample.always None)
              SampleRegistry.sampleChance SampleRegistry.registryPath
              SampleRegistry.sampleFix (SampleStored.withRegistry true)
              SampleStored.data SampleStored.fields [])
    as (entry2 & _ & Hpattern & Hcomponents).
  - repeat split; vm_compute; reflexivity.
  - vm_compute; reflexivity.
  - reflexivity.
  - reflexivity.
  - reflexivity.
  - exists entry2. split.
    + rewrite (Hpattern _ "Runtime nodejs12.x is not supported" eq_refl). reflexivity.
    + rewrite (Hcomponents ["S3"] [Json.JStr "Lambda"] eq_refl). reflexivity.
Defined.

(** ** The registry on disk: what is updated is found *)

Section Updating.

Import FixRegistry.

Variable e : env.
Variable registryPath : string.

(** [{ ...a, ...b }]: the properties of [b], and those of [a] that [b]
    does not have. *)
Lemma lookupField_spread key b : forall a,
  Json.lookupField key (spread a b) =
  match Json.lookupField key b with
  | Some v => Some v
  | None => Json.lookupField key a
  end.
Proof.
  unfold spread. induction b as [|[k v] b IH]; intros a; [reflexivity|].
  cbn [fold_left fst snd Json.lookupField]. rewrite IH.
  destruct (Json.lookupField key b) as [v'|]; [reflexivity|].
  destruct (String.eqb_spec k key) as [->|Hne].
  - apply lookupField_setField_same.
  - apply lookupField_setField_other. congruence.
Qed.

Lemma canonical_spread b : forall a,
  canonical (Json.JObj a) = true -> canonical (Json.JObj b) = true ->
  canonical (Json.JObj (spread a b)) = true.
Proof.
  unfold spread. induction b as [|[k v] b IH]; intros a Ha Hb; [exact Ha|].
  cbn [fold_left fst snd]. cbn [canonical forallb snd] in Hb.
  apply andb_true_iff in Hb as [Hv Hb].
  apply IH; [apply canonical_setField; assumption | exact Hb].
Qed.

Lemma canonical_insert (items : list Json.json) i v :
  forallb canonical items = true -> canonical v = true ->
  forallb canonical (<[i := v]> items) = true.
Proof.
  revert i. induction items as [|x items IH]; intros i Hitems Hv; [reflexivity|].
  cbn [forallb] in Hitems. apply andb_true_iff in Hitems as [Hx Hitems].
  destruct i as [|i]; cbn.
  - rewrite Hv. exact Hitems.
  - rewrite Hx. apply IH; assumption.
Qed.

Lemma lookupField_In key v fields :
  Json.lookupField key fields = Some v -> In (key, v) fields.
Proof.
  induction fields as [|[k v0] fields IH]; [discriminate|].
  cbn [Json.lookupField].
  destruct (Json.lookupField key fields) as [v'|] eqn:Hl.
  - intros H. right. apply IH. exact H.
  - destruct (String.eqb_spec k key) as [->|]; [|discriminate].
    intros H. injection H as ->. left. reflexivity.
Qed.

(** What [findIndex] finds: an object with that [id], the first one. *)
Lemma findIndex_found fixId items : forall i,
  findIndex fixId items = Ret (Some i) ->
  exists old,
    items !! i = Some (Json.JObj old) /\
    Json.lookupField "id" old = Some (Json.JStr fixId) /\
    forall j item, (j < i)%nat -> items !! j = Some item ->
                   Json.get "id" item <> Some (Json.JStr fixId).
Proof.
  induction items as [|item items IH]; intros i; [discriminate|].
  cbn [findIndex].
  assert (forall i,
             match findIndex fixId items with
             | Ret (Some i0) => Ret (Some (S i0))
             | other => other
             end = Ret (Some i) ->
             Json.get "id" item <> Some (Json.JStr fixId) ->
             exists old,
               (item :: items) !! i = Some (Json.JObj old) /\
               Json.lookupField "id" old = Some (Json.JStr fixId) /\
               forall j item0, (j < i)%nat -> (item :: items) !! j = Some item0 ->
                               Json.get "id" item0 <> Some (Json.JStr fixId)) as Hnext.
  { clear i. intros i Hrest Hitem.
    destruct (findIndex fixId items) as [[i0|]|ex]; try discriminate.
    injection Hrest as <-. destruct (IH i0 eq_refl) as (old & Hold & Hid & Hfirst).
    exists old. split; [exact Hold|]. split; [exact Hid|].
    intros j item0 Hj Hlook. destruct j as [|j].
    - cbn in Hlook. injection Hlook as <-. exact Hitem.
    - apply (Hfirst j item0); [lia | exact Hlook]. }
  destruct item as [|b|n|t|l|old]; try discriminate;
    try (intros H; apply Hnext; [exact H | discriminate]).
  cbn [Json.get].
  destruct (Json.lookupField "id" old) as [[|b|n|t|l|o]|] eqn:Hid;
    try (intros H; apply Hnext; [exact H | cbn [Json.get]; rewrite Hid; discriminate]).
  destruct (String.eqb_spec t fixId) as [->|Hne].
  - intros H. injection H as <-. exists old. split; [reflexivity|]. split; [exact Hid|].
    intros j item0 Hj. lia.
  - intros H. apply Hnext; [exact H|]. cbn [Json.get]. rewrite Hid. congruence.
Qed.

(** [updateFix] with a registry file that can be read and written. *)
Lemma updateFix_run fixId updatedData s data fields items :
  registryOnDisk (st_world s) registryPath data true ->
  Json.parse data = Some (Json.JObj fields) ->
  Json.lookupField "fixes" fields = Some (Json.JArr items) ->
  match findIndex fixId items with
  | Throw ex =>
      updateFix e registryPath fixId updatedData s =
      (Store (addRead registryPath (st_world s)) (st_default s), Throw ex)
  | Ret None =>
      updateFix e registryPath fixId updatedData s =
      (Store (addRead registryPath (st_world s)) (st_default s),
       Throw (Error ("Fix with ID " +:+ fixId +:+ " not found")))
  | Ret (Some i) =>
      exists w' now now',
        let old := match items !! i with
                   | Some (Json.JObj old) => old
                   | _ => []
                   end in
        let updated := Json.JObj (spread (spread old updatedData)
                                         [("lastUpdated", Json.JStr now)]) in
        updateFix e registryPath fixId updatedData s = (Store w' (st_default s), Ret updated) /\
        registryOnDisk w' registryPath
          (Json.stringify
             (Json.JObj (Json.setField "lastUpdated" (Json.JStr now')
                           (Json.setField "fixes" (Json.JArr (<[i := updated]> items)) fields))))
          true
  end.
Proof.
  intros Hdisk Hparse Hfixes.
  destruct (findIndex fixId items) as [[i|]|ex] eqn:Hfind.
  - unfold updateFix, bind at 1.
    rewrite (loadRegistry_present registryPath s data true _ Hdisk Hparse).
    unfold bind at 1, valueOf. unfold bind at 1, fromOutcome, fixesOf. cbn [Json.get].
    rewrite Hfixes. unfold bind at 1. rewrite Hfind.
    unfold bind at 1. rewrite lift_run. cbn [nowISO fst snd st_world st_default].
    unfold bind at 1, mutate. unfold bind at 1.
    match goal with
    | |- context [saveRegistry e registryPath (Own (Json.JObj ?f)) ?s0] =>
        destruct (saveRegistry_own e registryPath s0 data f) as (w' & Hsave & Hdisk')
    end.
    { cbn [st_world]. apply (registryOnDisk_moved registryPath (st_world s)); auto. }
    eexists w', _, _. cbn zeta. rewrite Hsave. cbn [ret]. split; [reflexivity|]. exact Hdisk'.
  - unfold updateFix, bind at 1.
    rewrite (loadRegistry_present registryPath s data true _ Hdisk Hparse).
    unfold bind at 1, valueOf. unfold bind at 1, fromOutcome, fixesOf. cbn [Json.get].
    rewrite Hfixes. unfold bind at 1. rewrite Hfind. reflexivity.
  - unfold updateFix, bind at 1.
    rewrite (loadRegistry_present registryPath s data true _ Hdisk Hparse).
    unfold bind at 1, valueOf. unfold bind at 1, fromOutcome, fixesOf. cbn [Json.get].
    rewrite Hfixes. unfold bind at 1. rewrite Hfind. reflexivity.
Qed.

End Updating.

Lemma updateFix_result e registryPath fixId updatedData s data fields items :
  registryOnDisk (FixRegistry.st_world s) registryPath data true ->
  Json.parse data = Some (Json.JObj fields) ->
  canonical (Json.JObj fields) = true ->
  Json.lookupField "fixes" fields = Some (Json.JArr items) ->
  canonical (Json.JObj updatedData) = true ->
  let '(s', result) := FixRegistry.updateFix e registryPath fixId updatedData s in
  FixRegistry.st_default s' = FixRegistry.st_default s /\
  match FixRegistry.findIndex fixId items with
  | Throw ex => result = Throw ex /\ fs (FixRegistry.st_world s') = fs (FixRegistry.st_world s)
  | Ret None =>
      result = Throw (Error ("Fix with ID " +:+ fixId +:+ " not found")) /\
      fs (FixRegistry.st_world s') = fs (FixRegistry.st_world s)
  | Ret (Some i) =>
      exists old updated fields',
        items !! i = Some (Json.JObj old) /\
        Json.lookupField "id" old = Some (Json.JStr fixId) /\
        (forall j item, (j < i)%nat -> items !! j = Some item ->
                        Json.get "id" item <> Some (Json.JStr fixId)) /\
        result = Ret (Json.JObj updated) /\
        (forall key, key <> "lastUpdated" ->
                     Json.lookupField key updated =
                     match Json.lookupField key updatedData with
                     | Some v => Some v
                     | None => Json.lookupField key old
                     end) /\
        (exists now, Json.lookupField "lastUpdated" updated = Some (Json.JStr now)) /\
        snd (FixRegistry.loadRegistry registryPath s') =
          Ret (FixRegistry.Own (Json.JObj fields')) /\
        Json.lookupField "fixes" fields' = Some (Json.JArr (<[i := Json.JObj updated]> items)) /\
        (forall key, key <> "fixes" -> key <> "lastUpdated" ->
                     Json.lookupField key fields' = Json.lookupField key fields)
  end.
Proof.
  intros Hdisk Hparse Hcan Hfixes Hdata.
  pose proof (updateFix_run e registryPath fixId updatedData s data fields items
                Hdisk Hparse Hfixes) as Hrun.
  pose proof (findIndex_found fixId items) as Hfound.
  destruct (FixRegistry.findIndex fixId items) as [[i|]|ex].
  2,3: rewrite Hrun; cbn [FixRegistry.st_default FixRegistry.st_world addRead fs]; auto.
  destruct Hrun as (w' & now & now' & Hrun & Hdisk'). cbn zeta in Hrun, Hdisk'.
  destruct (Hfound i eq_refl) as (old & Hold & Hid & Hfirst).
  rewrite Hold in Hrun, Hdisk'. rewrite Hrun. cbn [FixRegistry.st_default].
  split; [reflexivity|].
  assert (forallb canonical items = true) as Hitems.
  { apply lookupField_In in Hfixes. cbn [canonical] in Hcan. rewrite forallb_forall in Hcan.
    apply (Hcan _ Hfixes). }
  assert (canonical (Json.JObj old) = true) as Hcanold.
  { rewrite forallb_forall in Hitems. apply Hitems.
    apply list_elem_of_In. apply (list_elem_of_lookup_2 _ _ _ Hold). }
  eexists old, _, _. split; [exact Hold|]. split; [exact Hid|]. split; [exact Hfirst|].
  split; [reflexivity|]. split; [|split; [|split; [|split]]].
  - intros key Hkey. rewrite lookupField_spread. cbn [Json.lookupField].
    destruct (String.eqb_spec "lastUpdated" key) as [<-|_]; [contradiction|].
    apply lookupField_spread.
  - exists now. rewrite lookupField_spread. reflexivity.
  - match type of Hdisk' with
    | registryOnDisk _ _ (Json.stringify ?j) _ =>
        assert (Json.parse (Json.stringify j) = Some j) as Hparse'
    end.
    { apply parse_stringify. apply canonical_setField; [|reflexivity].
      apply canonical_setField; [exact Hcan|]. cbn [canonical].
      apply canonical_insert; [exact Hitems|].
      apply canonical_spread; [|reflexivity]. apply canonical_spread; assumption. }
    rewrite (loadRegistry_present registryPath
               (FixRegistry.Store w' (FixRegistry.st_default s)) _ true _ Hdisk' Hparse').
    reflexivity.
  - rewrite lookupField_setField_other by discriminate. apply lookupField_setField_same.
  - intros key H1 H2. rewrite !lookupField_setField_other by congruence. reflexivity.
Qed.

(** X26.  What [updateFix] changes, [loadRegistry] gives back.  With a
    registry file that can be written and whose value is an object with an
    array of fixes, [updateFix] looks for the first fix whose [id] is the
    string asked for.  When there is none it throws [Fix with ID ... not
    found] and leaves the file system as it is.  Otherwise it returns that
    fix with the properties of [updatedData] over its own and a new
    [lastUpdated], and a call of [loadRegistry] after it gives the registry
    with this fix in the place of the old one, and everything else but the
    [lastUpdated] of the registry as it was. *)
Theorem updateFix_then_loadRegistry e registryPath fixId updatedData s data fields items :
  registryOnDisk (FixRegistry.st_world s) registryPath data true ->
  Json.parse data = Some (Json.JObj fields) ->
  canonical (Json.JObj fields) = true ->
  Json.lookupField "fixes" fields = Some (Json.JArr items) ->
  canonical (Json.JObj updatedData) = true ->
  let run := FixRegistry.updateFix e registryPath fixId updatedData s in
  FixRegistry.st_default (fst run) = FixRegistry.st_default s /\
  match FixRegistry.findIndex fixId items with
  | Throw ex =>
      snd run = Throw ex /\
      fs (FixRegistry.st_world (fst run)) = fs (FixRegistry.st_world s)
  | Ret None =>
      snd run = Throw (Error ("Fix with ID " +:+ fixId +:+ " not found")) /\
      fs (FixRegistry.st_world (fst run)) = fs (FixRegistry.st_world s)
  | Ret (Some i) =>
      exists old updated fields',
        items !! i = Some (Json.JObj old) /\
        Json.lookupField "id" old = Some (Json.JStr fixId) /\
        (forall j item, (j < i)%nat -> items !! j = Some item ->
                        Json.get "id" item <> Some (Json.JStr fixId)) /\
        snd run = Ret (Json.JObj updated) /\
        (forall key, key <> "lastUpdated" ->
                     Json.lookupField key updated =
                     match Json.lookupField key updatedData with
                     | Some v => Some v
                     | None => Json.lookupField key old
                     end) /\
        (exists now, Json.lookupField "lastUpdated" updated = Some (Json.JStr now)) /\
        snd (FixRegistry.loadRegistry registryPath (fst run)) =
          Ret (FixRegistry.Own (Json.JObj fields')) /\
        Json.lookupField "fixes" fields' = Some (Json.JArr (<[i := Json.JObj updated]> items)) /\
        (forall key, key <> "fixes" -> key <> "lastUpdated" ->
                     Json.lookupField key fields' = Json.lookupField key fields)
  end.
Proof.
  intros Hdisk Hparse Hcan Hfixes Hdata run. subst run.
  pose proof (updateFix_result e registryPath fixId updatedData s data fields items
                Hdisk Hparse Hcan Hfixes Hdata) as H.
  destruct (FixRegistry.updateFix e registryPath fixId updatedData s) as [s' result].
  exact H.
Qed.

Lemma updateFix_then_loadRegistry_witness :
  let run := FixRegistry.updateFix (Sample.environment Sample.always None)
               SampleRegistry.registryPath "fix-1"
               [("solution", Json.JStr "Modified lib/stack.ts (42 lines)")]
               SampleFilled.withRegistry in
  exists updated,
    snd run = Ret (Json.JObj updated) /\
    Json.lookupField "solution" updated = Some (Json.JStr "Modified lib/stack.ts (42 lines)") /\
    Json.lookupField "id" updated = Some (Json.JStr "fix-1").
Proof.
  cbn zeta.
  destruct (updateFix_then_loadRegistry (Sample.environment Sample.always None)
              SampleRegistry.registryPath "fix-1"
              [("solution", Json.JStr "Modified lib/stack.ts (42 lines)")]
              SampleFilled.withRegistry SampleFilled.data SampleFilled.fields
              [ Json.JObj [ ("id", Json.JStr "fix-1");
                            ("errorPattern", Json.JStr "Runtime nodejs12.x is not supported");
                            ("solution", Json.JStr "Modified lib/stack.ts (40 lines)") ] ])
    as [_ (old & updated & fields' & Hold & _ & _ & Hrun & Hkeys & _)].
  - repeat split; vm_compute; reflexivity.
  - vm_compute; reflexivity.
  - reflexivity.
  - reflexivity.
  - reflexivity.
  - injection Hold as <-. exists updated. split; [exact Hrun|].
    split; rewrite Hkeys by discriminate; reflexivity.
Defined.
